(* ===== verification/_CoqProject ===== *)
-Q . S2P
Prelude.v
Bytes.v
Sha256.v
Wire.v
Hello.v
PathProtocol.v
RxWindow.v
TxLedger.v
TxInv.v
TxQueue.v
TxAck.v
Transport.v
Repair.v
RttCache.v
Datagram.v
DatagramEngine.v
TxLane.v
Legs.v
LegsInv.v
LegPath.v
Drain.v
DrainInv.v
LegLife.v
DrainSafe.v
Rescue.v
RescueInv.v
RescueSafe.v
Startup.v
Float64.v
Admission.v
AdmissionInv.v
AdmissionSafe.v
Assignment.v
Feeder.v
FeederInv.v
FeederSafe.v
FeederClaims.v
