(* ===== verification/Prelude.v ===== *)
(** * SMP3 multipath kit: a verification of the canonical Core

    An SMP3 session carries one logical byte stream (or a flow of datagrams)
    over several transport connections, its legs.  The protocol is the Go package
    under [core/]; the servers, clients, host adapters and panels around it only
    open carriers and hand them to the Core.  This library models the Core.

    ** How the program works

    A carrier starts with a HELLO ([hello.go]) and, from version 6 on, a READY
    answer that selects capabilities ([stream_path_protocol.go]); both are
    authenticated.  Then it carries frames ([stream_frame.go]).  The sending engine
    numbers chunks of the application's stream and keeps them in a ledger
    ([stream_tx.go]) until a cumulative ACK retires them; a planner
    ([stream_repair.go]) reads the ledger and says which records to send again; a
    leg has a send and a rescue queue and a writer ([stream_engine.go]).  The
    receiving engine puts frames back in order in a window ([stream_rx.go]) and
    delivers them to the application.  Legs fail and are replaced, and a session
    ends gracefully or not ([stream_engine.go]).  A probe cache measures the
    round-trip time of each carrier ([stream_rtt_probe_cache.go]).  A leg can be
    withdrawn by agreement of both ends ([stream_coordinated_drain.go]).  A budget
    bounds the bytes spent on duplicate copies ([stream_bounded_rescue.go]); a gate
    holds the first data back until the preferred leg is up ([stream_startup.go]).  A
    slow leg is restricted, probed and readmitted ([stream_admission.go]).  In the
    aggregation mode a record gets an owner first and waits for it in a pending queue
    ([stream_assignment_debug.go]).
    Datagram sessions have an engine of their own ([datagram_engine.go]).

    ** Which file models what

    - [Prelude]: record update, the result type, machine integers, Go slices, time,
      and the tactics and hints the other files use.
    - [Bytes], [Sha256]: byte strings, big-endian integers, [io.ReadFull]; SHA-256
      and HMAC, written out, so that nothing about them is assumed.
    - [Wire]: frame headers, the frame readers and writers and both write loops.
    - [Hello], [PathProtocol]: HELLO; READY, the keys derived from it, and the RTT and
      drain messages.
    - [RxWindow]: the reorder window and the receive loop.
    - [TxLedger], [TxInv], [TxQueue], [TxAck], [TxLane]: the ledger's methods; its
      invariant; the theorems about sequences of calls; what an ACK reports; what a
      call does to the transit marks of a record.
    - [Repair]: retry and repair planning.
    - [Transport]: both ends of one direction of a stream, composed over carriers that
      lose, duplicate and reorder, against the interfaces [SenderSpec] and
      [ReceiverSpec] that the ledger and the receive loop implement.
    - [RttCache]: the RTT probe cache.
    - [Datagram], [DatagramEngine]: datagram frames and the duplicate filter; the
      engine.
    - [Legs], [LegsInv], [LegPath]: the leg registry, the life of the session and the
      way of a record through a leg; their invariant; where a record can be on its way.
    - [Drain], [DrainInv]: the coordinated drain, whose goroutines interleave with
      every step of [Legs]; its invariant, which carries the one of the legs over.
    - [LegLife], [DrainSafe]: the theorems about legs and sessions, over runs that
      include drains; the theorems about records and about two engines that drain a
      leg over a network that loses, repeats and reorders control messages.
    - [Rescue], [RescueInv], [RescueSafe]: the budget of rescue copies with its heaps; its
      invariant, against an account kept as plain sums; its theorems.
    - [Startup]: the startup gate, whose wait loop interleaves with every step of [Legs].
    - [Float64]: IEEE 754 arithmetic and its conversions.
    - [Admission], [AdmissionInv], [AdmissionSafe]: slow-leg protection as critical sections
      that interleave with every step of [Legs]; what each does to a leg; its theorems.
    - [Assignment]: the choice of an owner in the aggregation mode and the accounts.
    - [Feeder], [FeederInv], [FeederSafe], [FeederClaims]: the transmit loop, the feeders and
      the goroutines that move the records of a failed leg, over the pending queues, whose
      steps interleave with those of [Admission]; what a step can change; their invariant;
      their theorems.

    A struct is a record with the fields the modelled code uses, named after the Go
    fields; a pointer is a key of a heap, so that aliasing is visible; a method is a
    function that returns the new state; a panic (an index out of range) is [None].
    A goroutine that holds no lock between two critical sections is two steps of the
    model, and what it remembers in between is part of the state.  Clocks are
    arguments.  Every definition computes.

    ** What the theorems show

    - Transport: whatever the carriers do, the application receives a prefix of what
      was sent, in order and without duplicates; and from every reachable state the
      session can deliver everything, by steps the engines do take.
    - Codecs: writers and readers are inverse to each other on whole streams of
      frames; what a reader accepts was authenticated, is well formed and within
      bounds; a READY is accepted only with the capabilities both ends derive.
    - Ledger: it refines a queue of numbered payloads; the per-leg counters are the
      sums over the records a leg owns; an ACK retires exactly the acknowledged
      records and credits each once.
    - Repair: the planner returns exactly the records that no attempt covers, in
      order; an overdue frontier is repaired and the loss of a leg is replanned.
    - Legs: two generations of a leg never work at the same time; no record is left
      behind in a queue nobody writes; the recovery timer and a clean end of stream
      mean what they should.
    - Drain: when the end that asked for a drain reports success, the leg is out of use
      at both ends and stays so; an end that has sent or accepted COMMIT never uses the
      leg again.  Two runs show where the code departs from its comments: a leg retired
      although its COMMIT-ACK was not sent, and an intent accepted twice.
    - Rescue: at every admission the rescue bytes of the rolling window stay within the
      quota and the burst; a record is rescued at most once per generation and epoch and
      never after its ACK; the reported counters are exactly those of an account that
      keeps every event; the observer's verdict agrees with the one that admits.
    - Startup: the gate opens only for the reason it records, and no wakeup is lost.
    - Slow-leg protection: every leg follows the machine normal, cooldown, pending probe,
      probation; its allowance is earned by bytes proved to be delivered; probation ends.
      Two theorems show departures from the design: a leg whose carrier is replaced on
      probation is held at one frame, and a cooldown can be skipped.
    - Aggregation: the owner of a record is the leg with the least normalized service; the
      service counters are the sums over the records owned; a record is in one place and
      is sent by its feeder once.  Four theorems show departures: a record that is lost
      when the last leg fails, one that is lost after the startup hint, a panic with more
      than three legs, and a stale count that holds a drain up.
    - RTT cache: a sample is the time between a probe of this cache and its only
      accepted echo; the lock-free part of the accept operations is linearizable.
    - Datagrams: queue bounds, byte reservations and retirement are invariant; a
      datagram is queued once per chosen leg and its copies are delivered once.

    ** Bounds and fuel

    The write loops recurse on the number of bytes left, the delivery loop on one more
    than the number of buffered frames: [Wire] and [RxWindow] prove that this is
    enough.  The heap operations and the pruning of the rescue budget recurse on the
    length of the heap.  Sequence numbers, generations and epochs are 64-bit and wrap; theorems
    about runs from a new engine assume at most 2^64 - 1 steps, so that no counter has
    wrapped.  Everything else is unbounded.

    ** Not modelled

    Outside the aggregation mode the choice of a leg for new data (weighted scheduling) and
    the activation of further legs are optimisations over measurements: the model lets any
    leg be chosen, which covers every choice.  Capacity and latency estimates are arguments.
    In the aggregation mode the queueing of rescue copies is a step of the environment.
    Telemetry, traces and debug counters are read by nothing in the protocol.  The native server and client, the
    sing-box and mihomo adapters, the front and the panel are configuration, sockets and
    HTTP around the Core. *)

From Stdlib Require Export Strings.Byte.
From stdpp Require Export base numbers list gmap strings sorting fin_maps.
From stdpp Require Import options.
#[export] Set Default Goal Selector "1".
Export ListNotations.
#[global] Open Scope Z_scope.

(** ** Functional record update

    The Go methods assign one struct field at a time.  [r <| f := v |>] is that
    assignment: a record type declares its eta-expansion once ([Fields]), and
    the update function of each projection is derived from it. *)

Class Fields (R : Type) := fields_eta : R -> R.

Class Update {R T : Type} (proj : R -> T) := update : (T -> T) -> R -> R.
Arguments update {R T} proj {_} f r : simpl nomatch.

Ltac derive_update proj :=
  lazymatch type of proj with
  | ?R -> _ =>
    let inst := constr:(_ : Fields R) in
    let body := eval hnf in inst in
    lazymatch eval pattern proj in body with
    | ?ctx _ => exact (fun f => ctx (fun r => f (proj r)))
    end
  end.

#[global] Hint Extern 1 (Update ?p) => derive_update p : typeclass_instances.

Declare Scope smp3_scope.
#[global] Open Scope smp3_scope.

Notation "r <| p := v |>" := (update p (fun _ => v) r)
  (at level 1, left associativity, p at next level,
   format "r  <| p  :=  v |>") : smp3_scope.
Notation "r <| p ::= f |>" := (update p f r)
  (at level 1, left associativity, p at next level,
   format "r  <| p  ::=  f |>") : smp3_scope.

(** ** Results: a Go [(value, error)] pair *)

Inductive result (E A : Type) : Type :=
| Ok (a : A)
| Err (e : E).
Arguments Ok {E A} a.
Arguments Err {E A} e.

Definition result_bind {E A B} (m : result E A) (k : A -> result E B) : result E B :=
  match m with Ok a => k a | Err e => Err e end.

Notation "'let?' x := m 'in' k" := (result_bind m (fun x => k))
  (at level 10, x pattern, m at level 100, k at level 200)
  : smp3_scope.
Lemma result_bind_ok {E A B} (m : result E A) (k : A -> result E B) b :
  result_bind m k = Ok b <-> exists a, m = Ok a /\ k a = Ok b.
Proof.
  destruct m as [a|e]; simpl; split.
  - intros H. by exists a.
  - by intros (? & [= ->] & ?).
  - done.
  - by intros (? & ? & ?).
Qed.

(** Injectivity without reducing the values. *)
Lemma Ok_inj {E A} (a b : A) : @Ok E A a = Ok b -> a = b.
Proof. congruence. Qed.

(** A slice or array access that the Go runtime checks: [None] is the run-time
    panic.  The components prove that no call they make takes that branch. *)
Notation "'let!' x := m 'in' k" := (mbind (M:=option) (fun x => k) m)
  (at level 10, x pattern, m at level 100, k at level 200)
  : smp3_scope.

(** ** Machine integers *)

Definition u8 (z : Z) : Z := z `mod` 2 ^ 8.
Definition u16 (z : Z) : Z := z `mod` 2 ^ 16.
Definition u32 (z : Z) : Z := z `mod` 2 ^ 32.
Definition u64 (z : Z) : Z := z `mod` 2 ^ 64.
Definition max_u64 : Z := 2 ^ 64 - 1.
(** The conversion [int64(x)]. *)
Definition i64 (z : Z) : Z := (z + 2 ^ 63) `mod` 2 ^ 64 - 2 ^ 63.

Definition is_u8 (z : Z) : Prop := 0 <= z < 2 ^ 8.
Definition is_u16 (z : Z) : Prop := 0 <= z < 2 ^ 16.
Definition is_u32 (z : Z) : Prop := 0 <= z < 2 ^ 32.
Definition is_u64 (z : Z) : Prop := 0 <= z < 2 ^ 64.
Definition is_i64 (z : Z) : Prop := - 2 ^ 63 <= z < 2 ^ 63.

#[export] Instance is_u8_dec z : Decision (is_u8 z).
Proof. unfold is_u8. apply _. Defined.
#[export] Instance is_u16_dec z : Decision (is_u16 z).
Proof. unfold is_u16. apply _. Defined.
#[export] Instance is_u32_dec z : Decision (is_u32 z).
Proof. unfold is_u32. apply _. Defined.
#[export] Instance is_u64_dec z : Decision (is_u64 z).
Proof. unfold is_u64. apply _. Defined.
#[export] Instance is_i64_dec z : Decision (is_i64 z).
Proof. unfold is_i64. apply _. Defined.

Create HintDb smp3.

Lemma u64_small z : is_u64 z -> u64 z = z.
Proof. unfold is_u64, u64. intros. by rewrite Z.mod_small. Qed.
Lemma u32_small z : is_u32 z -> u32 z = z.
Proof. unfold is_u32, u32. intros. by rewrite Z.mod_small. Qed.
Lemma u16_small z : is_u16 z -> u16 z = z.
Proof. unfold is_u16, u16. intros. by rewrite Z.mod_small. Qed.
Lemma u8_small z : is_u8 z -> u8 z = z.
Proof. unfold is_u8, u8. intros. by rewrite Z.mod_small. Qed.
Lemma u64_range z : is_u64 (u64 z).
Proof. apply Z.mod_pos_bound. lia. Qed.
Lemma u32_range z : is_u32 (u32 z).
Proof. apply Z.mod_pos_bound. lia. Qed.
Lemma i64_range z : is_i64 (i64 z).
Proof.
  unfold i64, is_i64. pose proof (Z.mod_pos_bound (z + 2 ^ 63) (2 ^ 64)). lia.
Qed.
Lemma i64_small z : is_i64 z -> i64 z = z.
Proof. unfold is_i64, i64. intros. rewrite Z.mod_small; lia. Qed.
Lemma i64_u64 z : is_i64 z -> i64 (u64 z) = z.
Proof.
  unfold is_i64, i64, u64. intros.
  rewrite Zplus_mod_idemp_l. rewrite Z.mod_small; lia.
Qed.
Lemma u64_i64 z : is_u64 z -> u64 (i64 z) = z.
Proof.
  unfold is_u64, i64, u64. intros.
  rewrite Zminus_mod_idemp_l. rewrite Z.mod_small; lia.
Qed.
#[export] Hint Resolve u64_range u32_range i64_range : smp3.

(** Subtraction of a part from a sum never wraps. *)
Lemma u64_sub_small a b : 0 <= b <= a -> is_u64 a -> u64 (a - b) = a - b.
Proof. unfold is_u64. intros. apply u64_small. unfold is_u64. lia. Qed.

(** Wrapping once is wrapping at every step. *)
Lemma u64_add_u64 a b : u64 (u64 a + b) = u64 (a + b).
Proof. unfold u64. by rewrite Zplus_mod_idemp_l. Qed.
Lemma u64_sub_u64 a b : u64 (u64 a - b) = u64 (a - b).
Proof. unfold u64. by rewrite Zminus_mod_idemp_l. Qed.

(** ** Time

    A [time.Time] is the number of nanoseconds since the zero [Time], so that
    [IsZero] is equality with 0; a [time.Duration] is a signed 64-bit number of
    nanoseconds and [Time.Sub] saturates at its bounds. *)

Abbreviation time := Z (only parsing).
Abbreviation duration := Z (only parsing).

Definition zero_time : time := 0.
Definition is_zero (t : time) : bool := bool_decide (t = zero_time).
Definition before (a b : time) : bool := bool_decide (a < b).
Definition after (a b : time) : bool := bool_decide (b < a).
Definition time_equal (a b : time) : bool := bool_decide (a = b).
Definition time_add (t : time) (d : duration) : time := t + d.
Definition time_sub (a b : time) : duration :=
  (- 2 ^ 63) `max` ((a - b) `min` (2 ^ 63 - 1)).

Definition Nanosecond : duration := 1.
Definition Microsecond : duration := 1000.
Definition Millisecond : duration := 1000000.
Definition Second : duration := 1000000000.

(** [time.Unix(sec, 0)]: the seconds are stored relative to year 1 in an
    [int64], and that addition wraps. *)
Definition unixToInternal : Z := 62135596800.
Definition time_Unix (sec : Z) : time := i64 (sec + unixToInternal) * Second.

Lemma time_sub_small a b : is_i64 (a - b) -> time_sub a b = a - b.
Proof. unfold is_i64, time_sub. lia. Qed.
Lemma time_sub_le a b d : is_i64 d -> d < 2 ^ 63 - 1 -> time_sub a b <= d <-> a - b <= d.
Proof. unfold is_i64, time_sub. lia. Qed.
Lemma time_sub_ge a b d : - 2 ^ 63 < d -> d < 2 ^ 63 -> d <= time_sub a b <-> d <= a - b.
Proof. unfold time_sub. lia. Qed.

(** ** Tactics *)

(** Turn every boolean test of the context into the proposition it decides. *)
Ltac bool_prop :=
  repeat match goal with
  | H : _ && _ = true |- _ => apply andb_true_iff in H; destruct H
  | H : _ || _ = false |- _ => apply orb_false_iff in H; destruct H
  | H : _ || _ = true |- _ => apply orb_true_iff in H; destruct H
  | H : _ && _ = false |- _ => apply andb_false_iff in H; destruct H
  | H : negb _ = true |- _ => apply negb_true_iff in H
  | H : negb _ = false |- _ => apply negb_false_iff in H
  | H : bool_decide _ = true |- _ => apply bool_decide_eq_true in H
  | H : bool_decide _ = false |- _ => apply bool_decide_eq_false in H
  | H : (_ =? _) = true |- _ => apply Z.eqb_eq in H
  | H : (_ =? _) = false |- _ => apply Z.eqb_neq in H
  | H : (_ <? _) = true |- _ => apply Z.ltb_lt in H
  | H : (_ <? _) = false |- _ => apply Z.ltb_ge in H
  | H : (_ <=? _) = true |- _ => apply Z.leb_le in H
  | H : (_ <=? _) = false |- _ => apply Z.leb_gt in H
  end.

Lemma bool_decide_ne_refl {A} (x : A) `{Decision (x <> x)} : bool_decide (x <> x) = false.
Proof. by apply bool_decide_eq_false_2; intros []. Qed.

(** Case analysis on the tests and matches of a function body. *)
Ltac split_match :=
  match goal with
  | |- context [match ?x with _ => _ end] => destruct x eqn:?
  end.
Ltac split_match_in H :=
  match type of H with
  | context [match ?x with _ => _ end] => destruct x eqn:?
  end.

Lemma elem_snoc {A} (k x : A) l : k ∈ l ++ [x] <-> k ∈ l \/ k = x.
Proof. by rewrite elem_of_app, list_elem_of_singleton. Qed.

Lemma seqZ_drop m n k :
  0 <= k <= n -> drop (Z.to_nat k) (seqZ m n) = seqZ (m + k) (n - k).
Proof.
  intros Hk. replace n with (k + (n - k)) at 1 by lia. rewrite seqZ_app by lia.
  apply drop_app_length'. rewrite length_seqZ. done.
Qed.

Lemma seqZ_take m n k : 0 <= k <= n -> take (Z.to_nat k) (seqZ m n) = seqZ m k.
Proof.
  intros Hk. replace n with (k + (n - k)) by lia. rewrite seqZ_app by lia.
  apply take_app_length'. rewrite length_seqZ. done.
Qed.

(** ** Sums over lists *)

Section sum.
Context {A : Type}.

Fixpoint sum_with (f : A -> Z) (l : list A) : Z :=
  match l with
  | [] => 0
  | x :: l => f x + sum_with f l
  end.

Lemma sum_with_app f l1 l2 : sum_with f (l1 ++ l2) = sum_with f l1 + sum_with f l2.
Proof. induction l1; simpl; lia. Qed.

#[export] Instance sum_with_perm f : Proper (Permutation ==> eq) (sum_with f).
Proof. induction 1; simpl; lia. Qed.

Lemma sum_with_nonneg f l : (forall x, x ∈ l -> 0 <= f x) -> 0 <= sum_with f l.
Proof.
  induction l as [|x l IH]; simpl; intros H; [lia|].
  pose proof (H x (list_elem_of_here _ _)).
  enough (0 <= sum_with f l) by lia. apply IH. intros y Hy. apply H. by right.
Qed.

Lemma sum_with_ext f g l : (forall x, x ∈ l -> f x = g x) -> sum_with f l = sum_with g l.
Proof.
  induction l as [|x l IH]; simpl; intros H; [done|].
  rewrite (H x (list_elem_of_here _ _)), IH; [done|].
  intros y Hy. apply H. by right.
Qed.

Lemma sum_with_elem f l x :
  (forall y, y ∈ l -> 0 <= f y) -> x ∈ l -> f x <= sum_with f l.
Proof.
  intros Hnn Hx. apply list_elem_of_split in Hx as (l1 & l2 & ->).
  rewrite sum_with_app. simpl.
  assert (0 <= sum_with f l1) by (apply sum_with_nonneg; set_solver).
  assert (0 <= sum_with f l2) by (apply sum_with_nonneg; set_solver).
  lia.
Qed.
Lemma sum_with_filter (b : A -> bool) f l :
  sum_with f (List.filter b l) = sum_with (fun x => if b x then f x else 0) l.
Proof. induction l as [|x l IH]; simpl; [done|]. destruct (b x); simpl; lia. Qed.

Lemma length_sum l : Z.of_nat (length l) = sum_with (fun _ => 1) l.
Proof. induction l; simpl; lia. Qed.
End sum.

Lemma sum_with_map {A B} (f : B -> Z) (g : A -> B) l :
  sum_with f (map g l) = sum_with (fun x => f (g x)) l.
Proof. induction l; simpl; lia. Qed.

(** ** Sums over finite maps *)

Section map_sum.
Context {A : Type}.

(** The total of [f] over the values of a Go map with [uint64] keys. *)
Definition map_sum (f : A -> Z) (m : gmap Z A) : Z :=
  sum_with (fun kv => f kv.2) (map_to_list m).

Lemma map_sum_empty f : map_sum f ∅ = 0.
Proof. unfold map_sum. by rewrite map_to_list_empty. Qed.

Lemma map_sum_values f m : map_sum f m = sum_with f (map_to_list m).*2.
Proof.
  unfold map_sum. induction (map_to_list m) as [|kv l IH]; [done|].
  rewrite fmap_cons. cbn [sum_with]. by rewrite IH.
Qed.

Lemma map_sum_insert f m k x :
  m !! k = None -> map_sum f (<[k:=x]> m) = f x + map_sum f m.
Proof. intros. unfold map_sum. by rewrite map_to_list_insert. Qed.

Lemma map_sum_delete f m k x :
  m !! k = Some x -> map_sum f (delete k m) = map_sum f m - f x.
Proof.
  intros Hk. rewrite <- (insert_delete_id m k x Hk) at 2.
  rewrite map_sum_insert by apply lookup_delete_eq. lia.
Qed.

Lemma map_sum_update f m k x y :
  m !! k = Some x -> map_sum f (<[k:=y]> m) = map_sum f m - f x + f y.
Proof.
  intros Hk. rewrite <- insert_delete_eq.
  rewrite map_sum_insert by apply lookup_delete_eq.
  rewrite (map_sum_delete _ _ _ x) by done. lia.
Qed.

Lemma map_sum_nonneg f m :
  (forall k x, m !! k = Some x -> 0 <= f x) -> 0 <= map_sum f m.
Proof.
  intros H. apply sum_with_nonneg. intros [k x] Hin%elem_of_map_to_list. eauto.
Qed.

Lemma map_sum_ge f m k x :
  (forall k x, m !! k = Some x -> 0 <= f x) -> m !! k = Some x -> f x <= map_sum f m.
Proof.
  intros Hnn Hk. pose proof (map_sum_delete f m k x Hk).
  enough (0 <= map_sum f (delete k m)) by lia.
  apply map_sum_nonneg. intros j y [_ Hj]%lookup_delete_Some. eauto.
Qed.

Lemma map_sum_ext f g m :
  (forall k x, m !! k = Some x -> f x = g x) -> map_sum f m = map_sum g m.
Proof.
  intros H. apply sum_with_ext. intros [k x] Hin%elem_of_map_to_list. eauto.
Qed.
(** Updating every value by a function that keeps [f]. *)
Lemma map_sum_imap f (g : Z -> A -> option A) m :
  (forall k x, m !! k = Some x -> exists y, g k x = Some y /\ f y = f x) ->
  map_sum f (map_imap g m) = map_sum f m.
Proof.
  induction m as [|k x m Hk IH] using map_ind; intros H.
  - by rewrite map_imap_empty.
  - destruct (H k x) as (y & Hy & Hf); [apply lookup_insert_eq|].
    rewrite (map_imap_insert_Some _ _ _ _ _ Hy), !map_sum_insert, IH, Hf; try done.
    + intros j z Hj. apply H. rewrite lookup_insert_ne; [done|]. by intros ->; simplify_eq.
    + by rewrite map_lookup_imap, Hk.
Qed.
End map_sum.

(** A map whose keys lie strictly between [a] and [b] is small. *)
Lemma map_size_between {A} (m : gmap Z A) a b :
  (forall k x, m !! k = Some x -> a < k < b) -> a < b -> Z.of_nat (size m) <= b - a - 1.
Proof.
  intros H Hab. assert (dom m ⊆ list_to_set (C:=gset Z) (seqZ (a + 1) (b - a - 1))) as Hs.
  { intros k [x Hx]%elem_of_dom. apply elem_of_list_to_set, elem_of_seqZ.
    specialize (H _ _ Hx). lia. }
  apply subseteq_size in Hs. rewrite size_dom in Hs.
  assert (size (list_to_set (C:=gset Z) (seqZ (a + 1) (b - a - 1))) = Z.to_nat (b - a - 1)) as E.
  { rewrite size_list_to_set by apply NoDup_seqZ. apply length_seqZ. }
  lia.
Qed.

(** ** Slices indexed by a Go integer *)

Section slice.
Context {A : Type}.

(** [s[i]]; [None] is the out-of-range panic. *)
Definition slice_get (s : list A) (i : Z) : option A :=
  if bool_decide (0 <= i) then s !! Z.to_nat i else None.
(** [s[i] = f(s[i])]; [None] is the out-of-range panic. *)
Definition slice_upd (s : list A) (i : Z) (f : A -> A) : option (list A) :=
  match slice_get s i with
  | Some x => Some (<[Z.to_nat i := f x]> s)
  | None => None
  end.

Definition slen (s : list A) : Z := Z.of_nat (length s).

Lemma slice_get_Some s i : 0 <= i < slen s -> exists x, slice_get s i = Some x.
Proof.
  intros H. unfold slice_get. rewrite bool_decide_eq_true_2 by lia.
  apply lookup_lt_is_Some. unfold slen in H. lia.
Qed.

Lemma slice_get_range s i x : slice_get s i = Some x -> 0 <= i < slen s.
Proof.
  unfold slice_get. case_bool_decide; [|done]. intros Hl%lookup_lt_Some.
  unfold slen. lia.
Qed.

Lemma slice_upd_Some s i f :
  0 <= i < slen s ->
  exists x, slice_get s i = Some x /\ slice_upd s i f = Some (<[Z.to_nat i := f x]> s).
Proof.
  intros H. destruct (slice_get_Some s i H) as [x Hx]. exists x.
  unfold slice_upd. by rewrite Hx.
Qed.

Lemma slice_upd_get s i f s' j :
  slice_upd s i f = Some s' ->
  slice_get s' j = (if bool_decide (i = j) then f <$> slice_get s j else slice_get s j).
Proof.
  unfold slice_upd. destruct (slice_get s i) as [x|] eqn:Hi; [|done].
  intros [= <-]. pose proof (slice_get_range _ _ _ Hi) as Hr. unfold slen in Hr.
  destruct (bool_decide_reflect (i = j)) as [<-|Hij].
  - rewrite Hi. unfold slice_get. rewrite bool_decide_eq_true_2 by lia.
    apply list_lookup_insert_eq. lia.
  - unfold slice_get. case_bool_decide; [|done]. apply list_lookup_insert_ne. lia.
Qed.

Lemma slice_upd_len s i f s' : slice_upd s i f = Some s' -> slen s' = slen s.
Proof.
  unfold slice_upd. destruct (slice_get s i); [|done]. intros [= <-].
  unfold slen. by rewrite length_insert.
Qed.

Lemma slice_get_app_l s t i : 0 <= i < slen s -> slice_get (s ++ t) i = slice_get s i.
Proof.
  unfold slice_get, slen. intros. case_bool_decide; [|done]. apply lookup_app_l. lia.
Qed.
End slice.
