(* ===== verification/Bytes.v ===== *)
(** * Bytes, big-endian integers and [io.Reader]

    The parts of Go's [encoding/binary], [io] and slice expressions that the
    wire codecs use: [binary.BigEndian.PutUintN]/[UintN], [io.ReadFull] on a
    carrier, and [b[i:j]].  Byte strings are lists of [byte], so a byte is in
    range by construction. *)

From S2P Require Import Prelude.
From Stdlib Require String.
From stdpp Require Import options.

Abbreviation bytes := (list byte) (only parsing).

#[export] Instance byte_eq_dec : EqDecision byte := Byte.byte_eq_dec.

(** ** Bytes as integers *)

Definition byte_to_Z (b : byte) : Z := Z.of_N (Byte.to_N b).
(** The conversion [byte(x)], modulo 256. *)
Definition byte_of_Z (z : Z) : byte :=
  match Byte.of_N (Z.to_N (u8 z)) with Some b => b | None => x00 end.

Lemma byte_to_Z_range b : is_u8 (byte_to_Z b).
Proof.
  unfold is_u8, byte_to_Z. pose proof (Byte.to_N_bounded b). lia.
Qed.

Lemma byte_to_of_Z z : byte_to_Z (byte_of_Z z) = u8 z.
Proof.
  unfold byte_of_Z, byte_to_Z, u8.
  pose proof (Z.mod_pos_bound z (2 ^ 8) ltac:(lia)) as Hb.
  destruct (Byte.of_N _) as [b|] eqn:Hof.
  - apply Byte.to_of_N in Hof. rewrite Hof. lia.
  - apply Byte.of_N_None_iff in Hof. lia.
Qed.

Lemma byte_of_to_Z b : byte_of_Z (byte_to_Z b) = b.
Proof.
  unfold byte_of_Z. rewrite u8_small by apply byte_to_Z_range.
  unfold byte_to_Z. rewrite N2Z.id, Byte.of_to_N. done.
Qed.

Lemma byte_to_Z_inj b1 b2 : byte_to_Z b1 = byte_to_Z b2 -> b1 = b2.
Proof. intros H. by rewrite <- (byte_of_to_Z b1), H, byte_of_to_Z. Qed.

Lemma byte_to_of_small z : is_u8 z -> byte_to_Z (byte_of_Z z) = z.
Proof. intros. by rewrite byte_to_of_Z, u8_small. Qed.

(** ** Big-endian integers *)

(** [binary.BigEndian.PutUintN] for a field of [n] bytes. *)
Fixpoint be_put (n : nat) (z : Z) : bytes :=
  match n with
  | O => []
  | S n => byte_of_Z (z `div` 2 ^ (8 * Z.of_nat n)) :: be_put n z
  end.

(** [binary.BigEndian.UintN] on all bytes of a field. *)
Fixpoint be_get (l : bytes) : Z :=
  match l with
  | [] => 0
  | b :: l => byte_to_Z b * 2 ^ (8 * Z.of_nat (length l)) + be_get l
  end.

Lemma length_be_put n z : length (be_put n z) = n.
Proof. induction n; simpl; lia. Qed.

Lemma be_get_range l : 0 <= be_get l < 2 ^ (8 * Z.of_nat (length l)).
Proof.
  induction l as [|b l IH]; [simpl; lia|].
  cbn [be_get length]. pose proof (byte_to_Z_range b) as Hb. unfold is_u8 in Hb.
  replace (8 * Z.of_nat (S (length l))) with (8 + 8 * Z.of_nat (length l)) by lia.
  rewrite Z.pow_add_r by lia.
  pose proof (Z.pow_pos_nonneg 2 (8 * Z.of_nat (length l)) ltac:(lia) ltac:(lia)).
  nia.
Qed.

Lemma be_get_put n z : be_get (be_put n z) = z `mod` 2 ^ (8 * Z.of_nat n).
Proof.
  induction n as [|n IH]; [simpl; by rewrite Z.mod_1_r|].
  cbn [be_put be_get]. rewrite length_be_put, IH, byte_to_of_Z. unfold u8.
  replace (8 * Z.of_nat (S n)) with (8 * Z.of_nat n + 8) by lia.
  rewrite Z.pow_add_r by lia.
  pose proof (Z.pow_pos_nonneg 2 (8 * Z.of_nat n) ltac:(lia) ltac:(lia)).
  rewrite Z.rem_mul_r by lia. lia.
Qed.

Lemma be_get_put_small n z :
  0 <= z < 2 ^ (8 * Z.of_nat n) -> be_get (be_put n z) = z.
Proof. intros. by rewrite be_get_put, Z.mod_small. Qed.

Lemma be_get_inj l1 l2 : length l1 = length l2 -> be_get l1 = be_get l2 -> l1 = l2.
Proof.
  revert l2. induction l1 as [|b1 l1 IH]; intros [|b2 l2]; simpl; try done.
  intros [= Hlen] Heq. rewrite Hlen in Heq.
  pose proof (be_get_range l1) as R1. pose proof (be_get_range l2) as R2.
  rewrite Hlen in R1. set (p := 2 ^ (8 * Z.of_nat (length l2))) in *.
  assert (byte_to_Z b1 = byte_to_Z b2) as Hb by nia.
  rewrite Hb in Heq. f_equal; [by apply byte_to_Z_inj|]. apply IH; [done|lia].
Qed.

Lemma be_put_get l : be_put (length l) (be_get l) = l.
Proof.
  apply be_get_inj; [apply length_be_put|].
  apply be_get_put_small, be_get_range.
Qed.

(** ** Slices *)

(** [b[i:j]] *)
Definition sub (l : bytes) (i j : nat) : bytes := take (j - i) (drop i l).

Lemma length_sub l i j : (i <= j)%nat -> (j <= length l)%nat -> length (sub l i j) = (j - i)%nat.
Proof. intros. unfold sub. rewrite length_take, length_drop. lia. Qed.

Lemma sub_skip l1 l2 i j :
  (length l1 <= i)%nat -> sub (l1 ++ l2) i j = sub l2 (i - length l1) (j - length l1).
Proof.
  intros. unfold sub. rewrite drop_app_ge by done. f_equal. lia.
Qed.

Lemma sub_here l1 l2 j : j = length l1 -> sub (l1 ++ l2) 0 j = l1.
Proof. intros ->. unfold sub. by rewrite drop_0, Nat.sub_0_r, take_app_length. Qed.

Lemma sub_0_app l i : take i l = sub l 0 i.
Proof. unfold sub. by rewrite drop_0, Nat.sub_0_r. Qed.

Lemma sub_all l j : j = length l -> sub l 0 j = l.
Proof. intros ->. unfold sub. rewrite drop_0, Nat.sub_0_r. apply firstn_all. Qed.

(** Two adjacent slices are the enclosing slice. *)
Lemma sub_sub_app l i j k :
  (i <= j)%nat -> (j <= k)%nat -> sub l i j ++ sub l j k = sub l i k.
Proof.
  intros. unfold sub.
  replace (drop j l) with (drop (j - i) (drop i l)) by (rewrite drop_drop; f_equal; lia).
  rewrite <- (take_drop (j - i) (take (k - i) (drop i l))).
  rewrite take_take, Nat.min_l by lia. f_equal.
  rewrite skipn_firstn_comm. f_equal. lia.
Qed.

(** [wire[i]] as an integer, for an index the code has length-checked. *)
Definition at_ (l : bytes) (i : nat) : Z :=
  match l !! i with Some b => byte_to_Z b | None => 0 end.

Lemma at_sub l i : (i < length l)%nat -> sub l i (S i) = [byte_of_Z (at_ l i)].
Proof.
  intros Hi. unfold sub, at_. replace (S i - i)%nat with 1%nat by lia.
  apply lookup_lt_is_Some in Hi as [b Hb]. rewrite Hb, byte_of_to_Z.
  by rewrite (drop_S _ _ _ Hb).
Qed.

Lemma at_sub2 l i :
  (S i < length l)%nat -> sub l i (S (S i)) = [byte_of_Z (at_ l i); byte_of_Z (at_ l (S i))].
Proof. intros. rewrite <- (sub_sub_app l i (S i)) by lia. by rewrite !at_sub by lia. Qed.

Lemma at_sub3 l i :
  (S (S i) < length l)%nat ->
  sub l i (S (S (S i)))
  = [byte_of_Z (at_ l i); byte_of_Z (at_ l (S i)); byte_of_Z (at_ l (S (S i)))].
Proof.
  intros. rewrite <- (sub_sub_app l i (S i)) by lia. by rewrite at_sub, at_sub2 by lia.
Qed.

Lemma at_sub4 l i :
  (S (S (S i)) < length l)%nat ->
  sub l i (S (S (S (S i))))
  = [byte_of_Z (at_ l i); byte_of_Z (at_ l (S i)); byte_of_Z (at_ l (S (S i)));
     byte_of_Z (at_ l (S (S (S i))))].
Proof.
  intros. rewrite <- (sub_sub_app l i (S i)) by lia. by rewrite at_sub, at_sub3 by lia.
Qed.

Lemma at_range l i : is_u8 (at_ l i).
Proof.
  unfold at_. destruct (l !! i); [apply byte_to_Z_range|]. unfold is_u8. lia.
Qed.

(** ** Field access in a concatenation of fields *)

Lemma sub_here_eq l1 l2 i j : i = 0%nat -> j = length l1 -> sub (l1 ++ l2) i j = l1.
Proof. intros -> ->. by apply sub_here. Qed.
Lemma sub_all_eq l i j : i = 0%nat -> j = length l -> sub l i j = l.
Proof. intros -> ->. by apply sub_all. Qed.
Lemma sub_cons b l i j : (1 <= i)%nat -> sub (b :: l) i j = sub l (i - 1) (j - 1).
Proof. intros. by apply (sub_skip [b]). Qed.

Lemma at_skip l1 l2 i : (length l1 <= i)%nat -> at_ (l1 ++ l2) i = at_ l2 (i - length l1).
Proof. intros. unfold at_. by rewrite lookup_app_r. Qed.
Lemma at_cons b l i : (1 <= i)%nat -> at_ (b :: l) i = at_ l (i - 1).
Proof. intros. by apply (at_skip [b]). Qed.
Lemma at_app_l l1 l2 i : (i < length l1)%nat -> at_ (l1 ++ l2) i = at_ l1 i.
Proof. intros. unfold at_. by rewrite lookup_app_l. Qed.
Lemma at_here b l i : i = 0%nat -> at_ (b :: l) i = byte_to_Z b.
Proof. by intros ->. Qed.

Lemma be_put_mod n z : be_put n z = be_put n (z `mod` 2 ^ (8 * Z.of_nat n)).
Proof.
  apply be_get_inj; [by rewrite !length_be_put|]. by rewrite !be_get_put, Zmod_mod.
Qed.

Lemma be_put_i64 z : is_u64 z -> be_put 8 (i64 z) = be_put 8 z.
Proof.
  intros Hz. rewrite (be_put_mod 8 (i64 z)). f_equal. by apply u64_i64.
Qed.

Lemma be_get_put_i64 z : is_i64 z -> i64 (be_get (be_put 8 z)) = z.
Proof. intros Hz. rewrite be_get_put. by apply i64_u64. Qed.

Lemma put_get_sub l i j n :
  (i <= j)%nat -> (j <= length l)%nat -> n = (j - i)%nat ->
  be_put n (be_get (sub l i j)) = sub l i j.
Proof.
  intros ? ? ->. rewrite <- (be_put_get (sub l i j)) at 2. by rewrite length_sub.
Qed.

Lemma be_get_sub_range l i j :
  (i <= j)%nat -> (j <= length l)%nat -> 0 <= be_get (sub l i j) < 2 ^ (8 * Z.of_nat (j - i)).
Proof. intros. pose proof (be_get_range (sub l i j)) as HR. by rewrite length_sub in HR. Qed.

Lemma be_get_sub_u16 l i j :
  j = (i + 2)%nat -> (j <= length l)%nat -> be_get (sub l i j) <= 65535.
Proof.
  intros -> Hl. pose proof (be_get_sub_range l i (i + 2) ltac:(lia) Hl) as HR.
  replace (i + 2 - i)%nat with 2%nat in HR by lia. simpl in HR. lia.
Qed.
Lemma be_get_sub_u32 l i j :
  j = (i + 4)%nat -> (j <= length l)%nat -> is_u32 (be_get (sub l i j)).
Proof.
  intros -> Hl. pose proof (be_get_sub_range l i (i + 4) ltac:(lia) Hl) as HR.
  replace (i + 4 - i)%nat with 4%nat in HR by lia. unfold is_u32. simpl in HR. lia.
Qed.
Lemma be_get_sub_u64 l i j :
  j = (i + 8)%nat -> (j <= length l)%nat -> is_u64 (be_get (sub l i j)).
Proof.
  intros -> Hl. pose proof (be_get_sub_range l i (i + 8) ltac:(lia) Hl) as HR.
  replace (i + 8 - i)%nat with 8%nat in HR by lia. unfold is_u64. simpl in HR. lia.
Qed.

(** Lengths of concatenated fields, with the lengths of the variable ones taken
    from the context. *)
Ltac lens :=
  rewrite ?length_app, ?length_be_put, ?length_replicate, ?length_take, ?length_drop;
  simpl length; try lia.
(** Solve [sub fields i j = ?field] and [at_ fields i = ?byte]. *)
Ltac field_peel :=
  repeat first [rewrite sub_skip by lens | rewrite sub_cons by lens
               | rewrite at_skip by lens | rewrite at_cons by lens
               | rewrite at_app_l by lens];
  first [apply sub_here_eq; lens | apply sub_all_eq; lens | apply at_here; lens].
(** Compute the slices and bytes of concatenated fields in the goal. *)
Ltac field_calc :=
  repeat match goal with
  | |- context [sub (?x ++ ?y) ?i ?j] =>
    let E := fresh "E" in eassert (sub (x ++ y) i j = _) as E by field_peel;
    rewrite E; clear E
  | |- context [at_ (?x ++ ?y) ?i] =>
    let E := fresh "E" in eassert (at_ (x ++ y) i = _) as E by field_peel;
    rewrite E; clear E
  end.

(** The byte string of a Go string literal. *)
Definition str (s : string) : bytes := String.list_byte_of_string s.

(** Hexadecimal literals, for the golden wire fixtures. *)
Definition hex_digit (b : byte) : Z :=
  let z := byte_to_Z b in if bool_decide (z < 58) then z - 48 else z - 87.
Fixpoint unhex_bytes (l : bytes) : bytes :=
  match l with
  | a :: b :: l => byte_of_Z (16 * hex_digit a + hex_digit b) :: unhex_bytes l
  | _ => []
  end.
Definition unhex (s : string) : bytes := unhex_bytes (str s).

(** ** Readers

    A carrier that will deliver [rd_data] and then fail with [rd_err] (which is
    [io.EOF] for an orderly close). *)

Inductive io_error :=
| io_EOF
| io_ErrUnexpectedEOF
| io_ErrShortBuffer
| io_ErrShortWrite
| io_other.

#[export] Instance io_error_eq_dec : EqDecision io_error.
Proof. solve_decision. Defined.

Record Reader := MkReader { rd_data : bytes; rd_err : io_error }.
#[export] Instance Reader_fields : Fields Reader := fun r =>
  MkReader (rd_data r) (rd_err r).

(** [io.ReadFull(r, buf)] with [len(buf) = n]: all [n] bytes, or the reader's
    error, which is [ErrUnexpectedEOF] when [EOF] interrupts a partial read. *)
Definition ReadFull (r : Reader) (n : nat) : result io_error (bytes * Reader) :=
  if bool_decide (n <= length (rd_data r))%nat
  then Ok (take n (rd_data r), r <| rd_data := drop n (rd_data r) |>)
  else if bool_decide (rd_data r <> []) && bool_decide (rd_err r = io_EOF)
  then Err io_ErrUnexpectedEOF
  else Err (rd_err r).

Lemma ReadFull_app n a rest e :
  length a = n -> ReadFull (MkReader (a ++ rest) e) n = Ok (a, MkReader rest e).
Proof.
  intros <-. unfold ReadFull; simpl. rewrite bool_decide_eq_true_2.
  - by rewrite take_app_length, drop_app_length.
  - rewrite length_app. lia.
Qed.

Lemma ReadFull_ok r n a r' :
  ReadFull r n = Ok (a, r') ->
  rd_data r = a ++ rd_data r' /\ length a = n /\ rd_err r' = rd_err r.
Proof.
  unfold ReadFull. case_bool_decide as Hn.
  - intros [= <- <-]; simpl. rewrite take_drop, length_take. split_and!; [done|lia|done].
  - split_match; intros [=].
Qed.

Lemma ReadFull_short r n e :
  ReadFull r n = Err e -> (length (rd_data r) < n)%nat.
Proof.
  unfold ReadFull. case_bool_decide as Hn; [done|]. lia.
Qed.

#[global] Arguments be_put : simpl never.
#[global] Arguments be_get : simpl never.
#[global] Arguments sub : simpl never.
#[global] Arguments ReadFull : simpl never.
#[global] Arguments str : simpl never.
