(* ===== verification/Sha256.v ===== *)
(** * SHA-256 and HMAC

    [crypto/sha256] and [crypto/hmac] of the Go standard library, which every
    authenticated SMP3 message uses.  The definitions are executable, so the
    golden wire fixtures of the repository can be evaluated inside the kernel. *)

From S2P Require Import Prelude Bytes.
From Stdlib Require String.
From stdpp Require Import options.

Module Sha256.

(** The low 32 bits. *)
Definition w32 (x : Z) : Z := Z.land x 0xffffffff.

Definition rotr (x n : Z) : Z := w32 (Z.lor (Z.shiftr x n) (Z.shiftl x (32 - n))).
Definition ch (x y z : Z) : Z := Z.lxor (Z.land x y) (Z.ldiff z x).
Definition maj (x y z : Z) : Z :=
  Z.lxor (Z.lxor (Z.land x y) (Z.land x z)) (Z.land y z).
Definition bsig0 (x : Z) : Z := Z.lxor (Z.lxor (rotr x 2) (rotr x 13)) (rotr x 22).
Definition bsig1 (x : Z) : Z := Z.lxor (Z.lxor (rotr x 6) (rotr x 11)) (rotr x 25).
Definition ssig0 (x : Z) : Z := Z.lxor (Z.lxor (rotr x 7) (rotr x 18)) (Z.shiftr x 3).
Definition ssig1 (x : Z) : Z := Z.lxor (Z.lxor (rotr x 17) (rotr x 19)) (Z.shiftr x 10).

(** The standard's constants: the first 32 bits of the fractional parts of the
    square and cube roots of the first primes. *)
Definition is_prime (n : Z) : bool :=
  forallb (fun d => negb (bool_decide (n `mod` d = 0))) (seqZ 2 (Z.sqrt n - 1)).
Definition primes (n : nat) : list Z :=
  take n (List.filter is_prime (seqZ 2 400)).

(** The integer cube root by bisection: the bits of the root, highest first. *)
Fixpoint cbrt_bits (k : nat) (n root : Z) : Z :=
  match k with
  | O => root
  | S k =>
    let r := root + 2 ^ Z.of_nat k in
    cbrt_bits k n (if bool_decide (r ^ 3 <= n) then r else root)
  end.
Definition root2_frac (p : Z) : Z := u32 (Z.sqrt (p * 2 ^ 64)).
Definition root3_frac (p : Z) : Z := u32 (cbrt_bits 36 (p * 2 ^ 96) 0).

Definition K : list Z := Eval vm_compute in map root3_frac (primes 64).
Definition H0 : list Z := Eval vm_compute in map root2_frac (primes 8).

(** Cut a list into blocks of [n]; [fuel] bounds the number of blocks. *)
Fixpoint blocks (fuel n : nat) (l : bytes) : list bytes :=
  match fuel with
  | O => []
  | S fuel => match l with [] => [] | _ => take n l :: blocks fuel n (drop n l) end
  end.

(** Message padding: 0x80, zeros, and the bit length in 64 bits. *)
Definition pad (m : bytes) : bytes :=
  let len := Z.of_nat (length m) in
  m ++ [byte_of_Z 0x80] ++ replicate (Z.to_nat ((55 - len) `mod` 64)) x00
    ++ be_put 8 (8 * len).

(** The message schedule, newest word first. *)
Fixpoint extend (n : nat) (w : list Z) : list Z :=
  match n with
  | O => w
  | S n =>
    let g i := nth i w 0 in
    extend n (w32 (ssig1 (g 1%nat) + g 6%nat + ssig0 (g 14%nat) + g 15%nat) :: w)
  end.

Definition round (s : list Z) (kw : Z * Z) : list Z :=
  match s with
  | [a; b; c; d; e; f; g; h] =>
    let t1 := w32 (h + bsig1 e + ch e f g + kw.1 + kw.2) in
    let t2 := w32 (bsig0 a + maj a b c) in
    [w32 (t1 + t2); a; b; c; w32 (d + t1); e; f; g]
  | _ => s
  end.

Definition compress (h : list Z) (block : bytes) : list Z :=
  let w := rev (extend 48 (rev (map be_get (blocks 16 4 block)))) in
  map (fun p => w32 (p.1 + p.2)) (combine h (fold_left round (combine K w) h)).

Definition sum (m : bytes) : bytes :=
  let p := pad m in
  concat (map (be_put 4) (fold_left compress (blocks (length p) 64 p) H0)).

Definition Size : nat := 32.
Definition BlockSize : nat := 64.

(** [hmac.New(sha256.New, key)], written to and summed. *)
Definition hmac_key (key : bytes) : bytes :=
  let k := if bool_decide (BlockSize < length key)%nat then sum key else key in
  k ++ replicate (BlockSize - length k) x00.
Definition xor_pad (c : Z) (k : bytes) : bytes :=
  map (fun b => byte_of_Z (Z.lxor (byte_to_Z b) c)) k.
Definition hmac (key m : bytes) : bytes :=
  let k := hmac_key key in
  sum (xor_pad 0x5c k ++ sum (xor_pad 0x36 k ++ m)).

(** ** The length of a digest *)

Lemma length_round s kw : length (round s kw) = length s.
Proof. do 9 (destruct s as [|? s]; try done). Qed.

Lemma length_rounds l h : length (fold_left round l h) = length h.
Proof.
  revert h. induction l as [|x l IH]; intros h; [done|]. simpl. by rewrite IH, length_round.
Qed.

Lemma length_compress h b : length h = 8%nat -> length (compress h b) = 8%nat.
Proof.
  intros Hh. unfold compress. by rewrite length_map, length_combine, length_rounds, Hh.
Qed.

Lemma length_digest m : length (sum m) = Size.
Proof.
  unfold sum.
  assert (forall bs h, length h = 8%nat -> length (fold_left compress bs h) = 8%nat) as H.
  { induction bs as [|b bs IH]; intros h Hh; [done|]. simpl. by apply IH, length_compress. }
  specialize (H (blocks (length (pad m)) 64 (pad m)) H0 eq_refl). revert H.
  generalize (fold_left compress (blocks (length (pad m)) 64 (pad m)) H0). intros l.
  do 9 (destruct l as [|? l]; try done).
Qed.

Lemma length_hmac key m : length (hmac key m) = Size.
Proof. apply length_digest. Qed.

End Sha256.

Export (hints) Sha256.
Arguments Sha256.sum : simpl never.
Arguments Sha256.hmac : simpl never.
#[global] Opaque Sha256.hmac.

(** ** Test vectors (FIPS 180-2 and RFC 4231) *)

Example sha256_abc :
  Sha256.sum (str "abc")
  = unhex "ba7816bf8f01cfea414140de5dae2223b00361a396177a9cb410ff61f20015ad".
Proof. vm_compute. reflexivity. Qed.

Example sha256_two_blocks :
  Sha256.sum (str "abcdbcdecdefdefgefghfghighijhijkijkljklmklmnlmnomnopnopq")
  = unhex "248d6a61d20638b8e5c026930c3e6039a33ce45964ff2167f6ecedd419db06c1".
Proof. vm_compute. reflexivity. Qed.

Example hmac_rfc4231_case2 :
  Sha256.hmac (str "Jefe") (str "what do ya want for nothing?")
  = unhex "5bdcc146bf60754e6a042426089575c75a003f089d2739839dec58b964ec3843".
Proof. vm_compute. reflexivity. Qed.
