(* ===== verification/Wire.v ===== *)
(** * Stream frames on a carrier

    [core/stream_frame.go] (the 13-byte header codec) and the frame readers and
    writers of [core/stream_engine.go] that put headers and payloads on a
    carrier.  The theorems show that the codec round-trips, that a concatenation
    of frames is parsed back frame by frame, and that the write loops either put
    the whole buffer on the carrier or report an error after a prefix of it. *)

From S2P Require Import Prelude Bytes.
From stdpp Require Import options.

(** ** Errors

    The sentinel errors of the wire layer.  A Go function that returns
    [(value, err)] is a [result proto_error value]. *)

Inductive proto_error :=
| ErrIO (e : io_error)
| errUnknownStreamFrameType
| errInvalidControlFrameSize
| errInvalidStreamFrameLength
| errEmptyPassword
| errInvalidHello
| errInvalidVersion
| errInvalidLeg
| errInvalidMode
| errInvalidV5Mode
| errStaleHello
| errEmptyDestination
| errInvalidDestination
| errInvalidAuthentication
| errInvalidCapabilities
| ErrStreamPathNegotiation
| ErrStreamPathMessage
| ErrStreamPathRole
| ErrStreamDrainNegotiation
| ErrStreamDrainMessage
| ErrStreamRTTCacheClosed
| ErrStreamRTTStaleGeneration
| ErrStreamRTTGenerationReuse
| ErrStreamRTTPendingFull
| ErrStreamRTTTokenExhausted
| ErrStreamRTTProbeExpired
| ErrStreamRTTNoPending
| ErrStreamRTTReplay
| errDatagramAddress
| errDatagramFrameTooLarge
| errDatagramUnexpectedFrame
| errDatagramFrameLength
| errDatagramAddressLength
| errDatagramExceedsMaximum.

#[export] Instance proto_error_eq_dec : EqDecision proto_error.
Proof. solve_decision. Defined.

Definition lift_io {A} (m : result io_error A) : result proto_error A :=
  match m with Ok a => Ok a | Err e => Err (ErrIO e) end.

(** ** Writers

    A carrier accepts a [Write] wholly, partly or not at all, with or without an
    error: [wr_script] is what it will do on each of its next calls, [(n, err)],
    and a call beyond the script accepts everything. *)

Record Writer := MkWriter {
  wr_out : bytes;
  wr_script : list (Z * option io_error);
}.
#[export] Instance Writer_fields : Fields Writer := fun w =>
  MkWriter (wr_out w) (wr_script w).

Definition Write (w : Writer) (p : bytes) : Z * option io_error * Writer :=
  match wr_script w with
  | [] => (slen p, None, w <| wr_out := wr_out w ++ p |>)
  | (n, e) :: script =>
    let n := 0 `max` (n `min` slen p) in
    (n, e, MkWriter (wr_out w ++ take (Z.to_nat n) p) script)
  end.

(** [for len(buffer) > 0 { n, err := w.Write(buffer); ... }]; every iteration
    that continues shortens the buffer, so its length is enough fuel. *)
Fixpoint write_loop (fuel : nat) (w : Writer) (buffer : bytes) (short : io_error)
  : option io_error * Writer :=
  match buffer with
  | [] => (None, w)
  | _ =>
    match fuel with
    | O => (Some io_other, w)
    | S fuel =>
      let '(n, err, w) := Write w buffer in
      match err with
      | Some e => (Some e, w)
      | None =>
        if bool_decide (n <= 0) then (Some short, w)
        else write_loop fuel w (drop (Z.to_nat n) buffer) short
      end
    end
  end.

(** [writeAll] of the engine: a zero-length write is [ErrUnexpectedEOF]. *)
Definition writeAll (w : Writer) (buffer : bytes) : option io_error * Writer :=
  write_loop (length buffer) w buffer io_ErrUnexpectedEOF.

(** [writeProtocolFull] of the handshake: a zero-length write is [ErrShortWrite]. *)
Definition writeProtocolFull (w : Writer) (data : bytes) : option io_error * Writer :=
  write_loop (length data) w data io_ErrShortWrite.

(** ** Frame headers *)

Definition StreamFrameHeaderSize : nat := 13.
Definition MaxStreamFramePayload : Z := 2 ^ 20.
Definition StreamRTTMessageSize : nat := (8 + 1 + 1 + 1 + 1 + 16 + 8 + 32)%nat.
Definition StreamDrainControlMessageSize : nat :=
  (8 + 1 + 1 + 1 + 1 + 16 + 1 + 8 + 16 + 16 + 8 + 8 + 4 + 8 + 32)%nat.

Definition StreamFrameData : Z := 1.
Definition StreamFrameActivate : Z := 2.
Definition StreamFrameACK : Z := 3.
Definition StreamFrameClose : Z := 4.
Definition StreamFramePathRTT : Z := 5.
Definition StreamFrameDrain : Z := 6.

Record StreamFrameHeader := MkHeader {
  hdr_Type : Z;   (* uint8 *)
  hdr_Value : Z;  (* uint64 *)
  hdr_Length : Z; (* uint32 *)
}.

#[export] Instance StreamFrameHeader_eq_dec : EqDecision StreamFrameHeader.
Proof. solve_decision. Defined.

(** The Go type: every field within its width. *)
Definition header_wf (h : StreamFrameHeader) : Prop :=
  is_u8 (hdr_Type h) /\ is_u64 (hdr_Value h) /\ is_u32 (hdr_Length h).

Definition validateStreamFrameHeader (h : StreamFrameHeader) : option proto_error :=
  if bool_decide (hdr_Type h = StreamFrameData) then
    if bool_decide (hdr_Length h = 0) || bool_decide (MaxStreamFramePayload < hdr_Length h)
    then Some errInvalidStreamFrameLength else None
  else if bool_decide (hdr_Type h = StreamFrameActivate)
       || bool_decide (hdr_Type h = StreamFrameACK)
       || bool_decide (hdr_Type h = StreamFrameClose) then
    if bool_decide (hdr_Length h <> 0) then Some errInvalidControlFrameSize else None
  else if bool_decide (hdr_Type h = StreamFramePathRTT) then
    if bool_decide (hdr_Value h <> 0)
       || bool_decide (hdr_Length h <> Z.of_nat StreamRTTMessageSize)
    then Some errInvalidControlFrameSize else None
  else if bool_decide (hdr_Type h = StreamFrameDrain) then
    if bool_decide (hdr_Value h <> 0)
       || bool_decide (hdr_Length h <> Z.of_nat StreamDrainControlMessageSize)
    then Some errInvalidControlFrameSize else None
  else Some errUnknownStreamFrameType.

(** The 13 bytes of a header. *)
Definition header_bytes (h : StreamFrameHeader) : bytes :=
  [byte_of_Z (hdr_Type h)] ++ be_put 8 (hdr_Value h) ++ be_put 4 (hdr_Length h).

(** [EncodeStreamFrameHeader(dst, header)]: the new contents of [dst]. *)
Definition EncodeStreamFrameHeader (dst : bytes) (h : StreamFrameHeader)
  : result proto_error bytes :=
  if bool_decide (length dst < StreamFrameHeaderSize)%nat then Err (ErrIO io_ErrShortBuffer)
  else match validateStreamFrameHeader h with
       | Some e => Err e
       | None => Ok (header_bytes h ++ drop StreamFrameHeaderSize dst)
       end.

Definition ReadStreamFrameHeader (reader : Reader)
  : result proto_error (StreamFrameHeader * Reader) :=
  let? (wire, reader) := lift_io (ReadFull reader StreamFrameHeaderSize) in
  let header := MkHeader (at_ wire 0) (be_get (sub wire 1 9))
                         (be_get (sub wire 9 StreamFrameHeaderSize)) in
  match validateStreamFrameHeader header with
  | Some e => Err e
  | None => Ok (header, reader)
  end.

(** ** Whole frames *)

Record wireFrame := MkFrame { fr_typ : Z; fr_seq : Z; fr_data : bytes }.

#[export] Instance wireFrame_eq_dec : EqDecision wireFrame.
Proof. solve_decision. Defined.

Definition encodeControlFrame (typ value : Z) : bytes :=
  match EncodeStreamFrameHeader (replicate StreamFrameHeaderSize x00)
          (MkHeader typ value 0) with
  | Ok b => b
  | Err _ => replicate StreamFrameHeaderSize x00
  end.

(** [writeDataFrameWithGate]: the gate runs at the first [Write]; then header
    and payload go out through [net.Buffers.WriteTo], which stops at the first
    error and does not retry a short write, so the count is checked. *)
Definition writeDataFrameWithGate (w : Writer) (seq : Z) (data : bytes)
    (beforeWrite : option io_error) : Z * bool * option proto_error * Writer :=
  match EncodeStreamFrameHeader (replicate StreamFrameHeaderSize x00)
          (MkHeader StreamFrameData seq (u32 (slen data))) with
  | Err e => (0, false, Some e, w)
  | Ok header =>
    match beforeWrite with
    | Some e => (0, false, Some (ErrIO e), w)
    | None =>
      let '(n1, e1, w) := Write w header in
      match e1 with
      | Some e => (n1, true, Some (ErrIO e), w)
      | None =>
        let '(n2, e2, w) := Write w data in
        match e2 with
        | Some e => (n1 + n2, true, Some (ErrIO e), w)
        | None =>
          let expected := Z.of_nat StreamFrameHeaderSize + slen data in
          if bool_decide (n1 + n2 <> expected)
          then (n1 + n2, true, Some (ErrIO io_ErrShortWrite), w)
          else (n1 + n2, true, None, w)
        end
      end
    end
  end.

Definition streamDataPayloadAccepted (wireBytes payloadBytes : Z) : Z :=
  let payload := wireBytes - Z.of_nat StreamFrameHeaderSize in
  if bool_decide (payload <= 0) || bool_decide (payloadBytes <= 0) then 0
  else payload `min` payloadBytes.

(** [writeStreamControlPayload]: a control frame that carries a payload. *)
Definition writeStreamControlPayload (w : Writer) (typ : Z) (payload : bytes)
  : option proto_error * Writer :=
  if bool_decide (payload = []) || bool_decide (MaxStreamFramePayload < slen payload)
  then (Some ErrStreamDrainMessage, w)
  else
    let frame := replicate (StreamFrameHeaderSize + length payload) x00 in
    match EncodeStreamFrameHeader (take StreamFrameHeaderSize frame)
            (MkHeader typ 0 (u32 (slen payload))) with
    | Err e => (Some e, w)
    | Ok hdr =>
      let '(err, w) := writeAll w (hdr ++ payload) in
      (ErrIO <$> err, w)
    end.

(** [writePathRTTFrame] *)
Definition writePathRTTFrame (w : Writer) (message : bytes) : option proto_error * Writer :=
  if bool_decide (length message <> StreamRTTMessageSize)
  then (Some ErrStreamPathMessage, w)
  else
    let frame := replicate (StreamFrameHeaderSize + length message) x00 in
    match EncodeStreamFrameHeader (take StreamFrameHeaderSize frame)
            (MkHeader StreamFramePathRTT 0 (u32 (slen message))) with
    | Err e => (Some e, w)
    | Ok hdr =>
      let '(err, w) := writeAll w (hdr ++ message) in
      (ErrIO <$> err, w)
    end.

Definition readWireFrame (conn : Reader) : result proto_error (wireFrame * Reader) :=
  let? (header, conn) := ReadStreamFrameHeader conn in
  let typ := hdr_Type header in
  if bool_decide (typ = StreamFramePathRTT) || bool_decide (typ = StreamFrameDrain) then
    let? (data, conn) := lift_io (ReadFull conn (Z.to_nat (hdr_Length header))) in
    Ok (MkFrame typ (hdr_Value header) data, conn)
  else if bool_decide (typ <> StreamFrameData) then
    Ok (MkFrame typ (hdr_Value header) [], conn)
  else
    let? (data, conn) := lift_io (ReadFull conn (Z.to_nat (hdr_Length header))) in
    Ok (MkFrame typ (hdr_Value header) data, conn).

(** What the leg writer does with one frame: DATA through the gate, control
    frames through [writeControl]. *)
Definition writeControl (w : Writer) (typ value : Z) (data : bytes)
  : option proto_error * Writer :=
  if bool_decide (typ = StreamFramePathRTT) then writePathRTTFrame w data
  else if bool_decide (typ = StreamFrameDrain) then
    writeStreamControlPayload w StreamFrameDrain data
  else let '(err, w) := writeAll w (encodeControlFrame typ value) in (ErrIO <$> err, w).

Definition writeFrame (w : Writer) (f : wireFrame) : option proto_error * Writer :=
  if bool_decide (fr_typ f = StreamFrameData) then
    let '(_, _, err, w) := writeDataFrameWithGate w (fr_seq f) (fr_data f) None in (err, w)
  else writeControl w (fr_typ f) (fr_seq f) (fr_data f).

Fixpoint writeFrames (w : Writer) (fs : list wireFrame) : option proto_error * Writer :=
  match fs with
  | [] => (None, w)
  | f :: fs =>
    match writeFrame w f with
    | (Some e, w) => (Some e, w)
    | (None, w) => writeFrames w fs
    end
  end.

(** The reading half of [legReadLoop]: frames are read until an error. *)
Fixpoint read_frames (fuel : nat) (conn : Reader) : list wireFrame * proto_error :=
  match fuel with
  | O => ([], ErrIO io_other)
  | S fuel =>
    match readWireFrame conn with
    | Err e => ([], e)
    | Ok (f, conn) => let '(fs, e) := read_frames fuel conn in (f :: fs, e)
    end
  end.

(** ** Write loops *)

Lemma Write_prefix w p n e w' :
  Write w p = (n, e, w') ->
  0 <= n <= slen p /\ wr_out w' = wr_out w ++ take (Z.to_nat n) p.
Proof.
  unfold Write, slen. destruct (wr_script w) as [|[m e'] script]; intros [= <- <- <-]; simpl.
  - split; [lia|]. f_equal. symmetry. apply take_ge. lia.
  - split; [lia|done].
Qed.

Lemma write_loop_spec fuel w buffer short err w' :
  (length buffer <= fuel)%nat ->
  write_loop fuel w buffer short = (err, w') ->
  exists k, wr_out w' = wr_out w ++ take k buffer /\
            (err = None -> take k buffer = buffer).
Proof.
  revert w buffer. induction fuel as [|fuel IH]; intros w [|b buffer] Hlen; simpl.
  - intros [= <- <-]. exists 0%nat. by rewrite app_nil_r.
  - simpl in Hlen. lia.
  - intros [= <- <-]. exists 0%nat. by rewrite app_nil_r.
  - destruct (Write w (b :: buffer)) as [[n e] w1] eqn:HW.
    apply Write_prefix in HW as [Hn Hout]. destruct e as [e|].
    { intros [= <- <-]. exists (Z.to_nat n). by split. }
    case_bool_decide as Hn0.
    { intros [= <- <-]. exists (Z.to_nat n). by split. }
    intros Hrec. apply IH in Hrec as (k & Hk & Hdone).
    2:{ rewrite length_drop. simpl in *. lia. }
    exists (Z.to_nat n + k)%nat. rewrite Hk, Hout, <- app_assoc, take_take_drop.
    split; [done|]. intros He. specialize (Hdone He).
    rewrite <- take_take_drop, Hdone. by rewrite take_drop.
Qed.

(** ** Headers round-trip *)

Lemma length_header_bytes h : length (header_bytes h) = StreamFrameHeaderSize.
Proof. unfold header_bytes. by rewrite !length_app, !length_be_put. Qed.

Lemma header_bytes_parse h rest :
  header_wf h ->
  let wire := header_bytes h ++ rest in
  MkHeader (at_ wire 0) (be_get (sub wire 1 9)) (be_get (sub wire 9 13)) = h.
Proof.
  intros (HT & HV & HL) wire. unfold wire, header_bytes. destruct h as [T V L].
  cbn [hdr_Type hdr_Value hdr_Length] in *. rewrite <- !app_assoc.
  replace (sub _ 1 9) with (be_put 8 V).
  2:{ symmetry. rewrite (sub_skip [_]) by (simpl; lia). apply sub_here.
      by rewrite length_be_put. }
  replace (sub _ 9 13) with (be_put 4 L).
  2:{ symmetry. rewrite (sub_skip [_]), sub_skip by (rewrite ?length_be_put; simpl; lia).
      rewrite length_be_put. apply sub_here. by rewrite length_be_put. }
  rewrite !be_get_put_small by (simpl; unfold is_u32, is_u64 in *; lia).
  unfold at_. simpl. by rewrite byte_to_of_small.
Qed.

(** Thirteen bytes are the header their fields say. *)
Lemma header_bytes_of wire :
  length wire = 13%nat ->
  let hd := MkHeader (at_ wire 0) (be_get (sub wire 1 9)) (be_get (sub wire 9 13)) in
  header_bytes hd = wire /\ header_wf hd.
Proof.
  intros Hlen hd. split.
  - unfold header_bytes, hd; cbn [hdr_Type hdr_Value hdr_Length].
    rewrite <- at_sub by lia.
    pose proof (be_put_get (sub wire 1 9)) as E1. pose proof (be_put_get (sub wire 9 13)) as E2.
    rewrite length_sub in E1, E2 by lia. simpl in E1, E2. rewrite E1, E2.
    rewrite !sub_sub_app by lia. by apply sub_all.
  - unfold hd. split_and!; simpl; [apply at_range| |].
    + by apply be_get_sub_u64; [|lia].
    + by apply be_get_sub_u32; [|lia].
Qed.

Lemma ReadStreamFrameHeader_bytes h rest e :
  header_wf h -> validateStreamFrameHeader h = None ->
  ReadStreamFrameHeader (MkReader (header_bytes h ++ rest) e) = Ok (h, MkReader rest e).
Proof.
  intros Hwf Hv. unfold ReadStreamFrameHeader.
  rewrite (ReadFull_app _ _ _ _ (length_header_bytes h)); simpl.
  pose proof (header_bytes_parse h [] Hwf) as Hp. rewrite app_nil_r in Hp. simpl in Hp.
  unfold StreamFrameHeaderSize. by rewrite Hp, Hv.
Qed.

Lemma EncodeStreamFrameHeader_ok dst h out :
  EncodeStreamFrameHeader dst h = Ok out ->
  validateStreamFrameHeader h = None /\ out = header_bytes h ++ drop StreamFrameHeaderSize dst.
Proof.
  unfold EncodeStreamFrameHeader. case_bool_decide; [done|].
  destruct (validateStreamFrameHeader h); [done|]. by intros [= <-].
Qed.

(** ** Frames round-trip *)

(** The frames the engine builds: a known type, values in their width, no
    payload on a bare control frame and no value on an RTT or drain frame. *)
Definition frame_ok (f : wireFrame) : Prop :=
  is_u64 (fr_seq f) /\ slen (fr_data f) < 2 ^ 32 /\
  (fr_typ f = StreamFrameData \/
   ((fr_typ f = StreamFrameActivate \/ fr_typ f = StreamFrameACK
     \/ fr_typ f = StreamFrameClose) /\ fr_data f = []) \/
   ((fr_typ f = StreamFramePathRTT \/ fr_typ f = StreamFrameDrain) /\ fr_seq f = 0)).

Definition frame_header (f : wireFrame) : StreamFrameHeader :=
  MkHeader (fr_typ f) (fr_seq f) (slen (fr_data f)).

Definition frame_bytes (f : wireFrame) : bytes := header_bytes (frame_header f) ++ fr_data f.

Lemma frame_header_wf f : frame_ok f -> header_wf (frame_header f).
Proof.
  intros (Hs & Hl & Ht). split_and!; simpl; [|done|unfold is_u32, slen in *; lia].
  unfold is_u8, StreamFrameData, StreamFrameActivate, StreamFrameACK, StreamFrameClose,
    StreamFramePathRTT, StreamFrameDrain in *. lia.
Qed.

Lemma encode_fresh (n : nat) h out :
  (13 <= n)%nat ->
  EncodeStreamFrameHeader (take 13 (replicate n x00)) h = Ok out ->
  validateStreamFrameHeader h = None /\ out = header_bytes h.
Proof.
  intros Hn [Hv ->]%EncodeStreamFrameHeader_ok. split; [done|].
  rewrite drop_ge; [apply app_nil_r|]. rewrite length_take, length_replicate.
  unfold StreamFrameHeaderSize. lia.
Qed.

Lemma writeAll_ok w b w' : writeAll w b = (None, w') -> wr_out w' = wr_out w ++ b.
Proof.
  intros H. apply write_loop_spec in H as (k & Hout & Hk); [|lia].
  by rewrite Hout, Hk.
Qed.

(** A carrier without scripted failures takes everything. *)
Lemma writeAll_healthy w b :
  wr_script w = [] -> exists w', writeAll w b = (None, w') /\ wr_script w' = [].
Proof.
  intros Hs. unfold writeAll. destruct b as [|x b]; [by exists w|].
  cbn [length write_loop]. unfold Write. rewrite Hs.
  rewrite bool_decide_eq_false_2 by (unfold slen; simpl; lia).
  rewrite drop_ge by (unfold slen; lia).
  exists (w <| wr_out := wr_out w ++ x :: b |>). split; [|done]. by destruct (length b).
Qed.

Lemma writeDataFrameWithGate_ok w seq data n st w' :
  writeDataFrameWithGate w seq data None = (n, st, None, w') ->
  let h := MkHeader StreamFrameData seq (u32 (slen data)) in
  validateStreamFrameHeader h = None /\ wr_out w' = wr_out w ++ header_bytes h ++ data.
Proof.
  unfold writeDataFrameWithGate.
  destruct (EncodeStreamFrameHeader _ _) as [hdr|] eqn:HE; [|done].
  apply (encode_fresh 13) in HE as [Hv ->]; [|lia].
  destruct (Write w _) as [[n1 [e1|]] w1] eqn:H1; [done|].
  destruct (Write w1 _) as [[n2 [e2|]] w2] eqn:H2; [done|].
  case_bool_decide as Hn; [done|]. intros [= <- <- <-]. split; [done|].
  apply Write_prefix in H1 as [Hn1 Ho1]. apply Write_prefix in H2 as [Hn2 Ho2].
  pose proof (length_header_bytes (MkHeader StreamFrameData seq (u32 (slen data)))) as Hl.
  unfold slen, StreamFrameHeaderSize in *.
  rewrite Ho2, Ho1, <- app_assoc. do 2 f_equal; apply take_ge; lia.
Qed.

Lemma encodeControlFrame_ok typ value :
  typ = StreamFrameActivate \/ typ = StreamFrameACK \/ typ = StreamFrameClose ->
  encodeControlFrame typ value = header_bytes (MkHeader typ value 0).
Proof.
  intros H. unfold encodeControlFrame, EncodeStreamFrameHeader, validateStreamFrameHeader.
  by destruct H as [->|[->| ->]].
Qed.

(** A successful write puts exactly the header and the payload on the carrier,
    whatever the carrier does with each [Write]. *)
Lemma writeFrame_ok w f w' :
  frame_ok f -> writeFrame w f = (None, w') ->
  validateStreamFrameHeader (frame_header f) = None /\ wr_out w' = wr_out w ++ frame_bytes f.
Proof.
  intros (Hs & Hl & Ht). unfold writeFrame, frame_bytes, frame_header.
  assert (u32 (slen (fr_data f)) = slen (fr_data f)) as Hu.
  { apply u32_small. unfold is_u32, slen in *. lia. }
  case_bool_decide as Hd.
  { destruct (writeDataFrameWithGate _ _ _ _) as [[[n st] [e|]] w1] eqn:HW; [done|].
    intros [= <-]. apply writeDataFrameWithGate_ok in HW. rewrite Hu, <- Hd in HW. exact HW. }
  unfold writeControl. destruct Ht as [Ht|[[Ht Hdata]|[Ht Hz]]]; [done| |].
  - assert (fr_typ f <> StreamFramePathRTT /\ fr_typ f <> StreamFrameDrain) as [? ?].
    { by destruct Ht as [->|[->| ->]]. }
    rewrite !bool_decide_eq_false_2 by done. rewrite encodeControlFrame_ok by done.
    destruct (writeAll _ _) as [[e|] w1] eqn:HW; [done|]. intros [= <-].
    apply writeAll_ok in HW. rewrite Hdata, app_nil_r, HW. split; [|done].
    unfold validateStreamFrameHeader. by destruct Ht as [->|[->| ->]].
  - rewrite Hz. case_bool_decide as HR; [|rewrite bool_decide_eq_true_2 by naive_solver].
    + unfold writePathRTTFrame. case_bool_decide; [done|].
      destruct (EncodeStreamFrameHeader _ _) as [hdr|] eqn:HE; [|done].
      apply encode_fresh in HE as [Hv ->]; [|unfold StreamFrameHeaderSize; lia].
      destruct (writeAll _ _) as [[e|] w1] eqn:HW; [done|]. intros [= <-].
      apply writeAll_ok in HW. rewrite Hu, <- HR in Hv, HW. by rewrite HW.
    + unfold writeStreamControlPayload. split_match; [done|].
      destruct (EncodeStreamFrameHeader _ _) as [hdr|] eqn:HE; [|done].
      apply encode_fresh in HE as [Hv ->]; [|unfold StreamFrameHeaderSize; lia].
      destruct (writeAll _ _) as [[e|] w1] eqn:HW; [done|]. intros [= <-].
      assert (fr_typ f = StreamFrameDrain) as HD by naive_solver.
      apply writeAll_ok in HW. rewrite Hu, <- HD in Hv, HW. by rewrite HW.
Qed.

Lemma readWireFrame_bytes f rest e :
  frame_ok f -> validateStreamFrameHeader (frame_header f) = None ->
  readWireFrame (MkReader (frame_bytes f ++ rest) e) = Ok (f, MkReader rest e).
Proof.
  intros Hok Hv. unfold readWireFrame, frame_bytes. rewrite <- app_assoc.
  rewrite ReadStreamFrameHeader_bytes by (try apply frame_header_wf; done).
  cbn [result_bind]. unfold frame_header; cbn [hdr_Type hdr_Value hdr_Length].
  assert (ReadFull (MkReader (fr_data f ++ rest) e) (Z.to_nat (slen (fr_data f)))
          = Ok (fr_data f, MkReader rest e)) as HR.
  { apply ReadFull_app. unfold slen. lia. }
  rewrite HR. destruct Hok as (_ & _ & [Ht|[[Ht Hd]|[Ht Hz]]]); destruct f as [typ seq data];
    cbn [fr_typ fr_seq fr_data] in *.
  - by rewrite Ht.
  - subst data. by destruct Ht as [->|[->| ->]].
  - by destruct Ht as [->| ->].
Qed.

(** C36. Framing is a round trip on any carrier.  If the engine's writers put a
    list of frames on a carrier without reporting an error (however the carrier
    splits the individual writes), then the read loop parses the emitted bytes
    back into exactly those frames, in order, and then sees the carrier's end. *)
Theorem frames_write_read_roundtrip w fs w' err :
  Forall frame_ok fs ->
  writeFrames w fs = (None, w') ->
  exists out, wr_out w' = wr_out w ++ out /\
    read_frames (S (length fs)) (MkReader out err) = (fs, ErrIO err).
Proof.
  revert w. induction fs as [|f fs IH]; intros w Hok; simpl.
  { intros [= <-]. exists []. rewrite app_nil_r. split; [done|]. by destruct err. }
  inversion Hok as [|? ? Hf Hfs]; subst.
  destruct (writeFrame w f) as [[e|] w1] eqn:HW; [done|]. intros Hrest.
  apply writeFrame_ok in HW as [Hv Hout]; [|done].
  destruct (IH w1 Hfs Hrest) as (out & Hout' & Hread).
  exists (frame_bytes f ++ out). rewrite Hout', Hout, <- app_assoc. split; [done|].
  rewrite readWireFrame_bytes by done. cbn [read_frames] in Hread. by rewrite Hread.
Qed.

(** Two ACK and DATA frames over a carrier that accepts one byte, then the rest. *)
Lemma frames_write_read_roundtrip_witness :
  let fs := [MkFrame StreamFrameACK 7 []; MkFrame StreamFrameData 8 (str "hello")] in
  let w := MkWriter [] [(1, None); (12, None)] in
  exists w' out, writeFrames w fs = (None, w') /\ wr_out w' = out /\
    read_frames 3 (MkReader out io_EOF) = (fs, ErrIO io_EOF).
Proof.
  intros fs w.
  assert (Forall frame_ok fs) as Hok.
  { repeat constructor; unfold is_u64, slen; simpl; try lia; naive_solver. }
  destruct (writeFrames w fs) as [err w'] eqn:HW.
  assert (err = None) as -> by (vm_compute in HW; congruence).
  destruct (frames_write_read_roundtrip w fs w' io_EOF Hok HW) as (out & Hout & Hread).
  exists w', out. simpl in Hout. done.
Defined.

(** [writeAll] and [writeProtocolFull] are all-or-error: whatever the carrier
    does, what reaches it is a prefix of the buffer, and without an error it is
    the whole buffer. *)
Theorem write_loops_all_or_error w buffer err w' :
  writeAll w buffer = (err, w') \/ writeProtocolFull w buffer = (err, w') ->
  exists k, wr_out w' = wr_out w ++ take k buffer /\
    (err = None -> wr_out w' = wr_out w ++ buffer).
Proof.
  intros [H|H]; apply write_loop_spec in H as (k & Hout & Hk); try lia;
    exists k; (split; [done|]); intros He; by rewrite Hout, Hk.
Qed.

Lemma write_loops_all_or_error_witness :
  exists err w' k, writeAll (MkWriter [] [(2, None); (0, None)]) (str "abc") = (err, w') /\
    wr_out w' = take k (str "abc") /\ err = Some io_ErrUnexpectedEOF.
Proof.
  destruct (writeAll (MkWriter [] [(2, None); (0, None)]) (str "abc")) as [err w'] eqn:H.
  destruct (write_loops_all_or_error _ _ _ _ (or_introl H)) as (k & Hout & _).
  exists err, w', k. split_and!; [done|exact Hout|]. vm_compute in H. congruence.
Defined.

(** Reading is canonical: a header that [ReadStreamFrameHeader] accepts is
    valid, was read from exactly 13 bytes, and is the only header those bytes
    encode; re-encoding it gives the same bytes. *)
Theorem ReadStreamFrameHeader_canonical r h r' :
  ReadStreamFrameHeader r = Ok (h, r') ->
  header_wf h /\ validateStreamFrameHeader h = None /\
  rd_data r = header_bytes h ++ rd_data r' /\
  EncodeStreamFrameHeader (replicate 13 x00) h = Ok (header_bytes h).
Proof.
  unfold ReadStreamFrameHeader. intros ([wire r1] & Hr & H)%result_bind_ok.
  destruct (ReadFull r _) as [[wire' r2]|] eqn:HF; [|done]. simpl in Hr. simplify_eq.
  apply ReadFull_ok in HF as (Hdata & Hlen & _). unfold StreamFrameHeaderSize in *.
  split_match_in H; [done|]. simplify_eq.
  set (hd := MkHeader _ _ _) in *.
  destruct (header_bytes_of wire Hlen) as [Hb Hwf]. fold hd in Hb, Hwf.
  rewrite Hb. split_and!; try done.
  unfold EncodeStreamFrameHeader. rewrite bool_decide_eq_false_2 by (vm_compute; lia).
  rewrite Heqo, Hb. f_equal. apply app_nil_r.
Qed.

Lemma ReadStreamFrameHeader_canonical_witness :
  exists h r', ReadStreamFrameHeader (MkReader (unhex "03000000000000002a00000000") io_EOF)
    = Ok (h, r') /\ header_wf h /\ h = MkHeader StreamFrameACK 42 0.
Proof.
  destruct (ReadStreamFrameHeader (MkReader (unhex "03000000000000002a00000000") io_EOF))
    as [[h r']|e] eqn:H; [|vm_compute in H; discriminate].
  destruct (ReadStreamFrameHeader_canonical _ _ _ H) as (Hwf & _).
  exists h, r'. split_and!; [done|done|]. vm_compute in H. by simplify_eq.
Defined.

(** Partial-write accounting: whatever a DATA write reports, the payload
    bytes charged for it are at most the payload and at most the bytes the
    carrier took beyond the header, and a complete write charges the payload. *)
Theorem data_write_accounting w seq data gate n started err w' :
  writeDataFrameWithGate w seq data gate = (n, started, err, w') ->
  0 <= streamDataPayloadAccepted n (slen data) <= slen data /\
  (slen (wr_out w') - slen (wr_out w) = n) /\
  (started = false -> n = 0 /\ w' = w) /\
  (err = None -> streamDataPayloadAccepted n (slen data) = slen data).
Proof.
  intros H. assert (0 <= slen data) as Hnn by (unfold slen; lia).
  split; [unfold streamDataPayloadAccepted; split_match; bool_prop; lia|].
  unfold writeDataFrameWithGate in H.
  destruct (EncodeStreamFrameHeader _ _) as [hdr|] eqn:HE;
    [|simplify_eq; by (split_and!; [lia|done|done])].
  apply (encode_fresh 13) in HE as [_ ->]; [|lia].
  destruct gate as [g|]; [simplify_eq; by (split_and!; [lia|done|done])|].
  destruct (Write w _) as [[n1 e1] w1] eqn:H1. apply Write_prefix in H1 as [Hn1 Ho1].
  assert (slen (wr_out w1) - slen (wr_out w) = n1) as Hd1.
  { rewrite Ho1. unfold slen in *. rewrite length_app, length_take. lia. }
  destruct e1; [simplify_eq; by split_and!|].
  destruct (Write w1 _) as [[n2 e2] w2] eqn:H2. apply Write_prefix in H2 as [Hn2 Ho2].
  assert (slen (wr_out w2) - slen (wr_out w1) = n2) as Hd2.
  { rewrite Ho2. unfold slen in *. rewrite length_app, length_take. lia. }
  destruct e2; [simplify_eq; split_and!; [lia|done|done]|].
  unfold streamDataPayloadAccepted, StreamFrameHeaderSize in *.
  case_bool_decide; simplify_eq; (split_and!; [lia|done|]); [done|].
  intros _. split_match; bool_prop; lia.
Qed.

Lemma data_write_accounting_witness :
  exists n st err w', writeDataFrameWithGate (MkWriter [] [(13, None); (2, Some io_other)])
      5 (str "hello") None = (n, st, err, w') /\
    0 <= streamDataPayloadAccepted n 5 <= 5 /\ streamDataPayloadAccepted n 5 = 2.
Proof.
  destruct (writeDataFrameWithGate (MkWriter [] [(13, None); (2, Some io_other)])
      5 (str "hello") None) as [[[n st] err] w'] eqn:H.
  destruct (data_write_accounting _ _ _ _ _ _ _ _ H) as (Hb & _).
  exists n, st, err, w'. split_and!; [done|apply Hb|apply Hb|].
  vm_compute in H. by simplify_eq.
Defined.

(** The golden frames of the repository's wire fixtures. *)
Example golden_stream_frames :
  read_frames 5 (MkReader (unhex "0101020304050607080000000568656c6c6f"
    ++ unhex "02112233445566778800000000" ++ unhex "03000000000000002a00000000"
    ++ unhex "0400000000deadbeef00000000") io_EOF)
  = ([MkFrame StreamFrameData 0x0102030405060708 (str "hello");
      MkFrame StreamFrameActivate 0x1122334455667788 [];
      MkFrame StreamFrameACK 42 []; MkFrame StreamFrameClose 0xdeadbeef []], ErrIO io_EOF).
Proof. vm_compute. reflexivity. Qed.

(** The malformed fixtures are rejected with the errors of the codec. *)
Example golden_invalid_frames :
  (read_frames 1 (MkReader (unhex "63000000000000000000000000") io_EOF)).2
    = errUnknownStreamFrameType /\
  (read_frames 1 (MkReader (unhex "010000") io_EOF)).2 = ErrIO io_ErrUnexpectedEOF /\
  (read_frames 1 (MkReader (unhex "03000000000000002a00000001") io_EOF)).2
    = errInvalidControlFrameSize /\
  (read_frames 1 (MkReader (unhex "010000000000000007000000046162") io_EOF)).2
    = ErrIO io_ErrUnexpectedEOF /\
  (read_frames 1 (MkReader (unhex "01000000000000000000100001") io_EOF)).2
    = errInvalidStreamFrameLength.
Proof. vm_compute. done. Qed.
