(* ===== verification/Hello.v ===== *)
(** * The HELLO handshake

    [core/types.go] and [core/hello.go]: the authenticated HELLO that opens every
    carrier, in its stream (v4, v6, v7) and datagram (v5) layouts.  The theorems
    show that an encoded HELLO is read back unchanged inside the freshness
    window, and that whatever [ReadHelloAt] accepts is byte for byte the
    canonical encoding of the HELLO it returns, under the shared password. *)

From S2P Require Import Prelude Bytes Sha256 Wire.
From Stdlib Require String.
From stdpp Require Import options.

(** ** Types *)

Definition Version4 : Z := 4.
Definition Version5 : Z := 5.
Definition Version6 : Z := 6.
Definition Version7 : Z := 7.
Definition ModeStream : Z := 0.
Definition ModeDatagram : Z := 1.

Definition StreamCapabilityPathRTT : Z := Z.shiftl 1 0.
Definition StreamCapabilityCoordinatedDrain : Z := Z.shiftl 1 1.
Definition knownStreamCapabilities : Z :=
  Z.lor StreamCapabilityPathRTT StreamCapabilityCoordinatedDrain.

Record Hello := MkHello {
  Version : Z;        (* uint8 *)
  SessionID : bytes;  (* [16]byte *)
  LegID : Z;          (* uint8 *)
  Mode : Z;           (* uint8 *)
  Timestamp : Z;      (* int64 *)
  Nonce : bytes;      (* [16]byte *)
  Capabilities : Z;   (* uint32 *)
  Destination : bytes (* string *)
}.

#[export] Instance Hello_eq_dec : EqDecision Hello.
Proof. solve_decision. Defined.

(** The Go type: every field within its width. *)
Definition hello_wf (h : Hello) : Prop :=
  is_u8 (Version h) /\ length (SessionID h) = 16%nat /\ is_u8 (LegID h) /\
  is_u8 (Mode h) /\ is_i64 (Timestamp h) /\ length (Nonce h) = 16%nat /\
  is_u32 (Capabilities h).

Definition helloSkew : duration := 90 * Second.
Definition helloMagic : bytes := str "SMP3".

(** [a &^ b] and [a & b] on [uint32] capability sets. *)
Definition caps_beyond (caps mask : Z) : bool := bool_decide (Z.ldiff caps mask <> 0).
Definition caps_without (caps mask : Z) : bool := bool_decide (Z.land caps mask = 0).

(** ** Encoding *)

Definition hello_header (h : Hello) : bytes :=
  if bool_decide (Version h = Version5) then
    helloMagic ++ [byte_of_Z Version5; byte_of_Z (LegID h); byte_of_Z (Mode h)]
      ++ SessionID h ++ be_put 8 (Timestamp h) ++ Nonce h
      ++ be_put 2 (slen (Destination h))
  else if bool_decide (Version h = Version6) || bool_decide (Version h = Version7) then
    helloMagic ++ [byte_of_Z (Version h); byte_of_Z (LegID h); byte_of_Z (Mode h)]
      ++ SessionID h ++ be_put 8 (Timestamp h) ++ Nonce h
      ++ be_put 4 (Capabilities h) ++ be_put 2 (slen (Destination h))
  else
    helloMagic ++ [byte_of_Z Version4; byte_of_Z (LegID h)]
      ++ SessionID h ++ be_put 8 (Timestamp h) ++ Nonce h
      ++ be_put 2 (slen (Destination h)).

#[global] Arguments hello_header : simpl never.

Definition EncodeHelloParts (h : Hello) (password : bytes)
  : result proto_error (bytes * bytes * bytes) :=
  if bool_decide (password = []) then Err errEmptyPassword else
  if bool_decide (Destination h = []) || bool_decide (65535 < slen (Destination h))
  then Err errInvalidDestination else
  if bool_decide (Version h <> Version4) && bool_decide (Version h <> Version5)
     && bool_decide (Version h <> Version6) && bool_decide (Version h <> Version7)
  then Err errInvalidVersion else
  if bool_decide (Version h = Version4) && bool_decide (Mode h <> ModeStream)
  then Err errInvalidMode else
  if bool_decide (Version h = Version5) && bool_decide (Mode h <> ModeDatagram)
  then Err errInvalidMode else
  if bool_decide (Version h = Version6) && bool_decide (Mode h <> ModeStream)
  then Err errInvalidMode else
  if bool_decide (Version h = Version7) && bool_decide (Mode h <> ModeStream)
  then Err errInvalidMode else
  if bool_decide (Version h <> Version6) && bool_decide (Version h <> Version7)
     && bool_decide (Capabilities h <> 0)
  then Err errInvalidCapabilities else
  if bool_decide (Version h = Version6)
     && (caps_beyond (Capabilities h) StreamCapabilityPathRTT
         || caps_without (Capabilities h) StreamCapabilityPathRTT)
  then Err errInvalidCapabilities else
  if bool_decide (Version h = Version7)
     && (caps_beyond (Capabilities h) knownStreamCapabilities
         || caps_without (Capabilities h) StreamCapabilityCoordinatedDrain)
  then Err errInvalidCapabilities else
  let destination := Destination h in
  let header := hello_header h in
  let mac := Sha256.hmac password (header ++ destination) in
  Ok (header, destination, mac).

(** ** Reading *)

(** What the version-dependent part of the header determines: the HELLO without
    its destination, and the destination's length. *)
Definition read_hello_header (prefix : bytes) (r : Reader)
  : result proto_error (bytes * Hello * Z * Reader) :=
  let version := at_ prefix 4 in
  let leg := at_ prefix 5 in
  if bool_decide (version = Version4) then
    let? (tail, r) := lift_io (ReadFull r (48 - 6)) in
    let header := prefix ++ tail in
    let h := MkHello version (sub header 6 22) leg ModeStream
               (i64 (be_get (sub header 22 30))) (sub header 30 46) 0 [] in
    Ok (header, h, be_get (sub header 46 48), r)
  else if bool_decide (version = Version5) then
    let? (tail, r) := lift_io (ReadFull r (49 - 6)) in
    let header := prefix ++ tail in
    let mode := at_ header 6 in
    if bool_decide (mode <> ModeDatagram) then Err errInvalidV5Mode else
    let h := MkHello version (sub header 7 23) leg mode
               (i64 (be_get (sub header 23 31))) (sub header 31 47) 0 [] in
    Ok (header, h, be_get (sub header 47 49), r)
  else if bool_decide (version = Version6) || bool_decide (version = Version7) then
    let? (tail, r) := lift_io (ReadFull r (53 - 6)) in
    let header := prefix ++ tail in
    let mode := at_ header 6 in
    if bool_decide (mode <> ModeStream) then Err errInvalidMode else
    let caps := be_get (sub header 47 51) in
    if bool_decide (version = Version6)
       && (caps_beyond caps StreamCapabilityPathRTT
           || caps_without caps StreamCapabilityPathRTT)
    then Err errInvalidCapabilities else
    if bool_decide (version = Version7)
       && (caps_beyond caps knownStreamCapabilities
           || caps_without caps StreamCapabilityCoordinatedDrain)
    then Err errInvalidCapabilities else
    let h := MkHello version (sub header 7 23) leg mode
               (i64 (be_get (sub header 23 31))) (sub header 31 47) caps [] in
    Ok (header, h, be_get (sub header 51 53), r)
  else Err errInvalidVersion.

Definition hello_stale (timestamp : Z) (now : time) : bool :=
  let sent := time_Unix timestamp in
  before sent (time_add now (- helloSkew)) || after sent (time_add now helloSkew).

Definition with_destination (h : Hello) (d : bytes) : Hello :=
  MkHello (Version h) (SessionID h) (LegID h) (Mode h) (Timestamp h) (Nonce h)
    (Capabilities h) d.

Definition ReadHelloAt (r : Reader) (password : bytes) (now : time)
  : result proto_error (Hello * Reader) :=
  if bool_decide (password = []) then Err errEmptyPassword else
  let? (prefix, r) := lift_io (ReadFull r 6) in
  if bool_decide (sub prefix 0 4 <> helloMagic) then Err errInvalidHello else
  let? (header, h, destinationLength, r) := read_hello_header prefix r in
  if hello_stale (Timestamp h) now then Err errStaleHello else
  if bool_decide (destinationLength <= 0) then Err errEmptyDestination else
  let? (destination, r) := lift_io (ReadFull r (Z.to_nat destinationLength)) in
  let? (gotMAC, r) := lift_io (ReadFull r Sha256.Size) in
  if bool_decide (gotMAC <> Sha256.hmac password (header ++ destination))
  then Err errInvalidAuthentication else
  Ok (with_destination h destination, r).

(** ** Which HELLOs exist *)

Definition caps_valid (h : Hello) : bool :=
  if bool_decide (Version h = Version6) then
    negb (caps_beyond (Capabilities h) StreamCapabilityPathRTT)
    && negb (caps_without (Capabilities h) StreamCapabilityPathRTT)
  else if bool_decide (Version h = Version7) then
    negb (caps_beyond (Capabilities h) knownStreamCapabilities)
    && negb (caps_without (Capabilities h) StreamCapabilityCoordinatedDrain)
  else bool_decide (Capabilities h = 0).

Definition hello_valid (h : Hello) : Prop :=
  Destination h <> [] /\ slen (Destination h) <= 65535 /\
  ((Mode h = ModeStream /\
    (Version h = Version4 \/ Version h = Version6 \/ Version h = Version7)) \/
   (Mode h = ModeDatagram /\ Version h = Version5)) /\
  caps_valid h = true.

Lemma EncodeHelloParts_ok_inv h password parts :
  EncodeHelloParts h password = Ok parts ->
  password <> [] /\ hello_valid h /\
  parts = (hello_header h, Destination h,
           Sha256.hmac password (hello_header h ++ Destination h)).
Proof.
  unfold EncodeHelloParts. intros H.
  destruct (bool_decide_reflect (password = [])) as [|Hp]; [done|].
  repeat (match type of H with (if ?b then _ else _) = _ => destruct b eqn:? end;
          [discriminate|]).
  injection H as <-. split_and!; [done|unfold hello_valid, caps_valid|done].
  unfold Version4, Version5, Version6, Version7, ModeStream, ModeDatagram in *.
  assert (Version h = 4 \/ Version h = 5 \/ Version h = 6 \/ Version h = 7) as HV
    by (clear - Heqb0; bool_prop; lia).
  destruct HV as [HV|[HV|[HV|HV]]]; rewrite HV in *; simpl in *; bool_prop;
    split_and!; try done; try lia;
    rewrite ?andb_true_iff, ?negb_true_iff, ?bool_decide_eq_true; try done; lia.
Qed.

Lemma EncodeHelloParts_valid h password :
  password <> [] -> hello_valid h ->
  EncodeHelloParts h password
  = Ok (hello_header h, Destination h,
        Sha256.hmac password (hello_header h ++ Destination h)).
Proof.
  intros Hp (Hd & Hl & Hv & Hc). unfold EncodeHelloParts, caps_valid in *.
  rewrite (bool_decide_eq_false_2 (password = [])) by done.
  rewrite (bool_decide_eq_false_2 (Destination h = [])) by done.
  rewrite (bool_decide_eq_false_2 (65535 < _)) by lia.
  unfold Version4, Version5, Version6, Version7, ModeStream, ModeDatagram in *.
  destruct Hv as [(HM & [HV|[HV|HV]])|(HM & HV)]; rewrite HV, HM in *; simpl in *;
    bool_prop; rewrite ?bool_decide_eq_false_2 by lia;
    repeat match goal with H : caps_beyond _ _ = _ |- _ => rewrite H
                         | H : caps_without _ _ = _ |- _ => rewrite H end; done.
Qed.

(** ** Header layout *)

Lemma length_helloMagic : length helloMagic = 4%nat.
Proof. done. Qed.

(** The header splits into the six-byte prefix and the version's tail. *)
Definition hello_size (h : Hello) : nat :=
  if bool_decide (Version h = Version5) then 49
  else if bool_decide (Version h = Version6) || bool_decide (Version h = Version7) then 53
  else 48.

Lemma length_hello_header h :
  hello_wf h -> length (hello_header h) = hello_size h.
Proof.
  intros (_ & HS & _ & _ & _ & HN & _). unfold hello_header, hello_size.
  pose proof length_helloMagic. repeat case_match; lens.
Qed.

(** Evaluate the version tests once the version is a numeral. *)
Ltac decide_version := simpl bool_decide; cbn [orb andb]; cbn match.

(** Reading the tail of an encoded header gives back the fields it was built
    from. *)
Lemma read_hello_header_encoded h rest e :
  hello_wf h -> hello_valid h ->
  read_hello_header (take 6 (hello_header h)) (MkReader (drop 6 (hello_header h) ++ rest) e)
  = Ok (hello_header h, with_destination h [], slen (Destination h), MkReader rest e).
Proof.
  intros Hwf (Hd & Hl & Hv & Hc). pose proof (length_hello_header h Hwf) as Hlen.
  destruct Hwf as (HV & HS & HL & HM & HT & HN & HC). unfold read_hello_header.
  assert (at_ (take 6 (hello_header h)) 4 = Version h /\ at_ (take 6 (hello_header h)) 5 = LegID h)
    as [-> ->].
  { unfold hello_header, at_. unfold Version4, Version5, Version6, Version7 in *.
    destruct Hv as [(_ & [E|[E|E]])|(_ & E)]; rewrite E in *; simpl;
      rewrite !byte_to_of_small by done; done. }
  pose proof (be_get_put_i64 _ HT) as HTS.
  assert (be_get (be_put 2 (slen (Destination h))) = slen (Destination h)) as HDL.
  { apply be_get_put_small. unfold slen in *. simpl. lia. }
  assert (be_get (be_put 4 (Capabilities h)) = Capabilities h) as HCP.
  { apply be_get_put_small. unfold is_u32 in HC. simpl. lia. }
  pose proof length_helloMagic as HMg.
  unfold caps_valid, Version4, Version5, Version6, Version7, ModeStream, ModeDatagram in *.
  destruct h as [v sid leg mode ts nonce caps dest]. cbn [Version SessionID LegID Mode Timestamp
    Nonce Capabilities Destination with_destination] in *.
  destruct Hv as [(EM & [E|[E|E]])|(EM & E)]; subst v mode; simpl in Hc; decide_version;
    rewrite ReadFull_app by (rewrite length_drop, Hlen; reflexivity);
    cbn [lift_io result_bind]; rewrite take_drop;
    unfold hello_header; cbn [Version SessionID LegID Mode Timestamp
      Nonce Capabilities Destination]; decide_version; rewrite <- ?app_assoc;
    field_calc; rewrite ?byte_to_of_small by done; decide_version;
    rewrite ?HTS, ?HDL, ?HCP; bool_prop.
  - by subst caps.
  - by rewrite H, H0.
  - by rewrite H, H0.
  - by subst caps.
Qed.

(** The converse: an accepted header is the encoding of the fields read from it. *)
Lemma read_hello_header_sound prefix r header h n r' :
  length prefix = 6%nat -> sub prefix 0 4 = helloMagic ->
  read_hello_header prefix r = Ok (header, h, n, r') ->
  hello_wf h /\ Destination h = [] /\ 0 <= n <= 65535 /\ caps_valid h = true /\
  ((Mode h = ModeStream /\
    (Version h = Version4 \/ Version h = Version6 \/ Version h = Version7)) \/
   (Mode h = ModeDatagram /\ Version h = Version5)) /\
  prefix ++ rd_data r = header ++ rd_data r' /\
  (forall d, slen d = n -> hello_header (with_destination h d) = header).
Proof.
  intros Hp Hmagic. unfold read_hello_header.
  assert (forall k tail, ReadFull r k = Ok (tail, r') -> length tail = k /\
            prefix ++ rd_data r = (prefix ++ tail) ++ rd_data r') as HRF.
  { intros k tail (HD & HL & _)%ReadFull_ok. rewrite HD, app_assoc. done. }
  assert (forall tail, sub (prefix ++ tail) 0 4 = helloMagic /\
            sub (prefix ++ tail) 4 5 = [byte_of_Z (at_ prefix 4)] /\
            sub (prefix ++ tail) 5 6 = [byte_of_Z (at_ prefix 5)]) as Hpre.
  { intros tail. rewrite <- Hmagic, <- !at_sub by lia. unfold sub.
    rewrite !drop_app_le, !take_app_le by (rewrite ?length_drop; lia). done. }
  unfold caps_valid, hello_wf, Version4, Version5, Version6, Version7, ModeStream, ModeDatagram.
  pose proof (at_range prefix 4) as R4. pose proof (at_range prefix 5) as R5.
  case_bool_decide as E4; [|case_bool_decide as E5;
    [|destruct (bool_decide (at_ prefix 4 = 6) || bool_decide (at_ prefix 4 = 7)) eqn:E67]].
  all: try discriminate.
  all: intros ([tail r1] & Hr & H)%result_bind_ok.
  all: destruct (ReadFull r _) as [[tail' r2]|] eqn:HF; [|discriminate].
  all: simpl in Hr; injection Hr as -> ->.
  all: repeat match type of H with (if ?b then _ else _) = _ =>
         destruct b eqn:?; [discriminate|] end.
  all: injection H as <- <- <- <-.
  all: destruct (HRF _ _ HF) as [Htl Hdata]; destruct (Hpre tail) as (P0 & P4 & P5).
  all: set (hd := prefix ++ tail) in *.
  all: assert (length hd = (6 + length tail)%nat) as Hhd by (unfold hd; rewrite length_app; lia).
  all: cbn [Version SessionID LegID Mode Timestamp Nonce Capabilities Destination].
  all: assert (at_ hd 4 = at_ prefix 4 /\ at_ hd 5 = at_ prefix 5) as [A4 A5]
    by (unfold hd, at_; rewrite !lookup_app_l by lia; done).
  all: split_and!; try done; try (rewrite length_sub; lia); try apply i64_range;
    try apply at_range; try apply be_get_range;
    try (apply be_get_sub_u16; lia); try (apply be_get_sub_u32; lia).
  all: try (rewrite ?(bool_decide_eq_false_2 (at_ prefix 4 = 6)),
      ?(bool_decide_eq_false_2 (at_ prefix 4 = 7)) by lia; done).
  all: try (bool_prop; lia).
  all: try (match goal with |- (if _ then _ else _) = true =>
         apply orb_true_iff in E67; rewrite !bool_decide_eq_true in E67;
         destruct E67 as [E|E]; rewrite E in *; simpl in *;
         rewrite andb_true_iff, !negb_true_iff; apply orb_false_iff; done end).
  (* the bytes of the header are the fields, in order *)
  all: intros d Hd; unfold hello_header, with_destination;
    cbn [Version SessionID LegID Mode Timestamp Nonce Capabilities Destination];
    rewrite Hd, be_put_i64 by (apply be_get_sub_u64; lia).
  - rewrite E4. decide_version. unfold Version4. rewrite <- E4, <- A4, <- A5, <- at_sub2 by lia.
    rewrite !put_get_sub by lia. rewrite <- P0, !sub_sub_app by lia. apply sub_all. lia.
  - rewrite E5. decide_version. unfold Version5. rewrite <- E5, <- A4, <- A5, <- at_sub3 by lia.
    rewrite !put_get_sub by lia. rewrite <- P0, !sub_sub_app by lia. apply sub_all. lia.
  - unfold Version6, Version7. rewrite bool_decide_eq_false_2, E67 by done.
     rewrite <- A4, <- A5, <- at_sub3 by lia.
    rewrite !put_get_sub by lia. rewrite <- P0, !sub_sub_app by lia. apply sub_all. lia.
Qed.

(** ** The handshake theorems *)

Lemma with_destination_id h : with_destination h (Destination h) = h.
Proof. by destruct h. Qed.

(** C29. Encode/decode round trip.  A HELLO that [EncodeHelloParts] accepts and
    whose timestamp is inside the freshness window is read back by [ReadHelloAt]
    unchanged, and the reader is left just after it, for every version. *)
Theorem hello_roundtrip h password header destination mac now rest e :
  hello_wf h ->
  EncodeHelloParts h password = Ok (header, destination, mac) ->
  hello_stale (Timestamp h) now = false ->
  ReadHelloAt (MkReader (header ++ destination ++ mac ++ rest) e) password now
  = Ok (h, MkReader rest e).
Proof.
  intros Hwf HE Hfresh. apply EncodeHelloParts_ok_inv in HE as (Hp & Hv & [= -> -> ->]).
  unfold ReadHelloAt. rewrite bool_decide_eq_false_2 by done.
  pose proof (length_hello_header h Hwf) as Hlen.
  assert (6 <= length (hello_header h))%nat as H6.
  { rewrite Hlen. unfold hello_size. repeat case_match; lia. }
  rewrite <- (take_drop 6 (hello_header h)) at 1. rewrite <- app_assoc.
  rewrite ReadFull_app by (rewrite length_take; lia). cbn [lift_io result_bind].
  assert (sub (take 6 (hello_header h)) 0 4 = helloMagic) as ->.
  { unfold hello_header. repeat case_match; done. }
  rewrite bool_decide_eq_false_2 by (intros H; by apply H).
  rewrite read_hello_header_encoded by done. cbn [result_bind].
  cbn [with_destination Timestamp]. rewrite Hfresh.
  destruct Hv as (Hd & _). assert (0 < slen (Destination h)) as Hpos.
  { unfold slen. destruct (Destination h); [done|simpl; lia]. }
  rewrite bool_decide_eq_false_2 by lia.
  rewrite ReadFull_app by (unfold slen; lia). cbn [lift_io result_bind].
  rewrite ReadFull_app by apply Sha256.length_hmac. cbn [lift_io result_bind].
  rewrite bool_decide_eq_false_2 by (intros H; by apply H).
  by destruct h.
Qed.

Definition sample_hello : Hello :=
  MkHello Version7 (replicate 16 x11) 3 ModeStream 1700000000 (replicate 16 x22)
    (Z.lor StreamCapabilityPathRTT StreamCapabilityCoordinatedDrain) (str "example.com:443").

Definition sample_parts : bytes * bytes * bytes :=
  (hello_header sample_hello, Destination sample_hello,
   Sha256.hmac (str "pw") (hello_header sample_hello ++ Destination sample_hello)).

Lemma sample_hello_wf : hello_wf sample_hello.
Proof. unfold hello_wf, is_u8, is_i64, is_u32. vm_compute. intuition discriminate. Qed.

Lemma sample_hello_encodes : EncodeHelloParts sample_hello (str "pw") = Ok sample_parts.
Proof. reflexivity. Qed.

Lemma hello_roundtrip_witness :
  let '(header, destination, mac) := sample_parts in
  EncodeHelloParts sample_hello (str "pw") = Ok (header, destination, mac) /\
  ReadHelloAt (MkReader (header ++ destination ++ mac ++ str "tail") io_EOF) (str "pw")
    (time_Unix 1700000089) = Ok (sample_hello, MkReader (str "tail") io_EOF).
Proof.
  split; [exact sample_hello_encodes|].
  apply hello_roundtrip; [exact sample_hello_wf|exact sample_hello_encodes|vm_compute; done].
Defined.

(** C30. Authenticity and canonicity.  Whatever [ReadHelloAt] accepts is
    byte-for-byte the encoding of the HELLO it returns under the same password
    (so the MAC covers every field), the HELLO is well-formed for its version,
    and its timestamp passed the freshness test. *)
Theorem ReadHelloAt_sound r password now h r' :
  ReadHelloAt r password now = Ok (h, r') ->
  hello_wf h /\ hello_stale (Timestamp h) now = false /\
  exists header destination mac,
    EncodeHelloParts h password = Ok (header, destination, mac) /\
    rd_data r = header ++ destination ++ mac ++ rd_data r'.
Proof.
  unfold ReadHelloAt. case_bool_decide as Hp; [done|].
  intros ([prefix r1] & H1 & H)%result_bind_ok.
  destruct (ReadFull r 6) as [[? ?]|] eqn:F1; [|done]. simpl in H1. simplify_eq.
  apply ReadFull_ok in F1 as (D1 & L1 & _).
  case_bool_decide as Hm; [done|].
  apply result_bind_ok in H as ([[[header h0] n] r2] & H2 & H).
  apply read_hello_header_sound in H2 as (Hwf & _ & Hn & Hcv & Hmv & Hdata & Hhdr); [|done..].
  destruct (hello_stale _ _) eqn:Hst; [done|].
  case_bool_decide as Hn0; [done|].
  apply result_bind_ok in H as ([d r3] & H3 & H).
  destruct (ReadFull r2 _) as [[? ?]|] eqn:F2; [|done]. simpl in H3. simplify_eq.
  apply ReadFull_ok in F2 as (D2 & L2 & _).
  apply result_bind_ok in H as ([m r4] & H4 & H).
  destruct (ReadFull r3 _) as [[? ?]|] eqn:F3; [|done]. simpl in H4. simplify_eq.
  apply ReadFull_ok in F3 as (D3 & L3 & _).
  case_bool_decide as Hmac; [done|]. simplify_eq.
  assert (slen d = n) as Hsl by (unfold slen; lia).
  split_and!; [by destruct h0|done|].
  assert (hello_valid (with_destination h0 d)) as Hval.
  { split_and!; simpl; [|lia|done|by destruct h0].
    intros ->. unfold slen in Hsl. simpl in Hsl. lia. }
  rewrite EncodeHelloParts_valid by done. rewrite (Hhdr d Hsl).
  eexists _, _, _. split; [done|].
  rewrite D1, Hdata, D2, D3. done.
Qed.

(** The golden v4 fixture, read at its own time. *)
Definition golden_session : bytes := unhex "00112233445566778899aabbccddeeff".
Definition golden_nonce : bytes := unhex "102132435465768798a9bacbdcedfe0f".
Definition golden_hello (version leg mode : Z) (destination : bytes) : Hello :=
  MkHello version golden_session leg mode 1700000000 golden_nonce 0 destination.
Definition golden_v4_leg0_ipv4 : Reader := MkReader (unhex "534d5033040000112233445566778899aabbccddeeff000000006553f100102132435465768798a9bacbdcedfe0f000d3139322e302e322e313a343433b7bf7cc19ea7fcc0d4504bac0f19c43a8370b9019d8f5b961d7425c6de8fdac7") io_EOF.

Lemma golden_v4_leg0_ipv4_read :
  ReadHelloAt golden_v4_leg0_ipv4 (str "golden-password") (time_Unix 1700000000)
  = Ok (golden_hello 4 0 ModeStream (str "192.0.2.1:443"), MkReader [] io_EOF).
Proof. vm_compute. reflexivity. Qed.

Lemma ReadHelloAt_sound_witness :
  exists header destination mac,
    EncodeHelloParts (golden_hello 4 0 ModeStream (str "192.0.2.1:443"))
      (str "golden-password") = Ok (header, destination, mac) /\
    rd_data golden_v4_leg0_ipv4 = header ++ destination ++ mac ++ [].
Proof.
  destruct (ReadHelloAt_sound _ _ _ _ _ golden_v4_leg0_ipv4_read) as (_ & _ & H). exact H.
Defined.

(** Rejection.  An encoded HELLO outside the freshness window is refused as
    stale, and one whose MAC has been altered is refused as unauthenticated. *)
Theorem hello_rejections h password header destination mac now rest e :
  hello_wf h ->
  EncodeHelloParts h password = Ok (header, destination, mac) ->
  (hello_stale (Timestamp h) now = true ->
   ReadHelloAt (MkReader (header ++ destination ++ mac ++ rest) e) password now
   = Err errStaleHello) /\
  (forall mac', length mac' = Sha256.Size -> mac' <> mac ->
   hello_stale (Timestamp h) now = false ->
   ReadHelloAt (MkReader (header ++ destination ++ mac' ++ rest) e) password now
   = Err errInvalidAuthentication).
Proof.
  intros Hwf HE. apply EncodeHelloParts_ok_inv in HE as (Hp & Hv & [= -> -> ->]).
  pose proof (length_hello_header h Hwf) as Hlen.
  assert (6 <= length (hello_header h))%nat as H6.
  { rewrite Hlen. unfold hello_size. repeat case_match; lia. }
  assert (0 < slen (Destination h)) as Hpos.
  { destruct Hv as (Hd & _). unfold slen. destruct (Destination h); [done|simpl; lia]. }
  assert (forall tail, ReadFull (MkReader (hello_header h ++ tail) e) 6
    = Ok (take 6 (hello_header h), MkReader (drop 6 (hello_header h) ++ tail) e)) as HR.
  { intros tail. rewrite <- (take_drop 6 (hello_header h)) at 1. rewrite <- app_assoc.
    apply ReadFull_app. rewrite length_take. lia. }
  assert (sub (take 6 (hello_header h)) 0 4 = helloMagic) as Hm.
  { unfold hello_header. repeat case_match; done. }
  split; [intros Hst|intros mac' Hl Hne Hst]; unfold ReadHelloAt;
    rewrite bool_decide_eq_false_2, HR by done; cbn [lift_io result_bind];
    rewrite Hm, bool_decide_eq_false_2 by (intros H; by apply H);
    rewrite read_hello_header_encoded by done; cbn [result_bind with_destination Timestamp];
    rewrite Hst; [done|].
  rewrite bool_decide_eq_false_2 by lia.
  rewrite ReadFull_app by (unfold slen; lia). cbn [lift_io result_bind].
  rewrite ReadFull_app by done. cbn [lift_io result_bind].
  by rewrite bool_decide_eq_true_2.
Qed.

Lemma hello_rejections_witness :
  let '(header, destination, mac) := sample_parts in
  ReadHelloAt (MkReader (header ++ destination ++ mac ++ []) io_EOF) (str "pw")
    (time_Unix 1700000091) = Err errStaleHello.
Proof.
  apply (hello_rejections sample_hello (str "pw")).
  - exact sample_hello_wf.
  - exact sample_hello_encodes.
  - vm_compute. done.
Defined.

(** The freshness window is exactly 90 seconds either side, and the wrap of
    [time.Unix]'s internal addition does not open it: for a receiver clock at
    second [s] of any plausible epoch, a timestamp is accepted precisely when it
    is within 90 seconds of [s]. *)
Theorem hello_freshness_window timestamp s :
  is_i64 timestamp -> 0 <= s < 2 ^ 40 ->
  hello_stale timestamp (time_Unix s) = false <-> Z.abs (timestamp - s) <= 90.
Proof.
  intros Ht Hs. unfold hello_stale, before, after, time_add, helloSkew.
  rewrite orb_false_iff, !bool_decide_eq_false. unfold time_Unix, Second, unixToInternal.
  rewrite (i64_small (s + _)) by (unfold is_i64; lia).
  assert (i64 (timestamp + 62135596800) = timestamp + 62135596800 \/
          i64 (timestamp + 62135596800) = timestamp + 62135596800 - 2 ^ 64 /\
          2 ^ 63 <= timestamp + 62135596800) as Hw.
  { unfold i64, is_i64 in *.
    destruct (decide (timestamp + 62135596800 + 2 ^ 63 < 2 ^ 64)).
    - left. rewrite Z.mod_small; lia.
    - right. split; [|lia]. replace (timestamp + 62135596800 + 2 ^ 63)
        with ((timestamp + 62135596800 - 2 ^ 63) + 1 * 2 ^ 64) by lia.
      rewrite Z.mod_add by lia. rewrite Z.mod_small; lia. }
  unfold is_i64 in Ht. destruct Hw as [-> | [-> ?]]; lia.
Qed.

Lemma hello_freshness_window_witness :
  hello_stale 1700000090 (time_Unix 1700000000) = false /\
  hello_stale (2 ^ 63 - 1) (time_Unix 1700000000) = true.
Proof.
  split.
  - apply hello_freshness_window; unfold is_i64; lia.
  - destruct (hello_stale (2 ^ 63 - 1) (time_Unix 1700000000)) eqn:H; [done|].
    apply hello_freshness_window in H; unfold is_i64; lia.
Defined.

(** The golden HELLO fixtures of the repository: the encoder produces them. *)
Definition hello_wire (h : Hello) (password : bytes) : option bytes :=
  match EncodeHelloParts h password with
  | Ok (header, destination, mac) => Some (header ++ destination ++ mac)
  | Err _ => None
  end.

Example golden_v4_leg1_ipv6 :
  hello_wire (golden_hello 4 1 ModeStream (str "[2001:db8::1]:8443")) (str "golden-password")
  = Some (unhex "534d5033040100112233445566778899aabbccddeeff000000006553f100102132435465768798a9bacbdcedfe0f00125b323030313a6462383a3a315d3a38343433219ce2f74dfc707f7efaab13514c8a76119a6a27a25b7956a26f5cfcfea0f037").
Proof. vm_compute. reflexivity. Qed.

Example golden_v5_leg0_domain :
  hello_wire (golden_hello 5 0 ModeDatagram (str "example.com:443")) (str "golden-password")
  = Some (unhex "534d503305000100112233445566778899aabbccddeeff000000006553f100102132435465768798a9bacbdcedfe0f000f6578616d706c652e636f6d3a343433adf461fca547a727d6412e20c4524b81a327b155e47b4ec76263bb9682e5028f").
Proof. vm_compute. reflexivity. Qed.
