(* ===== verification/PathProtocol.v ===== *)
(** * Carrier authentication: READY, RTT and drain messages

    [core/stream_path_protocol.go].  The server answers a v6/v7 HELLO with an
    authenticated READY that selects a subset of the offered capabilities; both
    ends derive from it the opaque [StreamPathAuth] whose keys authenticate the
    RTT probes and the coordinated-drain messages of that carrier.  The theorems
    show that the two ends agree on the whole capability, that nothing outside
    the offer can be selected, and that the three codecs are canonical. *)

From S2P Require Import Prelude Bytes Sha256 Wire Hello.
From Stdlib Require String.
From stdpp Require Import options.

(** ** Data *)

Record StreamReadyV2 := MkReady {
  rdy_SessionID : bytes;
  rdy_LegID : Z;
  rdy_Mode : Z;
  rdy_Capabilities : Z;
  rdy_ServerNonce : bytes (* [16]byte *)
}.

Record StreamPathAuth := MkAuth {
  au_sessionID : bytes;
  au_legID : Z;
  au_capabilities : Z;
  au_probeKey : bytes;     (* [32]byte *)
  au_drainKey : bytes;     (* [32]byte *)
  au_drainBinding : bytes; (* [16]byte *)
  au_authenticated : bool;
  au_handshakeRTT : duration;
  au_handshakeAt : time
}.
#[export] Instance StreamPathAuth_fields : Fields StreamPathAuth := fun a =>
  MkAuth (au_sessionID a) (au_legID a) (au_capabilities a) (au_probeKey a) (au_drainKey a)
    (au_drainBinding a) (au_authenticated a) (au_handshakeRTT a) (au_handshakeAt a).

Definition zero_bytes (n : nat) : bytes := replicate n x00.
(** [StreamPathAuth{}] *)
Definition zero_auth : StreamPathAuth :=
  MkAuth (zero_bytes 16) 0 0 (zero_bytes 32) (zero_bytes 32) (zero_bytes 16) false 0 zero_time.

Record StreamPathBinding := MkBinding {
  bd_SessionID : bytes;
  bd_LegID : Z;
  bd_CarrierID : bytes; (* string *)
  bd_Generation : Z     (* uint64 *)
}.
#[export] Instance StreamPathBinding_eq_dec : EqDecision StreamPathBinding.
Proof. solve_decision. Defined.

Definition StreamRTTProbe : Z := 1.
Definition StreamRTTEcho : Z := 2.
Definition StreamRTTClientToServer : Z := 1.
Definition StreamRTTServerToClient : Z := 2.
Definition StreamPathRoleClient : Z := 1.
Definition StreamPathRoleServer : Z := 2.

Record StreamPathIdentity := MkIdentity {
  id_SessionID : bytes;
  id_LegID : Z;
  id_CarrierID : bytes;
  id_Generation : Z;
  id_Direction : Z
}.
#[export] Instance StreamPathIdentity_eq_dec : EqDecision StreamPathIdentity.
Proof. solve_decision. Defined.

Definition binding (i : StreamPathIdentity) : StreamPathBinding :=
  MkBinding (id_SessionID i) (id_LegID i) (id_CarrierID i) (id_Generation i).

Record StreamRTTMessage := MkRTT {
  rtt_Kind : Z;
  rtt_Identity : StreamPathIdentity;
  rtt_Token : Z (* uint64 *)
}.
#[export] Instance StreamRTTMessage_eq_dec : EqDecision StreamRTTMessage.
Proof. solve_decision. Defined.

Definition StreamDrainIntent : Z := 1.
Definition StreamDrainQuiesced : Z := 2.
Definition StreamDrainReady : Z := 3.
Definition StreamDrainCommit : Z := 4.
Definition StreamDrainCommitAck : Z := 5.
Definition StreamDrainAbort : Z := 6.

Record StreamDrainMessage := MkDrain {
  dr_Kind : Z;
  dr_SenderRole : Z;
  dr_SessionID : bytes;
  dr_TargetLeg : Z;
  dr_Generation : Z;
  dr_TargetBinding : bytes;
  dr_OperationID : bytes;
  dr_Counter : Z;
  dr_AckedNext : Z;
  dr_OutstandingFrames : Z; (* uint32 *)
  dr_OutstandingBytes : Z
}.
#[export] Instance StreamDrainMessage_eq_dec : EqDecision StreamDrainMessage.
Proof. solve_decision. Defined.

(** [a & b != 0] *)
Definition has_cap (caps bit : Z) : bool := negb (caps_without caps bit).

(** ** The opaque capability *)

Definition CoordinatedDrainEnabled (a : StreamPathAuth) : bool :=
  au_authenticated a && has_cap (au_capabilities a) StreamCapabilityCoordinatedDrain.

Definition PathRTTEnabled (a : StreamPathAuth) : bool :=
  au_authenticated a && has_cap (au_capabilities a) StreamCapabilityPathRTT.

Definition StreamRTTProbeTimeout : duration := 2 * Second.

Definition CarrierHandshakeRTT (a : StreamPathAuth) : duration * bool :=
  if negb (PathRTTEnabled a) || bool_decide (au_handshakeRTT a <= 0)
     || bool_decide (StreamRTTProbeTimeout <= au_handshakeRTT a) || is_zero (au_handshakeAt a)
  then (0, false) else (au_handshakeRTT a, true).

(** [time.Now()] is the argument [now]. *)
Definition WithCarrierHandshakeRTT (a : StreamPathAuth) (rtt : duration) (now : time)
  : StreamPathAuth * option proto_error :=
  if negb (PathRTTEnabled a) then (a, Some ErrStreamPathNegotiation) else
  if bool_decide (rtt <= 0) || bool_decide (StreamRTTProbeTimeout <= rtt)
  then (a, Some ErrStreamPathMessage) else
  (a <| au_handshakeRTT := rtt |> <| au_handshakeAt := now |>, None).

Definition carrierHandshakeSample (a : StreamPathAuth) : duration * time :=
  (au_handshakeRTT a, au_handshakeAt a).

Definition validFor (a : StreamPathAuth) (b : StreamPathBinding) : bool :=
  au_authenticated a && bool_decide (au_sessionID a = bd_SessionID b)
  && bool_decide (au_legID a = bd_LegID b)
  && has_cap (au_capabilities a) StreamCapabilityPathRTT
  && negb (caps_beyond (au_capabilities a) knownStreamCapabilities).

(** ** Validators *)

Definition validateStreamV6Hello (h : Hello) : option proto_error :=
  if bool_decide (Version h <> Version6) || bool_decide (Mode h <> ModeStream)
  then Some ErrStreamPathMessage else
  if caps_beyond (Capabilities h) StreamCapabilityPathRTT
     || caps_without (Capabilities h) StreamCapabilityPathRTT
  then Some errInvalidCapabilities else None.

Definition validateStreamPathHello (h : Hello) : option proto_error :=
  if bool_decide (Mode h <> ModeStream)
     || (bool_decide (Version h <> Version6) && bool_decide (Version h <> Version7))
     || caps_without (Capabilities h) StreamCapabilityPathRTT
  then Some ErrStreamPathMessage else
  if (bool_decide (Version h = Version6)
      && caps_beyond (Capabilities h) StreamCapabilityPathRTT)
     || (bool_decide (Version h = Version7)
         && caps_beyond (Capabilities h) knownStreamCapabilities)
  then Some errInvalidCapabilities else None.

Definition validateStreamReadyHello (h : Hello) : option proto_error :=
  if bool_decide (Version h = Version6) then validateStreamV6Hello h else
  if bool_decide (Version h <> Version7) || bool_decide (Mode h <> ModeStream)
     || caps_beyond (Capabilities h) knownStreamCapabilities
     || caps_without (Capabilities h) StreamCapabilityCoordinatedDrain
  then Some ErrStreamPathMessage else None.

Definition validSelectedStreamCapabilities (h : Hello) (selected : Z) : bool :=
  if caps_beyond selected (Capabilities h) || caps_beyond selected knownStreamCapabilities
  then false else
  if bool_decide (Version h = Version6)
  then negb (caps_beyond selected StreamCapabilityPathRTT) else
  bool_decide (Version h = Version7) && bool_decide (Mode h = ModeStream).

Definition validateStreamPathBinding (b : StreamPathBinding) : option proto_error :=
  if bool_decide (bd_CarrierID b = []) || bool_decide (bd_Generation b = 0)
  then Some ErrStreamPathMessage else None.

Definition validateStreamRTTMessage (m : StreamRTTMessage) : option proto_error :=
  match validateStreamPathBinding (binding (rtt_Identity m)) with
  | Some e => Some e
  | None =>
    if bool_decide (id_Direction (rtt_Identity m) <> StreamRTTClientToServer)
       && bool_decide (id_Direction (rtt_Identity m) <> StreamRTTServerToClient)
    then Some ErrStreamPathMessage else
    if (bool_decide (rtt_Kind m <> StreamRTTProbe) && bool_decide (rtt_Kind m <> StreamRTTEcho))
       || bool_decide (rtt_Token m = 0)
    then Some ErrStreamPathMessage else None
  end.

Definition validStreamDrainMessage (m : StreamDrainMessage) : bool :=
  if bool_decide (dr_Kind m < StreamDrainIntent) || bool_decide (StreamDrainAbort < dr_Kind m)
     || (bool_decide (dr_SenderRole m <> StreamPathRoleClient)
         && bool_decide (dr_SenderRole m <> StreamPathRoleServer))
     || bool_decide (dr_Generation m = 0) || bool_decide (dr_Counter m = 0)
  then false else
  if bool_decide (dr_TargetBinding m = zero_bytes 16)
     || bool_decide (dr_OperationID m = zero_bytes 16)
  then false else
  if (bool_decide (dr_Kind m = StreamDrainReady) || bool_decide (dr_Kind m = StreamDrainCommit)
      || bool_decide (dr_Kind m = StreamDrainCommitAck))
     && (bool_decide (dr_OutstandingFrames m <> 0) || bool_decide (dr_OutstandingBytes m <> 0))
  then false else true.

(** ** Message authentication codes and keys *)

Definition readyMagic (version : Z) : bytes :=
  if bool_decide (version = Version7) then str "SMP3RDY3" else str "SMP3RDY2".

Definition streamReadyV2MAC (h : Hello) (prefix password : bytes) : bytes :=
  Sha256.hmac password (str "SMP3-SIDECAR-READY-V2" ++ Nonce h ++ prefix).

Definition streamReadyMAC (h : Hello) (prefix password : bytes) : bytes :=
  if bool_decide (Version h = Version6) then streamReadyV2MAC h prefix password else
  Sha256.hmac password
    (str "SMP3-SIDECAR-READY-V3" ++ [byte_of_Z (Version h)] ++ Nonce h ++ prefix).

Definition deriveStreamPathProbeKey (h : Hello) (ready : StreamReadyV2) (password : bytes)
  : result proto_error bytes :=
  match validateStreamPathHello h with
  | Some e => Err e
  | None =>
    if bool_decide (password = []) then Err errEmptyPassword else
    if bool_decide (rdy_SessionID ready <> SessionID h)
       || bool_decide (rdy_LegID ready <> LegID h) || bool_decide (rdy_Mode ready <> ModeStream)
       || negb (validSelectedStreamCapabilities h (rdy_Capabilities ready))
    then Err ErrStreamPathMessage else
    if caps_without (rdy_Capabilities ready) StreamCapabilityPathRTT
    then Err ErrStreamPathNegotiation else
    Ok (Sha256.hmac password
          (str "SMP3-STREAM-PATH-KEY-V6" ++ SessionID h
           ++ [byte_of_Z (LegID h); byte_of_Z (Mode h)]
           ++ be_put 4 (rdy_Capabilities ready) ++ Nonce h ++ rdy_ServerNonce ready))
  end.

Definition deriveStreamDrainControlKey (h : Hello) (ready : StreamReadyV2) (password : bytes)
  : bytes :=
  Sha256.hmac password
    (str "SMP3-STREAM-DRAIN-CONTROL-KEY-V1"
     ++ [byte_of_Z (Version h); byte_of_Z (Mode h); byte_of_Z (LegID h)] ++ SessionID h
     ++ be_put 4 (rdy_Capabilities ready) ++ Nonce h ++ rdy_ServerNonce ready).

Definition streamRTTMessageMAC (key prefix : bytes) : bytes :=
  Sha256.hmac key (str "SMP3-STREAM-RTT-MESSAGE-V1" ++ prefix).

Definition streamDrainMessageMAC (key prefix : bytes) : bytes :=
  Sha256.hmac key (str "SMP3-STREAM-DRAIN-MESSAGE-V1" ++ prefix).

Definition makeStreamPathAuth (h : Hello) (ready : StreamReadyV2) (password : bytes)
  : result proto_error StreamPathAuth :=
  if bool_decide (rdy_SessionID ready <> SessionID h) || bool_decide (rdy_LegID ready <> LegID h)
     || bool_decide (rdy_Mode ready <> ModeStream)
     || negb (validSelectedStreamCapabilities h (rdy_Capabilities ready))
  then Err ErrStreamPathMessage else
  if bool_decide (rdy_Capabilities ready = 0) then Ok zero_auth else
  let? pathKey :=
    (if has_cap (rdy_Capabilities ready) StreamCapabilityPathRTT
     then deriveStreamPathProbeKey h ready password else Ok (zero_bytes 32)) in
  let? (drainKey, drainBinding) :=
    (if has_cap (rdy_Capabilities ready) StreamCapabilityCoordinatedDrain then
       if bool_decide (Version h <> Version7) || bool_decide (password = [])
       then Err errInvalidCapabilities else
       let drainKey := deriveStreamDrainControlKey h ready password in
       let bindingMAC := Sha256.hmac drainKey
             (str "SMP3-DRAIN-CARRIER-BINDING-V1" ++ SessionID h ++ [byte_of_Z (LegID h)]) in
       Ok (drainKey, take 16 bindingMAC)
     else Ok (zero_bytes 32, zero_bytes 16)) in
  Ok (MkAuth (SessionID h) (LegID h) (rdy_Capabilities ready) pathKey drainKey drainBinding
        true 0 zero_time).

(** ** READY *)

Definition streamReadyV2Size : nat := (8 + 16 + 1 + 1 + 4 + 16 + Sha256.Size)%nat.

Definition ready_prefix (h : Hello) (selected : Z) (serverNonce : bytes) : bytes :=
  readyMagic (Version h) ++ SessionID h ++ [byte_of_Z (LegID h); byte_of_Z (Mode h)]
    ++ be_put 4 selected ++ serverNonce.

Definition EncodeStreamReadyV2 (h : Hello) (selectedCapabilities : Z)
    (serverNonce password : bytes) : result proto_error bytes :=
  match validateStreamReadyHello h with
  | Some e => Err e
  | None =>
    if bool_decide (password = []) then Err errEmptyPassword else
    if negb (validSelectedStreamCapabilities h selectedCapabilities)
    then Err errInvalidCapabilities else
    let prefix := ready_prefix h selectedCapabilities serverNonce in
    Ok (prefix ++ streamReadyMAC h prefix password)
  end.

Definition ReadStreamReadyV2 (r : Reader) (expected : Hello) (password : bytes)
  : result proto_error (StreamReadyV2 * StreamPathAuth * Reader) :=
  match validateStreamReadyHello expected with
  | Some e => Err e
  | None =>
    if bool_decide (password = []) then Err errEmptyPassword else
    let? (wire, r) := lift_io (ReadFull r streamReadyV2Size) in
    if bool_decide (sub wire 46 streamReadyV2Size
                    <> streamReadyMAC expected (sub wire 0 46) password)
    then Err errInvalidAuthentication else
    if bool_decide (sub wire 0 8 <> readyMagic (Version expected))
       || bool_decide (sub wire 8 24 <> SessionID expected)
       || bool_decide (at_ wire 24 <> LegID expected) || bool_decide (at_ wire 25 <> Mode expected)
    then Err ErrStreamPathMessage else
    let selected := be_get (sub wire 26 30) in
    if negb (validSelectedStreamCapabilities expected selected)
    then Err errInvalidCapabilities else
    let ready := MkReady (SessionID expected) (LegID expected) (Mode expected) selected
                   (sub wire 30 46) in
    let? auth := makeStreamPathAuth expected ready password in
    Ok (ready, auth, r)
  end.

(** [WriteStreamReadyV2] is this function at a nonce drawn from [crypto/rand]. *)
Definition writeStreamReadyV2WithNonce (w : Writer) (h : Hello) (selectedCapabilities : Z)
    (serverNonce password : bytes) : result proto_error StreamPathAuth * Writer :=
  match EncodeStreamReadyV2 h selectedCapabilities serverNonce password with
  | Err e => (Err e, w)
  | Ok wire =>
    match writeProtocolFull w wire with
    | (Some e, w) => (Err (ErrIO e), w)
    | (None, w) =>
      let ready := MkReady (SessionID h) (LegID h) (Mode h) selectedCapabilities serverNonce in
      (makeStreamPathAuth h ready password, w)
    end
  end.

(** ** RTT messages *)

Definition streamRTTMessageMagic : bytes := str "SMP3RTT1".

Definition rtt_prefix (m : StreamRTTMessage) : bytes :=
  streamRTTMessageMagic
    ++ [byte_of_Z 1; byte_of_Z (rtt_Kind m); byte_of_Z (id_Direction (rtt_Identity m));
        byte_of_Z (id_LegID (rtt_Identity m))]
    ++ id_SessionID (rtt_Identity m) ++ be_put 8 (rtt_Token m).

Definition encodeStreamRTTMessage (m : StreamRTTMessage) (key : bytes)
  : result proto_error bytes :=
  match validateStreamRTTMessage m with
  | Some e => Err e
  | None => Ok (rtt_prefix m ++ streamRTTMessageMAC key (rtt_prefix m))
  end.

Definition decodeStreamRTTMessage (wire key : bytes) (expected : StreamPathBinding)
  : result proto_error StreamRTTMessage :=
  match validateStreamPathBinding expected with
  | Some e => Err e
  | None =>
    if bool_decide (length wire <> StreamRTTMessageSize)
       || bool_decide (sub wire 0 8 <> streamRTTMessageMagic) || bool_decide (at_ wire 8 <> 1)
    then Err ErrStreamPathMessage else
    if bool_decide (sub wire 36 StreamRTTMessageSize <> streamRTTMessageMAC key (sub wire 0 36))
    then Err errInvalidAuthentication else
    let kind := at_ wire 9 in
    let direction := at_ wire 10 in
    let legID := at_ wire 11 in
    let sessionID := sub wire 12 28 in
    let token := be_get (sub wire 28 36) in
    if (bool_decide (kind <> StreamRTTProbe) && bool_decide (kind <> StreamRTTEcho))
       || (bool_decide (direction <> StreamRTTClientToServer)
           && bool_decide (direction <> StreamRTTServerToClient))
       || bool_decide (legID <> bd_LegID expected)
       || bool_decide (sessionID <> bd_SessionID expected) || bool_decide (token = 0)
    then Err ErrStreamPathMessage else
    Ok (MkRTT kind
          (MkIdentity (bd_SessionID expected) (bd_LegID expected) (bd_CarrierID expected)
             (bd_Generation expected) direction) token)
  end.

(** ** Drain messages *)

Definition streamDrainControlMagic : bytes := str "SMP3DRN1".

Definition drain_prefix (m : StreamDrainMessage) : bytes :=
  streamDrainControlMagic
    ++ [byte_of_Z 1; byte_of_Z (dr_Kind m); byte_of_Z (dr_SenderRole m); x00]
    ++ dr_SessionID m ++ [byte_of_Z (dr_TargetLeg m)] ++ be_put 8 (dr_Generation m)
    ++ dr_TargetBinding m ++ dr_OperationID m ++ be_put 8 (dr_Counter m)
    ++ be_put 8 (dr_AckedNext m) ++ be_put 4 (dr_OutstandingFrames m)
    ++ be_put 8 (dr_OutstandingBytes m).

Definition EncodeDrainMessage (a : StreamPathAuth) (m : StreamDrainMessage)
  : result proto_error bytes :=
  if negb (CoordinatedDrainEnabled a) || bool_decide (dr_SessionID m <> au_sessionID a)
     || negb (validStreamDrainMessage m)
  then Err ErrStreamDrainNegotiation else
  Ok (drain_prefix m ++ streamDrainMessageMAC (au_drainKey a) (drain_prefix m)).

Definition DecodeDrainMessage (a : StreamPathAuth) (wire : bytes) (expectedPeerRole : Z)
  : result proto_error StreamDrainMessage :=
  if negb (CoordinatedDrainEnabled a)
     || bool_decide (length wire <> StreamDrainControlMessageSize)
     || bool_decide (sub wire 0 8 <> streamDrainControlMagic) || bool_decide (at_ wire 8 <> 1)
  then Err ErrStreamDrainMessage else
  if bool_decide (at_ wire 11 <> 0) then Err ErrStreamDrainMessage else
  if bool_decide (sub wire 97 StreamDrainControlMessageSize
                  <> streamDrainMessageMAC (au_drainKey a) (sub wire 0 97))
  then Err errInvalidAuthentication else
  let m := MkDrain (at_ wire 9) (at_ wire 10) (sub wire 12 28) (at_ wire 28)
             (be_get (sub wire 29 37)) (sub wire 37 53) (sub wire 53 69)
             (be_get (sub wire 69 77)) (be_get (sub wire 77 85)) (be_get (sub wire 85 89))
             (be_get (sub wire 89 97)) in
  if bool_decide (dr_SessionID m <> au_sessionID a)
     || bool_decide (dr_SenderRole m <> expectedPeerRole)
     || negb (validStreamDrainMessage m)
  then Err ErrStreamDrainMessage else Ok m.

(** ** Capability selection *)

(** [selected &^ offered == 0] is bitwise inclusion. *)
Lemma caps_beyond_false s m :
  caps_beyond s m = false <-> forall i, 0 <= i -> Z.testbit s i = true -> Z.testbit m i = true.
Proof.
  unfold caps_beyond. rewrite bool_decide_eq_false. split.
  - intros H%dec_stable i Hi Hs.
    assert (Z.testbit (Z.ldiff s m) i = false) as E by (rewrite H; apply Z.bits_0).
    rewrite Z.ldiff_spec, Hs in E. by destruct (Z.testbit m i).
  - intros H Hne. apply Hne, Z.bits_inj'. intros i Hi. rewrite Z.ldiff_spec, Z.bits_0.
    destruct (Z.testbit s i) eqn:Hs; [|done]. by rewrite (H i Hi Hs).
Qed.

(** A one-bit capability is present iff its bit is set. *)
Lemma has_cap_bit caps n :
  0 <= n -> has_cap caps (Z.shiftl 1 n) = Z.testbit caps n.
Proof.
  intros Hn. unfold has_cap, caps_without. rewrite Z.shiftl_1_l.
  destruct (Z.testbit caps n) eqn:Hb.
  - apply negb_true_iff, bool_decide_eq_false. intros H.
    assert (Z.testbit (Z.land caps (2 ^ n)) n = false) as E by (rewrite H; apply Z.bits_0).
    rewrite Z.land_spec, Hb, Z.pow2_bits_true in E by done. done.
  - apply negb_false_iff, bool_decide_eq_true. apply Z.bits_inj'. intros i Hi.
    rewrite Z.land_spec, Z.bits_0, Z.pow2_bits_eqb by done.
    destruct (Z.eqb_spec n i) as [->|]; [by rewrite Hb|apply andb_false_r].
Qed.

Lemma has_cap_mono s m n :
  0 <= n -> caps_beyond s m = false -> has_cap s (Z.shiftl 1 n) = true ->
  has_cap m (Z.shiftl 1 n) = true.
Proof. intros Hn Hs. rewrite !has_cap_bit by done. by apply caps_beyond_false. Qed.

Lemma validSelected_inv h s :
  validSelectedStreamCapabilities h s = true ->
  caps_beyond s (Capabilities h) = false /\ caps_beyond s knownStreamCapabilities = false /\
  (Version h = Version6 /\ caps_beyond s StreamCapabilityPathRTT = false \/
   Version h = Version7 /\ Mode h = ModeStream).
Proof.
  unfold validSelectedStreamCapabilities. intros H.
  destruct (_ || _) eqn:E; [done|]. bool_prop.
  case_bool_decide; bool_prop; tauto.
Qed.

Lemma validateStreamReadyHello_inv h :
  validateStreamReadyHello h = None ->
  Mode h = ModeStream /\
  (Version h = Version6 /\ caps_beyond (Capabilities h) StreamCapabilityPathRTT = false \/
   Version h = Version7 /\ caps_beyond (Capabilities h) knownStreamCapabilities = false).
Proof.
  unfold validateStreamReadyHello, validateStreamV6Hello. intros H.
  repeat split_match_in H; try done; bool_prop; split; try tauto;
    match goal with |- Mode h = _ => by apply dec_stable | _ => idtac end.
  right. split; [by apply dec_stable|done].
Qed.

(** Deriving the probe key cannot fail when the selection contains it. *)
Lemma deriveStreamPathProbeKey_total h sel nonce password :
  validateStreamReadyHello h = None -> password <> [] ->
  validSelectedStreamCapabilities h sel = true ->
  has_cap sel StreamCapabilityPathRTT = true ->
  exists key,
    deriveStreamPathProbeKey h (MkReady (SessionID h) (LegID h) (Mode h) sel nonce) password
    = Ok key.
Proof.
  intros Hh Hp Hs HP. pose proof (validateStreamReadyHello_inv _ Hh) as [HM HV].
  pose proof (validSelected_inv _ _ Hs) as (Hoff & _ & _).
  pose proof (has_cap_mono _ _ 0 ltac:(lia) Hoff HP) as HPh.
  change (Z.shiftl 1 0) with StreamCapabilityPathRTT in HPh.
  unfold has_cap in HP, HPh. apply negb_true_iff in HP, HPh.
  unfold deriveStreamPathProbeKey, validateStreamPathHello;
    cbn [rdy_SessionID rdy_LegID rdy_Mode rdy_Capabilities].
  rewrite Hs, HM, HP, HPh. rewrite (bool_decide_eq_false_2 (password = [])) by done.
  rewrite (bool_decide_ne_refl (SessionID h)), (bool_decide_ne_refl (LegID h)).
  destruct HV as [[HV HC]|[HV HC]]; rewrite HV, HC; decide_version; eauto.
Qed.

(** Deriving the capability cannot fail for a selection the validators accept. *)
Lemma makeStreamPathAuth_total h sel nonce password :
  validateStreamReadyHello h = None -> password <> [] ->
  validSelectedStreamCapabilities h sel = true ->
  exists auth,
    makeStreamPathAuth h (MkReady (SessionID h) (LegID h) (Mode h) sel nonce) password = Ok auth /\
    PathRTTEnabled auth = has_cap sel StreamCapabilityPathRTT /\
    CoordinatedDrainEnabled auth = has_cap sel StreamCapabilityCoordinatedDrain.
Proof.
  intros Hh Hp Hs. pose proof (validateStreamReadyHello_inv _ Hh) as [HM _].
  pose proof (validSelected_inv _ _ Hs) as (_ & _ & HVs).
  pose proof (deriveStreamPathProbeKey_total h sel nonce password Hh Hp Hs) as HK.
  unfold makeStreamPathAuth; cbn [rdy_SessionID rdy_LegID rdy_Mode rdy_Capabilities].
  rewrite Hs, (bool_decide_ne_refl (SessionID h)), (bool_decide_ne_refl (LegID h)).
  rewrite (bool_decide_eq_false_2 (Mode h <> ModeStream)) by (by intros E).
  cbn [orb negb]. case_bool_decide as Hz; [subst sel; by exists zero_auth|].
  rewrite (bool_decide_eq_false_2 (password = [])) by done. rewrite orb_false_r.
  assert (has_cap sel StreamCapabilityCoordinatedDrain = true -> Version h = Version7) as HV7.
  { intros HD. destruct HVs as [[_ HC6]|[HV7 _]]; [|done].
    by pose proof (has_cap_mono _ _ 1 ltac:(lia) HC6 HD). }
  unfold PathRTTEnabled, CoordinatedDrainEnabled.
  destruct (has_cap sel StreamCapabilityPathRTT) eqn:HP;
    [destruct HK as [key ->]; [done|]|];
    cbn [result_bind];
    (destruct (has_cap sel StreamCapabilityCoordinatedDrain) eqn:HD;
      [rewrite (bool_decide_eq_false_2 (Version h <> Version7)) by (rewrite HV7; auto)|]);
    cbn [result_bind]; eexists; (split; [reflexivity|]); cbn; by rewrite HP, HD.
Qed.

(** ** READY: layout *)

Lemma length_readyMagic v : length (readyMagic v) = 8%nat.
Proof. unfold readyMagic. by case_bool_decide. Qed.

Lemma length_streamReadyMAC h p pw : length (streamReadyMAC h p pw) = 32%nat.
Proof. unfold streamReadyMAC, streamReadyV2MAC. case_bool_decide; apply Sha256.length_hmac. Qed.

Lemma length_ready_prefix h sel nonce :
  length (SessionID h) = 16%nat -> length nonce = 16%nat ->
  length (ready_prefix h sel nonce) = 46%nat.
Proof. intros. unfold ready_prefix. pose proof (length_readyMagic (Version h)). lens. Qed.

#[global] Arguments readyMagic : simpl never.
#[global] Arguments ready_prefix : simpl never.

(** Reading back an encoded READY. *)
Lemma ReadStreamReadyV2_encoded h sel nonce pw wire auth rest e :
  hello_wf h -> length nonce = 16%nat -> is_u32 sel ->
  EncodeStreamReadyV2 h sel nonce pw = Ok wire ->
  makeStreamPathAuth h (MkReady (SessionID h) (LegID h) (Mode h) sel nonce) pw = Ok auth ->
  ReadStreamReadyV2 (MkReader (wire ++ rest) e) h pw
  = Ok (MkReady (SessionID h) (LegID h) (Mode h) sel nonce, auth, MkReader rest e).
Proof.
  intros (_ & HS & HL & HM & _ & _ & _) Hn Hsel HE HA.
  unfold EncodeStreamReadyV2 in HE. unfold ReadStreamReadyV2.
  destruct (validateStreamReadyHello h); [done|].
  destruct (bool_decide (pw = [])); [done|].
  destruct (validSelectedStreamCapabilities h sel) eqn:HV; [|done]. injection HE as <-.
  pose proof (length_ready_prefix h sel nonce HS Hn) as Hp.
  pose proof (length_streamReadyMAC h (ready_prefix h sel nonce) pw) as Hm.
  rewrite ReadFull_app by (rewrite length_app, Hp, Hm; done). cbn [lift_io result_bind].
  set (mac := streamReadyMAC _ _ _) in *.
  assert (sub (ready_prefix h sel nonce ++ mac) 46 streamReadyV2Size = mac) as ->
    by (unfold streamReadyV2Size, Sha256.Size; field_peel).
  assert (sub (ready_prefix h sel nonce ++ mac) 0 46 = ready_prefix h sel nonce) as -> by field_peel.
  unfold mac at 1; rewrite bool_decide_ne_refl. clearbody mac.
  pose proof (length_readyMagic (Version h)) as Hrm. unfold ready_prefix; rewrite <- !app_assoc.
  field_calc. rewrite !byte_to_of_small by done. rewrite !bool_decide_ne_refl. cbn [orb].
  rewrite be_get_put_small by exact Hsel. rewrite HV. cbn [negb]. by rewrite HA.
Qed.

(** C28. Handshake agreement.  Whatever the server's READY writer does on any
    carrier: if it succeeds, the bytes it put on the carrier make the client's
    [ReadStreamReadyV2] return the same selection and the very same capability
    (keys, carrier binding, session and leg), and leave the rest of the carrier
    untouched; if it fails, the cause is a HELLO or a selection the validators
    refuse, an empty password, or the carrier. *)
Theorem ready_agreement w h sel nonce pw rest e :
  hello_wf h -> length nonce = 16%nat -> is_u32 sel ->
  match writeStreamReadyV2WithNonce w h sel nonce pw with
  | (Ok auth, w') =>
    exists wire, wr_out w' = wr_out w ++ wire /\
      ReadStreamReadyV2 (MkReader (wire ++ rest) e) h pw
      = Ok (MkReady (SessionID h) (LegID h) (Mode h) sel nonce, auth, MkReader rest e)
  | (Err err, w') =>
    validateStreamReadyHello h = Some err \/ (pw = [] /\ err = errEmptyPassword) \/
    (validSelectedStreamCapabilities h sel = false /\ err = errInvalidCapabilities) \/
    exists io, err = ErrIO io
  end.
Proof.
  intros Hwf Hn Hs. unfold writeStreamReadyV2WithNonce.
  destruct (EncodeStreamReadyV2 h sel nonce pw) as [wire|err] eqn:HE.
  - unfold EncodeStreamReadyV2 in HE.
    destruct (validateStreamReadyHello h) eqn:Hv; [done|].
    destruct (bool_decide_reflect (pw = [])) as [|Hpw]; [done|].
    destruct (validSelectedStreamCapabilities h sel) eqn:Hsel; [|done].
    destruct (writeProtocolFull w wire) as [[io|] w'] eqn:HW; [by right; right; right; exists io|].
    destruct (makeStreamPathAuth_total h sel nonce pw Hv Hpw Hsel) as (auth & HA & _).
    rewrite HA. exists wire. split.
    + apply write_loop_spec in HW as (k & Ho & Hend); [|lia]. by rewrite Ho, Hend.
    + apply ReadStreamReadyV2_encoded; try done.
      unfold EncodeStreamReadyV2. rewrite Hv, Hsel, bool_decide_eq_false_2 by done. done.
  - unfold EncodeStreamReadyV2 in HE. repeat split_match_in HE; simplify_eq; bool_prop; auto.
Qed.

Definition example_hello : Hello :=
  MkHello Version7 (str "0123456789abcdef") 1 ModeStream 1700000000 (str "client-nonce-16b")
    knownStreamCapabilities (str "example.com:443").

Lemma example_ready_written :
  match writeStreamReadyV2WithNonce (MkWriter [] [(40, None)]) example_hello
          knownStreamCapabilities (str "server-nonce-16b") (str "pw") with
  | (Ok _, _) => true | _ => false end = true.
Proof. vm_compute. reflexivity. Qed.

Lemma ready_agreement_witness :
  exists auth w' wire,
    writeStreamReadyV2WithNonce (MkWriter [] [(40, None)]) example_hello
      knownStreamCapabilities (str "server-nonce-16b") (str "pw") = (Ok auth, w') /\
    ReadStreamReadyV2 (MkReader (wire ++ str "rest") io_EOF) example_hello (str "pw")
    = Ok (MkReady (str "0123456789abcdef") 1 ModeStream knownStreamCapabilities
            (str "server-nonce-16b"), auth, MkReader (str "rest") io_EOF).
Proof.
  pose proof (ready_agreement (MkWriter [] [(40, None)]) example_hello knownStreamCapabilities
    (str "server-nonce-16b") (str "pw") (str "rest") io_EOF) as H.
  pose proof example_ready_written as HO.
  destruct (writeStreamReadyV2WithNonce (MkWriter [] [(40, None)]) example_hello
    knownStreamCapabilities (str "server-nonce-16b") (str "pw")) as [[auth|] w']; [|done].
  destruct H as (wire & _ & HR);
    [unfold hello_wf; split_and!; done|done|done|]. eauto.
Defined.

(** No forged or inflated selection.  A READY the client accepts is byte
    for byte the server's encoding of the selection it reports, under the shared
    password; the selection is contained in what this HELLO offered, and the
    resulting capability enables exactly the selected features, coordinated
    drain only on a v7 session. *)
Theorem ReadStreamReadyV2_sound r h pw ready auth r' :
  ReadStreamReadyV2 r h pw = Ok (ready, auth, r') ->
  (exists wire, rd_data r = wire ++ rd_data r' /\ length wire = streamReadyV2Size /\
     EncodeStreamReadyV2 h (rdy_Capabilities ready) (rdy_ServerNonce ready) pw = Ok wire) /\
  (forall i, 0 <= i -> Z.testbit (rdy_Capabilities ready) i = true ->
     Z.testbit (Capabilities h) i = true /\ i < 2) /\
  PathRTTEnabled auth = Z.testbit (rdy_Capabilities ready) 0 /\
  CoordinatedDrainEnabled auth = Z.testbit (rdy_Capabilities ready) 1 /\
  (CoordinatedDrainEnabled auth = true -> Version h = Version7).
Proof.
  unfold ReadStreamReadyV2. intros H.
  destruct (validateStreamReadyHello h) eqn:Hv; [done|].
  destruct (bool_decide_reflect (pw = [])) as [|Hpw]; [done|].
  apply result_bind_ok in H as ([wire r1] & HF & H).
  destruct (ReadFull r streamReadyV2Size) as [[wire' r2]|] eqn:HRF; [|done].
  simpl in HF; injection HF as -> ->. apply ReadFull_ok in HRF as (Hd & Hlen & _).
  match type of H with (if bool_decide ?P then _ else _) = _ =>
    destruct (bool_decide_reflect P) as [|Hmac]; [done|] end.
  destruct (_ || _) eqn:Hf in H; [done|].
  destruct (validSelectedStreamCapabilities h (be_get (sub wire 26 30))) eqn:Hsel; [|done].
  simpl in H. apply result_bind_ok in H as (auth' & HA & H). injection H as <- <- <-.
  destruct (makeStreamPathAuth_total h (be_get (sub wire 26 30)) (sub wire 30 46) pw Hv Hpw Hsel)
    as (auth'' & HA' & HP & HD).
  rewrite HA in HA'. injection HA' as <-.
  pose proof (validSelected_inv _ _ Hsel) as (Hoff & Hkn & HVs).
  cbn [rdy_Capabilities rdy_ServerNonce].
  unfold StreamCapabilityPathRTT, StreamCapabilityCoordinatedDrain in HP, HD.
  rewrite has_cap_bit in HP, HD by lia.
  split_and!; try done.
  - exists wire. split; [done|]. split; [done|].
    unfold EncodeStreamReadyV2. rewrite Hv, Hsel, bool_decide_eq_false_2 by done. cbn [negb].
    apply dec_stable in Hmac. unfold streamReadyV2Size, Sha256.Size in *. simpl in Hlen.
    bool_prop. repeat match goal with H : ~ (_ <> _) |- _ => apply dec_stable in H end.
    assert (ready_prefix h (be_get (sub wire 26 30)) (sub wire 30 46) = sub wire 0 46) as ->.
    { unfold ready_prefix. rewrite put_get_sub by lia.
      match goal with H : at_ wire 24 = _ |- _ => rewrite <- H end.
      match goal with H : at_ wire 25 = _ |- _ => rewrite <- H end.
      match goal with H : sub wire 0 8 = _ |- _ => rewrite <- H end.
      match goal with H : sub wire 8 24 = _ |- _ => rewrite <- H end.
      rewrite <- at_sub2 by lia. by rewrite !sub_sub_app by lia. }
    f_equal. simpl in Hmac. rewrite <- Hmac, sub_sub_app by lia. by apply sub_all.
  - intros i Hi Hb. split; [by eapply caps_beyond_false in Hb|].
    assert (Z.testbit knownStreamCapabilities i = true) as Hk by (by eapply caps_beyond_false in Hb).
    change knownStreamCapabilities with 3 in Hk.
    destruct (decide (i < 2)) as [|Hge]; [done|].
    rewrite Z.bits_above_log2 in Hk; [done|lia|simpl; lia].
  - rewrite HD. intros Hb. destruct HVs as [[_ HC6]|[HV7 _]]; [|done].
    assert (Z.testbit StreamCapabilityPathRTT 1 = true) by (by eapply caps_beyond_false in Hb).
    done.
Qed.

Definition example_ready_reader : Reader :=
  MkReader (writeStreamReadyV2WithNonce (MkWriter [] []) example_hello StreamCapabilityPathRTT
    (str "server-nonce-16b") (str "pw")).2.(wr_out) io_EOF.

Lemma example_ready_read :
  match ReadStreamReadyV2 example_ready_reader example_hello (str "pw") with
  | Ok (ready, auth, _) => bool_decide (rdy_Capabilities ready = StreamCapabilityPathRTT)
  | Err _ => false end = true.
Proof. vm_compute. reflexivity. Qed.

Lemma ReadStreamReadyV2_sound_witness :
  exists ready auth r',
    ReadStreamReadyV2 example_ready_reader example_hello (str "pw") = Ok (ready, auth, r') /\
    PathRTTEnabled auth = true /\ CoordinatedDrainEnabled auth = false.
Proof.
  pose proof example_ready_read as HO.
  destruct (ReadStreamReadyV2 example_ready_reader example_hello (str "pw"))
    as [[[ready auth] r']|] eqn:H; [|done].
  destruct (ReadStreamReadyV2_sound _ _ _ _ _ _ H) as (_ & _ & HP & HD & _).
  exists ready, auth, r'. apply bool_decide_eq_true in HO.
  rewrite HP, HD, HO. repeat split.
Defined.

(** ** RTT messages *)

Definition identity_wf (i : StreamPathIdentity) : Prop :=
  length (id_SessionID i) = 16%nat /\ is_u8 (id_LegID i) /\ is_u8 (id_Direction i).
Definition rtt_wf (m : StreamRTTMessage) : Prop :=
  is_u8 (rtt_Kind m) /\ identity_wf (rtt_Identity m) /\ is_u64 (rtt_Token m).

#[global] Arguments rtt_prefix : simpl never.
#[global] Arguments drain_prefix : simpl never.

Lemma length_rtt_prefix m :
  length (id_SessionID (rtt_Identity m)) = 16%nat -> length (rtt_prefix m) = 36%nat.
Proof. intros. unfold rtt_prefix. pose proof (eq_refl : length streamRTTMessageMagic = 8%nat). lens. Qed.

(** The guards of [decodeStreamRTTMessage] and [validateStreamRTTMessage] agree
    on kind, direction and token. *)
Lemma validateStreamRTTMessage_None m :
  validateStreamRTTMessage m = None <->
  validateStreamPathBinding (binding (rtt_Identity m)) = None /\
  (rtt_Kind m = StreamRTTProbe \/ rtt_Kind m = StreamRTTEcho) /\
  (id_Direction (rtt_Identity m) = StreamRTTClientToServer \/
   id_Direction (rtt_Identity m) = StreamRTTServerToClient) /\ rtt_Token m <> 0.
Proof.
  unfold validateStreamRTTMessage, StreamRTTProbe, StreamRTTEcho, StreamRTTClientToServer,
    StreamRTTServerToClient.
  destruct (validateStreamPathBinding _); [naive_solver|].
  repeat split_match; bool_prop; split; try done; intros; try (split_and!; try done; lia); lia.
Qed.

Lemma rtt_decode_encoded m key wire :
  rtt_wf m -> encodeStreamRTTMessage m key = Ok wire ->
  length wire = StreamRTTMessageSize /\
  decodeStreamRTTMessage wire key (binding (rtt_Identity m)) = Ok m.
Proof.
  intros (HK & (HS & HL & HD) & HT). unfold encodeStreamRTTMessage.
  destruct (validateStreamRTTMessage m) eqn:Hv; [done|]. intros <-%Ok_inj.
  apply validateStreamRTTMessage_None in Hv as (Hb & Hk & Hdir & Ht).
  pose proof (length_rtt_prefix m HS) as Hp.
  assert (length (streamRTTMessageMAC key (rtt_prefix m)) = 32%nat) as Hm
    by apply Sha256.length_hmac.
  split; [rewrite length_app, Hp, Hm; done|].
  unfold decodeStreamRTTMessage. rewrite Hb. remember (rtt_prefix m) as p eqn:Ep.
  set (mac := streamRTTMessageMAC _ _) in *.
  assert (sub (p ++ mac) 36 StreamRTTMessageSize = mac) as ->
    by (unfold StreamRTTMessageSize; field_peel).
  assert (sub (p ++ mac) 0 36 = p) as -> by field_peel.
  rewrite (bool_decide_eq_false_2 (length _ <> _))
    by (rewrite length_app, Hp, Hm; intros E; by apply E).
  rewrite (bool_decide_ne_refl mac). clearbody mac. subst p.
  pose proof (eq_refl : length streamRTTMessageMagic = 8%nat).
  unfold rtt_prefix; rewrite <- !app_assoc. field_calc.
  rewrite !byte_to_of_small by done. rewrite be_get_put_small by exact HT.
  destruct m as [k [sid leg car gen dir] tok]; cbn in *.
  rewrite !bool_decide_ne_refl. rewrite (bool_decide_eq_false_2 (tok = 0)) by done. cbn [orb].
  unfold StreamRTTProbe, StreamRTTEcho, StreamRTTClientToServer, StreamRTTServerToClient in *.
  by destruct Hk as [-> | ->], Hdir as [-> | ->].
Qed.

(** RTT messages round-trip: an encoded probe or echo decodes, at the
    endpoint whose active binding it names, to the message that was encoded. *)
Theorem rtt_message_roundtrip m key wire :
  rtt_wf m -> encodeStreamRTTMessage m key = Ok wire ->
  length wire = StreamRTTMessageSize /\
  decodeStreamRTTMessage wire key (binding (rtt_Identity m)) = Ok m.
Proof. apply rtt_decode_encoded. Qed.

Definition example_rtt : StreamRTTMessage :=
  MkRTT StreamRTTProbe
    (MkIdentity (str "0123456789abcdef") 1 (str "carrier-a") 7 StreamRTTClientToServer) 41.

Lemma example_rtt_encoded :
  match encodeStreamRTTMessage example_rtt (zero_bytes 32) with Ok _ => true | _ => false end = true.
Proof. reflexivity. Qed.

Lemma rtt_message_roundtrip_witness :
  exists wire, encodeStreamRTTMessage example_rtt (zero_bytes 32) = Ok wire /\
    decodeStreamRTTMessage wire (zero_bytes 32) (binding (rtt_Identity example_rtt))
    = Ok example_rtt.
Proof.
  pose proof example_rtt_encoded as HO.
  destruct (encodeStreamRTTMessage example_rtt (zero_bytes 32)) as [wire|] eqn:H; [|done].
  exists wire. split; [reflexivity|]. eapply (rtt_message_roundtrip example_rtt); [|exact H].
  unfold rtt_wf, identity_wf; split_and!; done.
Defined.

(** RTT messages are authentic: whatever decodes is byte for byte the
    encoding, under the carrier's probe key, of the returned message; the
    message carries exactly the receiver's own binding, whatever the peer sent. *)
Theorem rtt_message_sound wire key expected m :
  length (bd_SessionID expected) = 16%nat -> is_u8 (bd_LegID expected) ->
  decodeStreamRTTMessage wire key expected = Ok m ->
  binding (rtt_Identity m) = expected /\ rtt_wf m /\
  encodeStreamRTTMessage m key = Ok wire.
Proof.
  intros HS HL. unfold decodeStreamRTTMessage.
  destruct (validateStreamPathBinding expected) eqn:Hb; [done|].
  destruct (_ || _) eqn:H1; [done|].
  match goal with |- context [if bool_decide ?P then _ else _] =>
    destruct (bool_decide_reflect P) as [|Hmac]; [done|] end.
  destruct (_ || _) eqn:H2 in |- *; [done|]. intros [= <-].
  rewrite !orb_false_iff, !bool_decide_eq_false in H1.
  rewrite !orb_false_iff, !andb_false_iff, !bool_decide_eq_false in H2.
  destruct H1 as ((Hlen%dec_stable & Hmg%dec_stable) & H8%dec_stable).
  destruct H2 as ((((HK & HD) & H11%dec_stable) & H12%dec_stable) & HT).
  apply dec_stable in Hmac. unfold StreamRTTMessageSize in *. simpl in Hlen, Hmac.
  assert (binding (MkIdentity (bd_SessionID expected) (bd_LegID expected)
      (bd_CarrierID expected) (bd_Generation expected) (at_ wire 10)) = expected) as HB
    by (by destruct expected).
  set (m := MkRTT _ _ _).
  assert (rtt_wf m) as Hwf by (unfold rtt_wf, identity_wf; split_and!; simpl;
    try apply at_range; try done; apply be_get_sub_u64; lia).
  assert (validateStreamRTTMessage m = None) as Hv
    by (apply validateStreamRTTMessage_None; simpl; rewrite HB; split_and!; auto; lia).
  split; [done|]. split; [done|]. unfold encodeStreamRTTMessage. rewrite Hv.
  assert (rtt_prefix m = sub wire 0 36) as ->.
  { unfold rtt_prefix, m; cbn [rtt_Kind rtt_Identity rtt_Token id_Direction id_LegID id_SessionID].
    rewrite put_get_sub, <- Hmg, <- H11, <- H12, <- H8 by lia.
    rewrite <- at_sub4 by lia. by rewrite !sub_sub_app by lia. }
  f_equal. rewrite <- Hmac, sub_sub_app by lia. by apply sub_all.
Qed.

Definition example_rtt_wire : bytes :=
  match encodeStreamRTTMessage example_rtt (zero_bytes 32) with Ok w => w | Err _ => [] end.

Lemma example_rtt_decoded :
  match decodeStreamRTTMessage example_rtt_wire (zero_bytes 32)
    (binding (rtt_Identity example_rtt)) with Ok _ => true | _ => false end = true.
Proof. vm_compute. reflexivity. Qed.

Lemma rtt_message_sound_witness :
  exists m, decodeStreamRTTMessage example_rtt_wire (zero_bytes 32)
      (binding (rtt_Identity example_rtt)) = Ok m /\
    binding (rtt_Identity m) = binding (rtt_Identity example_rtt) /\
    encodeStreamRTTMessage m (zero_bytes 32) = Ok example_rtt_wire.
Proof.
  pose proof example_rtt_decoded as HO.
  destruct (decodeStreamRTTMessage example_rtt_wire (zero_bytes 32)
    (binding (rtt_Identity example_rtt))) as [m|] eqn:H; [|discriminate].
  apply rtt_message_sound in H as (HB & _ & HE); [|reflexivity|unfold is_u8; simpl; lia].
  exists m. split_and!; [reflexivity|exact HB|exact HE].
Defined.

(** ** Drain messages *)

Definition drain_wf (m : StreamDrainMessage) : Prop :=
  is_u8 (dr_Kind m) /\ is_u8 (dr_SenderRole m) /\ length (dr_SessionID m) = 16%nat /\
  is_u8 (dr_TargetLeg m) /\ is_u64 (dr_Generation m) /\
  length (dr_TargetBinding m) = 16%nat /\ length (dr_OperationID m) = 16%nat /\
  is_u64 (dr_Counter m) /\ is_u64 (dr_AckedNext m) /\ is_u32 (dr_OutstandingFrames m) /\
  is_u64 (dr_OutstandingBytes m).

Lemma length_drain_prefix m :
  length (dr_SessionID m) = 16%nat -> length (dr_TargetBinding m) = 16%nat ->
  length (dr_OperationID m) = 16%nat -> length (drain_prefix m) = 97%nat.
Proof.
  intros. unfold drain_prefix. pose proof (eq_refl : length streamDrainControlMagic = 8%nat). lens.
Qed.

(** Drain messages round-trip: what one end of a coordinated-drain carrier
    encodes, the other end (which holds the same capability, and expects the
    sender's role) decodes to the same message. *)
Theorem drain_message_roundtrip a m wire :
  drain_wf m -> EncodeDrainMessage a m = Ok wire ->
  length wire = StreamDrainControlMessageSize /\
  DecodeDrainMessage a wire (dr_SenderRole m) = Ok m.
Proof.
  intros (HK & HR & HS & HL & HG & HB & HO & HC & HA & HF & HY). unfold EncodeDrainMessage.
  destruct (_ || _) eqn:Hv; [done|]. intros <-%Ok_inj.
  rewrite !orb_false_iff, !negb_false_iff, bool_decide_eq_false in Hv.
  destruct Hv as ((He & Hsid%dec_stable) & Hval).
  pose proof (length_drain_prefix m HS HB HO) as Hp.
  assert (length (streamDrainMessageMAC (au_drainKey a) (drain_prefix m)) = 32%nat) as Hm
    by apply Sha256.length_hmac.
  split; [rewrite length_app, Hp, Hm; done|].
  unfold DecodeDrainMessage. rewrite He. remember (drain_prefix m) as p eqn:Ep.
  set (mac := streamDrainMessageMAC _ _) in *.
  assert (sub (p ++ mac) 97 StreamDrainControlMessageSize = mac) as ->
    by (unfold StreamDrainControlMessageSize; field_peel).
  assert (sub (p ++ mac) 0 97 = p) as -> by field_peel.
  rewrite (bool_decide_eq_false_2 (length _ <> _))
    by (rewrite length_app, Hp, Hm; intros E; by apply E).
  rewrite (bool_decide_ne_refl mac). clearbody mac. subst p.
  pose proof (eq_refl : length streamDrainControlMagic = 8%nat).
  unfold drain_prefix; rewrite <- !app_assoc. field_calc.
  rewrite !byte_to_of_small by done. rewrite !be_get_put_small by done.
  destruct m; cbn [dr_Kind dr_SenderRole dr_SessionID dr_TargetLeg dr_Generation dr_TargetBinding
    dr_OperationID dr_Counter dr_AckedNext dr_OutstandingFrames dr_OutstandingBytes] in *.
  rewrite Hval, Hsid. by rewrite !bool_decide_ne_refl.
Qed.

Definition example_auth : StreamPathAuth :=
  zero_auth <| au_authenticated := true |> <| au_capabilities := knownStreamCapabilities |>
    <| au_sessionID := str "0123456789abcdef" |>.
Definition example_drain : StreamDrainMessage :=
  MkDrain StreamDrainIntent StreamPathRoleClient (str "0123456789abcdef") 1 3
    (str "target-binding-1") (str "operation-id-016") 1 77 4 4096.
Definition example_drain_wire : bytes :=
  match EncodeDrainMessage example_auth example_drain with Ok w => w | Err _ => [] end.

Lemma example_drain_encoded :
  match EncodeDrainMessage example_auth example_drain with Ok _ => true | _ => false end = true /\
  match DecodeDrainMessage example_auth example_drain_wire StreamPathRoleClient with
  | Ok _ => true | _ => false end = true.
Proof. split; vm_compute; reflexivity. Qed.

Lemma drain_message_roundtrip_witness :
  exists wire, EncodeDrainMessage example_auth example_drain = Ok wire /\
    DecodeDrainMessage example_auth wire StreamPathRoleClient = Ok example_drain.
Proof.
  pose proof (proj1 example_drain_encoded) as HO.
  destruct (EncodeDrainMessage example_auth example_drain) as [wire|] eqn:H; [|discriminate].
  exists wire. split; [reflexivity|].
  eapply (drain_message_roundtrip example_auth example_drain); [|exact H].
  unfold drain_wf; split_and!; done.
Defined.

(** Drain messages are authentic: whatever decodes is byte for byte the
    encoding of the returned message under the carrier's drain key, comes from
    the expected peer role and this session, and a READY, COMMIT or COMMIT-ACK
    claims an empty target. *)
Theorem drain_message_sound a wire role m :
  DecodeDrainMessage a wire role = Ok m ->
  drain_wf m /\ dr_SenderRole m = role /\ dr_SessionID m = au_sessionID a /\
  EncodeDrainMessage a m = Ok wire /\
  (StreamDrainReady <= dr_Kind m <= StreamDrainCommitAck ->
   dr_OutstandingFrames m = 0 /\ dr_OutstandingBytes m = 0).
Proof.
  unfold DecodeDrainMessage. destruct (_ || _) eqn:H1; [done|].
  destruct (bool_decide_reflect (at_ wire 11 <> 0)) as [|H11%dec_stable]; [done|].
  match goal with |- context [if bool_decide ?P then _ else _] =>
    destruct (bool_decide_reflect P) as [|Hmac%dec_stable]; [done|] end.
  set (m' := MkDrain _ _ _ _ _ _ _ _ _ _ _).
  destruct (_ || _) eqn:H2 in |- *; [done|]. intros <-%Ok_inj.
  rewrite !orb_false_iff, negb_false_iff, !bool_decide_eq_false in H1.
  rewrite !orb_false_iff, negb_false_iff, !bool_decide_eq_false in H2.
  destruct H1 as (((He & Hlen%dec_stable) & Hmg%dec_stable) & H8%dec_stable).
  destruct H2 as ((Hsid%dec_stable & Hrole%dec_stable) & Hval).
  unfold StreamDrainControlMessageSize in *. simpl in Hlen, Hmac.
  assert (drain_wf m') as Hwf by (unfold drain_wf, m'; cbn; split_and!;
    try apply at_range; try (apply be_get_sub_u64; lia); try (apply be_get_sub_u32; lia);
    rewrite length_sub; lia).
  split; [done|]. split; [done|]. split; [done|]. split.
  - unfold EncodeDrainMessage. rewrite He, Hval, Hsid, bool_decide_ne_refl. cbn [negb orb].
    assert (drain_prefix m' = sub wire 0 97) as ->.
    { unfold drain_prefix, m'; cbn [dr_Kind dr_SenderRole dr_SessionID dr_TargetLeg dr_Generation
        dr_TargetBinding dr_OperationID dr_Counter dr_AckedNext dr_OutstandingFrames
        dr_OutstandingBytes].
      change x00 with (byte_of_Z 0). rewrite <- Hmg, <- H8, <- H11, <- at_sub4 by lia.
      rewrite <- at_sub, !put_get_sub by lia. by rewrite !sub_sub_app by lia. }
    f_equal. rewrite <- Hmac, sub_sub_app by lia. by apply sub_all.
  - clear - Hval. unfold validStreamDrainMessage, StreamDrainReady, StreamDrainCommit,
      StreamDrainCommitAck in *. intros Hk. do 2 (split_match_in Hval; [done|]).
    split_match_in Hval; [done|]. rewrite andb_false_iff, !orb_false_iff, !bool_decide_eq_false in Heqb1.
    destruct (decide (dr_OutstandingFrames m' = 0)), (decide (dr_OutstandingBytes m' = 0)); lia.
Qed.

Lemma drain_message_sound_witness :
  exists m, DecodeDrainMessage example_auth example_drain_wire StreamPathRoleClient = Ok m /\
    dr_SenderRole m = StreamPathRoleClient /\
    EncodeDrainMessage example_auth m = Ok example_drain_wire.
Proof.
  pose proof (proj2 example_drain_encoded) as HO.
  destruct (DecodeDrainMessage example_auth example_drain_wire StreamPathRoleClient)
    as [m|] eqn:H; [|discriminate].
  destruct (drain_message_sound _ _ _ _ H) as (_ & HR & _ & HE & _).
  exists m. split_and!; [reflexivity|exact HR|exact HE].
Defined.
