(* ===== verification/RxWindow.v ===== *)
(** * The receive side: reorder window and delivery loop

    [core/stream_rx.go] (the [StreamRXWindow] reorder state machine) and
    [core/stream_engine.go]'s [rxLoop], which feeds it the DATA frames of every
    leg and writes the contiguous prefix to the application pipe.

    Payload buffers are owned by exactly one party at a time; [putBuffer] is
    modelled by a log of the returned buffers.  Telemetry and the recovery trace
    hook are nil.  [time.Now()] reads [clock] at a tick counter kept in the
    state, so the theorems hold for every clock. *)

From S2P Require Import Prelude Bytes Wire.
From stdpp Require Import options.

(** ** Data *)

Inductive StreamRXDisposition :=
| StreamRXReady
| StreamRXBuffered
| StreamRXDuplicate
| StreamRXBufferedDuplicate.

Inductive rx_error :=
| ErrStreamRXReorderLimit
| ErrPipe (e : io_error).

Record StreamRXFrame := MkRXFrame {
  rx_Sequence : Z; (* uint64 *)
  rx_Leg : Z;
  rx_Payload : bytes
}.

(** A nil [pending] map is read like an empty one and allocated on first use. *)
Record StreamRXWindow := MkWindow {
  expected : Z;    (* uint64 *)
  pending : gmap Z StreamRXFrame;
  pendingBytes : Z; (* uint64 *)
  gapExpected : Z;
  gapSince : time;
  maxReorderFrames : Z; (* int *)
  readyPending : bool
}.
#[export] Instance StreamRXWindow_fields : Fields StreamRXWindow := fun w =>
  MkWindow (expected w) (pending w) (pendingBytes w) (gapExpected w) (gapSince w)
    (maxReorderFrames w) (readyPending w).

(** ** Window operations *)

Definition NewStreamRXWindow (maxReorderFrames : Z) : StreamRXWindow :=
  MkWindow 0 ∅ 0 0 zero_time maxReorderFrames false.

Definition PendingFrames (w : StreamRXWindow) : Z := Z.of_nat (size (pending w)).

Definition refreshGap (w : StreamRXWindow) (now : time) : StreamRXWindow :=
  if bool_decide (PendingFrames w = 0)
  then w <| gapExpected := expected w |> <| gapSince := zero_time |>
  else if bool_decide (gapExpected w <> expected w) || is_zero (gapSince w)
  then w <| gapExpected := expected w |> <| gapSince := now |>
  else w.

Definition Insert (w : StreamRXWindow) (frame : StreamRXFrame) (now : time)
  : StreamRXDisposition * option rx_error * StreamRXWindow :=
  if bool_decide (rx_Sequence frame < expected w) then (StreamRXDuplicate, None, w) else
  if bool_decide (rx_Sequence frame = expected w)
  then (StreamRXReady, None, w <| readyPending := true |>) else
  match pending w !! rx_Sequence frame with
  | Some _ => (StreamRXBufferedDuplicate, None, w)
  | None =>
    if bool_decide (maxReorderFrames w <= PendingFrames w)
    then (StreamRXReady, Some ErrStreamRXReorderLimit, w) else
    let w := w <| pending ::= <[rx_Sequence frame := frame]> |> in
    let w := w <| pendingBytes ::= fun b => u64 (b + slen (rx_Payload frame)) |> in
    (StreamRXBuffered, None, refreshGap w now)
  end.

Definition CommitReady (w : StreamRXWindow) (now : time) : StreamRXWindow :=
  if negb (readyPending w) then w else
  let w := w <| readyPending := false |> in
  let w := w <| expected ::= fun e => u64 (e + 1) |> in
  match pending w !! expected w with
  | None => refreshGap w now
  | Some _ => w
  end.

Definition PopContiguous (w : StreamRXWindow) : option StreamRXFrame * StreamRXWindow :=
  if readyPending w then (None, w) else
  match pending w !! expected w with
  | None => (None, w)
  | Some frame =>
    let w := w <| pending ::= delete (expected w) |> in
    let w := w <| pendingBytes ::= fun b => u64 (b - slen (rx_Payload frame)) |> in
    (Some frame, w <| readyPending := true |>)
  end.

(** Go ranges over the map in an unspecified order; the theorems about the
    returned frames are up to permutation. *)
Definition DrainPending (w : StreamRXWindow) : list StreamRXFrame * StreamRXWindow :=
  ((map_to_list (pending w)).*2,
   w <| pending := ∅ |> <| pendingBytes := 0 |> <| gapExpected := expected w |>
     <| gapSince := zero_time |> <| readyPending := false |>).

(** ** The delivery loop *)

(** How the loop stands: still receiving, left by [fail], or left because the
    session is closing. *)
Inductive rx_outcome :=
| rx_running
| rx_failed (e : rx_error)
| rx_returned
| rx_stuck. (* the fuel of the delivery loop ran out; proved unreachable *)

Record rxState := MkRx {
  rs_window : StreamRXWindow;
  rs_pipe : Writer;            (* c.pipeConn *)
  rs_closing : bool;           (* c.closing *)
  rs_tick : nat;               (* readings of the clock so far *)
  rs_debugHighest : Z;         (* c.debugRXHighest *)
  rs_debugExpected : Z;        (* c.debugRXExpected *)
  rs_uniqueBytes : list Z;     (* c.rxUniqueBytes, one counter per leg *)
  rs_deliveredBytes : Z;       (* c.rxDeliveredBytes *)
  rs_pendingFrames : Z;        (* c.rxPendingFrames *)
  rs_maxPendingFrames : Z;     (* c.rxMaxPendingFrames *)
  rs_pendingBytes : Z;         (* c.rxPendingBytes *)
  rs_gapSinceNs : Z;           (* c.rxGapSinceUnixNs *)
  rs_maxGapAgeNs : Z;          (* c.rxMaxGapAgeNs *)
  rs_ackNext : Z;              (* c.ackNext *)
  rs_ackForce : bool;          (* c.ackForce *)
  rs_released : list bytes;    (* buffers given back with putBuffer *)
  rs_outcome : rx_outcome
}.
#[export] Instance rxState_fields : Fields rxState := fun s =>
  MkRx (rs_window s) (rs_pipe s) (rs_closing s) (rs_tick s) (rs_debugHighest s)
    (rs_debugExpected s) (rs_uniqueBytes s) (rs_deliveredBytes s) (rs_pendingFrames s)
    (rs_maxPendingFrames s) (rs_pendingBytes s) (rs_gapSinceNs s) (rs_maxGapAgeNs s)
    (rs_ackNext s) (rs_ackForce s) (rs_released s) (rs_outcome s).

Definition unixNano (t : time) : Z := i64 (t - unixToInternal * Second).

Section rx_loop.
Variable clock : nat -> time.

Definition now_of (s : rxState) : time := clock (rs_tick s).
Definition tick (s : rxState) : rxState := s <| rs_tick ::= S |>.
Definition putBuffer (b : bytes) (s : rxState) : rxState :=
  s <| rs_released ::= fun l => l ++ [b] |>.

(** The compare-and-swap loops of the single receive goroutine store maxima. *)
Definition syncRXStatsFromWindow (s : rxState) : rxState :=
  let w := rs_window s in
  let n := PendingFrames w in
  let s := s <| rs_pendingFrames := n |> in
  let s := s <| rs_maxPendingFrames ::= Z.max n |> in
  let s := s <| rs_pendingBytes := pendingBytes w |> in
  if is_zero (gapSince w) then s <| rs_gapSinceNs := 0 |> else
  let s := s <| rs_gapSinceNs := unixNano (gapSince w) |> in
  let age := time_sub (now_of s) (gapSince w) in
  let s := tick s in
  if bool_decide (0 < age) then s <| rs_maxGapAgeNs ::= Z.max age |> else s.

Definition requestAck (next : Z) (s : rxState) : rxState :=
  s <| rs_ackNext ::= Z.max next |>.
Definition forceAck (s : rxState) : rxState := s <| rs_ackForce := true |>.

Definition addUnique (f : StreamRXFrame) (s : rxState) : rxState :=
  if bool_decide (rx_Leg f < slen (rs_uniqueBytes s)) then
    s <| rs_uniqueBytes ::= alter (fun n => u64 (n + slen (rx_Payload f))) (Z.to_nat (rx_Leg f)) |>
  else s.

(** The deferred cleanup of [rxLoop]. *)
Definition rx_exit (o : rx_outcome) (s : rxState) : rxState :=
  let '(frames, w) := DrainPending (rs_window s) in
  let s := fold_left (fun s f => putBuffer (rx_Payload f) s) frames (s <| rs_window := w |>) in
  (syncRXStatsFromWindow s) <| rs_outcome := o |>.

(** The inner [for]: deliver the READY frame, commit it, and go on with the next
    contiguous frame.  Every further round pops a pending frame, so one more than
    their number is enough fuel. *)
Fixpoint deliver (fuel : nat) (f : StreamRXFrame) (s : rxState) : rxState :=
  match fuel with
  | O => s <| rs_outcome := rx_stuck |>
  | S fuel =>
    let '(err, pipe) := writeAll (rs_pipe s) (rx_Payload f) in
    let s := s <| rs_pipe := pipe |> in
    match err with
    | Some e =>
      let s := putBuffer (rx_Payload f) s in
      rx_exit (if rs_closing s then rx_returned else rx_failed (ErrPipe e)) s
    | None =>
      let s := s <| rs_deliveredBytes ::= fun n => u64 (n + slen (rx_Payload f)) |> in
      let s := putBuffer (rx_Payload f) s in
      let now := now_of s in
      let s := (tick s) <| rs_window ::= fun w => CommitReady w now |> in
      let '(next, w) := PopContiguous (rs_window s) in
      let s := syncRXStatsFromWindow (s <| rs_window := w |>) in
      match next with
      | None => requestAck (expected (rs_window s)) s
      | Some f => deliver fuel f s
      end
    end
  end.

(** One frame received from [c.incoming]. *)
Definition rx_iter (f : StreamRXFrame) (s : rxState) : rxState :=
  let s := if bool_decide (rs_debugHighest s < rx_Sequence f)
           then s <| rs_debugHighest := rx_Sequence f |> else s in
  let now := now_of s in
  let s := tick s in
  let '(disposition, err, w) := Insert (rs_window s) f now in
  let s := s <| rs_window := w |> <| rs_debugExpected := expected w |> in
  match err with
  | Some e => rx_exit (rx_failed e) (putBuffer (rx_Payload f) s)
  | None =>
    match disposition with
    | StreamRXDuplicate => forceAck (putBuffer (rx_Payload f) s)
    | StreamRXBufferedDuplicate => putBuffer (rx_Payload f) s
    | StreamRXBuffered => syncRXStatsFromWindow (addUnique f s)
    | StreamRXReady => deliver (S (size (pending w))) f (addUnique f s)
    end
  end.

(** Frames arriving after the loop has returned are not read. *)
Fixpoint rx_run (frames : list StreamRXFrame) (s : rxState) : rxState :=
  match frames with
  | [] => s
  | f :: frames =>
    match rs_outcome s with
    | rx_running => rx_run frames (rx_iter f s)
    | _ => s
    end
  end.

(** [c.done] closes while the loop waits. *)
Definition rx_done (s : rxState) : rxState :=
  match rs_outcome s with rx_running => rx_exit rx_returned s | _ => s end.
End rx_loop.

Definition rx_init (maxReorder : Z) (legs : nat) (pipe : Writer) (closing : bool) : rxState :=
  MkRx (NewStreamRXWindow maxReorder) pipe closing 0 0 0 (replicate legs 0) 0 0 0 0 0 0 0 false
    [] rx_running.

(** ** Window invariant *)

Definition payload_len (f : StreamRXFrame) : Z := slen (rx_Payload f).

(** Every retained frame lies beyond the frontier under its own sequence, the
    byte counter is exact, and the configured limit is respected. *)
Record win_inv (w : StreamRXWindow) : Prop := {
  wi_expected : is_u64 (expected w);
  wi_key : forall k f, pending w !! k = Some f -> rx_Sequence f = k /\ is_u64 k;
  wi_future : forall k f, pending w !! k = Some f -> expected w < k;
  wi_bytes : pendingBytes w = u64 (map_sum payload_len (pending w));
  wi_limit : PendingFrames w <= 0 `max` maxReorderFrames w
}.

(** While no READY frame is out, an empty window has no gap and a non-empty one
    has the gap of its frontier. *)
Definition gap_inv (w : StreamRXWindow) : Prop :=
  (pending w = ∅ -> gapSince w = zero_time) /\
  (pending w <> ∅ -> gapExpected w = expected w).

Lemma PendingFrames_0 w : PendingFrames w = 0 <-> pending w = ∅.
Proof.
  unfold PendingFrames. rewrite <- (map_size_empty_iff (pending w)). lia.
Qed.

Lemma refreshGap_gap w now : gap_inv (refreshGap w now).
Proof.
  unfold refreshGap. case_bool_decide as H0; [apply PendingFrames_0 in H0|].
  - split; simpl; done.
  - assert (pending w <> ∅) by (by rewrite <- PendingFrames_0).
    destruct (_ || _) eqn:E; [split; simpl; done|]. bool_prop.
    split; intros; [done|]. by apply dec_stable.
Qed.

Lemma refreshGap_fields w now :
  expected (refreshGap w now) = expected w /\ pending (refreshGap w now) = pending w /\
  pendingBytes (refreshGap w now) = pendingBytes w /\
  maxReorderFrames (refreshGap w now) = maxReorderFrames w /\
  readyPending (refreshGap w now) = readyPending w.
Proof. unfold refreshGap. repeat case_match; done. Qed.

Lemma refreshGap_inv w now : win_inv w -> win_inv (refreshGap w now).
Proof.
  destruct (refreshGap_fields w now) as (E1 & E2 & E3 & E4 & E5).
  intros [H1 H2 H3 H4 H5]. split; unfold PendingFrames in *; rewrite ?E1, ?E2, ?E3, ?E4; auto.
Qed.

(** What [Insert] does, branch by branch. *)
Inductive insert_spec (w : StreamRXWindow) (f : StreamRXFrame)
  : StreamRXDisposition * option rx_error * StreamRXWindow -> Prop :=
| insert_old : rx_Sequence f < expected w -> insert_spec w f (StreamRXDuplicate, None, w)
| insert_ready : rx_Sequence f = expected w ->
    insert_spec w f (StreamRXReady, None, w <| readyPending := true |>)
| insert_dup g : expected w < rx_Sequence f -> pending w !! rx_Sequence f = Some g ->
    insert_spec w f (StreamRXBufferedDuplicate, None, w)
| insert_limit : expected w < rx_Sequence f -> pending w !! rx_Sequence f = None ->
    maxReorderFrames w <= PendingFrames w ->
    insert_spec w f (StreamRXReady, Some ErrStreamRXReorderLimit, w)
| insert_new w' : expected w < rx_Sequence f -> pending w !! rx_Sequence f = None ->
    PendingFrames w < maxReorderFrames w ->
    win_inv w' -> gap_inv w' -> expected w' = expected w -> readyPending w' = readyPending w ->
    maxReorderFrames w' = maxReorderFrames w ->
    pending w' = <[rx_Sequence f := f]> (pending w) ->
    insert_spec w f (StreamRXBuffered, None, w').

Lemma Insert_cases w f now :
  win_inv w -> is_u64 (rx_Sequence f) -> insert_spec w f (Insert w f now).
Proof.
  intros Hw Hf. unfold Insert. case_bool_decide as H1; [by constructor|].
  case_bool_decide as H2; [by constructor|].
  destruct (pending w !! rx_Sequence f) as [g|] eqn:Hp; [eapply insert_dup; [lia|done]|].
  case_bool_decide as H3; [constructor; [lia|done|lia]|].
  match goal with |- insert_spec _ _ (_, _, refreshGap ?v _) => set (w1 := v) end.
  destruct (refreshGap_fields w1 now) as (E1 & E2 & E3 & E4 & E5).
  constructor; try done; try lia.
  - apply refreshGap_inv. destruct Hw as [W1 W2 W3 W4 W5].
    split; unfold w1, PendingFrames in *; simpl; try done.
    + intros k g [[<- <-]|[_ Hk]]%lookup_insert_Some; [done|eauto].
    + intros k g [[<- <-]|[_ Hk]]%lookup_insert_Some; [lia|eauto].
    + rewrite map_sum_insert, W4, u64_add_u64 by done. f_equal. unfold payload_len. lia.
    + rewrite map_size_insert_None by done. lia.
  - apply refreshGap_gap.
Qed.

(** [CommitReady] followed by [PopContiguous], as the loop calls them. *)
Lemma commit_pop w now :
  win_inv w -> readyPending w = true -> expected w < max_u64 ->
  let '(next, w') := PopContiguous (CommitReady w now) in
  win_inv w' /\ expected w' = expected w + 1 /\
  maxReorderFrames w' = maxReorderFrames w /\
  next = pending w !! (expected w + 1) /\
  pending w' = delete (expected w + 1) (pending w) /\
  readyPending w' = bool_decide (is_Some next) /\
  (next = None -> gap_inv w').
Proof.
  intros Hw Hr He. pose proof Hw as [W1 W2 W3 W4 W5]. unfold CommitReady. rewrite Hr. simpl.
  assert (u64 (expected w + 1) = expected w + 1) as Hu.
  { apply u64_small. unfold is_u64, max_u64 in *. lia. }
  rewrite Hu. destruct (pending w !! (expected w + 1)) as [g|] eqn:Hp.
  - unfold PopContiguous. simpl. rewrite Hu, Hp. simpl. split_and!; try done.
    split; unfold PendingFrames in *; simpl; try done.
    + unfold is_u64, max_u64 in *. lia.
    + intros k h [_ Hk]%lookup_delete_Some. eauto.
    + intros k h [Hne Hk]%lookup_delete_Some. apply W3 in Hk. lia.
    + rewrite (map_sum_delete _ _ _ g), W4, u64_sub_u64 by done. done.
    + rewrite map_size_delete, Hp. lia.
  - match goal with |- context [refreshGap ?v _] => set (w1 := v) end.
    destruct (refreshGap_fields w1 now) as (E1 & E2 & E3 & E4 & E5).
    unfold w1 in E1, E2, E4, E5. simpl in E1, E2, E4, E5. rewrite Hu in E1.
    fold w1 in E1, E2, E4, E5.
    unfold PopContiguous. rewrite E5, E2, E1, Hp, E1, E2, E4, E5, delete_id by done.
    split_and!; try done.
    + apply refreshGap_inv. split; unfold w1, PendingFrames in *; simpl; try done.
      * unfold is_u64, max_u64 in *. lia.
      * intros k h Hk. pose proof (W3 _ _ Hk). assert (k <> expected w + 1) by congruence. lia.
    + intros _. apply refreshGap_gap.
Qed.

(** ** Delivery invariant *)

(** [f] carries the payload the sender numbered with [f]'s sequence. *)
Definition sent (data : list bytes) (f : StreamRXFrame) : Prop :=
  0 <= rx_Sequence f /\ data !! Z.to_nat (rx_Sequence f) = Some (rx_Payload f).

(** The byte stream of the first [n] frames. *)
Definition stream_prefix (data : list bytes) (n : Z) : bytes :=
  concat (take (Z.to_nat n) data).

Lemma stream_prefix_S data f n :
  sent data f -> rx_Sequence f = n ->
  stream_prefix data (n + 1) = stream_prefix data n ++ rx_Payload f.
Proof.
  intros [H0 Hf] <-. unfold stream_prefix.
  replace (Z.to_nat (rx_Sequence f + 1)) with (S (Z.to_nat (rx_Sequence f))) by lia.
  rewrite (take_S_r _ _ _ Hf), concat_app. simpl. by rewrite app_nil_r.
Qed.

Lemma sent_bound data f : sent data f -> rx_Sequence f < Z.of_nat (length data).
Proof. intros [H0 Hf%lookup_lt_Some]. lia. Qed.

Section rx_proofs.
Variable clock : nat -> time.
Variable data : list bytes.
Variable out0 : bytes.
Hypothesis data_u64 : Z.of_nat (length data) < max_u64.

(** The state between two frames or inside the delivery loop, after the frames
    with sequences [seen] have been received. *)
Record rx_inv (seen : list Z) (s : rxState) : Prop := {
  ri_win : win_inv (rs_window s);
  ri_sent : forall k f, pending (rs_window s) !! k = Some f -> sent data f;
  ri_future : forall k, expected (rs_window s) < k ->
    (k ∈ seen <-> is_Some (pending (rs_window s) !! k));
  ri_past : forall k, 0 <= k < expected (rs_window s) -> k ∈ seen;
  ri_len : expected (rs_window s) <= Z.of_nat (length data);
  ri_out : wr_out (rs_pipe s) = out0 ++ stream_prefix data (expected (rs_window s));
  ri_count : rs_deliveredBytes s = u64 (slen (stream_prefix data (expected (rs_window s))));
  ri_ack : rs_ackNext s <= expected (rs_window s)
}.

(** Waiting for the next frame: the frontier is the first frame not received. *)
Record rx_quiet (seen : list Z) (s : rxState) : Prop := {
  rq_inv : rx_inv seen s;
  rq_ready : readyPending (rs_window s) = false;
  rq_gap : gap_inv (rs_window s);
  rq_missing : expected (rs_window s) ∉ seen;
  rq_ack : rs_ackNext s = expected (rs_window s);
  rq_running : rs_outcome s = rx_running
}.

(** The loop has returned: what it wrote, and what it acknowledged before. *)
Record rx_end (seen : list Z) (s : rxState) : Prop := {
  re_over : rs_outcome s <> rx_running /\ rs_outcome s <> rx_stuck;
  re_past : forall k, 0 <= k < expected (rs_window s) -> k ∈ seen;
  re_len : 0 <= expected (rs_window s) <= Z.of_nat (length data);
  re_out : exists part, part `prefix_of` default [] (data !! Z.to_nat (expected (rs_window s))) /\
    wr_out (rs_pipe s) = out0 ++ stream_prefix data (expected (rs_window s)) ++ part;
  re_ack : rs_ackNext s <= expected (rs_window s);
  re_empty : pending (rs_window s) = ∅
}.

Lemma sync_fields s :
  let s' := syncRXStatsFromWindow clock s in
  rs_window s' = rs_window s /\ rs_pipe s' = rs_pipe s /\ rs_closing s' = rs_closing s /\
  rs_deliveredBytes s' = rs_deliveredBytes s /\ rs_ackNext s' = rs_ackNext s /\
  rs_released s' = rs_released s /\ rs_outcome s' = rs_outcome s.
Proof. unfold syncRXStatsFromWindow. repeat case_match; done. Qed.

Lemma addUnique_fields f s :
  let s' := addUnique f s in
  rs_window s' = rs_window s /\ rs_pipe s' = rs_pipe s /\ rs_closing s' = rs_closing s /\
  rs_deliveredBytes s' = rs_deliveredBytes s /\ rs_ackNext s' = rs_ackNext s /\
  rs_released s' = rs_released s /\ rs_outcome s' = rs_outcome s.
Proof. unfold addUnique. repeat case_match; done. Qed.

Lemma fold_putBuffer l s :
  let s' := fold_left (fun s f => putBuffer (rx_Payload f) s) l s in
  rs_window s' = rs_window s /\ rs_pipe s' = rs_pipe s /\ rs_ackNext s' = rs_ackNext s /\
  rs_released s' = rs_released s ++ map rx_Payload l.
Proof.
  revert s. induction l as [|f l IH]; intros s; simpl; [by rewrite app_nil_r|].
  destruct (IH (putBuffer (rx_Payload f) s)) as (-> & -> & -> & ->).
  unfold putBuffer; simpl. by rewrite <- app_assoc.
Qed.

Lemma rx_exit_fields o s :
  let s' := rx_exit clock o s in
  rs_window s' = (DrainPending (rs_window s)).2 /\ rs_pipe s' = rs_pipe s /\
  rs_ackNext s' = rs_ackNext s /\ rs_outcome s' = o /\
  rs_released s' = rs_released s ++ map rx_Payload (map_to_list (pending (rs_window s))).*2.
Proof.
  unfold rx_exit, DrainPending. simpl.
  match goal with |- context [fold_left ?g ?l ?s1] =>
    destruct (fold_putBuffer l s1) as (E1 & E2 & E3 & E4);
    destruct (sync_fields (fold_left g l s1)) as (F1 & F2 & F3 & F4 & F5 & F6 & F7) end.
  simpl in *. by rewrite F1, F2, F5, F6, E1, E2, E3, E4.
Qed.

(** Leaving the loop with the part [part] of the READY frame's payload written. *)
Lemma rx_exit_end seen o s part :
  o <> rx_running -> o <> rx_stuck -> win_inv (rs_window s) ->
  (forall k, 0 <= k < expected (rs_window s) -> k ∈ seen) ->
  expected (rs_window s) <= Z.of_nat (length data) ->
  rs_ackNext s <= expected (rs_window s) ->
  part `prefix_of` default [] (data !! Z.to_nat (expected (rs_window s))) ->
  wr_out (rs_pipe s) = out0 ++ stream_prefix data (expected (rs_window s)) ++ part ->
  rx_end seen (rx_exit clock o s).
Proof.
  intros Ho1 Ho2 Hw Hpast Hlen Hack Hpart Hout.
  destruct (rx_exit_fields o s) as (E1 & E2 & E3 & E4 & _).
  destruct (wi_expected _ Hw) as [He _].
  split; rewrite ?E1, ?E2, ?E3, ?E4; simpl; try done. by exists part.
Qed.

(** One successful round of the delivery loop. *)
Lemma deliver_round seen f s pipe :
  rx_inv seen s -> readyPending (rs_window s) = true ->
  rx_Sequence f = expected (rs_window s) -> sent data f ->
  expected (rs_window s) ∈ seen ->
  wr_out pipe = wr_out (rs_pipe s) ++ rx_Payload f ->
  let s1 := s <| rs_pipe := pipe |>
              <| rs_deliveredBytes ::= fun n => u64 (n + slen (rx_Payload f)) |> in
  let s2 := putBuffer (rx_Payload f) s1 in
  let s3 := (tick s2) <| rs_window ::= fun w => CommitReady w (now_of clock s2) |> in
  let '(next, w) := PopContiguous (rs_window s3) in
  let s4 := syncRXStatsFromWindow clock (s3 <| rs_window := w |>) in
  rx_inv seen s4 /\ rs_outcome s4 = rs_outcome s /\
  match next with
  | None => readyPending w = false /\ gap_inv w /\ expected w ∉ seen
  | Some g => readyPending w = true /\ rx_Sequence g = expected w /\ sent data g /\
      expected w ∈ seen /\ (S (size (pending w)) = size (pending (rs_window s)))%nat
  end.
Proof using data_u64.
  intros [I1 I2 I3 I4 I5 I6 I7 I8] Hr Hf Hs Hseen Hpipe s1 s2 s3.
  pose proof (sent_bound _ _ Hs) as Hb.
  pose proof (commit_pop (rs_window s) (now_of clock s2) I1 Hr ltac:(lia)) as HC.
  change (rs_window s3) with (CommitReady (rs_window s) (now_of clock s2)).
  destruct (PopContiguous _) as [next w] eqn:HP.
  destruct HC as (C1 & C2 & C3 & C4 & C5 & C6 & C7).
  destruct (sync_fields (s3 <| rs_window := w |>)) as (F1 & F2 & F3 & F4 & F5 & F6 & F7).
  assert (stream_prefix data (expected w)
          = stream_prefix data (expected (rs_window s)) ++ rx_Payload f) as Hpre
    by (rewrite C2; by apply stream_prefix_S).
  split; [|split; [by rewrite F7|]].
  - split; rewrite ?F1, ?F2, ?F4, ?F5; simpl; try done.
    + intros k g. rewrite C5. intros [_ Hk]%lookup_delete_Some. eauto.
    + intros k Hk. rewrite I3, C5, lookup_delete_ne by lia. done.
    + intros k Hk. destruct (decide (k = expected (rs_window s))) as [->|]; [done|].
      apply I4. lia.
    + lia.
    + by rewrite Hpipe, I6, Hpre, app_assoc.
    + rewrite I7, Hpre, u64_add_u64. unfold slen. f_equal. rewrite length_app. lia.
    + lia.
  - destruct next as [g|].
    + symmetry in C4. split; [by rewrite C6|]. pose proof (wi_key _ I1 _ _ C4) as [Hk _].
      split; [lia|]. split; [eauto|]. split.
      * rewrite C2. apply I3; [lia|]. by eexists.
      * rewrite C5, map_size_delete, C4.
        assert (size (pending (rs_window s)) <> 0%nat) by (eapply map_size_ne_0_lookup_2; eauto).
        lia.
    + split; [by rewrite C6|]. split; [by apply C7|]. rewrite C2. rewrite I3 by lia.
      rewrite <- C4. by intros [? [=]].
Qed.

(** The delivery loop ends with the frontier at the first missing frame, or with
    the pipe's error. *)
Lemma deliver_spec seen fuel f s :
  (size (pending (rs_window s)) < fuel)%nat ->
  rx_inv seen s -> readyPending (rs_window s) = true ->
  rx_Sequence f = expected (rs_window s) -> sent data f ->
  expected (rs_window s) ∈ seen -> rs_outcome s = rx_running ->
  rx_quiet seen (deliver clock fuel f s) \/
  (rx_end seen (deliver clock fuel f s) /\ wr_script (rs_pipe s) <> []).
Proof using data_u64.
  revert f s. induction fuel as [|fuel IH]; intros f s Hfuel HI Hr Hf Hs Hseen Hrun; [lia|].
  cbn [deliver]. destruct (writeAll (rs_pipe s) (rx_Payload f)) as [[e|] pipe] eqn:HW.
  - right. split; [|by intros (? & E & _)%(writeAll_healthy _ (rx_Payload f)); rewrite E in HW].
    unfold writeAll in HW. apply write_loop_spec in HW as (k & Ho & _); [|lia].
    destruct HI as [I1 I2 I3 I4 I5 I6 I7 I8].
    apply (rx_exit_end seen _ _ (take k (rx_Payload f))); simpl; try done.
    + by destruct (rs_closing s).
    + by destruct (rs_closing s).
    + rewrite <- Hf. destruct Hs as [_ ->]. simpl. apply prefix_take.
    + by rewrite Ho, I6, <- app_assoc.
  - pose proof (deliver_round seen f s pipe HI Hr Hf Hs Hseen (writeAll_ok _ _ _ HW)) as HR.
    simpl in HR |- *. destruct (PopContiguous _) as [[g|] w]; destruct HR as (R1 & R2 & R3);
      simpl in *.
    + destruct R3 as (A1 & A2 & A3 & A4 & A5).
      match goal with |- context [deliver clock fuel g ?s4] =>
        destruct (sync_fields (s4)) as (_ & F2 & _); set (s5 := s4) in * end.
      assert (rs_window s5 = w) as Ew by (unfold s5; by rewrite (proj1 (sync_fields _))).
      assert (wr_script (rs_pipe s5) = wr_script pipe) as Ep
        by (unfold s5; by rewrite (proj1 (proj2 (sync_fields _)))).
      destruct (IH g s5) as [HQ|[HE Hne]]; rewrite ?Ew; try done.
      * lia.
      * by rewrite R2.
      * by left.
      * right. split; [done|]. intros E. apply Hne. rewrite Ep.
        apply (writeAll_healthy _ (rx_Payload f)) in E as (? & E' & Hsc).
        rewrite E' in HW. by simplify_eq.
    + destruct R3 as (A1 & A2 & A3). left.
      match goal with |- context [requestAck _ ?s4] => set (s5 := s4) in * end.
      assert (rs_window s5 = w) as Ew by (unfold s5; by rewrite (proj1 (sync_fields _))).
      destruct R1 as [I1 I2 I3 I4 I5 I6 I7 I8].
      unfold requestAck. split; simpl; rewrite ?Ew in *; try done; [split; simpl; try done; rewrite ?Ew; try done|..].
      * lia.
      * lia.
      * congruence.
Qed.

(** Why the loop gave up on a frame. *)
Definition rx_cause (seen : list Z) (f : StreamRXFrame) (s : rxState) : Prop :=
  wr_script (rs_pipe s) <> [] \/
  (maxReorderFrames (rs_window s) <= PendingFrames (rs_window s) /\
   expected (rs_window s) < rx_Sequence f /\ rx_Sequence f ∉ seen).

Lemma rx_inv_fields seen s s' :
  rx_inv seen s -> rs_window s' = rs_window s -> rs_pipe s' = rs_pipe s ->
  rs_deliveredBytes s' = rs_deliveredBytes s -> rs_ackNext s' = rs_ackNext s -> rx_inv seen s'.
Proof. intros [] E1 E2 E3 E4. split; by rewrite ?E1, ?E2, ?E3, ?E4. Qed.

Lemma rx_quiet_fields seen s s' :
  rx_quiet seen s -> rs_window s' = rs_window s -> rs_pipe s' = rs_pipe s ->
  rs_deliveredBytes s' = rs_deliveredBytes s -> rs_ackNext s' = rs_ackNext s ->
  rs_outcome s' = rs_outcome s -> rx_quiet seen s'.
Proof.
  intros [Q1 Q2 Q3 Q4 Q5 Q6] E1 E2 E3 E4 E5.
  split; rewrite ?E1, ?E4, ?E5; try done. by eapply rx_inv_fields.
Qed.

(** A frame that was seen before changes nothing of the invariant. *)
Lemma rx_quiet_dup seen q s : rx_quiet seen s -> q ∈ seen -> rx_quiet (seen ++ [q]) s.
Proof.
  intros [[I1 I2 I3 I4 I5 I6 I7 I8] Q2 Q3 Q4 Q5 Q6] Hq.
  assert (forall k, k ∈ seen ++ [q] <-> k ∈ seen) as He
    by (intros k; rewrite elem_snoc; split; [by intros [?| ->]|by left]).
  split; try done; [split; try done|].
  - intros k Hk. by rewrite He, I3.
  - intros k Hk. rewrite He. auto.
  - by rewrite He.
Qed.

Lemma rx_iter_spec seen f s :
  rx_quiet seen s -> sent data f ->
  rx_quiet (seen ++ [rx_Sequence f]) (rx_iter clock f s) \/
  (rx_end (seen ++ [rx_Sequence f]) (rx_iter clock f s) /\ rx_cause seen f s).
Proof using data_u64.
  intros HQ Hs. pose proof (sent_bound _ _ Hs) as Hb. unfold rx_iter.
  set (s1 := if bool_decide _ then _ else s).
  assert (rs_window s1 = rs_window s /\ rs_pipe s1 = rs_pipe s /\ rs_ackNext s1 = rs_ackNext s /\
    rs_deliveredBytes s1 = rs_deliveredBytes s /\ rs_outcome s1 = rs_outcome s)
    as (E1 & E2 & E3 & E4 & E5) by (unfold s1; by case_bool_decide).
  assert (rx_quiet seen s1) as HQ1 by (by eapply rx_quiet_fields).
  unfold rx_cause. rewrite <- E1, <- E2. clearbody s1. clear E1 E2 E3 E4 E5 HQ s. rename s1 into s.
  pose proof HQ1 as [HI Q2 Q3 Q4 Q5 Q6]. pose proof HI as [I1 I2 I3 I4 I5 I6 I7 I8].
  assert (is_u64 (rx_Sequence f)) as Hu by (unfold is_u64; destruct Hs; unfold max_u64 in *; lia).
  destruct (wi_expected _ I1) as [He0 _].
  change (rs_window (tick s)) with (rs_window s).
  destruct (Insert_cases (rs_window s) f (now_of clock s) I1 Hu)
    as [Hlt|Heq|g Hlt Hg|Hlt Hg Hlim|w' Hlt Hg Hlim W1 W2 W3 W4 W5 W6].
  - left. apply rx_quiet_dup; [by eapply rx_quiet_fields|]. apply I4. destruct Hs. lia.
  - match goal with |- context [addUnique f ?x] =>
      destruct (addUnique_fields f x) as (F1 & F2 & F3 & F4 & F5 & F6 & F7);
      set (s2 := addUnique f x) in * end.
    simpl in F1, F2, F4, F5, F7.
    destruct (deliver_spec (seen ++ [rx_Sequence f]) (S (size (pending (rs_window s)))) f s2)
      as [HQ|[HE Hne]]; rewrite ?F1, ?F7; try done.
    + simpl. lia.
    + split; rewrite ?F1, ?F2, ?F4, ?F5; simpl; try done.
      * by destruct I1.
      * intros k Hk. rewrite <- I3, elem_snoc by done. intuition lia.
      * intros k Hk. rewrite elem_snoc. auto.
    + rewrite elem_snoc. simpl. auto.
    + by left.
    + right. split; [done|]. left. by rewrite <- F2.
  - left. apply rx_quiet_dup; [by eapply rx_quiet_fields|]. apply I3; [done|]. by eexists.
  - right. split.
    + apply (rx_exit_end _ _ _ []); simpl; try done.
      * intros k Hk. rewrite elem_snoc. auto.
      * apply prefix_nil.
      * by rewrite app_nil_r.
    + right. split_and!; try done. rewrite I3 by done. rewrite Hg. by intros [? [=]].
  - left. match goal with |- context [addUnique f ?x] =>
      destruct (addUnique_fields f x) as (F1 & F2 & F3 & F4 & F5 & F6 & F7);
      set (s2 := addUnique f x) in * end.
    destruct (sync_fields s2) as (G1 & G2 & G3 & G4 & G5 & G6 & G7).
    rewrite F1 in G1. rewrite F2 in G2. rewrite F4 in G4. rewrite F5 in G5. rewrite F7 in G7.
    simpl in G1, G2, G4, G5, G7.
    split; rewrite ?G1, ?G2, ?G4, ?G5, ?G7; try done; try congruence.
    + split; rewrite ?G1, ?G2, ?G4, ?G5, ?W3; try done.
      * intros k h. rewrite W6. intros [[<- <-]|[_ Hk]]%lookup_insert_Some; eauto.
      * intros k Hk. rewrite W6, lookup_insert_is_Some', <- I3, elem_snoc by done.
        intuition congruence.
      * intros k Hk. rewrite elem_snoc. auto.
    + rewrite W3, elem_snoc. intuition lia.
Qed.

Lemma rx_run_spec seen frames s :
  rx_quiet seen s -> Forall (sent data) frames ->
  rx_quiet (seen ++ map rx_Sequence frames) (rx_run clock frames s) \/
  exists done f rest s', frames = done ++ f :: rest /\
    rx_quiet (seen ++ map rx_Sequence done) s' /\ s' = rx_run clock done s /\
    rx_run clock frames s = rx_iter clock f s' /\
    rx_end (seen ++ map rx_Sequence (done ++ [f])) (rx_run clock frames s) /\
    rx_cause (seen ++ map rx_Sequence done) f s'.
Proof using data_u64.
  revert seen s. induction frames as [|f frames IH]; intros seen s HQ HF.
  { left. simpl. by rewrite app_nil_r. }
  inversion HF as [|? ? Hf HF' ]; subst. cbn [rx_run]. rewrite (rq_running _ _ HQ).
  destruct (rx_iter_spec seen f s HQ Hf) as [HQ'|[HE HC]].
  - destruct (IH _ _ HQ' HF') as [HQ2|(dn & g & rest & s' & -> & A & B & C & D & E)].
    + left. simpl. by rewrite <- app_assoc in HQ2.
    + right. exists (f :: dn), g, rest, s'. cbn [map app rx_run].
      rewrite (rq_running _ _ HQ). rewrite <- app_assoc in A, D, E. by split_and!.
  - right. exists [], f, frames, s.
    assert (rx_run clock frames (rx_iter clock f s) = rx_iter clock f s) as ->.
    { destruct frames; [done|]. simpl. destruct (re_over _ _ HE) as [? _].
      by destruct (rs_outcome _). }
    simpl. rewrite app_nil_r. by split_and!.
Qed.

Lemma rx_init_quiet maxR legs pipe closing :
  wr_out pipe = out0 -> rx_quiet [] (rx_init maxR legs pipe closing).
Proof.
  intros <-. split; try done.
  - split; simpl; try done.
    + split; simpl; try done. unfold PendingFrames. simpl. rewrite map_size_empty. lia.
    + intros k _. rewrite lookup_empty. split; [by intros ?%not_elem_of_nil|by intros [? ?]].
    + intros k Hk. lia.
    + lia.
    + by rewrite app_nil_r.
  - apply not_elem_of_nil.
Qed.
End rx_proofs.

(** ** Buffer ownership *)

Definition payloads (m : gmap Z StreamRXFrame) : list bytes := map rx_Payload (map_to_list m).*2.

(** The buffers the loop has given back together with those it still holds. *)
Definition buffers (s : rxState) : list bytes := rs_released s ++ payloads (pending (rs_window s)).

Lemma payloads_delete m k f :
  m !! k = Some f -> payloads m ≡ₚ rx_Payload f :: payloads (delete k m).
Proof. intros H. unfold payloads. by rewrite <- (map_to_list_delete m k f H). Qed.
Lemma payloads_insert m k f :
  m !! k = None -> payloads (<[k:=f]> m) ≡ₚ rx_Payload f :: payloads m.
Proof. intros H. unfold payloads. by rewrite (map_to_list_insert m k f H). Qed.

Lemma CommitReady_pending w now : pending (CommitReady w now) = pending w.
Proof.
  unfold CommitReady. destruct (readyPending w); [simpl|done].
  case_match; [done|]. by rewrite (proj1 (proj2 (refreshGap_fields _ _))).
Qed.

Lemma PopContiguous_payloads w next w' :
  PopContiguous w = (next, w') ->
  match next with
  | None => w' = w
  | Some g => payloads (pending w) ≡ₚ rx_Payload g :: payloads (pending w') /\
      (S (size (pending w')) = size (pending w))%nat
  end.
Proof.
  unfold PopContiguous. destruct (readyPending w); [by intros [= <- <-]|].
  destruct (pending w !! expected w) as [g|] eqn:Hp; intros [= <- <-]; [|done]. simpl.
  split; [by apply payloads_delete|]. rewrite map_size_delete, Hp.
  assert (size (pending w) <> 0%nat) by (eapply map_size_ne_0_lookup_2; eauto). lia.
Qed.

Section buffers.
Variable clock : nat -> time.

Lemma rx_exit_buffers o s : buffers (rx_exit clock o s) = buffers s.
Proof.
  destruct (rx_exit_fields clock o s) as (E1 & _ & _ & _ & E5).
  unfold buffers. rewrite E1, E5. simpl. unfold payloads at 1.
  rewrite map_to_list_empty. simpl. by rewrite app_nil_r.
Qed.

Lemma sync_buffers s : buffers (syncRXStatsFromWindow clock s) = buffers s.
Proof.
  destruct (sync_fields clock s) as (E1 & _ & _ & _ & _ & E6 & _). unfold buffers. by rewrite E1, E6.
Qed.

Lemma deliver_buffers fuel f s :
  (size (pending (rs_window s)) < fuel)%nat ->
  buffers (deliver clock fuel f s) ≡ₚ rx_Payload f :: buffers s.
Proof.
  revert f s. induction fuel as [|fuel IH]; intros f s Hfuel; [lia|]. cbn [deliver].
  destruct (writeAll _ _) as [[e|] pipe].
  - rewrite rx_exit_buffers. unfold buffers; simpl. by rewrite <- app_assoc, Permutation_middle.
  - simpl. destruct (PopContiguous _) as [[g|] w'] eqn:HP;
      apply PopContiguous_payloads in HP; rewrite CommitReady_pending in HP || simpl in HP.
    + destruct HP as [HP Hsz]. rewrite IH, sync_buffers
        by (rewrite (proj1 (sync_fields _ _)); simpl; lia).
      unfold buffers; simpl. rewrite HP, <- app_assoc. simpl.
      rewrite <- !Permutation_middle. apply Permutation_swap.
    + subst w'. unfold requestAck, buffers; simpl.
      match goal with |- context [rs_released (syncRXStatsFromWindow clock ?x)] =>
        destruct (sync_fields clock x) as (E1 & _ & _ & _ & _ & E6 & _); rewrite E1, E6 end.
      simpl. rewrite CommitReady_pending, <- app_assoc. by rewrite Permutation_middle.
Qed.

#[local] Arguments deliver : simpl never.
Lemma rx_iter_buffers f s : buffers (rx_iter clock f s) ≡ₚ rx_Payload f :: buffers s.
Proof.
  unfold rx_iter. set (s1 := if bool_decide _ then _ else s).
  assert (buffers s1 = buffers s) as <- by (unfold s1; by case_bool_decide).
  clearbody s1. clear s. rename s1 into s. change (rs_window (tick s)) with (rs_window s).
  assert (forall s', rs_released s' = rs_released s -> pending (rs_window s') = pending (rs_window s) ->
    buffers (putBuffer (rx_Payload f) s') ≡ₚ rx_Payload f :: buffers s) as Hput.
  { intros s' E1 E2. unfold buffers; simpl. rewrite E1, E2, <- app_assoc. by rewrite Permutation_middle. }
  assert (forall s' f, rs_released (addUnique f s') = rs_released s' /\
    rs_window (addUnique f s') = rs_window s') as Hadd.
  { intros s' g. destruct (addUnique_fields g s') as (E1 & _ & _ & _ & _ & E6 & _). by rewrite E1, E6. }
  unfold Insert. repeat case_match; simplify_eq/=;
    try (rewrite rx_exit_buffers); try (by apply Hput).
  - rewrite deliver_buffers by (rewrite (proj2 (Hadd _ _)); simpl; lia).
    unfold buffers. rewrite (proj1 (Hadd _ _)), (proj2 (Hadd _ _)). done.
  - rewrite sync_buffers. unfold buffers. rewrite (proj1 (Hadd _ _)), (proj2 (Hadd _ _)). simpl.
    rewrite (proj1 (proj2 (refreshGap_fields _ _))). simpl.
    rewrite payloads_insert by done. by rewrite Permutation_middle.
Qed.
End buffers.

(** ** What never changes: the limit, and a pipe without failures *)

Section static.
Variable clock : nat -> time.
Variable m : Z.

Definition static (s : rxState) : Prop :=
  wr_script (rs_pipe s) = [] /\ maxReorderFrames (rs_window s) = m.

Lemma rx_exit_static o s : static s -> static (rx_exit clock o s).
Proof.
  intros [H1 H2]. destruct (rx_exit_fields clock o s) as (E1 & E2 & _).
  split; [by rewrite E2|by rewrite E1].
Qed.

Lemma sync_static s : static s -> static (syncRXStatsFromWindow clock s).
Proof.
  intros [H1 H2]. destruct (sync_fields clock s) as (E1 & E2 & _).
  split; [by rewrite E2|by rewrite E1].
Qed.

Lemma commit_pop_max w now :
  maxReorderFrames (PopContiguous (CommitReady w now)).2 = maxReorderFrames w.
Proof.
  assert (maxReorderFrames (CommitReady w now) = maxReorderFrames w) as <-.
  { unfold CommitReady. destruct (readyPending w); [simpl|done]. case_match; [done|].
    by rewrite (proj1 (proj2 (proj2 (proj2 (refreshGap_fields _ _))))). }
  unfold PopContiguous. repeat case_match; done.
Qed.

Lemma deliver_static fuel f s : static s -> static (deliver clock fuel f s).
Proof.
  revert f s. induction fuel as [|fuel IH]; intros f s [H1 H2]; [done|]. cbn [deliver].
  destruct (writeAll_healthy _ (rx_Payload f) H1) as (pipe & -> & Hp). simpl.
  pose proof (commit_pop_max (rs_window s)
    (now_of clock (putBuffer (rx_Payload f) (s <| rs_pipe := pipe |>
       <| rs_deliveredBytes ::= fun n => u64 (n + slen (rx_Payload f)) |>)))) as HM.
  simpl in HM. destruct (PopContiguous _) as [[g|] w']; simpl in HM.
  - apply IH, sync_static. split; [done|]. simpl. congruence.
  - unfold requestAck. match goal with |- context [syncRXStatsFromWindow clock ?x] =>
      destruct (sync_static x) end; [split; [done|simpl; congruence]|]. by split.
Qed.

Lemma rx_iter_static f s : static s -> static (rx_iter clock f s).
Proof.
  unfold rx_iter. set (s1 := if bool_decide _ then _ else s). intros H.
  assert (static s1) as [H1 H2] by (unfold s1; by case_bool_decide). clearbody s1. clear H s.
  change (rs_window (tick s1)) with (rs_window s1).
  assert (forall w, maxReorderFrames w = m -> static (addUnique f ((tick s1) <| rs_window := w |>
    <| rs_debugExpected := expected w |>))) as Hadd.
  { intros w Hw. match goal with |- static (addUnique f ?x) =>
      destruct (addUnique_fields f x) as (E1 & E2 & _) end.
    split; [by rewrite E2|by rewrite E1]. }
  unfold Insert. repeat case_match; simplify_eq; try (apply rx_exit_static); try done.
  - by apply deliver_static, Hadd.
  - apply sync_static, Hadd. by rewrite (proj1 (proj2 (proj2 (proj2 (refreshGap_fields _ _))))).
Qed.

Lemma rx_run_static frames s : static s -> static (rx_run clock frames s).
Proof.
  revert s. induction frames as [|f frames IH]; intros s Hs; [done|]. cbn [rx_run].
  destruct (rs_outcome s); try done. by apply IH, rx_iter_static.
Qed.
End static.

(** ** Published statistics *)

Definition stats_ok (s : rxState) : Prop :=
  rs_pendingFrames s = PendingFrames (rs_window s) /\
  rs_pendingBytes s = pendingBytes (rs_window s) /\
  PendingFrames (rs_window s) <= rs_maxPendingFrames s.

Section stats.
Variable clock : nat -> time.

Lemma sync_stats s : stats_ok (syncRXStatsFromWindow clock s).
Proof.
  unfold stats_ok, syncRXStatsFromWindow. repeat case_match; simpl; split_and!; try done; lia.
Qed.

Lemma stats_frame s s' :
  stats_ok s -> PendingFrames (rs_window s') = PendingFrames (rs_window s) ->
  pendingBytes (rs_window s') = pendingBytes (rs_window s) ->
  rs_pendingFrames s' = rs_pendingFrames s ->
  rs_pendingBytes s' = rs_pendingBytes s -> rs_maxPendingFrames s' = rs_maxPendingFrames s ->
  stats_ok s'.
Proof. unfold stats_ok. intros ? -> -> -> -> ->. done. Qed.

Lemma rx_exit_stats o s : stats_ok (rx_exit clock o s).
Proof. unfold rx_exit. simpl. eapply stats_frame; [apply sync_stats|reflexivity..]. Qed.

Lemma deliver_stats fuel f s : stats_ok s -> stats_ok (deliver clock fuel f s).
Proof.
  revert f s. induction fuel as [|fuel IH]; intros f s Hs; [done|]. cbn [deliver].
  destruct (writeAll _ _) as [[e|] pipe]; [apply rx_exit_stats|].
  destruct (PopContiguous _) as [[g|] w']; [apply IH, sync_stats|].
  eapply stats_frame; [apply sync_stats|reflexivity..].
Qed.

Lemma rx_iter_stats f s : stats_ok s -> stats_ok (rx_iter clock f s).
Proof.
  intros Hs. unfold rx_iter. set (s1 := if bool_decide _ then _ else s).
  assert (stats_ok s1) as H1 by (unfold s1; by case_bool_decide). clearbody s1. clear Hs s.
  change (rs_window (tick s1)) with (rs_window s1).
  unfold Insert. repeat case_match; simplify_eq; try apply rx_exit_stats; try apply sync_stats;
    try (by eapply stats_frame).
  apply deliver_stats. unfold addUnique.
  destruct (bool_decide (rx_Leg f < _)); (eapply stats_frame; [exact H1|reflexivity..]).
Qed.

Lemma rx_run_stats frames s : stats_ok s -> stats_ok (rx_run clock frames s).
Proof.
  revert s. induction frames as [|f frames IH]; intros s Hs; [done|]. cbn [rx_run].
  destruct (rs_outcome s); try done. by apply IH, rx_iter_stats.
Qed.
End stats.

(** ** Theorems *)

(** C4. In-order, exactly-once delivery over any carriers and any application
    pipe.  Whatever subset of the sender's numbered frames arrives, in any order
    and with any duplicates: the pipe has received exactly the first [n] payloads
    in order, plus at most a part of the next one if the loop has ended; every
    frame below [n] did arrive; nothing beyond [n] is acknowledged; and while the
    loop runs, [n] is the first frame that has not arrived and is what the
    acknowledgement asks for. *)
Theorem rx_in_order_exactly_once clock data maxR legs pipe closing frames :
  Z.of_nat (length data) < max_u64 -> Forall (sent data) frames ->
  let s := rx_run clock frames (rx_init maxR legs pipe closing) in
  let n := expected (rs_window s) in
  0 <= n <= Z.of_nat (length data) /\ rs_outcome s <> rx_stuck /\
  (forall k, 0 <= k < n -> k ∈ map rx_Sequence frames) /\ rs_ackNext s <= n /\
  (exists part, part `prefix_of` default [] (data !! Z.to_nat n) /\
     wr_out (rs_pipe s) = wr_out pipe ++ stream_prefix data n ++ part /\
     (rs_outcome s = rx_running -> part = [])) /\
  (rs_outcome s = rx_running ->
     n ∉ map rx_Sequence frames /\ rs_ackNext s = n /\
     rs_deliveredBytes s = u64 (slen (stream_prefix data n))).
Proof.
  intros Hd HF s n.
  destruct (rx_run_spec clock data (wr_out pipe) Hd [] frames (rx_init maxR legs pipe closing))
    as [HQ|(dn & f & rest & s' & -> & HQ & _ & _ & HE & _)]; [by apply rx_init_quiet|done|..].
  - fold s in HQ. destruct HQ as [[I1 I2 I3 I4 I5 I6 I7 I8] Q2 Q3 Q4 Q5 Q6].
    destruct (wi_expected _ I1) as [He _]. rewrite Q6. split_and!; try done.
    exists []. rewrite app_nil_r. split_and!; try done. apply prefix_nil.
  - fold s in HE. destruct HE as [[O1 O2] E2 E3 (part & E4 & E5) E6 E7].
    split_and!; try done; try (apply E3).
    + intros k Hk. specialize (E2 k Hk). rewrite map_app in *. simpl in *.
      rewrite elem_of_app in *. set_unfold in E2. set_unfold. intuition.
    + by exists part.
Qed.

Definition example_data : list bytes := [str "alpha"; str "beta"; str "gamma"].
Definition example_frames : list StreamRXFrame :=
  [MkRXFrame 2 1 (str "gamma"); MkRXFrame 0 0 (str "alpha"); MkRXFrame 2 0 (str "gamma");
   MkRXFrame 0 1 (str "alpha")].

Lemma example_frames_sent : Forall (sent example_data) example_frames.
Proof. repeat constructor; simpl; lia. Qed.

Lemma rx_in_order_exactly_once_witness :
  let s := rx_run (fun _ => 7) example_frames (rx_init 8 2 (MkWriter [] []) false) in
  rs_ackNext s <= expected (rs_window s) /\ expected (rs_window s) = 1 /\
  wr_out (rs_pipe s) = str "alpha" /\ rs_ackForce s = true.
Proof.
  destruct (rx_in_order_exactly_once (fun _ => 7) example_data 8 2 (MkWriter [] []) false
    example_frames) as (_ & _ & _ & HA & _); [done|apply example_frames_sent|].
  split; [exact HA|]. vm_compute. done.
Defined.

(** C5. Completeness: if the stream fits the reorder limit and the pipe takes
    what it is given, then receiving every frame at least once, in any order
    and with any duplicates, delivers and acknowledges the whole stream. *)
Theorem rx_complete clock data maxR legs out closing frames :
  Z.of_nat (length data) < max_u64 -> Z.of_nat (length data) <= maxR ->
  Forall (sent data) frames ->
  (forall k, 0 <= k < Z.of_nat (length data) -> k ∈ map rx_Sequence frames) ->
  let s := rx_run clock frames (rx_init maxR legs (MkWriter out []) closing) in
  rs_outcome s = rx_running /\ wr_out (rs_pipe s) = out ++ concat data /\
  rs_ackNext s = Z.of_nat (length data) /\ PendingFrames (rs_window s) = 0.
Proof.
  intros Hd HM HF Hall s.
  destruct (rx_run_spec clock data out Hd [] frames (rx_init maxR legs (MkWriter out []) closing))
    as [HQ|(dn & f & rest & s' & -> & HQ & Es' & _ & _ & HC)]; [by apply rx_init_quiet|done|..].
  - fold s in HQ. destruct HQ as [[I1 I2 I3 I4 I5 I6 I7 I8] Q2 Q3 Q4 Q5 Q6].
    destruct (wi_expected _ I1) as [He _]. simpl in *.
    assert (expected (rs_window s) = Z.of_nat (length data)) as En.
    { destruct (decide (expected (rs_window s) < Z.of_nat (length data))); [|lia].
      exfalso. apply Q4, Hall. lia. }
    split_and!; try done.
    + rewrite I6, En. unfold stream_prefix. by rewrite Nat2Z.id, take_ge by lia.
    + by rewrite Q5.
    + apply PendingFrames_0, map_empty. intros k. destruct (_ !! k) as [g|] eqn:Hk; [|done].
      pose proof (wi_future _ I1 _ _ Hk). destruct (wi_key _ I1 _ _ Hk) as [<- _].
      pose proof (sent_bound _ _ (I2 _ _ Hk)). lia.
  - exfalso. apply Forall_app in HF as [_ HF]. apply Forall_cons in HF as [Hf _].
    assert (static maxR s') as [Hs1 Hs2] by (rewrite Es'; by apply rx_run_static).
    destruct HC as [Hne|(Hlim & _)]; [done|]. rewrite Hs2 in Hlim.
    destruct HQ as [[I1 I2 _ _ _ _ _ _] _ _ _ _ _]. destruct (wi_expected _ I1) as [He _].
    pose proof (sent_bound _ _ Hf). destruct Hf as [Hf0 _].
    assert (Z.of_nat (size (pending (rs_window s'))) <= Z.of_nat (length data) - (-1) - 1 - 1).
    { enough (Z.of_nat (size (pending (rs_window s'))) <= Z.of_nat (length data) - 0 - 1) by lia.
      apply map_size_between; [|lia]. intros k g Hk. pose proof (wi_future _ I1 _ _ Hk).
      destruct (wi_key _ I1 _ _ Hk) as [<- _]. pose proof (sent_bound _ _ (I2 _ _ Hk)). lia. }
    unfold PendingFrames in Hlim. lia.
Qed.

Lemma rx_complete_witness :
  let s := rx_run (fun _ => 7) (example_frames ++ [MkRXFrame 1 0 (str "beta")])
             (rx_init 8 2 (MkWriter [] []) false) in
  wr_out (rs_pipe s) = str "alphabetagamma" /\ rs_ackNext s = 3.
Proof.
  destruct (rx_complete (fun _ => 7) example_data 8 2 [] false
    (example_frames ++ [MkRXFrame 1 0 (str "beta")])) as (_ & HO & HA & _);
    [done|done|repeat constructor; simpl; lia| |split; [exact HO|exact HA]].
  intros k Hk. simpl in *. assert (k = 0 \/ k = 1 \/ k = 2) as [-> | [-> | ->]] by lia;
    set_unfold; lia.
Defined.

(** Buffer ownership: every payload buffer the loop takes from the incoming
    channel is given back exactly once.  While the loop runs the buffers not yet
    given back are exactly those the window retains, and once it has returned
    (for whatever reason, session close included) none is left. *)
Theorem rx_buffers_returned_once clock frames maxR legs pipe closing :
  let s := rx_run clock frames (rx_init maxR legs pipe closing) in
  exists taken, taken `prefix_of` frames /\
    (rs_outcome s = rx_running -> taken = frames) /\
    rs_released s ++ payloads (pending (rs_window s)) ≡ₚ map rx_Payload taken /\
    rs_released (rx_done clock s) ++ payloads (pending (rs_window (rx_done clock s)))
      ≡ₚ map rx_Payload taken /\
    (rs_outcome s = rx_running -> pending (rs_window (rx_done clock s)) = ∅).
Proof.
  intros s.
  assert (forall s0, exists taken, taken `prefix_of` frames /\
    (rs_outcome (rx_run clock frames s0) = rx_running -> taken = frames) /\
    buffers (rx_run clock frames s0) ≡ₚ buffers s0 ++ map rx_Payload taken) as H.
  { clear. induction frames as [|f frames IH]; intros s0; simpl.
    - exists []. simpl. by rewrite app_nil_r.
    - destruct (rs_outcome s0) eqn:E; try (exists []; simpl; rewrite app_nil_r, E;
        split_and!; [apply prefix_nil|done|done]).
      destruct (IH (rx_iter clock f s0)) as (taken & P & R & B). exists (f :: taken).
      split; [by apply prefix_cons|]. split; [intros; f_equal; auto|].
      rewrite B, rx_iter_buffers. simpl. by rewrite Permutation_middle. }
  destruct (H (rx_init maxR legs pipe closing)) as (taken & P & R & B).
  exists taken. fold s in R, B. assert (buffers (rx_init maxR legs pipe closing) = []) as E by done.
  rewrite E in B. simpl in B. split_and!; try done.
  - change (buffers (rx_done clock s) ≡ₚ map rx_Payload taken). unfold rx_done.
    destruct (rs_outcome s); rewrite ?rx_exit_buffers; done.
  - unfold rx_done. intros ->. by rewrite (proj1 (rx_exit_fields _ _ _)).
Qed.

(** Bounded memory and exact accounting: between frames the window retains
    only frames beyond its frontier, each under its own sequence, at most
    [maxReorderFrames] of them; the byte counter and the published statistics are
    exact, and the gap timestamp is set exactly for the current frontier. *)
Theorem rx_window_bounded clock data maxR legs pipe closing frames :
  Z.of_nat (length data) < max_u64 -> Forall (sent data) frames ->
  let s := rx_run clock frames (rx_init maxR legs pipe closing) in
  rs_outcome s = rx_running ->
  win_inv (rs_window s) /\ gap_inv (rs_window s) /\ readyPending (rs_window s) = false /\
  rs_pendingFrames s = PendingFrames (rs_window s) /\
  rs_pendingBytes s = pendingBytes (rs_window s) /\
  PendingFrames (rs_window s) <= rs_maxPendingFrames s.
Proof.
  intros Hd HF s Hrun.
  assert (stats_ok s) as HS by (by apply rx_run_stats).
  destruct (rx_run_spec clock data (wr_out pipe) Hd [] frames (rx_init maxR legs pipe closing))
    as [HQ|(dn & f & rest & s' & -> & _ & _ & _ & HE & _)]; [by apply rx_init_quiet|done|..].
  - split; [apply HQ|]. split; [apply HQ|]. split; [apply (rq_ready _ _ _ _ HQ)|done].
  - by destruct (re_over _ _ _ _ HE).
Qed.

Lemma rx_window_bounded_witness :
  let s := rx_run (fun _ => 7) example_frames (rx_init 8 2 (MkWriter [] []) false) in
  win_inv (rs_window s) /\ pendingBytes (rs_window s) = 5 /\ gapSince (rs_window s) = 7.
Proof.
  destruct (rx_window_bounded (fun _ => 7) example_data 8 2 (MkWriter [] []) false example_frames)
    as (HW & _); [done|apply example_frames_sent|reflexivity|].
  split; [exact HW|]. vm_compute. done.
Defined.
