(* ===== verification/TxLedger.v ===== *)
(** * The transmit ledger: data and operations

    [core/stream_tx.go]: sequencing of local DATA, outstanding records, attempt
    state per carrier, and retirement by the peer's cumulative ACK.

    A [*StreamTXRecord] is a key of [lg_heap], so that stale pointers held by
    retry queues, and the pointer comparisons the ledger makes against them, are
    modelled as such.  A ledger method is a function from the ledger before to
    the ledger after under the ledger's lock; an index expression that would
    panic makes the method return [None].  [recoveryTraceHook] is nil, and the
    handoff-telemetry and benchmark fields of a record, which the ledger never
    reads, are left out. *)

From S2P Require Import Prelude Bytes.
From stdpp Require Import options.

(** ** Records *)

Abbreviation ptr := Z (only parsing).

Record StreamTXRecord := MkRecord {
  tr_recoveryProbeWriteStartedAt : option time; (* atomic.Pointer[time.Time] *)
  tr_sequence : Z;           (* uint64 *)
  tr_payload : bytes;
  tr_createdAt : time;
  tr_lastSentAt : time;
  tr_lastSentLeg : Z;        (* int16, -1 for none *)
  tr_lastSentAttemptAt : time;
  tr_inTransit : bool;
  tr_transitLeg : Z;         (* uint8 *)
  tr_transitSince : time;
  tr_rescueInTransit : bool;
  tr_rescueLeg : Z;
  tr_rescueSince : time;
  tr_lastRescueAt : time;
  tr_sendCount : Z;          (* uint32 *)
  tr_ordinaryOwner : Z;      (* int16, -1 for none *)
  tr_ordinaryAdmitted : bool;
  tr_assignedAt : time;
  tr_firstWriteAt : time;
  tr_frontierAt : time;
  tr_originGeneration : Z;
  tr_originEpoch : Z;
  tr_invalidated : bool;
  tr_duplicated : bool;
  tr_localEnqueue : bool
}.
#[export] Instance StreamTXRecord_fields : Fields StreamTXRecord := fun r =>
  MkRecord (tr_recoveryProbeWriteStartedAt r) (tr_sequence r) (tr_payload r) (tr_createdAt r)
    (tr_lastSentAt r) (tr_lastSentLeg r) (tr_lastSentAttemptAt r) (tr_inTransit r)
    (tr_transitLeg r) (tr_transitSince r) (tr_rescueInTransit r) (tr_rescueLeg r)
    (tr_rescueSince r) (tr_lastRescueAt r) (tr_sendCount r) (tr_ordinaryOwner r)
    (tr_ordinaryAdmitted r) (tr_assignedAt r) (tr_firstWriteAt r) (tr_frontierAt r)
    (tr_originGeneration r) (tr_originEpoch r) (tr_invalidated r) (tr_duplicated r)
    (tr_localEnqueue r).

(** The composite literal of [add]. *)
Definition new_record (sequence : Z) (payload : bytes) (now : time) (local : bool)
  : StreamTXRecord :=
  MkRecord None sequence payload now zero_time (-1) zero_time false 0 zero_time false 0 zero_time
    zero_time 0 (-1) false zero_time zero_time zero_time 0 0 false false local.

Definition payload_size (r : StreamTXRecord) : Z := slen (tr_payload r).

(** ** The ledger *)

Definition MaxStreamLegIDCount : Z := 256.
Definition streamProbeBudget : duration := 200 * Millisecond.
Definition streamProofBudget : duration := streamProbeBudget + 500 * Millisecond.

Record StreamTXEvidence := MkEvidence {
  ev_Event : string;
  ev_Sequence : Z;
  ev_Bytes : Z;
  ev_Owner : Z;
  ev_At : time;
  ev_Assigned : time;
  ev_FirstWrite : time;
  ev_Frontier : time;
  ev_Attempts : Z;
  ev_Duplicated : bool;
  ev_Invalidated : bool;
  ev_Generation : Z;
  ev_Epoch : Z
}.
Definition zero_evidence : StreamTXEvidence :=
  MkEvidence "" 0 0 0 zero_time zero_time zero_time zero_time 0 false false 0 0.

Record StreamTXLedger := MkLedger {
  lg_heap : gmap ptr StreamTXRecord;
  lg_fresh : ptr; (* the next address [new] returns *)
  lg_nextSequence : Z;     (* uint64 *)
  lg_ackedNext : Z;        (* uint64 *)
  lg_outstanding : gmap Z ptr;
  lg_futureACKCount : Z;
  lg_lastACKProgress : time;
  lg_maxLegs : Z;          (* int *)
  lg_ordinaryFrames : list Z;
  lg_ordinaryBytes : list Z;
  lg_pendingBytes : list Z;
  lg_evidence : list StreamTXEvidence;
  lg_evidenceNext : Z
}.
#[export] Instance StreamTXLedger_fields : Fields StreamTXLedger := fun l =>
  MkLedger (lg_heap l) (lg_fresh l) (lg_nextSequence l) (lg_ackedNext l) (lg_outstanding l)
    (lg_futureACKCount l) (lg_lastACKProgress l) (lg_maxLegs l) (lg_ordinaryFrames l)
    (lg_ordinaryBytes l) (lg_pendingBytes l) (lg_evidence l) (lg_evidenceNext l).

Definition newStreamTXLedger (maxLegs : Z) : StreamTXLedger :=
  let maxLegs := if bool_decide (maxLegs < 1) then 2 else maxLegs in
  let maxLegs := if bool_decide (MaxStreamLegIDCount < maxLegs)
                 then MaxStreamLegIDCount else maxLegs in
  let zeros := replicate (Z.to_nat maxLegs) 0 in
  MkLedger ∅ 0 0 0 ∅ 0 zero_time maxLegs zeros zeros zeros [] 0.

Definition NewStreamTXLedger : StreamTXLedger := newStreamTXLedger 2.

(** [append(s, make([]T, n - len(s))...)] *)
Definition grow_to (n : Z) (s : list Z) : list Z := s ++ replicate (Z.to_nat (n - slen s)) 0.

Definition ensureLocked (l : StreamTXLedger) : StreamTXLedger :=
  let l := if bool_decide (lg_maxLegs l < 2) then l <| lg_maxLegs := 2 |> else l in
  if bool_decide (slen (lg_ordinaryFrames l) < lg_maxLegs l) then
    l <| lg_ordinaryFrames ::= grow_to (lg_maxLegs l) |>
      <| lg_ordinaryBytes ::= grow_to (lg_maxLegs l) |>
      <| lg_pendingBytes ::= grow_to (lg_maxLegs l) |>
  else l.

Definition ensureLegLocked (l : StreamTXLedger) (id : Z) : bool * StreamTXLedger :=
  let l := ensureLocked l in
  if bool_decide (MaxStreamLegIDCount <= id) then (false, l) else
  let want := id + 1 in
  if bool_decide (want <= lg_maxLegs l) then (true, l) else
  let l := if bool_decide (slen (lg_ordinaryFrames l) < want) then
             let grow := replicate (Z.to_nat (want - slen (lg_ordinaryFrames l))) 0 in
             l <| lg_ordinaryFrames ::= fun s => s ++ grow |>
               <| lg_ordinaryBytes ::= fun s => s ++ grow |>
               <| lg_pendingBytes ::= fun s => s ++ grow |>
           else l in
  (true, l <| lg_maxLegs := want |>).

(** ** Evidence ring *)

Definition evidenceLocked (event : string) (r : StreamTXRecord) (now : time)
    (l : StreamTXLedger) : StreamTXLedger :=
  if bool_decide (slen (lg_evidence l) = 0) then l else
  let e := MkEvidence event (tr_sequence r) (payload_size r) (tr_ordinaryOwner r) now
             (tr_assignedAt r) (tr_firstWriteAt r) (tr_frontierAt r) (tr_sendCount r)
             (tr_duplicated r) (tr_invalidated r) (tr_originGeneration r) (tr_originEpoch r) in
  let i := lg_evidenceNext l `mod` slen (lg_evidence l) in
  l <| lg_evidence ::= <[Z.to_nat i := e]> |> <| lg_evidenceNext ::= Z.succ |>.

Definition EnableEvidenceTraceForTest (l : StreamTXLedger) : StreamTXLedger :=
  l <| lg_evidence := replicate 128 zero_evidence |> <| lg_evidenceNext := 0 |>.

Definition EvidenceTraceForTest (l : StreamTXLedger) : option (list StreamTXEvidence) :=
  let len := slen (lg_evidence l) in
  let n := lg_evidenceNext l `min` len in
  let start := lg_evidenceNext l - n in
  mapM (fun i => slice_get (lg_evidence l) ((start + i) `mod` len)) (seqZ 0 n).

(** ** Pointers *)

(** [record != nil && l.outstanding[record.sequence] == record]: the record, read
    through the pointer. *)
Definition current (l : StreamTXLedger) (record : option ptr) : option (ptr * StreamTXRecord) :=
  match record with
  | None => None
  | Some p =>
    match lg_heap l !! p with
    | None => None
    | Some r =>
      if bool_decide (lg_outstanding l !! tr_sequence r = Some p) then Some (p, r) else None
    end
  end.

(** [record.f = v] through a pointer. *)
Definition store (p : ptr) (r : StreamTXRecord) (l : StreamTXLedger) : StreamTXLedger :=
  l <| lg_heap ::= <[p := r]> |>.

(** The records ranged over by [for _, record := range l.outstanding]. *)
Definition live (l : StreamTXLedger) : gmap Z StreamTXRecord :=
  omap (fun p => lg_heap l !! p) (lg_outstanding l).
Definition live_records (l : StreamTXLedger) : list StreamTXRecord := (map_to_list (live l)).*2.

(** ** Adding records *)

Definition add (l : StreamTXLedger) (payload : bytes) (now : time) (local : bool)
  : ptr * StreamTXLedger :=
  let l := ensureLocked l in
  let record := new_record (lg_nextSequence l) payload now local in
  let l := l <| lg_nextSequence ::= fun n => u64 (n + 1) |> in
  let record := if bool_decide (tr_sequence record = lg_ackedNext l)
                then record <| tr_frontierAt := now |> else record in
  let p := lg_fresh l in
  let l := store p record (l <| lg_fresh ::= Z.succ |>) in
  let l := l <| lg_outstanding ::= <[tr_sequence record := p]> |> in
  (p, evidenceLocked "created" record now l).

Definition Add (l : StreamTXLedger) (payload : bytes) (now : time) := add l payload now false.
Definition addLocal (l : StreamTXLedger) (payload : bytes) (now : time) := add l payload now true.

(** [r.localEnqueue = false], without an identity check. *)
Definition finishLocalEnqueue (l : StreamTXLedger) (p : ptr) : StreamTXLedger :=
  l <| lg_heap ::= alter (fun r => r <| tr_localEnqueue := false |>) p |>.

(** ** Queries *)

Definition NextSequence (l : StreamTXLedger) : Z := lg_nextSequence l.
Definition HasOutstanding (l : StreamTXLedger) : bool :=
  bool_decide (size (lg_outstanding l) <> 0%nat).
Definition FutureACKCount (l : StreamTXLedger) : Z := lg_futureACKCount l.

Record StreamTXProgress := MkProgress { pr_Outstanding : Z; pr_AckedNext : Z }.
Definition ProgressSnapshot (l : StreamTXLedger) : StreamTXProgress :=
  MkProgress (Z.of_nat (size (lg_outstanding l))) (lg_ackedNext l).

Definition IsOutstanding (l : StreamTXLedger) (record : option ptr) : bool :=
  bool_decide (is_Some (current l record)).

Definition RescueInTransit (l : StreamTXLedger) (record : option ptr) : bool :=
  match current l record with Some (_, r) => tr_rescueInTransit r | None => false end.

Definition LastRescueAt (l : StreamTXLedger) (record : option ptr) : time :=
  match current l record with Some (_, r) => tr_lastRescueAt r | None => zero_time end.

Definition OrdinaryOwner (l : StreamTXLedger) (record : option ptr) : Z :=
  match current l record with Some (_, r) => tr_ordinaryOwner r | None => -1 end.

Definition originGenerationSnapshot (l : StreamTXLedger) (record : option ptr) : Z :=
  match current l record with Some (_, r) => tr_originGeneration r | None => 0 end.

(** A record that depends on, or was attempted through, leg [id]. *)
Definition depends_on (id : Z) (r : StreamTXRecord) : bool :=
  bool_decide (tr_ordinaryOwner r = id) || bool_decide (tr_lastSentLeg r = id)
  || (tr_inTransit r && bool_decide (tr_transitLeg r = id))
  || (tr_rescueInTransit r && bool_decide (tr_rescueLeg r = id)).

Definition outstandingForLeg (l : StreamTXLedger) (id : Z) : Z :=
  fold_left (fun count r => if depends_on id r then count + 1 else count) (live_records l) 0.

Definition outstandingBytesForLeg (l : StreamTXLedger) (id : Z) : Z :=
  fold_left (fun total r => if depends_on id r then u64 (total + payload_size r) else total)
    (live_records l) 0.

Definition OrdinaryFramesByLeg (l : StreamTXLedger) : list Z := lg_ordinaryFrames l.
Definition OrdinaryAdmissionBytesByLeg (l : StreamTXLedger) : list Z * list Z :=
  (lg_ordinaryBytes l, lg_pendingBytes l).

(** ** Attempts *)

Definition MarkTransit (l : StreamTXLedger) (record : option ptr) (leg : Z) (now : time)
  : bool * StreamTXLedger :=
  match current l record with
  | None => (false, l)
  | Some (p, r) =>
    if tr_inTransit r then (false, l) else
    let r := r <| tr_inTransit := true |> in
    let r := if bool_decide (0 < tr_sendCount r) then r <| tr_duplicated := true |> else r in
    (true, store p (r <| tr_transitLeg := leg |> <| tr_transitSince := now |>) l)
  end.

Definition markRescueTransitLocked (l : StreamTXLedger) (record : option ptr) (leg : Z)
    (now : time) : time * bool * StreamTXLedger :=
  match current l record with
  | None => (zero_time, false, l)
  | Some (p, r) =>
    if tr_rescueInTransit r then (zero_time, false, l) else
    if tr_inTransit r && bool_decide (tr_transitLeg r = leg) then (zero_time, false, l) else
    let r := r <| tr_rescueInTransit := true |> <| tr_duplicated := true |>
               <| tr_rescueLeg := leg |> <| tr_rescueSince := now |> in
    (now, true, store p r l)
  end.

Definition MarkRescueTransit := markRescueTransitLocked.

Definition MarkRestrictedRescueTransit (l : StreamTXLedger) (record : option ptr) (leg owner : Z)
    (now : time) : time * bool * StreamTXLedger :=
  match record ≫= fun p => lg_heap l !! p with
  | None => (zero_time, false, l)
  | Some r =>
    if bool_decide (tr_ordinaryOwner r <> owner) then (zero_time, false, l)
    else markRescueTransitLocked l record leg now
  end.

Definition MarkRescueQueued (l : StreamTXLedger) (record : option ptr) (leg : Z) (started : time)
  : bool * StreamTXLedger :=
  match current l record with
  | None => (false, l)
  | Some (p, r) =>
    let pending := tr_rescueInTransit r && bool_decide (tr_rescueLeg r = leg)
                   && time_equal (tr_rescueSince r) started in
    let sent := time_equal (tr_lastSentAttemptAt r) started in
    if negb pending && negb sent then (false, l)
    else (true, store p (r <| tr_lastRescueAt := started |>) l)
  end.

(** Abandon the rescue attempt of a record, and its cooldown if it was committed. *)
Definition drop_rescue (r : StreamTXRecord) : StreamTXRecord :=
  let r := if time_equal (tr_lastRescueAt r) (tr_rescueSince r)
           then r <| tr_lastRescueAt := zero_time |> else r in
  r <| tr_rescueInTransit := false |> <| tr_rescueSince := zero_time |>.
Definition drop_transit (r : StreamTXRecord) : StreamTXRecord :=
  r <| tr_inTransit := false |> <| tr_transitSince := zero_time |>.

Definition clearAttemptAt (l : StreamTXLedger) (record : option ptr) (leg : Z) (rescue : bool)
    (started : time) : StreamTXLedger :=
  match current l record with
  | None => l
  | Some (p, r) =>
    if rescue then
      if tr_rescueInTransit r && bool_decide (tr_rescueLeg r = leg)
         && (is_zero started || time_equal (tr_rescueSince r) started)
      then store p (drop_rescue r) l else l
    else if tr_inTransit r && bool_decide (tr_transitLeg r = leg)
            && (is_zero started || time_equal (tr_transitSince r) started)
    then store p (drop_transit r) l else l
  end.

Definition ClearAttempt (l : StreamTXLedger) (record : option ptr) (leg : Z) (rescue : bool) :=
  clearAttemptAt l record leg rescue zero_time.

Definition AttemptCurrent (l : StreamTXLedger) (record : option ptr) (leg : Z) (rescue : bool)
  : bool :=
  match current l record with
  | None => false
  | Some (_, r) =>
    if rescue then tr_rescueInTransit r && bool_decide (tr_rescueLeg r = leg)
    else tr_inTransit r && bool_decide (tr_transitLeg r = leg)
  end.

Record StreamTXAttemptResult := MkAttempt {
  at_Applied : bool; at_Bytes : Z; at_Retransmit : bool }.

Definition MarkAttemptSent (l : StreamTXLedger) (record : option ptr) (leg : Z) (rescue : bool)
    (now : time) : StreamTXAttemptResult * StreamTXLedger :=
  match current l record with
  | None => (MkAttempt false 0 false, l)
  | Some (p, r) =>
    if (if rescue then negb (tr_rescueInTransit r) || bool_decide (tr_rescueLeg r <> leg)
        else negb (tr_inTransit r) || bool_decide (tr_transitLeg r <> leg))
    then (MkAttempt false 0 false, l) else
    let attemptStarted := if rescue then tr_rescueSince r else tr_transitSince r in
    let r := if rescue
             then r <| tr_rescueInTransit := false |> <| tr_rescueSince := zero_time |>
             else r <| tr_inTransit := false |> <| tr_transitSince := zero_time |> in
    let attemptStarted := if is_zero attemptStarted then now else attemptStarted in
    let r := if is_zero (tr_lastSentAttemptAt r)
                || negb (before attemptStarted (tr_lastSentAttemptAt r))
             then r <| tr_lastSentAttemptAt := attemptStarted |> <| tr_lastSentAt := now |>
                    <| tr_lastSentLeg := leg |>
             else r in
    let r := if is_zero (tr_firstWriteAt r) then r <| tr_firstWriteAt := attemptStarted |> else r in
    let r := r <| tr_sendCount ::= fun n => u32 (n + 1) |> in
    let l := evidenceLocked "write_complete" r now (store p r l) in
    (MkAttempt true (payload_size r) (rescue || bool_decide (1 < tr_sendCount r)), l)
  end.

(** What a leg failure does to one outstanding record. *)
Definition invalidate_record (leg : Z) (r : StreamTXRecord) : StreamTXRecord :=
  let r := if bool_decide (tr_ordinaryOwner r = leg)
           then r <| tr_duplicated := true |> <| tr_invalidated := true |> else r in
  let r := if tr_inTransit r && bool_decide (tr_transitLeg r = leg) then drop_transit r else r in
  let r := if tr_rescueInTransit r && bool_decide (tr_rescueLeg r = leg)
           then drop_rescue r else r in
  if bool_decide (tr_lastSentLeg r = leg) then r <| tr_lastSentLeg := -1 |> else r.

(** The loop over [l.outstanding] visits every outstanding record once and the
    updates are independent: it maps them over the heap. *)
Definition InvalidateLeg (l : StreamTXLedger) (leg : Z) : StreamTXLedger :=
  l <| lg_heap ::= map_imap (fun p r =>
         Some (if bool_decide (lg_outstanding l !! tr_sequence r = Some p)
               then invalidate_record leg r else r)) |>.

(** ** Ordinary ownership *)

(** [s[id] -= n] and [s[id] += n] on the three counters. *)
Definition counters_sub (l : StreamTXLedger) (id : Z) (r : StreamTXRecord) : option StreamTXLedger :=
  let! frames := slice_upd (lg_ordinaryFrames l) id (fun n => n - 1) in
  let! ordinary := slice_upd (lg_ordinaryBytes l) id (fun n => u64 (n - payload_size r)) in
  let! pending := if tr_ordinaryAdmitted r then Some (lg_pendingBytes l)
                  else slice_upd (lg_pendingBytes l) id (fun n => u64 (n - payload_size r)) in
  Some (l <| lg_ordinaryFrames := frames |> <| lg_ordinaryBytes := ordinary |>
          <| lg_pendingBytes := pending |>).
Definition counters_add (l : StreamTXLedger) (id : Z) (r : StreamTXRecord) : option StreamTXLedger :=
  let! frames := slice_upd (lg_ordinaryFrames l) id (fun n => n + 1) in
  let! ordinary := slice_upd (lg_ordinaryBytes l) id (fun n => u64 (n + payload_size r)) in
  let! pending := if tr_ordinaryAdmitted r then Some (lg_pendingBytes l)
                  else slice_upd (lg_pendingBytes l) id (fun n => u64 (n + payload_size r)) in
  Some (l <| lg_ordinaryFrames := frames |> <| lg_ordinaryBytes := ordinary |>
          <| lg_pendingBytes := pending |>).

Definition assignOrdinary (l : StreamTXLedger) (record : option ptr) (id : Z) (now : time)
  : option (bool * StreamTXLedger) :=
  let '(ok, l) := ensureLegLocked l id in
  if negb ok then Some (false, l) else
  match current l record with
  | None => Some (false, l)
  | Some (p, r) =>
    if bool_decide (tr_ordinaryOwner r = id) then Some (true, l) else
    let! l := if bool_decide (0 <= tr_ordinaryOwner r)
              then counters_sub l (tr_ordinaryOwner r) r else Some l in
    let r := r <| tr_ordinaryOwner := id |> <| tr_assignedAt := now |> in
    let l := evidenceLocked "assigned" r now (store p r l) in
    let! l := counters_add l id r in
    Some (true, l)
  end.

Definition markOrdinaryAdmitted (l : StreamTXLedger) (record : option ptr) (id : Z)
  : option StreamTXLedger :=
  let '(ok, l) := ensureLegLocked l id in
  if negb ok then Some l else
  match current l record with
  | None => Some l
  | Some (p, r) =>
    if bool_decide (tr_ordinaryOwner r <> id) || tr_ordinaryAdmitted r then Some l else
    let l := store p (r <| tr_ordinaryAdmitted := true |>) l in
    let! pending := slice_upd (lg_pendingBytes l) id (fun n => u64 (n - payload_size r)) in
    Some (l <| lg_pendingBytes := pending |>)
  end.

Definition markWriteStarted (l : StreamTXLedger) (p : ptr) (leg : Z) (rescue : bool) (now : time)
  : StreamTXLedger :=
  match current l (Some p) with
  | None => l
  | Some (p, r) =>
    if negb rescue && tr_inTransit r && bool_decide (tr_transitLeg r = leg)
       && is_zero (tr_firstWriteAt r)
    then let r := r <| tr_firstWriteAt := now |> in
         evidenceLocked "first_write" r now (store p r l)
    else l
  end.

(** [epoch.UnixNano()] *)
Definition unix_nano (t : time) : Z := i64 (t - unixToInternal * Second).

Definition setOrigin (l : StreamTXLedger) (p : ptr) (generation : Z) (epoch : time)
  : StreamTXLedger :=
  match current l (Some p) with
  | None => l
  | Some (p, r) =>
    let r := r <| tr_originGeneration := generation |> <| tr_originEpoch := unix_nano epoch |> in
    evidenceLocked "admission_origin" r epoch (store p r l)
  end.

(** ** Cumulative ACK *)

Inductive StreamTXACKDisposition :=
| StreamTXACKNoProgress
| StreamTXACKAdvanced
| StreamTXACKFuture.

Record StreamTXACKLegResult := MkLegResult {
  al_AckedBytes : Z;
  al_UniqueTimely : Z;
  al_UniqueGeneration : Z;
  al_UniqueOrdered : Z;
  al_UniqueBytes : Z;
  al_FeedbackMin : duration;
  al_FeedbackMax : duration;
  al_BeforeOrdinaryFrames : Z;
  al_BeforeOrdinaryBytes : Z;
  al_ProofRejected0 : Z; (* duplicate or stale *)
  al_ProofRejected1 : Z; (* never written *)
  al_ProofRejected2 : Z; (* late frontier *)
  al_SampleBytes : Z;
  al_SampleAssignedMin : time
}.
#[export] Instance StreamTXACKLegResult_fields : Fields StreamTXACKLegResult := fun a =>
  MkLegResult (al_AckedBytes a) (al_UniqueTimely a) (al_UniqueGeneration a) (al_UniqueOrdered a)
    (al_UniqueBytes a) (al_FeedbackMin a) (al_FeedbackMax a) (al_BeforeOrdinaryFrames a)
    (al_BeforeOrdinaryBytes a) (al_ProofRejected0 a) (al_ProofRejected1 a) (al_ProofRejected2 a)
    (al_SampleBytes a) (al_SampleAssignedMin a).
Definition zero_leg_result : StreamTXACKLegResult := MkLegResult 0 0 0 0 0 0 0 0 0 0 0 0 0 zero_time.

(** [ak_ByLeg] stands for the dozen compatibility arrays [[2]T], which mirror the
    first two entries of [PerLeg]. *)
Record StreamTXACKResult := MkACK {
  ak_Disposition : StreamTXACKDisposition;
  ak_Next : Z;
  ak_Max : Z;
  ak_FutureCount : Z;
  ak_Released : Z;
  ak_RetiredBytes : Z;
  ak_AckedNext : Z;
  ak_LastACKProgress : time;
  ak_PerLeg : list StreamTXACKLegResult;
  ak_ByLeg : list StreamTXACKLegResult
}.
#[export] Instance StreamTXACKResult_fields : Fields StreamTXACKResult := fun a =>
  MkACK (ak_Disposition a) (ak_Next a) (ak_Max a) (ak_FutureCount a) (ak_Released a)
    (ak_RetiredBytes a) (ak_AckedNext a) (ak_LastACKProgress a) (ak_PerLeg a) (ak_ByLeg a).

Definition legResult (res : StreamTXACKResult) (id : Z) : StreamTXACKLegResult :=
  if bool_decide (0 <= id) && bool_decide (id < slen (ak_PerLeg res))
  then default zero_leg_result (slice_get (ak_PerLeg res) id)
  else if bool_decide (id < 0) || bool_decide (2 <= id) then zero_leg_result
  else default zero_leg_result (slice_get (ak_ByLeg res) id).

Definition syncLegacyLegs (res : StreamTXACKResult) : StreamTXACKResult :=
  res <| ak_ByLeg := take 2 (ak_PerLeg res) ++ drop (length (take 2 (ak_PerLeg res))) (ak_ByLeg res) |>.

(** The leg a retired record's bytes are attributed to. *)
Definition retired_leg (r : StreamTXRecord) : Z :=
  let leg := tr_lastSentLeg r in
  let leg := if bool_decide (leg < 0) && tr_inTransit r then tr_transitLeg r else leg in
  if bool_decide (leg < 0) && bool_decide (0 <= tr_ordinaryOwner r)
  then tr_ordinaryOwner r else leg.

Definition attribute (r : StreamTXRecord) (a : StreamTXACKLegResult) : StreamTXACKLegResult :=
  let a := a <| al_AckedBytes ::= fun n => u64 (n + payload_size r) |> in
  if bool_decide (0 <= tr_ordinaryOwner r) && negb (tr_duplicated r)
     && negb (is_zero (tr_firstWriteAt r)) then
    let a := a <| al_SampleBytes ::= fun n => u64 (n + payload_size r) |> in
    let at_ := tr_assignedAt r in
    if negb (is_zero at_)
       && (is_zero (al_SampleAssignedMin a) || before at_ (al_SampleAssignedMin a))
    then a <| al_SampleAssignedMin := at_ |> else a
  else a.

(** [head != nil && head != record && head.ordinaryOwner != id && ...] *)
Definition head_blocked (head : option (ptr * StreamTXRecord)) (p id : Z) : bool :=
  match head with
  | None => false
  | Some (hp, h) =>
    bool_decide (hp <> p) && bool_decide (tr_ordinaryOwner h <> id) && negb (tr_duplicated h)
    && negb (is_zero (tr_firstWriteAt h))
  end.

(** The recovery-proof classification of a record retired for its owner [id]. *)
Definition prove (now : time) (head : option (ptr * StreamTXRecord)) (p id : Z)
    (r : StreamTXRecord) (a : StreamTXACKLegResult) : StreamTXACKLegResult :=
  if tr_duplicated r || bool_decide (1 < tr_sendCount r)
  then a <| al_ProofRejected0 ::= Z.succ |>
  else if is_zero (tr_firstWriteAt r) then a <| al_ProofRejected1 ::= Z.succ |>
  else
    let a := a <| al_UniqueGeneration := tr_originGeneration r |> in
    let proofStartedAt := default (tr_firstWriteAt r) (tr_recoveryProbeWriteStartedAt r) in
    let age := time_sub now proofStartedAt in
    let a := if bool_decide (al_FeedbackMax a < age) then a <| al_FeedbackMax := age |> else a in
    let a := if bool_decide (0 < age)
                && (bool_decide (al_FeedbackMin a = 0) || bool_decide (age < al_FeedbackMin a))
             then a <| al_FeedbackMin := age |> else a in
    let timely := bool_decide (time_sub now proofStartedAt <= streamProofBudget) in
    let exposed := negb (is_zero (tr_frontierAt r))
                   && bool_decide (time_sub now (tr_frontierAt r) <= streamProofBudget) in
    let a := if negb (is_zero proofStartedAt) && timely then a <| al_UniqueTimely ::= Z.succ |>
             else if exposed || head_blocked head p id then a <| al_UniqueOrdered ::= Z.succ |>
             else a <| al_ProofRejected2 ::= Z.succ |> in
    if negb (is_zero (tr_assignedAt r)) && (timely || exposed || head_blocked head p id)
    then a <| al_UniqueBytes ::= fun n => u64 (n + payload_size r) |> else a.

(** One round of the retirement loop. *)
Definition retire (now : time) (head : option ptr) (sequence : Z)
    (st : StreamTXLedger * StreamTXACKResult) : option (StreamTXLedger * StreamTXACKResult) :=
  let '(l, res) := st in
  match lg_outstanding l !! sequence with
  | None => Some (l, res)
  | Some p =>
    let! r := lg_heap l !! p in
    let head := head ≫= fun hp => pair hp <$> lg_heap l !! hp in
    let leg := retired_leg r in
    let res := res <| ak_RetiredBytes ::= fun n => u64 (n + payload_size r) |> in
    let! res :=
      (if bool_decide (0 <= leg) && bool_decide (leg < slen (ak_PerLeg res)) then
         let! legs := slice_upd (ak_PerLeg res) leg (attribute r) in
         Some (res <| ak_PerLeg := legs |>)
       else Some res) in
    let l := evidenceLocked "ACK_retire" r now l in
    let l := l <| lg_outstanding ::= delete sequence |> in
    let id := tr_ordinaryOwner r in
    let! (l, res) :=
      (if bool_decide (0 <= id) && bool_decide (id < slen (lg_ordinaryFrames l)) then
         let! l := counters_sub l id r in
         let! legs := slice_upd (ak_PerLeg res) id (prove now head p id r) in
         Some (l, res <| ak_PerLeg := legs |>)
       else Some (l, res)) in
    Some (l, res <| ak_Released ::= Z.succ |>)
  end.

(** [for sequence := first; sequence < next; sequence++], [n] rounds. *)
Fixpoint retire_loop (n : nat) (now : time) (head : option ptr) (sequence : Z)
    (st : StreamTXLedger * StreamTXACKResult) : option (StreamTXLedger * StreamTXACKResult) :=
  match n with
  | O => Some st
  | S n => let! st := retire now head sequence st in retire_loop n now head (sequence + 1) st
  end.

(** After the loop: the newly exposed frontier record, if it was not yet. *)
Definition expose_frontier (next : Z) (now : time) (l : StreamTXLedger) : StreamTXLedger :=
  match lg_outstanding l !! next ≫= fun p => pair p <$> lg_heap l !! p with
  | Some (p, r) =>
    if is_zero (tr_frontierAt r) then
      let r := r <| tr_frontierAt := now |> in
      evidenceLocked "frontier_exposed" r now (store p r l)
    else l
  | None => l
  end.

Definition ApplyACK (l : StreamTXLedger) (next : Z) (now : time)
  : option (StreamTXACKResult * StreamTXLedger) :=
  let l := ensureLocked l in
  let result := MkACK StreamTXACKNoProgress next (lg_nextSequence l) 0 0 0 (lg_ackedNext l)
                  (lg_lastACKProgress l) [] [zero_leg_result; zero_leg_result] in
  if bool_decide (lg_nextSequence l < next) then
    let l := l <| lg_futureACKCount ::= fun n => u64 (n + 1) |> in
    Some (result <| ak_Disposition := StreamTXACKFuture |>
                 <| ak_FutureCount := lg_futureACKCount l |>, l)
  else if bool_decide (next <= lg_ackedNext l) then Some (result, l)
  else
    let result := result <| ak_Disposition := StreamTXACKAdvanced |> in
    let! legs := mapM (fun id =>
        let! frames := slice_get (lg_ordinaryFrames l) id in
        let! ordinary := slice_get (lg_ordinaryBytes l) id in
        Some (zero_leg_result <| al_BeforeOrdinaryFrames := frames |>
                <| al_BeforeOrdinaryBytes := ordinary |>)) (seqZ 0 (lg_maxLegs l)) in
    let result := result <| ak_PerLeg := legs |> in
    let head := lg_outstanding l !! lg_ackedNext l in
    let! (l, result) := retire_loop (Z.to_nat (next - lg_ackedNext l)) now head (lg_ackedNext l)
                          (l, result) in
    let l := l <| lg_ackedNext := next |> in
    let l := expose_frontier next now l in
    let '(l, result) :=
      if bool_decide (0 < ak_Released result)
      then (l <| lg_lastACKProgress := now |>, result <| ak_LastACKProgress := now |>)
      else (l, result) in
    let result := result <| ak_AckedNext := lg_ackedNext l |> in
    Some (syncLegacyLegs result, l).

(** ** Snapshots *)

Record StreamTXRetryState := MkRetryState {
  rt_Record : ptr;
  rt_InTransit : bool;
  rt_RescueInTransit : bool;
  rt_LocalEnqueue : bool;
  rt_LastSentLeg : Z
}.

Definition retrySnapshot (l : StreamTXLedger) : list StreamTXRetryState :=
  omap (fun kp => match lg_heap l !! kp.2 with
                  | Some r => Some (MkRetryState kp.2 (tr_inTransit r) (tr_rescueInTransit r)
                                      (tr_localEnqueue r) (tr_lastSentLeg r))
                  | None => None end) (map_to_list (lg_outstanding l)).

Record StreamTXFrontierSnapshot := MkFrontier {
  fs_Record : option ptr;
  fs_Exists : bool;
  fs_RescueInTransit : bool;
  fs_Owner : Z;
  fs_ReferenceTime : time
}.

Definition later (reference candidate : time) : time :=
  if after candidate reference then candidate else reference.

Definition frontierSnapshot (l : StreamTXLedger) : StreamTXFrontierSnapshot :=
  match lg_outstanding l !! lg_ackedNext l ≫= fun p => pair p <$> lg_heap l !! p with
  | None => MkFrontier None false false (-1) zero_time
  | Some (p, r) =>
    let owner := tr_lastSentLeg r in
    let owner := if bool_decide (owner < 0) then tr_ordinaryOwner r else owner in
    let owner := if tr_inTransit r then tr_transitLeg r else owner in
    let reference := fold_left later [tr_transitSince r; tr_lastSentAt r; tr_lastRescueAt r]
                       (tr_createdAt r) in
    MkFrontier (Some p) true (tr_rescueInTransit r) owner reference
  end.

Definition FrontierAge (l : StreamTXLedger) (now : time) : duration :=
  match live l !! lg_ackedNext l with
  | None => 0
  | Some r => if is_zero (tr_createdAt r) || before now (tr_createdAt r) then 0
              else time_sub now (tr_createdAt r)
  end.

Record StreamTXRescueEvidence := MkRescueEvidence {
  re_Exists : bool;
  re_Sequence : Z;
  re_OrdinaryOwner : Z;
  re_OriginGeneration : Z;
  re_Invalidated : bool;
  re_InTransit : bool;
  re_TransitLeg : Z;
  re_FirstWriteAt : time;
  re_Duplicated : bool;
  re_AckedNext : Z
}.

Definition rescueEvidenceSnapshot (l : StreamTXLedger) (record : option ptr)
  : StreamTXRescueEvidence :=
  match record ≫= fun p => lg_heap l !! p with
  | None => MkRescueEvidence false 0 0 0 false false 0 zero_time false 0
  | Some r =>
    match current l record with
    | None => MkRescueEvidence false (tr_sequence r) 0 0 false false 0 zero_time false (lg_ackedNext l)
    | Some (_, r) =>
      MkRescueEvidence true (tr_sequence r) (tr_ordinaryOwner r) (tr_originGeneration r)
        (tr_invalidated r) (tr_inTransit r) (tr_transitLeg r) (tr_firstWriteAt r)
        (tr_duplicated r) (lg_ackedNext l)
    end
  end.

Definition probeReference (l : StreamTXLedger) (record : option ptr) (recovering : bool) : time :=
  match current l record with
  | None => zero_time
  | Some (_, r) =>
    match (if recovering then tr_recoveryProbeWriteStartedAt r else None) with
    | Some startedAt => startedAt
    | None =>
      let ref := tr_frontierAt r in
      let ref := if negb recovering then tr_createdAt r else ref in
      let ref := if is_zero ref then tr_createdAt r else ref in
      later ref (tr_firstWriteAt r)
    end
  end.

(** The [ReferenceAt] and [Owner] of [probeReferenceSnapshot]; its other fields
    are copies of the record's. *)
Definition probeReferenceSnapshot (l : StreamTXLedger) (record : option ptr) (recovering : bool)
  : option (time * Z) :=
  match current l record with
  | None => None
  | Some (_, r) =>
    let ref := tr_frontierAt r in
    let ref := if negb recovering then tr_createdAt r else ref in
    let '(ref, probeStart) :=
      match (if recovering then tr_recoveryProbeWriteStartedAt r else None) with
      | Some startedAt => (startedAt, true)
      | None => (ref, false)
      end in
    let ref := if is_zero ref then tr_createdAt r else ref in
    let ref := if negb probeStart && after (tr_firstWriteAt r) ref then tr_firstWriteAt r else ref in
    let owner := tr_lastSentLeg r in
    let owner := if tr_inTransit r then tr_transitLeg r else owner in
    Some (ref, owner)
  end.

(** The accumulator of [sentTailStalled]: bytes, repeated, oldest first write. *)
Definition tail_step (acc : Z * bool * time) (r : StreamTXRecord) : Z * bool * time :=
  let '(bytes, repeated, old) := acc in
  if is_zero (tr_firstWriteAt r) then acc else
  (u64 (bytes + payload_size r), repeated || bool_decide (2 <= tr_sendCount r),
   if is_zero old || before (tr_firstWriteAt r) old then tr_firstWriteAt r else old).

Definition sentTailStalled (l : StreamTXLedger) (now : time) (required : duration) (minBytes : Z)
  : bool :=
  let '(bytes, repeated, old) := fold_left tail_step (live_records l) (0, false, zero_time) in
  (bool_decide (minBytes <= bytes) || repeated) && negb (is_zero old)
  && bool_decide (required <= time_sub now old)
  && (is_zero (lg_lastACKProgress l)
      || bool_decide (required <= time_sub now (lg_lastACKProgress l))).

Record StreamTXLegSnapshot := MkLegSnapshot {
  sl_OutstandingFrames : Z;
  sl_OldestOutstanding : duration
}.
#[export] Instance StreamTXLegSnapshot_fields : Fields StreamTXLegSnapshot := fun s =>
  MkLegSnapshot (sl_OutstandingFrames s) (sl_OldestOutstanding s).

(** The two compatibility arrays mirror the first two entries of [PerLeg]. *)
Record StreamTXSnapshot := MkSnapshot {
  sn_NextSequence : Z;
  sn_AckedNext : Z;
  sn_OutstandingFrames : Z;
  sn_OutstandingBytes : Z;
  sn_OldestOutstandingAge : duration;
  sn_AckFrontierValid : bool;
  sn_AckFrontierLeg : Z;
  sn_AckFrontierMultiPath : bool;
  sn_AckFrontierAge : duration;
  sn_LastACKProgress : time;
  sn_PerLeg : list StreamTXLegSnapshot
}.
#[export] Instance StreamTXSnapshot_fields : Fields StreamTXSnapshot := fun s =>
  MkSnapshot (sn_NextSequence s) (sn_AckedNext s) (sn_OutstandingFrames s) (sn_OutstandingBytes s)
    (sn_OldestOutstandingAge s) (sn_AckFrontierValid s) (sn_AckFrontierLeg s)
    (sn_AckFrontierMultiPath s) (sn_AckFrontierAge s) (sn_LastACKProgress s) (sn_PerLeg s).

Definition record_age (now : time) (r : StreamTXRecord) : duration :=
  let age := time_sub now (tr_createdAt r) in
  if is_zero (tr_createdAt r) || bool_decide (age < 0) then 0 else age.

(** One outstanding record of [Snapshot]'s first loop; [owners] are the legs in
    range that [depends_on] reports. *)
Definition snapshot_step (now : time) (s : StreamTXSnapshot) (r : StreamTXRecord)
  : StreamTXSnapshot :=
  let s := s <| sn_OutstandingFrames ::= Z.succ |> in
  let s := s <| sn_OutstandingBytes ::= fun n => u64 (n + payload_size r) |> in
  let age := record_age now r in
  let s := s <| sn_OldestOutstandingAge ::= Z.max age |> in
  s <| sn_PerLeg ::= imap (fun leg p =>
         if depends_on (Z.of_nat leg) r
         then p <| sl_OutstandingFrames ::= Z.succ |> <| sl_OldestOutstanding ::= Z.max age |>
         else p) |>.

(** The legs carrying an attempt of the frontier record. *)
Definition carries (r : StreamTXRecord) (id : Z) : bool :=
  bool_decide (tr_lastSentLeg r = id) || (tr_inTransit r && bool_decide (tr_transitLeg r = id))
  || (tr_rescueInTransit r && bool_decide (tr_rescueLeg r = id)).

Definition frontier_owner (r : StreamTXRecord) (owners : list Z) : Z :=
  let owner := tr_lastSentLeg r in
  let latest := tr_lastSentAttemptAt r in
  let '(owner, latest) :=
    if tr_inTransit r && (is_zero latest || after (tr_transitSince r) latest)
    then (tr_transitLeg r, tr_transitSince r) else (owner, latest) in
  let owner := if tr_rescueInTransit r && (is_zero latest || after (tr_rescueSince r) latest)
               then tr_rescueLeg r else owner in
  if bool_decide (owner < 0) then default owner (head owners) else owner.

Definition Snapshot (l : StreamTXLedger) (now : time) : StreamTXSnapshot :=
  let l := ensureLocked l in
  let s := MkSnapshot (lg_nextSequence l) (lg_ackedNext l) 0 0 0 false 0 false 0
             (lg_lastACKProgress l)
             (replicate (Z.to_nat (lg_maxLegs l)) (MkLegSnapshot 0 0)) in
  let s := fold_left (snapshot_step now) (live_records l) s in
  match live l !! lg_ackedNext l with
  | None => s
  | Some frontier =>
    let owners := List.filter (carries frontier) (seqZ 0 (lg_maxLegs l)) in
    if bool_decide (owners = []) then s else
    let s := s <| sn_AckFrontierValid := true |>
               <| sn_AckFrontierMultiPath := bool_decide (1 < slen owners) |>
               <| sn_AckFrontierLeg := u8 (frontier_owner frontier owners) |> in
    if is_zero (tr_createdAt frontier) then s
    else s <| sn_AckFrontierAge := 0 `max` time_sub now (tr_createdAt frontier) |>
  end.
