(* ===== verification/TxInv.v ===== *)
(** * The transmit ledger: invariant

    The well-formedness invariant of [StreamTXLedger] and its preservation by
    every method, without panics: outstanding records are exactly the sequences
    of the half-open interval from the acknowledged frontier to the next
    sequence, and the three per-leg counters are the totals over the records
    each leg owns. *)

From S2P Require Import Prelude Bytes TxLedger.
From stdpp Require Import options.

(** ** What the per-leg counters count *)

Definition owned (id : Z) (r : StreamTXRecord) : Z :=
  if bool_decide (tr_ordinaryOwner r = id) then 1 else 0.
Definition owned_bytes (id : Z) (r : StreamTXRecord) : Z :=
  if bool_decide (tr_ordinaryOwner r = id) then payload_size r else 0.
Definition owned_pending (id : Z) (r : StreamTXRecord) : Z :=
  if bool_decide (tr_ordinaryOwner r = id) && negb (tr_ordinaryAdmitted r)
  then payload_size r else 0.

(** The three counters hold, for every leg, [F], [B] and [P] (the byte counters
    modulo 2^64, as [uint64]). *)
Definition counters_are (l : StreamTXLedger) (F B P : Z -> Z) : Prop :=
  slen (lg_ordinaryFrames l) = lg_maxLegs l /\ slen (lg_ordinaryBytes l) = lg_maxLegs l /\
  slen (lg_pendingBytes l) = lg_maxLegs l /\
  forall id, 0 <= id < lg_maxLegs l ->
    slice_get (lg_ordinaryFrames l) id = Some (F id) /\
    slice_get (lg_ordinaryBytes l) id = Some (u64 (B id)) /\
    slice_get (lg_pendingBytes l) id = Some (u64 (P id)).

Record ledger_inv (l : StreamTXLedger) : Prop := {
  li_next : is_u64 (lg_nextSequence l);
  li_acked : 0 <= lg_ackedNext l <= lg_nextSequence l;
  li_heap : forall s p, lg_outstanding l !! s = Some p ->
    exists r, lg_heap l !! p = Some r /\ tr_sequence r = s;
  li_dom : forall s, is_Some (lg_outstanding l !! s) <-> lg_ackedNext l <= s < lg_nextSequence l;
  li_fresh : forall p, is_Some (lg_heap l !! p) -> p < lg_fresh l;
  li_legs : 1 <= lg_maxLegs l <= MaxStreamLegIDCount;
  li_owner : forall s r, live l !! s = Some r -> -1 <= tr_ordinaryOwner r < lg_maxLegs l;
  li_count : counters_are l (fun id => map_sum (owned id) (live l))
    (fun id => map_sum (owned_bytes id) (live l)) (fun id => map_sum (owned_pending id) (live l))
}.

(** ** The live view *)

Lemma live_lookup l s : live l !! s = lg_outstanding l !! s ≫= fun p => lg_heap l !! p.
Proof. apply lookup_omap. Qed.

Lemma current_Some l record p r :
  current l record = Some (p, r) ->
  record = Some p /\ lg_heap l !! p = Some r /\ lg_outstanding l !! tr_sequence r = Some p.
Proof.
  unfold current. destruct record as [q|]; [|done]. destruct (lg_heap l !! q) eqn:Hq; [|done].
  case_bool_decide; [|done]. by intros [= <- <-].
Qed.

Lemma current_live l record p r : current l record = Some (p, r) -> live l !! tr_sequence r = Some r.
Proof. intros (_ & Hp & Ho)%current_Some. rewrite live_lookup, Ho. done. Qed.

Lemma live_out l s r :
  live l !! s = Some r -> exists p, lg_outstanding l !! s = Some p /\ lg_heap l !! p = Some r.
Proof.
  rewrite live_lookup. destruct (lg_outstanding l !! s) as [p|]; [|done]. intros. by exists p.
Qed.

Lemma live_seq l s r : ledger_inv l -> live l !! s = Some r -> tr_sequence r = s.
Proof.
  intros HI (p & Ho & Hp)%live_out. destruct (li_heap _ HI _ _ Ho) as (r' & Hp' & Hs). congruence.
Qed.

Lemma live_dom l s : ledger_inv l -> is_Some (live l !! s) <-> lg_ackedNext l <= s < lg_nextSequence l.
Proof.
  intros HI. rewrite <- (li_dom _ HI), live_lookup. split.
  - intros [r Hr]. destruct (lg_outstanding l !! s); [by eexists|done].
  - intros [p Hp]. destruct (li_heap _ HI _ _ Hp) as (r & Hr & _). rewrite Hp. by exists r.
Qed.

(** Assigning through a current pointer updates the live view at its sequence. *)
Lemma live_store l record p r r' :
  ledger_inv l -> current l record = Some (p, r) -> tr_sequence r' = tr_sequence r ->
  live (store p r' l) = <[tr_sequence r := r']> (live l).
Proof.
  intros HI (_ & Hp & Ho)%current_Some Hs. apply map_eq. intros s.
  rewrite live_lookup. unfold store; simpl. destruct (decide (s = tr_sequence r)) as [->|Hne].
  - rewrite Ho, lookup_insert_eq. simpl. by rewrite lookup_insert_eq.
  - rewrite lookup_insert_ne, live_lookup by done. destruct (lg_outstanding l !! s) as [q|] eqn:Hq; [|done].
    simpl. apply lookup_insert_ne. intros ->. destruct (li_heap _ HI _ _ Hq) as (r2 & H2 & H3).
    congruence.
Qed.

(** ** Counters *)

Lemma counters_ext l F B P F' B' P' :
  counters_are l F B P ->
  (forall id, 0 <= id < lg_maxLegs l -> F id = F' id /\ B id = B' id /\ P id = P' id) ->
  counters_are l F' B' P'.
Proof.
  intros (L1 & L2 & L3 & H) E. split_and!; try done. intros id Hid.
  destruct (E id Hid) as (<- & <- & <-). by apply H.
Qed.

(** The fields the counters depend on. *)
Lemma counters_frame l l' F B P :
  counters_are l F B P -> lg_maxLegs l' = lg_maxLegs l ->
  lg_ordinaryFrames l' = lg_ordinaryFrames l -> lg_ordinaryBytes l' = lg_ordinaryBytes l ->
  lg_pendingBytes l' = lg_pendingBytes l -> counters_are l' F B P.
Proof. unfold counters_are. intros H -> -> -> ->. done. Qed.

(** [bump F id d] adds [d] at [id]. *)
Definition bump (F : Z -> Z) (id d : Z) : Z -> Z :=
  fun j => if bool_decide (id = j) then F j + d else F j.

Lemma slice_upd_bump (enc : Z -> Z) (s : list Z) id f (G : Z -> Z) d (n : Z) :
  slen s = n -> 0 <= id < n ->
  (forall j, 0 <= j < n -> slice_get s j = Some (enc (G j))) ->
  (forall j, f (enc (G j)) = enc (G j + d)) ->
  exists s', slice_upd s id f = Some s' /\ slen s' = n /\
    forall j, 0 <= j < n -> slice_get s' j = Some (enc (bump G id d j)).
Proof.
  intros Hl Hid HG Hf. destruct (slice_upd_Some s id f ltac:(lia)) as (x & Hx & Hu).
  exists (<[Z.to_nat id := f x]> s). split; [done|]. split; [by rewrite (slice_upd_len _ _ _ _ Hu)|].
  intros j Hj. rewrite (slice_upd_get _ _ _ _ j Hu), HG by done. unfold bump.
  case_bool_decide; simpl; [|done]. by rewrite Hf.
Qed.

(** What [counters_sub]/[counters_add] may change. *)
Definition same_but_counters (l l' : StreamTXLedger) : Prop :=
  lg_heap l' = lg_heap l /\ lg_fresh l' = lg_fresh l /\ lg_nextSequence l' = lg_nextSequence l /\
  lg_ackedNext l' = lg_ackedNext l /\ lg_outstanding l' = lg_outstanding l /\
  lg_maxLegs l' = lg_maxLegs l /\ lg_lastACKProgress l' = lg_lastACKProgress l /\
  lg_futureACKCount l' = lg_futureACKCount l /\ lg_evidence l' = lg_evidence l /\
  lg_evidenceNext l' = lg_evidenceNext l.

Lemma counters_sub_ok l id r F B P :
  counters_are l F B P -> 0 <= id < lg_maxLegs l ->
  exists l', counters_sub l id r = Some l' /\ same_but_counters l l' /\
    counters_are l' (bump F id (-1)) (bump B id (- payload_size r))
      (if tr_ordinaryAdmitted r then P else bump P id (- payload_size r)).
Proof.
  intros (L1 & L2 & L3 & H) Hid. unfold counters_sub.
  destruct (slice_upd_bump (fun x => x) (lg_ordinaryFrames l) id (fun n => n - 1) F (-1)
    (lg_maxLegs l)) as (s1 & -> & S1 & G1); [done|done|by intros; apply H|intros; lia|].
  destruct (slice_upd_bump u64 (lg_ordinaryBytes l) id (fun n => u64 (n - payload_size r)) B
    (- payload_size r) (lg_maxLegs l)) as (s2 & E2 & S2 & G2);
    [done|done|by intros; apply H|intros; unfold u64; by rewrite Zminus_mod_idemp_l|].
  simpl. rewrite E2. simpl. destruct (tr_ordinaryAdmitted r); simpl.
  - eexists. split; [done|]. split; [by unfold same_but_counters|]. split_and!; try done.
    simpl. intros j Hj. split_and!; [by apply G1|by apply G2|by apply H].
  - destruct (slice_upd_bump u64 (lg_pendingBytes l) id (fun n => u64 (n - payload_size r)) P
      (- payload_size r) (lg_maxLegs l)) as (s3 & E3 & S3 & G3);
      [done|done|by intros; apply H|intros; unfold u64; by rewrite Zminus_mod_idemp_l|].
    rewrite E3. simpl. eexists. split; [done|]. split; [by unfold same_but_counters|].
    split_and!; try done. simpl. intros j Hj. split_and!; [by apply G1|by apply G2|by apply G3].
Qed.

Lemma counters_add_ok l id r F B P :
  counters_are l F B P -> 0 <= id < lg_maxLegs l ->
  exists l', counters_add l id r = Some l' /\ same_but_counters l l' /\
    counters_are l' (bump F id 1) (bump B id (payload_size r))
      (if tr_ordinaryAdmitted r then P else bump P id (payload_size r)).
Proof.
  intros (L1 & L2 & L3 & H) Hid. unfold counters_add.
  destruct (slice_upd_bump (fun x => x) (lg_ordinaryFrames l) id (fun n => n + 1) F 1
    (lg_maxLegs l)) as (s1 & -> & S1 & G1); [done|done|by intros; apply H|intros; lia|].
  destruct (slice_upd_bump u64 (lg_ordinaryBytes l) id (fun n => u64 (n + payload_size r)) B
    (payload_size r) (lg_maxLegs l)) as (s2 & E2 & S2 & G2);
    [done|done|by intros; apply H|intros; unfold u64; by rewrite Zplus_mod_idemp_l|].
  simpl. rewrite E2. simpl. destruct (tr_ordinaryAdmitted r); simpl.
  - eexists. split; [done|]. split; [by unfold same_but_counters|]. split_and!; try done.
    simpl. intros j Hj. split_and!; [by apply G1|by apply G2|by apply H].
  - destruct (slice_upd_bump u64 (lg_pendingBytes l) id (fun n => u64 (n + payload_size r)) P
      (payload_size r) (lg_maxLegs l)) as (s3 & E3 & S3 & G3);
      [done|done|by intros; apply H|intros; unfold u64; by rewrite Zplus_mod_idemp_l|].
    rewrite E3. simpl. eexists. split; [done|]. split; [by unfold same_but_counters|].
    split_and!; try done. simpl. intros j Hj. split_and!; [by apply G1|by apply G2|by apply G3].
Qed.

(** ** Frames: operations that leave the account alone *)

(** [l'] differs from [l] in at most the evidence ring, the attempt fields of
    records, and bookkeeping the invariant does not mention. *)
Lemma inv_frame l l' :
  ledger_inv l ->
  lg_nextSequence l' = lg_nextSequence l -> lg_ackedNext l' = lg_ackedNext l ->
  lg_outstanding l' = lg_outstanding l -> lg_heap l' = lg_heap l -> lg_fresh l' = lg_fresh l ->
  lg_maxLegs l' = lg_maxLegs l -> lg_ordinaryFrames l' = lg_ordinaryFrames l ->
  lg_ordinaryBytes l' = lg_ordinaryBytes l -> lg_pendingBytes l' = lg_pendingBytes l ->
  ledger_inv l'.
Proof.
  intros [I1 I2 I3 I4 I5 I6 I7 I8] E1 E2 E3 E4 E5 E6 E7 E8 E9.
  assert (live l' = live l) as EL by (unfold live; by rewrite E3, E4).
  split; rewrite ?E1, ?E2, ?E3, ?E4, ?E5, ?E6, ?EL; try done.
  eapply counters_frame; done.
Qed.

Lemma evidence_fields e r now l :
  let l' := evidenceLocked e r now l in
  lg_nextSequence l' = lg_nextSequence l /\ lg_ackedNext l' = lg_ackedNext l /\
  lg_outstanding l' = lg_outstanding l /\ lg_heap l' = lg_heap l /\ lg_fresh l' = lg_fresh l /\
  lg_maxLegs l' = lg_maxLegs l /\ lg_ordinaryFrames l' = lg_ordinaryFrames l /\
  lg_ordinaryBytes l' = lg_ordinaryBytes l /\ lg_pendingBytes l' = lg_pendingBytes l /\
  lg_lastACKProgress l' = lg_lastACKProgress l /\ lg_futureACKCount l' = lg_futureACKCount l.
Proof. unfold evidenceLocked. by case_bool_decide. Qed.

Lemma evidence_live e r now l : live (evidenceLocked e r now l) = live l.
Proof.
  destruct (evidence_fields e r now l) as (_ & _ & E1 & E2 & _). unfold live. by rewrite E1, E2.
Qed.

Lemma evidence_inv e r now l : ledger_inv l -> ledger_inv (evidenceLocked e r now l).
Proof.
  intros HI. destruct (evidence_fields e r now l) as (? & ? & ? & ? & ? & ? & ? & ? & ? & _).
  by eapply inv_frame.
Qed.

(** The fields of a record the counters and the queue depend on. *)
Definition same_account (r r' : StreamTXRecord) : Prop :=
  tr_sequence r' = tr_sequence r /\ tr_payload r' = tr_payload r /\
  tr_ordinaryOwner r' = tr_ordinaryOwner r /\ tr_ordinaryAdmitted r' = tr_ordinaryAdmitted r.

Lemma same_account_counts r r' id :
  same_account r r' ->
  owned id r' = owned id r /\ owned_bytes id r' = owned_bytes id r /\
  owned_pending id r' = owned_pending id r.
Proof.
  intros (_ & E2 & E3 & E4). unfold owned, owned_bytes, owned_pending, payload_size.
  by rewrite E2, E3, E4.
Qed.

(** The invariant after a store through a current pointer, when the counters have
    been brought in line with the new record. *)
Lemma inv_store l l' record p r r' :
  ledger_inv l -> current l record = Some (p, r) -> tr_sequence r' = tr_sequence r ->
  -1 <= tr_ordinaryOwner r' < lg_maxLegs l ->
  lg_nextSequence l' = lg_nextSequence l -> lg_ackedNext l' = lg_ackedNext l ->
  lg_outstanding l' = lg_outstanding l -> lg_heap l' = <[p := r']> (lg_heap l) ->
  lg_fresh l' = lg_fresh l -> lg_maxLegs l' = lg_maxLegs l ->
  counters_are l'
    (fun id => map_sum (owned id) (live l) - owned id r + owned id r')
    (fun id => map_sum (owned_bytes id) (live l) - owned_bytes id r + owned_bytes id r')
    (fun id => map_sum (owned_pending id) (live l) - owned_pending id r + owned_pending id r') ->
  ledger_inv l' /\ live l' = <[tr_sequence r := r']> (live l).
Proof.
  intros HI Hc Hs Hown E1 E2 E3 E4 E5 E6 Hcnt.
  assert (live l' = <[tr_sequence r := r']> (live l)) as EL.
  { rewrite <- (live_store l record p r r') by done. unfold live, store; simpl. by rewrite E3, E4. }
  split; [|done]. pose proof (current_live _ _ _ _ Hc) as HL.
  apply current_Some in Hc as (_ & Hp & Ho).
  pose proof HI as [I1 I2 I3 I4 I5 I6 I7 I8].
  split; rewrite ?E1, ?E2, ?E3, ?E4, ?E5, ?E6; try done.
  - intros s q Hq. destruct (decide (p = q)) as [<-|Hne].
    + rewrite lookup_insert_eq. exists r'. split; [done|].
      destruct (I3 _ _ Hq) as (r2 & H2 & H3). congruence.
    + rewrite lookup_insert_ne by done. by apply I3.
  - intros q. rewrite lookup_insert_is_Some. intros [<-|[_ Hq]]; [|by apply I5].
    apply I5. by eexists.
  - intros s r2. rewrite EL. intros [[<- <-]|[_ Hr2]]%lookup_insert_Some; [done|eauto].
  - eapply counters_ext; [exact Hcnt|]. intros id _. rewrite EL.
    by rewrite !(map_sum_update _ _ _ r) by done.
Qed.

Lemma inv_store_same l record p r r' :
  ledger_inv l -> current l record = Some (p, r) -> same_account r r' ->
  ledger_inv (store p r' l) /\ live (store p r' l) = <[tr_sequence r := r']> (live l).
Proof.
  intros HI Hc HS. pose proof HS as (H1 & H2 & H3 & H4).
  eapply (inv_store l); try done.
  - rewrite H3. eapply (li_owner _ HI). by eapply current_live.
  - eapply counters_ext; [eapply counters_frame; [apply (li_count _ HI)|done..]|].
    intros id _. destruct (same_account_counts _ _ id HS) as (-> & -> & ->). lia.
Qed.

(** ** Growing the per-leg slices *)

Lemma slice_get_zeros s k j :
  0 <= j < slen s + Z.of_nat k ->
  slice_get (s ++ replicate k 0) j = if bool_decide (j < slen s) then slice_get s j else Some 0.
Proof.
  intros Hj. case_bool_decide; [apply slice_get_app_l; lia|].
  unfold slice_get, slen in *. rewrite bool_decide_eq_true_2 by lia.
  rewrite lookup_app_r by lia. apply lookup_replicate_2. lia.
Qed.

(** Widening to [n] legs: the new legs own nothing. *)
Lemma counters_grow l l' n F B P :
  counters_are l F B P -> lg_maxLegs l <= n -> lg_maxLegs l' = n ->
  (forall id, lg_maxLegs l <= id -> F id = 0 /\ B id = 0 /\ P id = 0) ->
  let zeros := replicate (Z.to_nat (n - lg_maxLegs l)) 0 in
  lg_ordinaryFrames l' = lg_ordinaryFrames l ++ zeros ->
  lg_ordinaryBytes l' = lg_ordinaryBytes l ++ zeros ->
  lg_pendingBytes l' = lg_pendingBytes l ++ zeros -> counters_are l' F B P.
Proof.
  intros (L1 & L2 & L3 & H) Hn EM HZ zeros E1 E2 E3. unfold counters_are. rewrite E1, E2, E3, EM.
  assert (forall s : list Z, slen s = lg_maxLegs l -> slen (s ++ zeros) = n) as HL.
  { intros s Hs. unfold slen in *. rewrite length_app. unfold zeros. rewrite length_replicate. lia. }
  split_and!; try (by apply HL). intros id Hid. unfold zeros.
  rewrite !slice_get_zeros by lia. rewrite L1, L2, L3.
  case_bool_decide; [apply H; lia|]. destruct (HZ id ltac:(lia)) as (-> & -> & ->). done.
Qed.

(** A leg beyond the last one owns no record. *)
Lemma owned_beyond l id :
  ledger_inv l -> lg_maxLegs l <= id ->
  map_sum (owned id) (live l) = 0 /\ map_sum (owned_bytes id) (live l) = 0 /\
  map_sum (owned_pending id) (live l) = 0.
Proof.
  intros HI Hid.
  assert (forall f, (forall r, tr_ordinaryOwner r <> id -> f r = 0) -> map_sum f (live l) = 0) as H0.
  { intros f Hf. rewrite (map_sum_ext f (fun _ => 0)).
    - unfold map_sum. induction (map_to_list (live l)); simpl; lia.
    - intros s r Hr. apply Hf. pose proof (li_owner _ HI _ _ Hr). lia. }
  split_and!; apply H0; intros r Hr; unfold owned, owned_bytes, owned_pending;
    by rewrite bool_decide_eq_false_2.
Qed.

Lemma inv_grow l l' n :
  ledger_inv l -> lg_maxLegs l <= n -> n <= MaxStreamLegIDCount -> lg_maxLegs l' = n ->
  let zeros := replicate (Z.to_nat (n - lg_maxLegs l)) 0 in
  lg_ordinaryFrames l' = lg_ordinaryFrames l ++ zeros ->
  lg_ordinaryBytes l' = lg_ordinaryBytes l ++ zeros ->
  lg_pendingBytes l' = lg_pendingBytes l ++ zeros ->
  lg_nextSequence l' = lg_nextSequence l -> lg_ackedNext l' = lg_ackedNext l ->
  lg_outstanding l' = lg_outstanding l -> lg_heap l' = lg_heap l -> lg_fresh l' = lg_fresh l ->
  ledger_inv l'.
Proof.
  intros HI Hn Hm EM zeros E1 E2 E3 E4 E5 E6 E7 E8.
  assert (live l' = live l) as EL by (unfold live; by rewrite E6, E7).
  pose proof HI as [I1 I2 I3 I4 I5 I6 I7 I8].
  split; rewrite ?E4, ?E5, ?E6, ?E7, ?E8, ?EL, ?EM; try done.
  - lia.
  - intros s r Hr. specialize (I7 s r Hr). lia.
  - eapply counters_grow; [done| |done|..]; [done| |done..].
    intros id Hid. by apply owned_beyond.
Qed.

Definition legs_only (l l' : StreamTXLedger) : Prop :=
  lg_nextSequence l' = lg_nextSequence l /\ lg_ackedNext l' = lg_ackedNext l /\
  lg_outstanding l' = lg_outstanding l /\ lg_heap l' = lg_heap l /\ lg_fresh l' = lg_fresh l /\
  lg_lastACKProgress l' = lg_lastACKProgress l /\ lg_futureACKCount l' = lg_futureACKCount l.

Lemma legs_only_live l l' : legs_only l l' -> live l' = live l.
Proof. intros (_ & _ & E1 & E2 & _). unfold live. by rewrite E1, E2. Qed.
Lemma legs_only_current l l' record : legs_only l l' -> current l' record = current l record.
Proof. intros (_ & _ & E1 & E2 & _). unfold current. by rewrite E1, E2. Qed.

Lemma ensureLocked_ok l :
  ledger_inv l ->
  ledger_inv (ensureLocked l) /\ legs_only l (ensureLocked l) /\
  lg_maxLegs l <= lg_maxLegs (ensureLocked l) /\ 2 <= lg_maxLegs (ensureLocked l).
Proof.
  intros HI. pose proof (li_count _ HI) as (L1 & L2 & L3 & _). pose proof (li_legs _ HI) as HL.
  unfold ensureLocked. destruct (bool_decide_reflect (lg_maxLegs l < 2)) as [H2|H2].
  - rewrite bool_decide_eq_true_2 by (simpl; lia). split.
    + eapply (inv_grow l _ 2); simpl; try done; unfold MaxStreamLegIDCount, grow_to in *;
        rewrite ?L1, ?L2, ?L3; try done; lia.
    + unfold legs_only; simpl. split_and!; try done; lia.
  - rewrite bool_decide_eq_false_2 by lia. unfold legs_only. split_and!; try done; lia.
Qed.

Lemma ensureLegLocked_ok l id :
  ledger_inv l -> 0 <= id < MaxStreamLegIDCount ->
  exists l', ensureLegLocked l id = (true, l') /\ ledger_inv l' /\ legs_only l l' /\
    id < lg_maxLegs l'.
Proof.
  intros HI Hid. destruct (ensureLocked_ok l HI) as (HI' & HO & HM & _).
  unfold ensureLegLocked. rewrite bool_decide_eq_false_2 by lia.
  set (l1 := ensureLocked l) in *. pose proof (li_count _ HI') as (L1 & L2 & L3 & _).
  case_bool_decide as Hw; [exists l1; split_and!; try done; apply HO || lia|].
  rewrite bool_decide_eq_true_2 by (simpl; lia). eexists. split; [reflexivity|]. simpl. split.
  - eapply (inv_grow l1 _ (id + 1)); simpl; try done; unfold MaxStreamLegIDCount in *;
      rewrite ?L1; try done; lia.
  - split; [apply HO|lia].
Qed.

(** ** Operations that change neither the queue nor its numbering *)

Definition rec_id (r : StreamTXRecord) : Z * bytes := (tr_sequence r, tr_payload r).

(** [l'] is well-formed, and has the sequence numbers, the outstanding set and
    the record identities of [l]. *)
Record quiet (l l' : StreamTXLedger) : Prop := {
  qt_inv : ledger_inv l';
  qt_next : lg_nextSequence l' = lg_nextSequence l;
  qt_acked : lg_ackedNext l' = lg_ackedNext l;
  qt_out : lg_outstanding l' = lg_outstanding l;
  qt_fresh : lg_fresh l' = lg_fresh l;
  qt_heap : forall p, rec_id <$> lg_heap l' !! p = rec_id <$> lg_heap l !! p
}.

Lemma quiet_refl l : ledger_inv l -> quiet l l.
Proof. by split. Qed.

Lemma quiet_trans l1 l2 l3 : quiet l1 l2 -> quiet l2 l3 -> quiet l1 l3.
Proof.
  intros [] [J1 J2 J3 J4 J5 J6]. split; congruence.
Qed.

Lemma store_quiet l record p r r' :
  ledger_inv l -> current l record = Some (p, r) -> same_account r r' -> quiet l (store p r' l).
Proof.
  intros HI Hc HS. destruct (inv_store_same _ _ _ _ _ HI Hc HS) as [HI' _].
  apply current_Some in Hc as (_ & Hp & _). destruct HS as (H1 & H2 & _).
  split; try done. intros q. simpl. destruct (decide (p = q)) as [<-|Hne].
  - rewrite lookup_insert_eq, Hp. simpl. unfold rec_id. by rewrite H1, H2.
  - by rewrite lookup_insert_ne.
Qed.

Lemma evidence_quiet e r now l : ledger_inv l -> quiet l (evidenceLocked e r now l).
Proof.
  intros HI. destruct (evidence_fields e r now l) as (E1 & E2 & E3 & E4 & E5 & _).
  split; try done; [by apply evidence_inv|intros p; by rewrite E4].
Qed.

Lemma legs_quiet l l' : ledger_inv l' -> legs_only l l' -> quiet l l'.
Proof. intros HI (E1 & E2 & E3 & E4 & E5 & _). split; try done; intros p; by rewrite E4. Qed.

#[local] Hint Resolve quiet_refl : smp3.

(** Solve [same_account r r'] for a record [r'] updated by assignments. *)
Ltac account := unfold same_account, drop_rescue, drop_transit; repeat case_match; done.

Lemma MarkTransit_quiet l record leg now :
  ledger_inv l -> quiet l (MarkTransit l record leg now).2.
Proof.
  intros HI. unfold MarkTransit. destruct (current l record) as [[p r]|] eqn:Hc; [|by apply quiet_refl].
  destruct (tr_inTransit r); [by apply quiet_refl|]. eapply store_quiet; [done..|account].
Qed.

Lemma markRescueTransitLocked_quiet l record leg now :
  ledger_inv l -> quiet l (markRescueTransitLocked l record leg now).2.
Proof.
  intros HI. unfold markRescueTransitLocked.
  destruct (current l record) as [[p r]|] eqn:Hc; [|by apply quiet_refl].
  repeat (case_match; [by apply quiet_refl|]). eapply store_quiet; [done..|account].
Qed.

Lemma MarkRestrictedRescueTransit_quiet l record leg owner now :
  ledger_inv l -> quiet l (MarkRestrictedRescueTransit l record leg owner now).2.
Proof.
  intros HI. unfold MarkRestrictedRescueTransit. case_match; [|by apply quiet_refl].
  case_match; [by apply quiet_refl|]. by apply markRescueTransitLocked_quiet.
Qed.

Lemma MarkRescueQueued_quiet l record leg started :
  ledger_inv l -> quiet l (MarkRescueQueued l record leg started).2.
Proof.
  intros HI. unfold MarkRescueQueued.
  destruct (current l record) as [[p r]|] eqn:Hc; [|by apply quiet_refl].
  case_match; [by apply quiet_refl|]. eapply store_quiet; [done..|account].
Qed.

Lemma clearAttemptAt_quiet l record leg rescue started :
  ledger_inv l -> quiet l (clearAttemptAt l record leg rescue started).
Proof.
  intros HI. unfold clearAttemptAt.
  destruct (current l record) as [[p r]|] eqn:Hc; [|by apply quiet_refl].
  destruct rescue; (case_match; [|by apply quiet_refl]); (eapply store_quiet; [done..|account]).
Qed.

Lemma MarkAttemptSent_quiet l record leg rescue now :
  ledger_inv l -> quiet l (MarkAttemptSent l record leg rescue now).2.
Proof.
  intros HI. unfold MarkAttemptSent.
  destruct (current l record) as [[p r]|] eqn:Hc; [|by apply quiet_refl].
  match goal with |- context [if ?b then _ else _] => destruct b end; [by apply quiet_refl|].
  cbn [snd]. match goal with |- quiet _ (evidenceLocked _ ?r' _ _) => set (r2 := r') end.
  assert (quiet l (store p r2 l)) as HQ.
  { eapply store_quiet; [done..|]. unfold r2, same_account. repeat case_match; done. }
  eapply quiet_trans; [exact HQ|]. apply evidence_quiet, HQ.
Qed.

Lemma markWriteStarted_quiet l p leg rescue now :
  ledger_inv l -> quiet l (markWriteStarted l p leg rescue now).
Proof.
  intros HI. unfold markWriteStarted.
  destruct (current l (Some p)) as [[q r]|] eqn:Hc; [|by apply quiet_refl].
  case_match; [|by apply quiet_refl].
  match goal with |- quiet _ (evidenceLocked _ ?r' _ _) => set (r2 := r') end.
  assert (quiet l (store q r2 l)) as HQ by (eapply store_quiet; [done..|account]).
  eapply quiet_trans; [exact HQ|]. apply evidence_quiet, HQ.
Qed.

Lemma setOrigin_quiet l p generation epoch :
  ledger_inv l -> quiet l (setOrigin l p generation epoch).
Proof.
  intros HI. unfold setOrigin.
  destruct (current l (Some p)) as [[q r]|] eqn:Hc; [|by apply quiet_refl].
  match goal with |- quiet _ (evidenceLocked _ ?r' _ _) => set (r2 := r') end.
  assert (quiet l (store q r2 l)) as HQ by (eapply store_quiet; [done..|account]).
  eapply quiet_trans; [exact HQ|]. apply evidence_quiet, HQ.
Qed.

(** *** Updates of many records at once *)

(** Mapping account-preserving updates over the heap. *)
Lemma heap_map_quiet l l' (g : ptr -> StreamTXRecord -> StreamTXRecord) :
  ledger_inv l -> (forall p r, same_account r (g p r)) ->
  (forall p, lg_heap l' !! p = g p <$> lg_heap l !! p) ->
  lg_nextSequence l' = lg_nextSequence l -> lg_ackedNext l' = lg_ackedNext l ->
  lg_outstanding l' = lg_outstanding l -> lg_fresh l' = lg_fresh l ->
  lg_maxLegs l' = lg_maxLegs l -> lg_ordinaryFrames l' = lg_ordinaryFrames l ->
  lg_ordinaryBytes l' = lg_ordinaryBytes l -> lg_pendingBytes l' = lg_pendingBytes l ->
  quiet l l'.
Proof.
  intros HI Hg EH E1 E2 E3 E4 E5 E6 E7 E8. pose proof HI as [I1 I2 I3 I4 I5 I6 I7 I8].
  assert (forall s r', live l' !! s = Some r' -> exists r, live l !! s = Some r /\ same_account r r')
    as HL.
  { intros s r' (p & Ho & Hp)%live_out. rewrite EH in Hp.
    apply fmap_Some in Hp as (r & Hr & ->). exists r. split; [|apply Hg].
    rewrite live_lookup, <- E3, Ho. done. }
  assert (forall f, (forall r r', same_account r r' -> f r' = f r) ->
    map_sum f (live l') = map_sum f (live l)) as HS.
  { intros f Hf. assert (live l' = map_imap (fun s r => match lg_outstanding l !! s with
      Some p => Some (g p r) | None => None end) (live l)) as ->.
    { apply map_eq. intros s. rewrite map_lookup_imap, !live_lookup, E3.
      destruct (lg_outstanding l !! s) as [p|]; [|done]. simpl. rewrite EH.
      by destruct (lg_heap l !! p). }
    apply map_sum_imap. intros s r Hr. apply live_out in Hr as (p & -> & _). eauto. }
  split; try done; [|intros p; rewrite EH; destruct (lg_heap l !! p) as [r|]; [|done]; simpl;
    destruct (Hg p r) as (A & B & _); unfold rec_id; by rewrite A, B].
  split; rewrite ?E1, ?E2, ?E3, ?E4, ?E5; try done.
  - intros s p Hp. destruct (I3 _ _ Hp) as (r & Hr & Hs). exists (g p r). rewrite EH, Hr.
    split; [done|]. destruct (Hg p r) as (A & _). congruence.
  - intros p. rewrite EH. intros Hp%fmap_is_Some. by apply I5.
  - intros s r' Hr'. destruct (HL _ _ Hr') as (r & Hr & (_ & _ & Ho & _)). rewrite Ho. eauto.
  - eapply counters_ext; [eapply counters_frame; [exact I8|done..]|].
    intros id _. split_and!; symmetry; apply HS; intros r r' HSA;
      by destruct (same_account_counts _ _ id HSA) as (? & ? & ?).
Qed.

Lemma invalidate_account leg r : same_account r (invalidate_record leg r).
Proof. unfold invalidate_record, same_account, drop_rescue, drop_transit. repeat case_match; done. Qed.

Lemma InvalidateLeg_quiet l leg : ledger_inv l -> quiet l (InvalidateLeg l leg).
Proof.
  intros HI. eapply (heap_map_quiet l _ (fun p r =>
    if bool_decide (lg_outstanding l !! tr_sequence r = Some p) then invalidate_record leg r else r));
    try done.
  - intros p r. case_bool_decide; [apply invalidate_account|done].
  - intros p. unfold InvalidateLeg; simpl. rewrite map_lookup_imap. by destruct (lg_heap l !! p).
Qed.

Lemma finishLocalEnqueue_quiet l p : ledger_inv l -> quiet l (finishLocalEnqueue l p).
Proof.
  intros HI. eapply (heap_map_quiet l _ (fun q r =>
    if bool_decide (p = q) then r <| tr_localEnqueue := false |> else r)); try done.
  - intros q r. by case_bool_decide.
  - intros q. unfold finishLocalEnqueue; simpl. case_bool_decide as E.
    + subst q. by rewrite lookup_alter_eq.
    + rewrite lookup_alter_ne by done. by destruct (lg_heap l !! q).
Qed.

(** ** Ownership *)

(** Storing a record with new account fields, the counters being in line. *)
Lemma inv_store_quiet l l' record p r r' :
  ledger_inv l -> current l record = Some (p, r) ->
  tr_sequence r' = tr_sequence r -> tr_payload r' = tr_payload r ->
  -1 <= tr_ordinaryOwner r' < lg_maxLegs l ->
  lg_nextSequence l' = lg_nextSequence l -> lg_ackedNext l' = lg_ackedNext l ->
  lg_outstanding l' = lg_outstanding l -> lg_heap l' = <[p := r']> (lg_heap l) ->
  lg_fresh l' = lg_fresh l -> lg_maxLegs l' = lg_maxLegs l ->
  counters_are l'
    (fun id => map_sum (owned id) (live l) - owned id r + owned id r')
    (fun id => map_sum (owned_bytes id) (live l) - owned_bytes id r + owned_bytes id r')
    (fun id => map_sum (owned_pending id) (live l) - owned_pending id r + owned_pending id r') ->
  quiet l l'.
Proof.
  intros HI Hc Hs Hpay Hown E1 E2 E3 E4 E5 E6 Hcnt.
  destruct (inv_store l l' record p r r') as [HI' _]; try done.
  split; try done. intros q. rewrite E4. apply current_Some in Hc as (_ & Hp & _).
  destruct (decide (p = q)) as [<-|].
  - rewrite lookup_insert_eq, Hp. simpl. unfold rec_id. by rewrite Hs, Hpay.
  - by rewrite lookup_insert_ne.
Qed.

Lemma counters_sub_owner l r F B P :
  counters_are l F B P -> -1 <= tr_ordinaryOwner r < lg_maxLegs l ->
  exists l', (if bool_decide (0 <= tr_ordinaryOwner r)
              then counters_sub l (tr_ordinaryOwner r) r else Some l) = Some l' /\
    same_but_counters l l' /\
    counters_are l' (fun id => F id - (if bool_decide (0 <= id) then owned id r else 0))
      (fun id => B id - (if bool_decide (0 <= id) then owned_bytes id r else 0))
      (fun id => P id - (if bool_decide (0 <= id) then owned_pending id r else 0)).
Proof.
  intros HC Ho. unfold owned, owned_bytes, owned_pending. case_bool_decide as H0.
  - destruct (counters_sub_ok l (tr_ordinaryOwner r) r F B P HC ltac:(lia)) as (l' & E & HS & HC').
    exists l'. split; [done|]. split; [done|]. eapply counters_ext; [exact HC'|].
    intros id Hid. unfold bump. rewrite (bool_decide_eq_true_2 (0 <= id)) by lia.
    destruct (tr_ordinaryAdmitted r); case_bool_decide; simpl; lia.
  - exists l. split; [done|]. split; [by unfold same_but_counters|].
    eapply counters_ext; [exact HC|]. intros id Hid.
    rewrite (bool_decide_eq_false_2 (tr_ordinaryOwner r = id)) by lia.
    destruct (bool_decide (0 <= id)); simpl; lia.
Qed.

Lemma assignOrdinary_quiet l record id now :
  ledger_inv l -> 0 <= id < MaxStreamLegIDCount ->
  exists ok l', assignOrdinary l record id now = Some (ok, l') /\ quiet l l' /\
    (ok = true -> exists p r, current l' record = Some (p, r) /\ tr_ordinaryOwner r = id).
Proof.
  intros HI Hid. unfold assignOrdinary.
  destruct (ensureLegLocked_ok l id HI Hid) as (l1 & -> & HI1 & HO & Hlt). simpl.
  pose proof (legs_quiet l l1 HI1 HO) as HQ1.
  destruct (current l1 record) as [[p r]|] eqn:Hc;
    [|exists false, l1; split; [done|]; split; [done|done]].
  case_bool_decide as Hown; [exists true, l1; split; [done|]; split; [done|]; eauto|].
  pose proof (li_owner _ HI1 _ _ (current_live _ _ _ _ Hc)) as Hr.
  destruct (counters_sub_owner l1 r _ _ _ (li_count _ HI1) Hr) as (l2 & E2 & HS2 & HC2).
  rewrite E2. simpl.
  set (r' := (r <| tr_ordinaryOwner := id |>) <| tr_assignedAt := now |>).
  set (l3 := evidenceLocked "assigned" r' now (store p r' l2)).
  destruct (evidence_fields "assigned" r' now (store p r' l2))
    as (F1 & F2 & F3 & F4 & F5 & F6 & F7 & F8 & F9 & _).
  destruct HS2 as (S1 & S2 & S3 & S4 & S5 & S6 & S7 & S8 & S9 & S10).
  assert (counters_are l3 _ _ _) as HC3 by (eapply counters_frame; [exact HC2|done..]).
  assert (lg_maxLegs l3 = lg_maxLegs l1) as EM by (unfold l3; by rewrite F6).
  destruct (counters_add_ok l3 id r' _ _ _ HC3 ltac:(rewrite EM; lia)) as (l4 & E4 & HS4 & HC4).
  rewrite E4. simpl.
  destruct HS4 as (T1 & T2 & T3 & T4 & T5 & T6 & _).
  assert (lg_heap l4 = <[p := r']> (lg_heap l1)) as EH
    by (rewrite T1; unfold l3; rewrite F4; simpl; by rewrite S1).
  assert (lg_outstanding l4 = lg_outstanding l1) as EO
    by (rewrite T5; unfold l3; rewrite F3; simpl; by rewrite S5).
  exists true, l4. split; [done|]. split.
  - eapply quiet_trans; [exact HQ1|]. eapply (inv_store_quiet l1 l4 record p r r'); try done.
    + simpl. lia.
    + rewrite T3. unfold l3. rewrite F1. done.
    + rewrite T4. unfold l3. rewrite F2. done.
    + rewrite T2. unfold l3. rewrite F5. done.
    + rewrite T6. done.
    + eapply counters_ext; [exact HC4|]. intros j Hj. rewrite T6, EM in Hj.
      unfold bump, owned, owned_bytes, owned_pending, r', payload_size. simpl.
      rewrite !(bool_decide_eq_true_2 (0 <= j)) by lia.
      destruct (tr_ordinaryAdmitted r); repeat case_bool_decide; simpl; lia.
  - intros _. exists p, r'. split; [|done]. apply current_Some in Hc as (-> & Hp & Ho).
    unfold current. rewrite EH, lookup_insert_eq, EO. simpl. by rewrite bool_decide_eq_true_2.
Qed.

Lemma markOrdinaryAdmitted_quiet l record id :
  ledger_inv l -> 0 <= id < MaxStreamLegIDCount ->
  exists l', markOrdinaryAdmitted l record id = Some l' /\ quiet l l'.
Proof.
  intros HI Hid. unfold markOrdinaryAdmitted.
  destruct (ensureLegLocked_ok l id HI Hid) as (l1 & -> & HI1 & HO & Hlt). simpl.
  pose proof (legs_quiet l l1 HI1 HO) as HQ1.
  destruct (current l1 record) as [[p r]|] eqn:Hc; [|by exists l1].
  destruct (_ || _) eqn:Hg; [by exists l1|]. bool_prop. apply dec_stable in H.
  pose proof (li_count _ HI1) as (L1 & L2 & L3 & HC).
  destruct (slice_upd_bump u64 (lg_pendingBytes l1) id (fun n => u64 (n - payload_size r))
    (fun id => map_sum (owned_pending id) (live l1)) (- payload_size r) (lg_maxLegs l1))
    as (s & E & S1 & G); [done|lia|by intros; apply HC|
      intros; unfold u64; by rewrite Zminus_mod_idemp_l|].
  rewrite E. simpl. eexists. split; [reflexivity|]. eapply quiet_trans; [exact HQ1|].
  eapply (inv_store_quiet l1 _ record p r (r <| tr_ordinaryAdmitted := true |>)); try done.
  - exact (li_owner _ HI1 _ _ (current_live _ _ _ _ Hc)).
  - split_and!; try done. simpl. intros j Hj. destruct (HC j Hj) as (C1 & C2 & C3).
    rewrite C1, C2, G by done. unfold bump, owned, owned_bytes, owned_pending. simpl.
    rewrite H0. split_and!; f_equal; [lia|f_equal; unfold payload_size; simpl; lia|f_equal].
    rewrite andb_false_r, andb_true_r, H.
    case_bool_decide; simpl; lia.
Qed.

(** ** Adding a record *)

Lemma add_ok l payload now local :
  ledger_inv l -> lg_nextSequence l < max_u64 ->
  let '(p, l') := add l payload now local in
  ledger_inv l' /\ p = lg_fresh l /\ lg_fresh l' = p + 1 /\
  lg_nextSequence l' = lg_nextSequence l + 1 /\ lg_ackedNext l' = lg_ackedNext l /\
  lg_outstanding l' = <[lg_nextSequence l := p]> (lg_outstanding l) /\
  exists r, lg_heap l' = <[p := r]> (lg_heap l) /\ tr_sequence r = lg_nextSequence l /\
    tr_payload r = payload.
Proof.
  intros HI Hn. destruct (ensureLocked_ok l HI) as (HI0 & HO & _ & _).
  unfold add. cbn zeta. set (l0 := ensureLocked l) in *.
  destruct HO as (O1 & O2 & O3 & O4 & O5 & _ & _).
  match goal with |- context [store _ ?x _] => set (r := x) end.
  match goal with |- context [evidenceLocked _ _ _ ?x] => set (l1 := x) end.
  destruct (evidence_fields "created" r now l1) as (F1 & F2 & F3 & F4 & F5 & F6 & F7 & F8 & F9 & _).
  assert (tr_sequence r = lg_nextSequence l /\ tr_payload r = payload /\ tr_ordinaryOwner r = -1)
    as (R1 & R2 & R3) by (unfold r; simpl; case_bool_decide; simpl; by rewrite O1).
  assert (u64 (lg_nextSequence l0 + 1) = lg_nextSequence l + 1) as EU.
  { rewrite O1. apply u64_small. pose proof (li_next _ HI) as HN.
    unfold is_u64, max_u64 in *. lia. }
  assert (lg_outstanding l1 = <[lg_nextSequence l := lg_fresh l]> (lg_outstanding l)) as E3
    by (unfold l1; simpl; by rewrite R1, O3, O5).
  assert (lg_heap l1 = <[lg_fresh l := r]> (lg_heap l)) as E4
    by (unfold l1; simpl; by rewrite O4, O5).
  assert (ledger_inv l1) as HI1.
  { pose proof HI0 as [I1 I2 I3 I4 I5 I6 I7 I8].
    rewrite O1, O2, O3, O4, O5 in *.
    assert (lg_heap l !! lg_fresh l = None) as HF.
    { destruct (lg_heap l !! lg_fresh l) eqn:E; [|done].
      specialize (I5 (lg_fresh l) ltac:(by eexists)). lia. }
    assert (lg_outstanding l !! lg_nextSequence l = None) as HN.
    { destruct (lg_outstanding l !! lg_nextSequence l) eqn:E; [|done].
      assert (is_Some (lg_outstanding l !! lg_nextSequence l)) as X%I4 by (by eexists). lia. }
    assert (live l1 = <[lg_nextSequence l := r]> (live l0)) as EL.
    { apply map_eq. intros s. rewrite live_lookup, E3, E4.
      destruct (decide (lg_nextSequence l = s)) as [<-|Hne].
      - rewrite !lookup_insert_eq. simpl. by rewrite lookup_insert_eq.
      - rewrite !lookup_insert_ne, live_lookup, O3, O4 by done.
        destruct (lg_outstanding l !! s) as [q|] eqn:Hq; [|done]. simpl.
        apply lookup_insert_ne. intros <-. destruct (I3 _ _ Hq) as (? & ? & _). congruence. }
    assert (live l0 !! lg_nextSequence l = None) as HLN by (by rewrite live_lookup, O3, HN).
    split.
    - unfold l1; simpl. rewrite O1, EU. pose proof (li_next _ HI). unfold is_u64, max_u64 in *. lia.
    - unfold l1; simpl. rewrite O1, EU, O2. lia.
    - intros s q. rewrite E3, E4. intros [[<- <-]|[Hne Hq]]%lookup_insert_Some.
      + exists r. by rewrite lookup_insert_eq.
      + destruct (I3 _ _ Hq) as (r2 & H2 & H3). exists r2. rewrite lookup_insert_ne; [done|].
        intros <-. congruence.
    - intros s. rewrite E3, lookup_insert_is_Some', I4. unfold l1; simpl. rewrite O1, EU, O2. lia.
    - intros q. rewrite E4, lookup_insert_is_Some'. unfold l1; simpl. rewrite O5.
      intros [<-|Hq%I5]; lia.
    - unfold l1; simpl. done.
    - intros s r2. rewrite EL. intros [[<- <-]|[_ Hr2]]%lookup_insert_Some.
      + rewrite R3. unfold l1; simpl. lia.
      + exact (I7 _ _ Hr2).
    - eapply counters_ext; [eapply (counters_frame l0); [exact I8|done..]|].
      intros id Hid. rewrite EL, !map_sum_insert by done.
      unfold owned, owned_bytes, owned_pending. rewrite R3.
      rewrite (bool_decide_eq_false_2 (-1 = id)) by lia. simpl. lia. }
  split; [by apply evidence_inv|]. rewrite F1, F2, F3, F4, F5.
  rewrite E3, E4. simpl. rewrite O5. split_and!; try done.
  by exists r.
Qed.

(** ** Retirement *)

(** The ledger inside the retirement loop: everything below [s] is retired. *)
Definition at_seq (s : Z) (l : StreamTXLedger) : StreamTXLedger := l <| lg_ackedNext := s |>.

Lemma retire_ok now head s l res :
  ledger_inv (at_seq s l) -> s < lg_nextSequence l -> slen (ak_PerLeg res) = lg_maxLegs l ->
  exists p r l' res', lg_outstanding l !! s = Some p /\ lg_heap l !! p = Some r /\
    retire now head s (l, res) = Some (l', res') /\
    ledger_inv (at_seq (s + 1) l') /\
    lg_outstanding l' = delete s (lg_outstanding l) /\ lg_heap l' = lg_heap l /\
    lg_fresh l' = lg_fresh l /\ lg_nextSequence l' = lg_nextSequence l /\
    lg_maxLegs l' = lg_maxLegs l /\ lg_ackedNext l' = lg_ackedNext l /\
    lg_futureACKCount l' = lg_futureACKCount l /\
    slen (ak_PerLeg res') = lg_maxLegs l /\ ak_Released res' = ak_Released res + 1 /\
    ak_RetiredBytes res' = u64 (ak_RetiredBytes res + payload_size r) /\
    ak_Disposition res' = ak_Disposition res.
Proof.
  intros HI Hs HP. pose proof HI as [I1 I2 I3 I4 I5 I6 I7 I8]. simpl in *.
  assert (is_Some (lg_outstanding l !! s)) as [p Hp] by (apply I4; lia).
  destruct (I3 _ _ Hp) as (r & Hr & Hrs).
  assert (live l !! s = Some r) as HL by (rewrite live_lookup, Hp; done).
  pose proof (I7 s r HL) as Hown.
  change (live (at_seq s l)) with (live l) in *.
  exists p, r. unfold retire. rewrite Hp. simpl. rewrite Hr. simpl.
  set (res1 := res <| ak_RetiredBytes ::= _ |>).
  set (branch := if bool_decide (0 <= retired_leg r) && _ then _ else _).
  assert (exists res2, branch = Some res2 /\ slen (ak_PerLeg res2) = lg_maxLegs l /\
    ak_Released res2 = ak_Released res /\ ak_Disposition res2 = ak_Disposition res /\
    ak_RetiredBytes res2 = u64 (ak_RetiredBytes res + payload_size r)) as (res2 & EB & P2 & P3 & P4 & P5).
  { unfold branch. destruct (_ && _) eqn:Hg; [|by exists res1]. bool_prop.
    destruct (slice_upd_Some (ak_PerLeg res) (retired_leg r) (attribute r)) as (x & _ & E); [lia|].
    simpl. rewrite E. simpl. eexists. split; [reflexivity|]. simpl.
    by rewrite (slice_upd_len _ _ _ _ E). }
  rewrite EB. simpl.
  set (l1 := evidenceLocked "ACK_retire" r now l).
  destruct (evidence_fields "ACK_retire" r now l) as (F1 & F2 & F3 & F4 & F5 & F6 & F7 & F8 & F9 & _ & F11).
  fold l1 in F1, F2, F3, F4, F5, F6, F7, F8, F9, F11.
  set (l2 := l1 <| lg_outstanding ::= delete s |>).
  assert (counters_are l2 _ _ _) as HC2 by (eapply (counters_frame (at_seq s l)); [exact I8|done..]).
  assert (exists l3 res3, (if bool_decide (0 <= tr_ordinaryOwner r)
        && bool_decide (tr_ordinaryOwner r < slen (lg_ordinaryFrames l2)) then
         let! l' := counters_sub l2 (tr_ordinaryOwner r) r in
         let! legs := slice_upd (ak_PerLeg res2) (tr_ordinaryOwner r)
           (prove now (head ≫= (fun hp => pair hp <$> lg_heap l !! hp)) p (tr_ordinaryOwner r) r) in
         Some (l', res2 <| ak_PerLeg := legs |>)
       else Some (l2, res2)) = Some (l3, res3) /\ same_but_counters l2 l3 /\
    counters_are l3 (fun id => map_sum (owned id) (live l) - (if bool_decide (0 <= id) then owned id r else 0))
      (fun id => map_sum (owned_bytes id) (live l) - (if bool_decide (0 <= id) then owned_bytes id r else 0))
      (fun id => map_sum (owned_pending id) (live l) - (if bool_decide (0 <= id) then owned_pending id r else 0)) /\
    slen (ak_PerLeg res3) = lg_maxLegs l /\ ak_Released res3 = ak_Released res /\
    ak_Disposition res3 = ak_Disposition res /\
    ak_RetiredBytes res3 = u64 (ak_RetiredBytes res + payload_size r)) as HX.
  { destruct (counters_sub_owner l2 r _ _ _ HC2 ltac:(unfold l2; simpl; lia)) as (l3 & E3 & HS3 & HC3).
    assert (slen (lg_ordinaryFrames l2) = lg_maxLegs l) as -> by (destruct HC2; unfold l2; simpl in *; lia).
    rewrite (bool_decide_eq_true_2 (tr_ordinaryOwner r < lg_maxLegs l)), andb_true_r by lia.
    case_bool_decide as H0; [|exists l3, res2; by simplify_eq]. rewrite E3. simpl.
    match goal with |- context [slice_upd (ak_PerLeg res2) _ ?f] =>
      destruct (slice_upd_Some (ak_PerLeg res2) (tr_ordinaryOwner r) f) as (x & _ & E); [lia|] end.
    rewrite E. simpl. eexists l3, _. split; [reflexivity|]. split_and!; try done.
    simpl. by rewrite (slice_upd_len _ _ _ _ E). }
  destruct HX as (l3 & res3 & EX & (S1 & S2 & S3 & S4 & S5 & S6 & S7 & S8 & _) & HC3 & Q1 & Q2 & Q3 & Q4).
  exists l3, (res3 <| ak_Released ::= Z.succ |>).
  assert (lg_outstanding l3 = delete s (lg_outstanding l)) as EO by (rewrite S5; unfold l2; simpl; by rewrite F3).
  assert (lg_heap l3 = lg_heap l) as EH by (rewrite S1; done).
  assert (lg_maxLegs l3 = lg_maxLegs l) as EM by (rewrite S6; done).
  assert (live (at_seq (s + 1) l3) = delete s (live l)) as EL.
  { apply map_eq. intros k. rewrite live_lookup. unfold at_seq; simpl. rewrite EO, EH.
    destruct (decide (s = k)) as [<-|Hne]; [by rewrite !lookup_delete_eq|].
    by rewrite !lookup_delete_ne, live_lookup. }
  split_and!; try done; simpl; try lia; try congruence;
    try (rewrite ?S2, ?S3, ?S4, ?S8; simpl; congruence).
  - change (lg_ordinaryFrames l1) with (lg_ordinaryFrames l2). by rewrite EX.
  - split; simpl; rewrite ?EO, ?EH, ?EM, ?EL; try done.
    + rewrite S3. simpl. by rewrite F1.
    + rewrite S3. simpl. rewrite F1. lia.
    + intros k q [_ Hq]%lookup_delete_Some. eauto.
    + intros k. rewrite lookup_delete_is_Some, I4, S3. simpl. rewrite F1. lia.
    + intros q. rewrite S2. simpl. rewrite F5. apply I5.
    + intros k r2 [_ Hr2]%lookup_delete_Some. eauto.
    + eapply counters_ext; [exact HC3|]. intros id Hid.
      rewrite !(map_sum_delete _ _ _ r), !bool_decide_eq_true_2 by (done || lia). done.
Qed.

(** The payload bytes of the records [s .. s+n-1]. *)
Definition bytes_between (l : StreamTXLedger) (s : Z) (n : nat) : Z :=
  sum_with (fun k => from_option payload_size 0 (live l !! k)) (seqZ s (Z.of_nat n)).

Lemma retire_loop_ok n now head s l res :
  ledger_inv (at_seq s l) -> s + Z.of_nat n <= lg_nextSequence l ->
  slen (ak_PerLeg res) = lg_maxLegs l -> is_u64 (ak_RetiredBytes res) ->
  exists l' res', retire_loop n now head s (l, res) = Some (l', res') /\
    ledger_inv (at_seq (s + Z.of_nat n) l') /\
    (forall k, lg_outstanding l' !! k
       = if bool_decide (s <= k < s + Z.of_nat n) then None else lg_outstanding l !! k) /\
    lg_heap l' = lg_heap l /\ lg_fresh l' = lg_fresh l /\
    lg_nextSequence l' = lg_nextSequence l /\ lg_maxLegs l' = lg_maxLegs l /\
    lg_futureACKCount l' = lg_futureACKCount l /\ slen (ak_PerLeg res') = lg_maxLegs l /\
    ak_Released res' = ak_Released res + Z.of_nat n /\
    ak_RetiredBytes res' = u64 (ak_RetiredBytes res + bytes_between l s n) /\
    ak_Disposition res' = ak_Disposition res.
Proof.
  revert s l res. induction n as [|n IH]; intros s l res HI Hn HP HB.
  - exists l, res. split; [done|]. rewrite Z.add_0_r. split_and!; try done; try lia.
    + intros k. by rewrite bool_decide_eq_false_2 by lia.
    + unfold bytes_between. simpl. by rewrite Z.add_0_r, u64_small.
  - destruct (retire_ok now head s l res HI ltac:(lia) HP)
      as (p & r & l1 & res1 & Hp & Hr & E1 & HI1 & EO & EH & EF & EN & EM & _ & EC & P1 & P2 & P3 & P4).
    destruct (IH (s + 1) l1 res1 HI1 ltac:(lia) ltac:(lia))
      as (l2 & res2 & E2 & HI2 & FO & FH & FF & FN & FM & FC & Q1 & Q2 & Q3 & Q4);
      [rewrite P3; apply u64_range|].
    exists l2, res2. split; [cbn [retire_loop]; rewrite E1; simpl; exact E2|].
    replace (s + Z.of_nat (S n)) with (s + 1 + Z.of_nat n) by lia.
    split_and!; try done; try lia; try congruence.
    + intros k. rewrite FO, EO. destruct (decide (s = k)) as [<-|Hne].
      * rewrite lookup_delete_eq, (bool_decide_eq_true_2 (s <= s < _)) by lia. by case_bool_decide.
      * rewrite lookup_delete_ne by done.
        rewrite (bool_decide_ext (s + 1 <= k < s + 1 + Z.of_nat n) (s <= k < s + 1 + Z.of_nat n))
          by lia. done.
    + rewrite Q3, P3, u64_add_u64. f_equal. unfold bytes_between.
      replace (Z.of_nat (S n)) with (Z.succ (Z.of_nat n)) by lia.
      rewrite (seqZ_cons s) by lia. simpl. rewrite live_lookup, Hp. simpl. rewrite Hr. simpl.
      replace (Z.succ s) with (s + 1) by lia. rewrite Z.pred_succ.
      enough (forall k, k ∈ seqZ (s + 1) (Z.of_nat n) -> live l1 !! k = live l !! k) as HE.
      { rewrite (sum_with_ext (fun k => from_option payload_size 0 (live l1 !! k))
          (fun k => from_option payload_size 0 (live l !! k))); [lia|].
        intros k Hk. by rewrite HE. }
      intros k Hk%elem_of_seqZ. rewrite !live_lookup, EO, EH, lookup_delete_ne by lia. done.
Qed.

(** The legs of the result are initialised without a panic. *)
Lemma before_ok l :
  ledger_inv l ->
  exists legs, mapM (fun id =>
      let! frames := slice_get (lg_ordinaryFrames l) id in
      let! ordinary := slice_get (lg_ordinaryBytes l) id in
      Some (zero_leg_result <| al_BeforeOrdinaryFrames := frames |>
              <| al_BeforeOrdinaryBytes := ordinary |>)) (seqZ 0 (lg_maxLegs l)) = Some legs /\
    slen legs = lg_maxLegs l.
Proof.
  intros HI. pose proof (li_count _ HI) as (_ & _ & _ & HC). pose proof (li_legs _ HI).
  match goal with |- context [mapM ?g ?k] => destruct (mapM g k) as [legs|] eqn:E end.
  - exists legs. split; [done|]. apply mapM_Some_1, Forall2_length in E.
    rewrite length_seqZ in E. unfold slen. lia.
  - exfalso. apply mapM_None, Exists_exists in E as (id & Hid%elem_of_seqZ & E).
    destruct (HC id ltac:(lia)) as (C1 & C2 & _). rewrite C1, C2 in E. done.
Qed.

Lemma expose_frontier_quiet next now l : ledger_inv l -> quiet l (expose_frontier next now l).
Proof.
  intros HI. unfold expose_frontier. case_match eqn:E; [|by apply quiet_refl].
  destruct p as [p r]. case_match; [|by apply quiet_refl].
  apply bind_Some in E as (q & Hq & E). apply fmap_Some in E as (r2 & Hr & E). simplify_eq.
  assert (current l (Some q) = Some (q, r2)) as Hc.
  { destruct (li_heap _ HI _ _ Hq) as (r3 & H3 & <-). unfold current. simplify_eq.
    rewrite Hr. by rewrite bool_decide_eq_true_2. }
  match goal with |- quiet _ (evidenceLocked _ ?r' _ _) => set (r4 := r') end.
  assert (quiet l (store q r4 l)) as HQ by (eapply store_quiet; [done..|account]).
  eapply quiet_trans; [exact HQ|]. apply evidence_quiet, HQ.
Qed.

(** What [ApplyACK] does, branch by branch; it never panics. *)
Inductive ack_spec (l : StreamTXLedger) (next : Z) (now : time)
  : option (StreamTXACKResult * StreamTXLedger) -> Prop :=
| ack_future res l' : lg_nextSequence l < next ->
    quiet l l' -> ak_Disposition res = StreamTXACKFuture -> ak_Released res = 0 ->
    lg_futureACKCount l' = u64 (lg_futureACKCount l + 1) ->
    ack_spec l next now (Some (res, l'))
| ack_old res l' : next <= lg_ackedNext l ->
    quiet l l' -> ak_Disposition res = StreamTXACKNoProgress -> ak_Released res = 0 ->
    ack_spec l next now (Some (res, l'))
| ack_advance res l' : lg_ackedNext l < next <= lg_nextSequence l ->
    ledger_inv l' -> lg_nextSequence l' = lg_nextSequence l -> lg_ackedNext l' = next ->
    (forall k, lg_outstanding l' !! k
       = if bool_decide (lg_ackedNext l <= k < next) then None else lg_outstanding l !! k) ->
    (forall p, rec_id <$> lg_heap l' !! p = rec_id <$> lg_heap l !! p) ->
    lg_fresh l' = lg_fresh l ->
    ak_Disposition res = StreamTXACKAdvanced -> ak_Released res = next - lg_ackedNext l ->
    ak_RetiredBytes res = u64 (bytes_between l (lg_ackedNext l) (Z.to_nat (next - lg_ackedNext l))) ->
    ak_AckedNext res = next -> lg_lastACKProgress l' = now ->
    ack_spec l next now (Some (res, l')).

Lemma ApplyACK_ok l next now : ledger_inv l -> ack_spec l next now (ApplyACK l next now).
Proof.
  intros HI. unfold ApplyACK. destruct (ensureLocked_ok l HI) as (HI0 & HO & _ & _).
  cbn zeta. set (l0 := ensureLocked l) in *. pose proof (legs_quiet _ _ HI0 HO) as HQ0.
  pose proof HO as (O1 & O2 & O3 & O4 & O5 & O6 & O7).
  case_bool_decide as H1.
  { apply ack_future; try done; [lia| |by simpl; rewrite O7].
    eapply quiet_trans; [exact HQ0|]. split; try done. by eapply inv_frame. }
  case_bool_decide as H2; [by apply ack_old; try done; lia|].
  destruct (before_ok l0 HI0) as (legs & EL & PL). rewrite EL. simpl.
  match goal with |- context [retire_loop ?n ?t ?h ?s (l0, ?x)] =>
    destruct (retire_loop_ok n t h s l0 x)
      as (l1 & res1 & E1 & HI1 & FO & FH & FF & FN & FM & FC & Q1 & Q2 & Q3 & Q4);
      [by eapply inv_frame|lia|done|done|rewrite E1] end.
  simpl in Q2, Q3, Q4 |- *. rewrite Z2Nat.id in * by lia.
  replace (lg_ackedNext l0 + (next - lg_ackedNext l0)) with next in * by lia.
  pose proof (expose_frontier_quiet next now _ HI1) as HX. unfold at_seq in HX, HI1.
  set (l2 := expose_frontier next now (l1 <| lg_ackedNext := next |>)) in *.
  rewrite bool_decide_eq_true_2 by lia. simpl.
  destruct HX as [X1 X2 X3 X4 X5 X6]. simpl in *.
  assert (bytes_between l0 = bytes_between l) as EB
    by (unfold bytes_between; by rewrite (legs_only_live _ _ HO)).
  apply ack_advance; simpl; try done; try lia; try congruence.
  - by eapply inv_frame.
  - intros k. by rewrite X4, FO, O2, O3.
  - rewrite Q3, EB, O2. done.
Qed.
