(* ===== verification/TxQueue.v ===== *)
(** * The transmit ledger: theorems

    Sequences of ledger methods, as the sender, the leg writers, the retry
    planner and the ACK readers issue them, against the abstract specification:
    a queue of payloads numbered from the acknowledged frontier. *)

From S2P Require Import Prelude Bytes TxLedger TxInv.
From stdpp Require Import options.

(** ** Method calls *)

Inductive tx_op :=
| op_add (payload : bytes) (now : time) (local : bool)
| op_finishLocal (p : ptr)
| op_transit (record : option ptr) (leg : Z) (now : time)
| op_rescue (record : option ptr) (leg : Z) (now : time)
| op_restricted (record : option ptr) (leg owner : Z) (now : time)
| op_queued (record : option ptr) (leg : Z) (started : time)
| op_clear (record : option ptr) (leg : Z) (rescue : bool) (started : time)
| op_sent (record : option ptr) (leg : Z) (rescue : bool) (now : time)
| op_invalidate (leg : Z)
| op_assign (record : option ptr) (id : Z) (now : time)
| op_admitted (record : option ptr) (id : Z)
| op_write (p : ptr) (leg : Z) (rescue : bool) (now : time)
| op_origin (p : ptr) (generation : Z) (epoch : time)
| op_ack (next : Z) (now : time)
| op_trace.

(** [None] is a run-time panic. *)
Definition tx_step (op : tx_op) (l : StreamTXLedger) : option StreamTXLedger :=
  match op with
  | op_add payload now local => Some (add l payload now local).2
  | op_finishLocal p => Some (finishLocalEnqueue l p)
  | op_transit record leg now => Some (MarkTransit l record leg now).2
  | op_rescue record leg now => Some (MarkRescueTransit l record leg now).2
  | op_restricted record leg owner now =>
    Some (MarkRestrictedRescueTransit l record leg owner now).2
  | op_queued record leg started => Some (MarkRescueQueued l record leg started).2
  | op_clear record leg rescue started => Some (clearAttemptAt l record leg rescue started)
  | op_sent record leg rescue now => Some (MarkAttemptSent l record leg rescue now).2
  | op_invalidate leg => Some (InvalidateLeg l leg)
  | op_assign record id now => snd <$> assignOrdinary l record id now
  | op_admitted record id => markOrdinaryAdmitted l record id
  | op_write p leg rescue now => Some (markWriteStarted l p leg rescue now)
  | op_origin p generation epoch => Some (setOrigin l p generation epoch)
  | op_ack next now => snd <$> ApplyACK l next now
  | op_trace => Some (EnableEvidenceTraceForTest l)
  end.

Fixpoint tx_run (ops : list tx_op) (l : StreamTXLedger) : option StreamTXLedger :=
  match ops with
  | [] => Some l
  | op :: ops => let! l := tx_step op l in tx_run ops l
  end.

(** Leg identifiers are [uint8]. *)
Definition op_wf (op : tx_op) : Prop :=
  match op with
  | op_assign _ id _ | op_admitted _ id => 0 <= id < MaxStreamLegIDCount
  | _ => True
  end.

(** ** The abstract queue *)

Record tx_queue := MkQueue {
  tq_base : Z;           (* the first unacknowledged sequence *)
  tq_items : list bytes  (* the payloads from there on *)
}.

Definition q_step (op : tx_op) (q : tx_queue) : tx_queue :=
  match op with
  | op_add payload _ _ => MkQueue (tq_base q) (tq_items q ++ [payload])
  | op_ack next _ =>
    if bool_decide (tq_base q < next <= tq_base q + slen (tq_items q))
    then MkQueue next (drop (Z.to_nat (next - tq_base q)) (tq_items q)) else q
  | _ => q
  end.

Definition q_run (ops : list tx_op) (q : tx_queue) : tx_queue := fold_left (fun q op => q_step op q) ops q.

(** What a ledger represents. *)
Definition queue_of (l : StreamTXLedger) : tx_queue :=
  MkQueue (lg_ackedNext l)
    (map (fun s => from_option tr_payload [] (live l !! s))
       (seqZ (lg_ackedNext l) (lg_nextSequence l - lg_ackedNext l))).

(** ** One step *)

(** How a step changes what the ledger represents. *)
Definition step_effect (op : tx_op) (l l' : StreamTXLedger) : Prop :=
  match op with
  | op_add payload _ _ =>
    lg_nextSequence l' = lg_nextSequence l + 1 /\ lg_ackedNext l' = lg_ackedNext l /\
    lg_fresh l' = lg_fresh l + 1 /\
    lg_outstanding l' = <[lg_nextSequence l := lg_fresh l]> (lg_outstanding l) /\
    (forall p, rec_id <$> lg_heap l' !! p
       = if bool_decide (p = lg_fresh l) then Some (lg_nextSequence l, payload)
         else rec_id <$> lg_heap l !! p)
  | op_ack next _ =>
    let next := if bool_decide (lg_ackedNext l < next <= lg_nextSequence l) then next
                else lg_ackedNext l in
    lg_nextSequence l' = lg_nextSequence l /\ lg_ackedNext l' = next /\ lg_fresh l' = lg_fresh l /\
    (forall k, lg_outstanding l' !! k
       = if bool_decide (lg_ackedNext l <= k < next) then None else lg_outstanding l !! k) /\
    (forall p, rec_id <$> lg_heap l' !! p = rec_id <$> lg_heap l !! p)
  | _ => quiet l l'
  end.

(** No method panics, every method keeps the invariant. *)
Lemma tx_step_ok op l :
  ledger_inv l -> op_wf op -> lg_nextSequence l < max_u64 ->
  exists l', tx_step op l = Some l' /\ ledger_inv l' /\ step_effect op l l'.
Proof.
  intros HI Hwf Hn.
  assert (forall l', quiet l l' -> exists l'', Some l' = Some l'' /\ ledger_inv l'' /\ quiet l l'')
    as HQ by (intros l' Hl'; exists l'; split; [done|]; split; [apply Hl'|done]).
  destruct op; cbn [tx_step step_effect op_wf] in *.
  - pose proof (add_ok l payload now local HI Hn) as HA.
    destruct (add l payload now local) as [p l'].
    destruct HA as (HI' & -> & EF & EN & EA & EO & r & EH & ES & EP).
    exists l'. split; [done|]. split; [done|]. split_and!; try done.
    intros q. rewrite EH. case_bool_decide as E.
    + subst q. rewrite lookup_insert_eq. simpl. unfold rec_id. by rewrite ES, EP.
    + by rewrite lookup_insert_ne by done.
  - by apply HQ, finishLocalEnqueue_quiet.
  - by apply HQ, MarkTransit_quiet.
  - by apply HQ, markRescueTransitLocked_quiet.
  - by apply HQ, MarkRestrictedRescueTransit_quiet.
  - by apply HQ, MarkRescueQueued_quiet.
  - by apply HQ, clearAttemptAt_quiet.
  - by apply HQ, MarkAttemptSent_quiet.
  - by apply HQ, InvalidateLeg_quiet.
  - destruct (assignOrdinary_quiet l record id now HI Hwf) as (ok & l' & -> & HQ' & _).
    by apply HQ.
  - destruct (markOrdinaryAdmitted_quiet l record id HI Hwf) as (l' & -> & HQ'). by apply HQ.
  - by apply HQ, markWriteStarted_quiet.
  - by apply HQ, setOrigin_quiet.
  - destruct (ApplyACK_ok l next now HI) as [res l' H1 [] _ _ _|res l' H1 [] _ _|
      res l' H1 H2 H3 H4 H5 H6 H7]; exists l'; (split; [done|]); (split; [done|]).
    + rewrite bool_decide_eq_false_2 by lia. split_and!; try done.
      intros k. rewrite qt_out. by rewrite bool_decide_eq_false_2 by lia.
    + rewrite bool_decide_eq_false_2 by lia. split_and!; try done.
      intros k. rewrite qt_out. by rewrite bool_decide_eq_false_2 by lia.
    + rewrite bool_decide_eq_true_2 by lia. split_and!; try done.
  - apply HQ. split; try done. by eapply inv_frame.
Qed.

(** ** The payload a sequence number stands for *)

Definition payload_at (l : StreamTXLedger) (s : Z) : option bytes := tr_payload <$> live l !! s.

Lemma payload_at_id l s :
  payload_at l s = lg_outstanding l !! s ≫= fun p => snd <$> (rec_id <$> lg_heap l !! p).
Proof.
  unfold payload_at. rewrite live_lookup. destruct (lg_outstanding l !! s) as [p|]; [|done].
  simpl. by destruct (lg_heap l !! p).
Qed.

Lemma step_payload op l l' s :
  ledger_inv l -> step_effect op l l' ->
  payload_at l' s =
    match op with
    | op_add payload _ _ => if bool_decide (s = lg_nextSequence l) then Some payload
                            else payload_at l s
    | op_ack _ _ => if bool_decide (lg_ackedNext l <= s < lg_ackedNext l') then None
                    else payload_at l s
    | _ => payload_at l s
    end.
Proof.
  intros HI HE.
  assert (quiet l l' -> payload_at l' s = payload_at l s) as HQ.
  { intros [_ _ _ Q4 _ Q6]. rewrite !payload_at_id, Q4. destruct (lg_outstanding l !! s); [|done].
    simpl. by rewrite Q6. }
  destruct op; simpl in HE; try (by apply HQ).
  - destruct HE as (_ & _ & _ & EO & EH). rewrite !payload_at_id, EO. case_bool_decide as E.
    + subst s. rewrite lookup_insert_eq. simpl. rewrite EH. by rewrite bool_decide_eq_true_2.
    + rewrite lookup_insert_ne by done. destruct (lg_outstanding l !! s) as [p|] eqn:Hp; [|done].
      simpl. rewrite EH. rewrite bool_decide_eq_false_2; [done|]. intros ->.
      destruct (li_heap _ HI _ _ Hp) as (r & Hr & _).
      pose proof (li_fresh _ HI (lg_fresh l) ltac:(by eexists)). lia.
  - destruct HE as (_ & EA & _ & EO & EH). rewrite <- EA in EO. rewrite !payload_at_id, EO.
    clear EA. case_bool_decide; [done|]. destruct (lg_outstanding l !! s); [|done]. simpl. by rewrite EH.
Qed.

Lemma queue_items l :
  tq_items (queue_of l) = map (fun s => default [] (payload_at l s))
    (seqZ (lg_ackedNext l) (lg_nextSequence l - lg_ackedNext l)).
Proof. simpl. apply map_ext. intros s. unfold payload_at. by destruct (live l !! s). Qed.

(** One step of the ledger is one step of the queue. *)
Lemma step_queue op l l' :
  ledger_inv l -> ledger_inv l' -> step_effect op l l' -> queue_of l' = q_step op (queue_of l).
Proof.
  intros HI HI' HE. pose proof (li_acked _ HI) as HA.
  assert (forall q1 q2, tq_base q1 = tq_base q2 -> tq_items q1 = tq_items q2 -> q1 = q2) as Heq
    by (intros [] []; simpl; by intros -> ->).
  assert (slen (tq_items (queue_of l)) = lg_nextSequence l - lg_ackedNext l) as Hlen.
  { unfold slen. simpl. rewrite length_map, length_seqZ. lia. }
  assert (quiet l l' -> queue_of l' = queue_of l) as HQ.
  { intros HQ. apply Heq; [apply HQ|]. rewrite !queue_items, (qt_next _ _ HQ), (qt_acked _ _ HQ).
    apply map_ext. intros s. by rewrite (step_payload op_trace l l'). }
  destruct op; try (by apply HQ).
  - apply Heq; [simpl; apply HE|]. rewrite queue_items. cbn [q_step tq_items].
    rewrite queue_items. pose proof HE as (EN & EA & _).
    rewrite EN, EA. replace (lg_nextSequence l + 1 - lg_ackedNext l)
      with (Z.of_nat (S (Z.to_nat (lg_nextSequence l - lg_ackedNext l)))) by lia.
    rewrite seqZ_S, Z2Nat.id, map_app by lia. f_equal.
    + apply map_ext_in. intros s Hs%list_elem_of_In%elem_of_seqZ. rewrite (step_payload _ _ _ _ HI HE).
      by rewrite bool_decide_eq_false_2 by lia.
    + simpl. rewrite (step_payload _ _ _ _ HI HE).
      by rewrite bool_decide_eq_true_2 by lia.
  - cbn [q_step]. rewrite Hlen. change (tq_base (queue_of l)) with (lg_ackedNext l).
    pose proof HE as (EN & EA & _). simpl in EA.
    replace (lg_ackedNext l + (lg_nextSequence l - lg_ackedNext l)) with (lg_nextSequence l) by lia.
    apply Heq; [simpl; rewrite EA; by case_bool_decide|].
    rewrite queue_items. case_bool_decide as Hn; cbn [tq_items]; rewrite queue_items, EN.
    + rewrite EA, skipn_map, seqZ_drop by lia.
      replace (lg_ackedNext l + (next - lg_ackedNext l)) with next by lia.
      replace (lg_nextSequence l - lg_ackedNext l - (next - lg_ackedNext l))
        with (lg_nextSequence l - next) by lia.
      apply map_ext_in. intros s Hs%list_elem_of_In%elem_of_seqZ.
      rewrite (step_payload _ _ _ _ HI HE), EA. by rewrite bool_decide_eq_false_2 by lia.
    + rewrite EA. apply map_ext_in. intros s Hs%list_elem_of_In%elem_of_seqZ.
      rewrite (step_payload _ _ _ _ HI HE), EA. by rewrite bool_decide_eq_false_2 by lia.
Qed.

(** ** Runs *)

Lemma slice_get_replicate (n : nat) (x : Z) i :
  0 <= i < Z.of_nat n -> slice_get (replicate n x) i = Some x.
Proof.
  intros. unfold slice_get. rewrite bool_decide_eq_true_2 by lia. apply lookup_replicate_2. lia.
Qed.

Lemma new_ledger_inv maxLegs : ledger_inv (newStreamTXLedger maxLegs).
Proof.
  unfold newStreamTXLedger. cbn zeta.
  set (m := if bool_decide (MaxStreamLegIDCount < _) then _ else _).
  assert (1 <= m <= MaxStreamLegIDCount) as Hm.
  { unfold m, MaxStreamLegIDCount. repeat case_bool_decide; lia. }
  clearbody m. assert (live (MkLedger ∅ 0 0 0 ∅ 0 zero_time m (replicate (Z.to_nat m) 0)
    (replicate (Z.to_nat m) 0) (replicate (Z.to_nat m) 0) [] 0) = ∅) as EL by apply omap_empty.
  split; simpl; try done.
  - intros s. rewrite lookup_empty. split; [by intros [? ?]|lia].
  - intros p. rewrite lookup_empty. by intros [? ?].
  - rewrite EL. split_and!; simpl; try (unfold slen; rewrite length_replicate; lia).
    intros id Hid. rewrite !slice_get_replicate by lia. by rewrite !map_sum_empty.
Qed.

Lemma step_next op l l' :
  step_effect op l l' -> lg_nextSequence l <= lg_nextSequence l' <= lg_nextSequence l + 1.
Proof. destruct op; simpl; try (intros []; lia); intros (-> & _); lia. Qed.

(** Any run of methods succeeds, keeps the invariant, and mirrors the queue. *)
Lemma tx_run_ok ops l :
  ledger_inv l -> Forall op_wf ops -> lg_nextSequence l + Z.of_nat (length ops) <= max_u64 ->
  exists l', tx_run ops l = Some l' /\ ledger_inv l' /\ queue_of l' = q_run ops (queue_of l).
Proof.
  revert l. induction ops as [|op ops IH]; intros l HI Hwf Hn; [by exists l|].
  apply Forall_cons in Hwf as [Hop Hwf]. simpl in Hn.
  destruct (tx_step_ok op l HI Hop ltac:(lia)) as (l1 & E1 & HI1 & HE).
  destruct (IH l1 HI1 Hwf) as (l2 & E2 & HI2 & HQ); [pose proof (step_next _ _ _ HE); lia|].
  exists l2. simpl. rewrite E1. simpl. split; [done|]. split; [done|].
  rewrite HQ. simpl. by rewrite (step_queue op l l1).
Qed.

(** ** Theorems *)

(** C3. Refinement.  Any sequence of ledger calls, in any interleaving and with
    any pointers (nil, stale or retired), runs without a panic, keeps the ledger
    invariant, and represents exactly the abstract queue: an [add] appends, a
    cumulative ACK inside the window drops the acknowledged prefix, an old or
    future ACK and every attempt, ownership or failure transition changes
    nothing. *)
Theorem tx_ledger_refines_queue maxLegs ops :
  Forall op_wf ops -> Z.of_nat (length ops) <= max_u64 ->
  exists l, tx_run ops (newStreamTXLedger maxLegs) = Some l /\ ledger_inv l /\
    queue_of l = q_run ops (MkQueue 0 []).
Proof. intros Hwf Hn. by apply tx_run_ok; [apply new_ledger_inv| |]. Qed.

Definition example_ops : list tx_op :=
  [op_add (str "one") 1 false; op_add (str "two") 2 true; op_add (str "three") 3 false;
   op_assign (Some 0) 1 4; op_transit (Some 0) 1 4; op_write 0 1 false 5;
   op_sent (Some 0) 1 false 6; op_rescue (Some 1) 0 7; op_invalidate 1; op_ack 9 8; op_ack 2 9;
   op_sent (Some 1) 0 true 10; op_assign (Some 2) 7 11; op_admitted (Some 2) 7].

Lemma example_ops_wf : Forall op_wf example_ops.
Proof. repeat constructor; simpl; lia. Qed.

Lemma tx_ledger_refines_queue_witness :
  exists l, tx_run example_ops (newStreamTXLedger 2) = Some l /\
    queue_of l = MkQueue 2 [str "three"].
Proof.
  destruct (tx_ledger_refines_queue 2 example_ops example_ops_wf) as (l & E & _ & HQ);
    [vm_compute; congruence|].
  exists l. split; [exact E|]. rewrite HQ. reflexivity.
Defined.

(** Cumulative ACK, on every branch and without a panic: a future ACK
    retires nothing and is counted; an old one changes nothing; an ACK inside
    the window retires exactly the sequences below it, reports their number and
    their bytes, and moves the frontier to it. *)
Theorem ApplyACK_functional l next now :
  ledger_inv l ->
  exists res l', ApplyACK l next now = Some (res, l') /\ ledger_inv l' /\
    lg_nextSequence l' = lg_nextSequence l /\
    (lg_nextSequence l < next ->
       ak_Disposition res = StreamTXACKFuture /\ queue_of l' = queue_of l /\
       lg_futureACKCount l' = u64 (lg_futureACKCount l + 1)) /\
    (next <= lg_ackedNext l ->
       ak_Disposition res = StreamTXACKNoProgress /\ queue_of l' = queue_of l) /\
    (lg_ackedNext l < next <= lg_nextSequence l ->
       ak_Disposition res = StreamTXACKAdvanced /\ lg_ackedNext l' = next /\
       ak_Released res = next - lg_ackedNext l /\
       ak_RetiredBytes res
         = u64 (sum_with slen (take (Z.to_nat (next - lg_ackedNext l)) (tq_items (queue_of l)))) /\
       tq_items (queue_of l') = drop (Z.to_nat (next - lg_ackedNext l)) (tq_items (queue_of l))).
Proof.
  intros HI. pose proof (li_acked _ HI) as HA. pose proof (ApplyACK_ok l next now HI) as HS.
  assert (forall l', quiet l l' -> queue_of l' = queue_of l) as HQ
    by (intros l' H; apply (step_queue op_trace); [done|apply H|exact H]).
  inversion HS as [res l' H1 Q D R C E|res l' H1 Q D R E|
    res l' H1 HI' EN EA EO EH EF D R B AN LP E]; exists res, l'; (split; [done|]).
  - pose proof (qt_inv _ _ Q). split_and!; try done; try lia; [apply Q|auto].
  - pose proof (qt_inv _ _ Q). split_and!; try done; try lia; [apply Q|auto].
  - split_and!; try done; try lia. intros _. split_and!; try done.
    + rewrite B. f_equal. unfold bytes_between. rewrite Z2Nat.id by lia.
      rewrite queue_items, firstn_map, seqZ_take by lia. rewrite sum_with_map.
      apply sum_with_ext. intros k _. unfold payload_at, payload_size. by destruct (live l !! k).
    + rewrite (step_queue (op_ack next now) l l'); [|done|done|].
      * cbn [q_step]. rewrite bool_decide_eq_true_2; [done|]. simpl. unfold slen.
        rewrite length_map, length_seqZ. lia.
      * simpl. rewrite bool_decide_eq_true_2 by lia. done.
Qed.

Definition example_ledger : StreamTXLedger :=
  default (newStreamTXLedger 2) (tx_run (take 8 example_ops) (newStreamTXLedger 2)).

Lemma example_ledger_inv : ledger_inv example_ledger.
Proof.
  destruct (tx_run_ok (take 8 example_ops) (newStreamTXLedger 2)) as (l & E & HI & _);
    [apply new_ledger_inv|repeat constructor; simpl; lia|vm_compute; congruence|].
  unfold example_ledger. by rewrite E.
Qed.

Lemma ApplyACK_functional_witness :
  exists res l', ApplyACK example_ledger 2 9 = Some (res, l') /\ ak_Released res = 2 /\
    ak_RetiredBytes res = 6 /\ lg_ackedNext l' = 2.
Proof.
  destruct (ApplyACK_functional example_ledger 2 9 example_ledger_inv)
    as (res & l' & E & _ & _ & _ & _ & H).
  exists res, l'. split; [exact E|]. destruct H as (_ & HA & HR & HB & _).
  { vm_compute. split; congruence. }
  split; [rewrite HR; reflexivity|]. split; [rewrite HB; reflexivity|exact HA].
Defined.

(** C24. Exact per-leg accounts: after any sequence of calls the ledger's
    per-leg counters are, for every leg, the number of outstanding records that
    leg owns, their payload bytes, and the bytes among them not yet admitted to
    a carrier (bytes modulo 2^64); no decrement ever underflows below the true
    total. *)
Theorem tx_leg_accounts maxLegs ops l id :
  Forall op_wf ops -> Z.of_nat (length ops) <= max_u64 ->
  tx_run ops (newStreamTXLedger maxLegs) = Some l -> 0 <= id < lg_maxLegs l ->
  let owns r := bool_decide (tr_ordinaryOwner r = id) in
  slice_get (OrdinaryFramesByLeg l) id = Some (slen (List.filter owns (live_records l))) /\
  slice_get (OrdinaryAdmissionBytesByLeg l).1 id
    = Some (u64 (sum_with payload_size (List.filter owns (live_records l)))) /\
  slice_get (OrdinaryAdmissionBytesByLeg l).2 id
    = Some (u64 (sum_with payload_size
        (List.filter (fun r => owns r && negb (tr_ordinaryAdmitted r)) (live_records l)))).
Proof.
  intros Hwf Hn Hrun Hid owns.
  destruct (tx_run_ok ops (newStreamTXLedger maxLegs)) as (l' & E & HI & _);
    [apply new_ledger_inv|done|done|]. rewrite Hrun in E. injection E as <-.
  destruct (li_count _ HI) as (_ & _ & _ & HC). destruct (HC id Hid) as (C1 & C2 & C3).
  unfold OrdinaryFramesByLeg, OrdinaryAdmissionBytesByLeg. cbn [fst snd].
  rewrite C1, C2, C3. unfold slen. rewrite length_sum, !sum_with_filter, !map_sum_values. done.
Qed.

Lemma tx_leg_accounts_witness :
  exists l, tx_run example_ops (newStreamTXLedger 2) = Some l /\
    slice_get (OrdinaryFramesByLeg l) 7 = Some 1 /\
    slice_get (OrdinaryAdmissionBytesByLeg l).1 7 = Some 5 /\
    slice_get (OrdinaryAdmissionBytesByLeg l).2 7 = Some 0.
Proof.
  destruct (tx_run example_ops (newStreamTXLedger 2)) as [l|] eqn:E; [|vm_compute in E; discriminate].
  exists l. split; [reflexivity|].
  assert (0 <= 7 < lg_maxLegs l) as Hid by (vm_compute in E; simplify_eq; simpl; lia).
  destruct (tx_leg_accounts 2 example_ops l 7 example_ops_wf ltac:(vm_compute; congruence) E Hid)
    as (C1 & C2 & C3).
  rewrite C1, C2, C3. vm_compute in E. simplify_eq. repeat split.
Defined.

(** *** Stale pointers *)

(** Every allocated record is numbered below the next sequence, and is
    outstanding unless it has been acknowledged. *)
Definition tracked (l : StreamTXLedger) : Prop :=
  forall p s b, rec_id <$> lg_heap l !! p = Some (s, b) ->
    s < lg_nextSequence l /\ (lg_ackedNext l <= s -> lg_outstanding l !! s = Some p).

Lemma step_tracked op l l' :
  ledger_inv l -> step_effect op l l' -> tracked l ->
  tracked l' /\ lg_ackedNext l <= lg_ackedNext l' /\
  forall p x, rec_id <$> lg_heap l !! p = Some x -> rec_id <$> lg_heap l' !! p = Some x.
Proof.
  intros HI HE HT.
  assert (quiet l l' -> tracked l' /\ lg_ackedNext l <= lg_ackedNext l' /\
    forall p x, rec_id <$> lg_heap l !! p = Some x -> rec_id <$> lg_heap l' !! p = Some x) as HQ.
  { intros [_ Q2 Q3 Q4 _ Q6]. split_and!; [|lia|intros p x; by rewrite Q6].
    intros p s b. rewrite Q6, Q2, Q3, Q4. apply HT. }
  destruct op; simpl in HE; try (by apply HQ).
  - destruct HE as (EN & EA & _ & EO & EH). split_and!; [|lia|].
    + intros p s b. rewrite EH, EN, EA, EO. case_bool_decide as E.
      * intros [= <- <-]. subst p. split; [lia|]. intros _. apply lookup_insert_eq.
      * intros Hp. destruct (HT _ _ _ Hp) as [H1 H2]. split; [lia|]. intros Hs.
        rewrite lookup_insert_ne by lia. auto.
    + intros p x Hp. rewrite EH, bool_decide_eq_false_2; [done|]. intros ->.
      apply fmap_Some in Hp as (r & Hr & _).
      pose proof (li_fresh _ HI (lg_fresh l) ltac:(by eexists)). lia.
  - destruct HE as (EN & EA & _ & EO & EH).
    assert (lg_ackedNext l <= lg_ackedNext l') as Hle by (rewrite EA; case_bool_decide; lia).
    split_and!; [|done|intros p x; by rewrite EH].
    rewrite <- EA in EO. intros p s b. rewrite EH, EN. intros Hp.
    destruct (HT _ _ _ Hp) as [H1 H2]. split; [done|]. intros Hs. rewrite EO.
    rewrite bool_decide_eq_false_2 by lia. apply H2. lia.
Qed.

Lemma tx_run_tracked ops l l' :
  ledger_inv l -> Forall op_wf ops -> lg_nextSequence l + Z.of_nat (length ops) <= max_u64 ->
  tracked l -> tx_run ops l = Some l' ->
  ledger_inv l' /\ tracked l' /\ lg_ackedNext l <= lg_ackedNext l' /\
  forall p x, rec_id <$> lg_heap l !! p = Some x -> rec_id <$> lg_heap l' !! p = Some x.
Proof.
  revert l. induction ops as [|op ops IH]; intros l HI Hwf Hn HT; simpl.
  - intros [= <-]. split_and!; try done; lia.
  - apply Forall_cons in Hwf as [Hop Hwf]. simpl in Hn.
    destruct (tx_step_ok op l HI Hop ltac:(lia)) as (l1 & -> & HI1 & HE). simpl. intros Hrun.
    destruct (step_tracked _ _ _ HI HE HT) as (HT1 & HA1 & HP1).
    destruct (IH l1 HI1 Hwf ltac:(pose proof (step_next _ _ _ HE); lia) HT1 Hrun)
      as (HI2 & HT2 & HA2 & HP2).
    split_and!; try done; [lia|auto].
Qed.

Lemma tx_run_next ops l l' :
  ledger_inv l -> Forall op_wf ops -> lg_nextSequence l + Z.of_nat (length ops) <= max_u64 ->
  tx_run ops l = Some l' -> lg_nextSequence l' <= lg_nextSequence l + Z.of_nat (length ops).
Proof.
  revert l. induction ops as [|op ops IH]; intros l HI Hwf Hn; simpl; [intros [= <-]; lia|].
  apply Forall_cons in Hwf as [Hop Hwf]. simpl in Hn.
  destruct (tx_step_ok op l HI Hop ltac:(lia)) as (l1 & -> & HI1 & HE). simpl. intros Hrun.
  pose proof (step_next _ _ _ HE). specialize (IH l1 HI1 Hwf ltac:(lia) Hrun). lia.
Qed.

(** No ABA.  Once a record has been retired, a pointer to it kept by any
    retry queue or writer never names an outstanding record again, whatever
    calls follow: [IsOutstanding], [AttemptCurrent] and every mutation through
    it stay refused. *)
Theorem retired_pointer_stays_stale maxLegs ops ops' l l' p r :
  Forall op_wf (ops ++ ops') -> Z.of_nat (length (ops ++ ops')) <= max_u64 ->
  tx_run ops (newStreamTXLedger maxLegs) = Some l -> lg_heap l !! p = Some r ->
  IsOutstanding l (Some p) = false -> tx_run ops' l = Some l' ->
  tr_sequence r < lg_ackedNext l /\ current l' (Some p) = None /\
  forall leg rescue now, AttemptCurrent l' (Some p) leg rescue = false /\
    MarkTransit l' (Some p) leg now = (false, l') /\
    MarkAttemptSent l' (Some p) leg rescue now = (MkAttempt false 0 false, l').
Proof.
  intros [Hwf Hwf']%Forall_app Hn Hrun Hp Hst Hrun'. rewrite length_app in Hn.
  assert (tracked (newStreamTXLedger maxLegs)) as HT0 by (intros q s b; simpl; by rewrite lookup_empty).
  assert (lg_nextSequence (newStreamTXLedger maxLegs) = 0) as HN0 by done.
  destruct (tx_run_tracked ops _ l (new_ledger_inv maxLegs) Hwf ltac:(lia) HT0 Hrun)
    as (HI & HT & _ & _).
  assert (lg_nextSequence l <= Z.of_nat (length ops)) as Hnl.
  { pose proof (tx_run_next ops _ l (new_ledger_inv maxLegs) Hwf ltac:(lia) Hrun). lia. }
  destruct (tx_run_tracked ops' l l' HI Hwf' ltac:(lia) HT Hrun') as (HI' & _ & HA & HP).
  assert (rec_id <$> lg_heap l !! p = Some (tr_sequence r, tr_payload r)) as Hid by (by rewrite Hp).
  assert (tr_sequence r < lg_ackedNext l) as Hs.
  { destruct (HT _ _ _ Hid) as [_ H2]. destruct (decide (lg_ackedNext l <= tr_sequence r)); [|lia].
    unfold IsOutstanding, current in Hst. rewrite Hp, (bool_decide_eq_true_2 (_ = Some p)) in Hst;
      [done|auto]. }
  assert (current l' (Some p) = None) as HC.
  { unfold current. apply HP in Hid. destruct (lg_heap l' !! p) as [r'|]; [|done].
    injection Hid as Hs' _.
    rewrite bool_decide_eq_false_2; [done|]. intros Ho.
    assert (is_Some (lg_outstanding l' !! tr_sequence r')) as X by (by eexists).
    apply (li_dom _ HI') in X. lia. }
  split; [done|]. split; [done|]. intros leg rescue now.
  unfold AttemptCurrent, MarkTransit, MarkAttemptSent. by rewrite HC.
Qed.

Definition stale_ledger : StreamTXLedger :=
  default (newStreamTXLedger 2) (tx_run (take 11 example_ops) (newStreamTXLedger 2)).
Definition stale_ledger' : StreamTXLedger :=
  default (newStreamTXLedger 2) (tx_run (drop 11 example_ops) stale_ledger).
Definition stale_record : StreamTXRecord :=
  default (new_record 0 [] 0 false) (lg_heap stale_ledger !! 1).

Lemma stale_ledger_facts :
  tx_run (take 11 example_ops) (newStreamTXLedger 2) = Some stale_ledger /\
  lg_heap stale_ledger !! 1 = Some stale_record /\ IsOutstanding stale_ledger (Some 1) = false /\
  tx_run (drop 11 example_ops) stale_ledger = Some stale_ledger'.
Proof. vm_compute. repeat split. Qed.

Lemma retired_pointer_stays_stale_witness :
  current stale_ledger' (Some 1) = None /\ tr_sequence stale_record < lg_ackedNext stale_ledger.
Proof.
  destruct stale_ledger_facts as (E1 & E2 & E3 & E4).
  assert (Forall op_wf (take 11 example_ops ++ drop 11 example_ops)) as HW
    by (rewrite take_drop; apply example_ops_wf).
  assert (Z.of_nat (length (take 11 example_ops ++ drop 11 example_ops)) <= max_u64) as HL
    by (rewrite take_drop; vm_compute; congruence).
  destruct (retired_pointer_stays_stale 2 _ _ stale_ledger stale_ledger' 1 stale_record
    HW HL E1 E2 E3 E4) as (H1 & H2 & _).
  split; [exact H2|exact H1].
Defined.

Lemma invalidate_attempts leg r :
  let r' := invalidate_record leg r in
  tr_lastSentLeg r' = (if bool_decide (tr_lastSentLeg r = leg) then -1 else tr_lastSentLeg r) /\
  tr_inTransit r' = tr_inTransit r && negb (bool_decide (tr_transitLeg r = leg)) /\
  tr_transitLeg r' = tr_transitLeg r /\
  tr_rescueInTransit r' = tr_rescueInTransit r && negb (bool_decide (tr_rescueLeg r = leg)) /\
  tr_rescueLeg r' = tr_rescueLeg r.
Proof.
  unfold invalidate_record, drop_transit, drop_rescue.
  destruct (bool_decide (tr_ordinaryOwner r = leg)); simpl;
    destruct (tr_inTransit r) eqn:Hi, (bool_decide (tr_transitLeg r = leg)) eqn:Ht; simpl;
    destruct (tr_rescueInTransit r) eqn:Hr, (bool_decide (tr_rescueLeg r = leg)) eqn:Hl; simpl;
    try destruct (time_equal (tr_lastRescueAt r) (tr_rescueSince r)); simpl;
    destruct (bool_decide (tr_lastSentLeg r = leg)); simpl; by rewrite ?Hi, ?Hr.
Qed.

Lemma invalidate_carries leg r : 0 <= leg -> carries (invalidate_record leg r) leg = false.
Proof.
  intros Hleg. destruct (invalidate_attempts leg r) as (E1 & E2 & E3 & E4 & E5).
  unfold carries. rewrite E1, E2, E3, E4, E5, !orb_false_iff.
  split_and!.
  - destruct (bool_decide_reflect (tr_lastSentLeg r = leg)) as [E|E];
      apply bool_decide_eq_false_2; [lia|done].
  - destruct (tr_inTransit r), (bool_decide (tr_transitLeg r = leg)); done.
  - destruct (tr_rescueInTransit r), (bool_decide (tr_rescueLeg r = leg)); done.
Qed.

(** Carrier failure.  After [InvalidateLeg] no outstanding record has an
    attempt, a rescue or a last write on the failed leg; the records it owned are
    marked so that later ACKs cannot be credited to it; every other record is
    untouched, and (C19) no record is lost. *)
Theorem InvalidateLeg_clears l leg s r' :
  ledger_inv l -> 0 <= leg -> live (InvalidateLeg l leg) !! s = Some r' ->
  exists r, live l !! s = Some r /\ carries r' leg = false /\
    tr_payload r' = tr_payload r /\ tr_ordinaryOwner r' = tr_ordinaryOwner r /\
    (tr_ordinaryOwner r = leg -> tr_invalidated r' = true /\ tr_duplicated r' = true) /\
    (tr_ordinaryOwner r <> leg -> carries r leg = false -> r' = r).
Proof.
  intros HI Hleg. rewrite !live_lookup. unfold InvalidateLeg. simpl.
  destruct (lg_outstanding l !! s) as [p|] eqn:Hp; [|done]. simpl. rewrite map_lookup_imap.
  destruct (li_heap _ HI _ _ Hp) as (r & -> & Hs). simpl. rewrite Hs, bool_decide_eq_true_2 by done.
  intros [= <-]. exists r. split; [done|].
  destruct (invalidate_account leg r) as (_ & A2 & A3 & _). rewrite A2, A3.
  split_and!; try done; [by apply invalidate_carries|..];
    unfold carries, invalidate_record, drop_transit, drop_rescue.
  - intros ->. rewrite (bool_decide_eq_true_2 (leg = leg)) by done. simpl.
    destruct (tr_inTransit r && _); simpl; destruct (tr_rescueInTransit r && _); simpl;
      try destruct (time_equal _ _); simpl; destruct (bool_decide (tr_lastSentLeg r = leg)); done.
  - intros Hne. rewrite (bool_decide_eq_false_2 (tr_ordinaryOwner r = leg)) by done.
    rewrite !orb_false_iff. intros ((H1 & H2) & H3). by rewrite H2, H3, H1.
Qed.

Lemma example_ledger_facts :
  is_Some (live (InvalidateLeg example_ledger 1) !! 0) /\
  tr_ordinaryOwner <$> live example_ledger !! 0 = Some 1 /\
  AttemptCurrent example_ledger (Some 1) 0 true = true /\
  (fun pr => slen (tr_payload pr.2)) <$> current example_ledger (Some 1) = Some 3.
Proof. split; [|vm_compute; done]. vm_compute. eauto. Qed.

Lemma InvalidateLeg_clears_witness :
  exists r', live (InvalidateLeg example_ledger 1) !! 0 = Some r' /\ carries r' 1 = false /\
    tr_invalidated r' = true.
Proof.
  destruct example_ledger_facts as ([r' E] & F & _).
  destruct (InvalidateLeg_clears example_ledger 1 0 r' example_ledger_inv ltac:(lia) E)
    as (r & Hr & HC & _ & _ & HO & _).
  exists r'. split; [exact E|]. split; [exact HC|]. apply HO.
  rewrite Hr in F. injection F as F. exact F.
Defined.

(** An attempt is committed at most once: [MarkAttemptSent] applies exactly
    when the attempt is current; applying it ends that attempt (a second commit
    or a late cleanup of the same claim changes nothing), counts one more send
    and charges the payload once, as a retransmission iff it was a rescue or not
    the first send. *)
Theorem attempt_committed_once l record leg rescue now :
  ledger_inv l ->
  let '(res, l') := MarkAttemptSent l record leg rescue now in
  at_Applied res = AttemptCurrent l record leg rescue /\
  (at_Applied res = false -> l' = l) /\
  (at_Applied res = true ->
    exists p r r', current l record = Some (p, r) /\ current l' record = Some (p, r') /\
      AttemptCurrent l' record leg rescue = false /\
      (forall now', MarkAttemptSent l' record leg rescue now' = (MkAttempt false 0 false, l')) /\
      (forall started, clearAttemptAt l' record leg rescue started = l') /\
      tr_sendCount r' = u32 (tr_sendCount r + 1) /\ at_Bytes res = slen (tr_payload r) /\
      at_Retransmit res = rescue || bool_decide (1 < u32 (tr_sendCount r + 1)) /\
      tr_firstWriteAt r' = (if is_zero (tr_firstWriteAt r) then tr_firstWriteAt r'
                            else tr_firstWriteAt r)).
Proof.
  intros HI. unfold MarkAttemptSent, AttemptCurrent.
  destruct (current l record) as [[p r]|] eqn:Hc; [|by split_and!].
  match goal with |- context [if (if rescue then ?a else ?b) then _ else _] =>
    destruct (if rescue then a else b) eqn:Hg end.
  - split_and!; try done. destruct rescue; bool_prop; rewrite ?H; simpl; try done;
      rewrite bool_decide_eq_false_2 by done; by rewrite andb_false_r.
  - cbn [at_Applied]. split; [destruct rescue; bool_prop; rewrite H; apply dec_stable in H0;
      by rewrite bool_decide_eq_true_2|]. split; [done|]. intros _.
    match goal with |- context [evidenceLocked "write_complete" ?x] => set (r' := x) end.
    exists p, r, r'.
    assert (current (evidenceLocked "write_complete" r' now (store p r' l)) record = Some (p, r'))
      as Hc'.
    { apply current_Some in Hc as (-> & Hp & Ho).
      destruct (evidence_fields "write_complete" r' now (store p r' l)) as (_ & _ & E3 & E4 & _).
      unfold current. rewrite E3, E4. simpl. rewrite lookup_insert_eq.
      assert (tr_sequence r' = tr_sequence r) as -> by (unfold r'; repeat case_match; done).
      by rewrite bool_decide_eq_true_2. }
    assert ((if rescue then tr_rescueInTransit r' else tr_inTransit r') = false) as Hend
      by (unfold r'; destruct rescue; repeat case_match; done).
    split; [done|]. split; [done|]. unfold clearAttemptAt. rewrite Hc'.
    split; [destruct rescue; by rewrite Hend|].
    split; [intros; destruct rescue; by rewrite Hend|].
    split; [intros; destruct rescue; by rewrite Hend|].
    assert (tr_sendCount r' = u32 (tr_sendCount r + 1)) as Hcnt
      by (unfold r'; destruct rescue; repeat case_match; done).
    split; [done|]. split; [unfold r', payload_size; destruct rescue; repeat case_match; done|].
    split; [by rewrite <- Hcnt|].
    unfold r'; destruct rescue; repeat case_match; simpl in *; congruence.
Qed.

Lemma attempt_committed_once_witness :
  exists res l', MarkAttemptSent example_ledger (Some 1) 0 true 20 = (res, l') /\
    at_Applied res = true /\ at_Bytes res = 3 /\ AttemptCurrent l' (Some 1) 0 true = false.
Proof.
  pose proof (attempt_committed_once example_ledger (Some 1) 0 true 20 example_ledger_inv) as H.
  destruct example_ledger_facts as (_ & _ & F1 & F2).
  destruct (MarkAttemptSent example_ledger (Some 1) 0 true 20) as [res l'] eqn:E.
  destruct H as (HA & _ & HT). rewrite F1 in HA.
  destruct (HT HA) as (p & r & r' & Hc & _ & HN & _ & _ & _ & HB & _).
  exists res, l'. split; [reflexivity|]. split; [exact HA|]. split; [|exact HN].
  rewrite HB. rewrite Hc in F2. injection F2 as F2. exact F2.
Defined.
