(* ===== verification/TxAck.v ===== *)
(** * What a cumulative ACK reports per leg

    [ApplyACK] credits each retired record to a leg and classifies it as a
    recovery proof for its owner; the admission controller consumes these
    numbers.  The theorems here show that nothing is counted twice or dropped. *)

From S2P Require Import Prelude Bytes TxLedger TxInv TxQueue.
From stdpp Require Import options.

(** ** One retired record *)

(** How many of the five outcomes of the proof classification were counted. *)
Definition outcomes (a : StreamTXACKLegResult) : Z :=
  al_UniqueTimely a + al_UniqueOrdered a + al_ProofRejected0 a + al_ProofRejected1 a
  + al_ProofRejected2 a.

(** The part of a leg's result that the classification does not change. *)
Definition before_of (a : StreamTXACKLegResult) : Z * Z :=
  (al_BeforeOrdinaryFrames a, al_BeforeOrdinaryBytes a).

Lemma attribute_effect r a :
  al_AckedBytes (attribute r a) = u64 (al_AckedBytes a + payload_size r) /\
  outcomes (attribute r a) = outcomes a /\ before_of (attribute r a) = before_of a.
Proof. unfold attribute, outcomes, before_of. repeat (case_match; simpl); done. Qed.

Lemma prove_effect now head p id r a :
  al_AckedBytes (prove now head p id r a) = al_AckedBytes a /\
  outcomes (prove now head p id r a) = outcomes a + 1 /\
  before_of (prove now head p id r a) = before_of a.
Proof.
  unfold prove. destruct (_ || _); [unfold outcomes, before_of; simpl; split_and!; try done; lia|].
  destruct (is_zero (tr_firstWriteAt r)); [unfold outcomes, before_of; simpl; split_and!; try done; lia|].
  cbn zeta. generalize (default (tr_firstWriteAt r) (tr_recoveryProbeWriteStartedAt r)) as started.
  intros started. set (a1 := a <| al_UniqueGeneration := _ |>).
  set (a2 := if bool_decide (al_FeedbackMax a1 < _) then _ else _).
  set (a3 := if bool_decide (0 < _) && _ then _ else _).
  assert (al_AckedBytes a3 = al_AckedBytes a /\ outcomes a3 = outcomes a /\ before_of a3 = before_of a)
    as (E1 & E2 & E3).
  { unfold a3. destruct (_ && _); unfold a2; destruct (bool_decide _); done. }
  clearbody a3. clear a1 a2.
  set (a4 := if negb (is_zero started) && _ then _ else _).
  assert (al_AckedBytes a4 = al_AckedBytes a /\ outcomes a4 = outcomes a + 1 /\ before_of a4 = before_of a)
    as (F1 & F2 & F3).
  { unfold a4. destruct (negb _ && _);
      [|destruct (_ || head_blocked _ _ _)]; unfold outcomes, before_of in *; simpl; split_and!; try done; lia. }
  clearbody a4. destruct (negb _ && _); done.
Qed.

(** The effect of one retired record on the result of leg [j]. *)
Definition leg_effect (now : time) (head : option (ptr * StreamTXRecord)) (p : ptr)
    (r : StreamTXRecord) (j : Z) (a : StreamTXACKLegResult) : StreamTXACKLegResult :=
  let a := if bool_decide (retired_leg r = j) then attribute r a else a in
  if bool_decide (tr_ordinaryOwner r = j) then prove now head p j r a else a.

Lemma leg_effect_counts now head p r j a :
  is_u64 (al_AckedBytes a) ->
  al_AckedBytes (leg_effect now head p r j a)
    = u64 (al_AckedBytes a + if bool_decide (retired_leg r = j) then payload_size r else 0) /\
  outcomes (leg_effect now head p r j a) = outcomes a + owned j r /\
  before_of (leg_effect now head p r j a) = before_of a.
Proof.
  intros Ha. unfold leg_effect, owned. destruct (attribute_effect r a) as (A1 & A2 & A3).
  destruct (bool_decide (retired_leg r = j)), (bool_decide (tr_ordinaryOwner r = j));
    try match goal with |- context [prove ?n ?h ?q ?i ?x ?y] =>
      destruct (prove_effect n h q i x y) as (-> & -> & ->) end;
    rewrite ?A1, ?A2, ?A3, ?Z.add_0_r; split_and!; try done; by rewrite u64_small.
Qed.

Lemma retire_legs now head s l res l' res' :
  ledger_inv (at_seq s l) -> s < lg_nextSequence l -> slen (ak_PerLeg res) = lg_maxLegs l ->
  retire now head s (l, res) = Some (l', res') ->
  exists p r h, live l !! s = Some r /\
    forall j, 0 <= j < lg_maxLegs l ->
      slice_get (ak_PerLeg res') j = leg_effect now h p r j <$> slice_get (ak_PerLeg res) j.
Proof.
  intros HI Hs HP. pose proof HI as [I1 I2 I3 I4 I5 I6 I7 I8]. simpl in *.
  assert (is_Some (lg_outstanding l !! s)) as [p Hp] by (apply I4; lia).
  destruct (I3 _ _ Hp) as (r & Hr & Hrs).
  assert (live l !! s = Some r) as HL by (rewrite live_lookup, Hp; done).
  pose proof (I7 s r HL) as Hown. destruct I8 as (L1 & _ & _ & _). simpl in L1.
  unfold retire. rewrite Hp. simpl. rewrite Hr. simpl. intros H.
  exists p, r, (head ≫= fun hp => pair hp <$> lg_heap l !! hp). split; [done|].
  apply bind_Some in H as (res2 & H2 & H). apply bind_Some in H as ([l3 res3] & H3 & H).
  injection H as _ <-. simpl.
  assert (forall j, 0 <= j < lg_maxLegs l -> slice_get (ak_PerLeg res2) j
    = (fun a => if bool_decide (retired_leg r = j) then attribute r a else a)
      <$> slice_get (ak_PerLeg res) j) as E2.
  { intros j Hj. rewrite HP in H2. destruct (_ && _) eqn:Hg in H2.
    - apply bind_Some in H2 as (legs & HU & [= <-]). simpl.
      rewrite (slice_upd_get _ _ _ _ j HU).
      by destruct (bool_decide (retired_leg r = j)), (slice_get (ak_PerLeg res) j).
    - injection H2 as <-. simpl. rewrite bool_decide_eq_false_2 by (bool_prop; lia).
      by destruct (slice_get (ak_PerLeg res) j). }
  intros j Hj. unfold leg_effect.
  destruct (evidence_fields "ACK_retire" r now l) as (_ & _ & _ & _ & _ & _ & EL & _).
  rewrite EL, L1, (bool_decide_eq_true_2 (tr_ordinaryOwner r < lg_maxLegs l)), andb_true_r in H3 by lia.
  case_bool_decide as H0.
  - apply bind_Some in H3 as (l4 & _ & H3). apply bind_Some in H3 as (legs & HU & [= _ <-]). simpl.
    rewrite (slice_upd_get _ _ _ _ j HU), E2 by done.
    by destruct (bool_decide_reflect (tr_ordinaryOwner r = j)) as [<-|_];
      destruct (slice_get (ak_PerLeg res) _).
  - injection H3 as _ <-. rewrite E2 by done.
    rewrite (bool_decide_eq_false_2 (tr_ordinaryOwner r = j)) by lia. done.
Qed.

(** ** The whole ACK *)

Definition retired (l : StreamTXLedger) (s : Z) (n : nat) : list StreamTXRecord :=
  omap (fun k => live l !! k) (seqZ s (Z.of_nat n)).

Definition credited (j : Z) (r : StreamTXRecord) : Z :=
  if bool_decide (retired_leg r = j) then payload_size r else 0.

Lemma retired_S l l1 s n r :
  live l !! s = Some r -> (forall k, s < k -> live l1 !! k = live l !! k) ->
  retired l s (S n) = r :: retired l1 (s + 1) n.
Proof.
  intros Hr HE. unfold retired. replace (Z.of_nat (S n)) with (Z.succ (Z.of_nat n)) by lia.
  rewrite (seqZ_cons s) by lia. simpl. rewrite Hr. f_equal.
  replace (Z.succ s) with (s + 1) by lia. rewrite Z.pred_succ.
  apply list_omap_ext. apply Forall_Forall2_diag, Forall_forall. intros k Hk%elem_of_seqZ.
  by rewrite HE by lia.
Qed.

Lemma retire_loop_legs n now head s l res l' res' :
  ledger_inv (at_seq s l) -> s + Z.of_nat n <= lg_nextSequence l ->
  slen (ak_PerLeg res) = lg_maxLegs l ->
  retire_loop n now head s (l, res) = Some (l', res') ->
  forall j a, 0 <= j < lg_maxLegs l -> slice_get (ak_PerLeg res) j = Some a ->
    is_u64 (al_AckedBytes a) ->
    exists a', slice_get (ak_PerLeg res') j = Some a' /\
      al_AckedBytes a' = u64 (al_AckedBytes a + sum_with (credited j) (retired l s n)) /\
      outcomes a' = outcomes a + sum_with (owned j) (retired l s n) /\ before_of a' = before_of a.
Proof.
  revert s l res. induction n as [|n IH]; intros s l res HI Hn HP HR j a Hj Ha Hu.
  - injection HR as _ <-. exists a. split; [done|]. unfold retired. simpl.
    rewrite !Z.add_0_r, u64_small; done.
  - destruct (retire_ok now head s l res HI ltac:(lia) HP)
      as (p & r & l1 & res1 & _ & _ & E1 & HI1 & EO & EH & _ & EN & EM & _ & _ & P1 & _).
    cbn [retire_loop] in HR. rewrite E1 in HR. simpl in HR.
    destruct (retire_legs now head s l res l1 res1 HI ltac:(lia) HP E1) as (q & r' & h & HL & HE).
    pose proof (HE j Hj) as Ej. rewrite Ha in Ej. simpl in Ej.
    destruct (leg_effect_counts now h q r' j a Hu) as (C1 & C2 & C3).
    destruct (IH (s + 1) l1 res1 HI1 ltac:(lia) ltac:(lia) HR j (leg_effect now h q r' j a))
      as (a' & Ha' & D1 & D2 & D3); [by rewrite EM|done|rewrite C1; apply u64_range|].
    exists a'. split; [done|].
    rewrite (retired_S l l1 s n r' HL).
    + cbn [sum_with]. rewrite D1, C1, D2, C2, D3, C3, u64_add_u64.
      fold (credited j r'). split_and!; [f_equal; lia|lia|done].
    + intros k Hk. by rewrite !live_lookup, EO, EH, lookup_delete_ne by lia.
Qed.

(** Exactly-once attribution.  For every leg an advancing ACK reports: the
    bytes of exactly the retired records credited to that leg; and, for the
    records it owned, one classification each (timely, ordered, or one of the
    three rejections), so that none is counted twice or forgotten. *)
Theorem ApplyACK_attribution l next now res l' :
  ledger_inv l -> lg_ackedNext l < next <= lg_nextSequence l ->
  ApplyACK l next now = Some (res, l') ->
  let rs := retired l (lg_ackedNext l) (Z.to_nat (next - lg_ackedNext l)) in
  lg_maxLegs l <= slen (ak_PerLeg res) /\
  forall j, 0 <= j < slen (ak_PerLeg res) ->
    al_AckedBytes (legResult res j) = u64 (sum_with (credited j) rs) /\
    outcomes (legResult res j) = sum_with (owned j) rs /\
    al_BeforeOrdinaryFrames (legResult res j) = map_sum (owned j) (live l) /\
    al_BeforeOrdinaryBytes (legResult res j) = u64 (map_sum (owned_bytes j) (live l)).
Proof.
  intros HI Hn. unfold ApplyACK. destruct (ensureLocked_ok l HI) as (HI0 & HO & HM & _).
  cbn zeta. set (l0 := ensureLocked l) in *. pose proof (legs_only_live _ _ HO) as EL.
  pose proof HO as (O1 & O2 & _). rewrite O1, O2.
  rewrite !bool_decide_eq_false_2 by lia. destruct (before_ok l0 HI0) as (legs & EB & PL).
  rewrite EB. simpl. intros H. apply bind_Some in H as ([l1 res1] & HR & H).
  set (l2 := expose_frontier _ _ _) in H. clearbody l2.
  set (result := MkACK _ _ _ _ _ _ _ _ _ _) in HR.
  destruct (retire_loop_ok (Z.to_nat (next - lg_ackedNext l)) now
    (lg_outstanding l0 !! lg_ackedNext l) (lg_ackedNext l) l0 (result <| ak_Disposition :=
      StreamTXACKAdvanced |> <| ak_PerLeg := legs |>)) as (l1' & res1' & E1 & _ & _ & _ & _ & _ & _ & _ & Q1 & _);
    [by eapply inv_frame|lia|done|done|].
  rewrite HR in E1. injection E1 as <- <-.
  assert (ak_PerLeg res = ak_PerLeg res1) as ER
    by (case_bool_decide; injection H as <- _; done).
  split; [rewrite ER; lia|]. rewrite ER, Q1. intros j Hj.
  assert (slice_get legs j = Some (zero_leg_result
     <| al_BeforeOrdinaryFrames := map_sum (owned j) (live l) |>
     <| al_BeforeOrdinaryBytes := u64 (map_sum (owned_bytes j) (live l)) |>)) as Hlegs.
  { apply mapM_Some_1 in EB. destruct (li_count _ HI0) as (_ & _ & _ & HC).
    destruct (HC j Hj) as (C1 & C2 & _). rewrite EL in C1, C2.
    destruct (slice_get_Some legs j ltac:(lia)) as [a Ha]. rewrite Ha.
    unfold slice_get in Ha. rewrite bool_decide_eq_true_2 in Ha by lia.
    destruct (Forall2_lookup_r _ _ _ _ _ EB Ha) as (k & Hk & Hka).
    apply lookup_seqZ in Hk as [-> _]. replace (0 + Z.of_nat (Z.to_nat j)) with j in Hka by lia.
    rewrite C1, C2 in Hka. simpl in Hka. by rewrite <- Hka. }
  destruct (retire_loop_legs (Z.to_nat (next - lg_ackedNext l)) now
    (lg_outstanding l0 !! lg_ackedNext l) (lg_ackedNext l) l0
    (result <| ak_Disposition := StreamTXACKAdvanced |> <| ak_PerLeg := legs |>) l1 res1
    ltac:(by eapply inv_frame) ltac:(lia) PL HR j _ Hj Hlegs ltac:(done)) as (a' & Ha' & D1 & D2 & D3).
  assert (legResult res j = a') as ->.
  { unfold legResult. rewrite ER, Q1.
    rewrite !bool_decide_eq_true_2 by lia. simpl. by rewrite Ha'. }
  assert (retired l0 = retired l) as ET by (unfold retired; by rewrite EL).
  injection D3 as B1 B2. rewrite D1, D2, ET, B1, B2. done.
Qed.

Lemma example_ack_facts :
  (match ApplyACK example_ledger 2 9 with
   | Some (res, _) => slen (ak_PerLeg res) | None => 0 end) = 2 /\
  sum_with (credited 1) (retired example_ledger 0 2) = 3 /\
  sum_with (owned 1) (retired example_ledger 0 2) = 1 /\
  lg_ackedNext example_ledger = 0 /\ lg_nextSequence example_ledger = 3.
Proof. vm_compute. done. Qed.

Lemma ApplyACK_attribution_witness :
  exists res l', ApplyACK example_ledger 2 9 = Some (res, l') /\
    al_AckedBytes (legResult res 1) = 3 /\ outcomes (legResult res 1) = 1.
Proof.
  destruct example_ack_facts as (HL & F1 & F2 & A & N).
  destruct (ApplyACK example_ledger 2 9) as [[res l']|] eqn:E; [|discriminate HL].
  destruct (ApplyACK_attribution example_ledger 2 9 res l' example_ledger_inv) as [_ H];
    [rewrite A, N; lia|exact E|].
  destruct (H 1 ltac:(rewrite HL; lia)) as (H1 & H2 & _).
  exists res, l'. split; [reflexivity|]. rewrite H1, H2, A.
  change (Z.to_nat (2 - 0)) with 2%nat. rewrite F1, F2. split; reflexivity.
Defined.
