(* ===== verification/Transport.v ===== *)
(** * Reliable delivery end to end

    One direction of a session: the sending engine's ledger ([TxLedger]), the
    receiving engine's delivery loop ([RxWindow]) and any number of carriers
    between them.  The carriers may lose, duplicate, delay and reorder frames and
    acknowledgements, and either engine may interleave its internal transitions
    (claims, rescues, leg failures, ownership changes) at will.

    The composition is proved against two interfaces, [SenderSpec] and
    [ReceiverSpec]; the ledger and the delivery loop are instances of them. *)

From S2P Require Import Prelude Bytes Wire RxWindow TxLedger TxInv TxQueue.
From stdpp Require Import options.

(** ** What the ledger promises *)

Class SenderSpec (S : Type) (data : list bytes) := {
  (** [s] has accepted the first [n] chunks, the first [a] of them acknowledged. *)
  snd_rep : S -> Z -> Z -> Prop;
  snd_add : bytes -> time -> S -> S;
  snd_ack : Z -> time -> S -> option S;
  snd_payload : S -> Z -> option bytes;
  snd_internal : S -> S -> Prop;
  snd_rep_unique s a n a' n' : snd_rep s a n -> snd_rep s a' n' -> a = a' /\ n = n';
  snd_rep_bound s a n : snd_rep s a n -> 0 <= a <= n /\ n <= Z.of_nat (length data);
  snd_add_ok s a n b now : snd_rep s a n -> data !! Z.to_nat n = Some b ->
    snd_rep (snd_add b now s) a (n + 1);
  snd_ack_ok s a n v now : snd_rep s a n ->
    exists s', snd_ack v now s = Some s' /\
      snd_rep s' (if bool_decide (a < v <= n) then v else a) n;
  snd_internal_ok s a n s' : snd_rep s a n -> snd_internal s s' -> snd_rep s' a n;
  snd_payload_ok s a n k : snd_rep s a n ->
    snd_payload s k = if bool_decide (a <= k < n) then data !! Z.to_nat k else None
}.

(** ** What the delivery loop promises *)

Class ReceiverSpec (R : Type) (data : list bytes) := {
  (** [r] runs, has received the sequences [seen], and its frontier is [n]. *)
  rcv_rep : R -> list Z -> Z -> Prop;
  (** [r] has stopped with frontier [n]. *)
  rcv_over : R -> list Z -> Z -> Prop;
  rcv_out : R -> bytes;
  rcv_ack : R -> Z;
  rcv_recv : StreamRXFrame -> R -> R;
  (** The application takes what it is given. *)
  rcv_live : R -> Prop;
  rcv_rep_unique r seen seen' n n' : rcv_rep r seen n -> rcv_rep r seen' n' -> n = n';
  rcv_over_rep r seen seen' n n' : rcv_rep r seen n -> rcv_over r seen' n' -> False;
  rcv_rep_ok r seen n : rcv_rep r seen n ->
    0 <= n <= Z.of_nat (length data) /\ rcv_out r = stream_prefix data n /\ rcv_ack r = n /\
    (forall k, 0 <= k < n -> k ∈ seen) /\ n ∉ seen;
  rcv_over_ok r seen n : rcv_over r seen n ->
    0 <= n <= Z.of_nat (length data) /\ rcv_ack r <= n /\ (forall k, 0 <= k < n -> k ∈ seen) /\
    exists part, part `prefix_of` default [] (data !! Z.to_nat n) /\
      rcv_out r = stream_prefix data n ++ part;
  rcv_recv_ok r seen n f : rcv_rep r seen n -> sent data f ->
    exists n', n <= n' /\ (rcv_rep (rcv_recv f r) (seen ++ [rx_Sequence f]) n' \/
                            rcv_over (rcv_recv f r) (seen ++ [rx_Sequence f]) n');
  rcv_next_ok r seen n f : rcv_rep r seen n -> rcv_live r -> sent data f -> rx_Sequence f = n ->
    exists n', rcv_rep (rcv_recv f r) (seen ++ [n]) n' /\ rcv_live (rcv_recv f r)
}.

(** ** The ledger is a sender *)

Section ledger_sender.
Variable data : list bytes.
Hypothesis data_u64 : Z.of_nat (length data) < max_u64.

Definition ledger_rep (l : StreamTXLedger) (a n : Z) : Prop :=
  ledger_inv l /\ lg_ackedNext l = a /\ lg_nextSequence l = n /\ n <= Z.of_nat (length data) /\
  forall k b, payload_at l k = Some b -> data !! Z.to_nat k = Some b.

(** Every method but [add] and [ApplyACK]. *)
Definition ledger_internal (l l' : StreamTXLedger) : Prop :=
  exists op, op_wf op /\ tx_step op l = Some l' /\
    match op with op_add _ _ _ | op_ack _ _ => False | _ => True end.

Lemma ledger_step_rep op l l' a n :
  ledger_rep l a n -> op_wf op -> n < max_u64 -> tx_step op l = Some l' ->
  ledger_inv l' /\ step_effect op l l'.
Proof.
  intros (HI & _ & HN & _) Hwf Hn E.
  destruct (tx_step_ok op l HI Hwf ltac:(lia)) as (l2 & E2 & HI2 & HE).
  rewrite E in E2. injection E2 as <-. done.
Qed.

#[export] Program Instance ledger_sender : SenderSpec StreamTXLedger data := {
  snd_rep := ledger_rep;
  snd_add b now l := (Add l b now).2;
  snd_ack v now l := snd <$> ApplyACK l v now;
  snd_payload := payload_at;
  snd_internal := ledger_internal
}.
Next Obligation. intros l a n a' n' (_ & <- & <- & _) (_ & <- & <- & _). done. Qed.
Next Obligation.
  intros l a n (HI & <- & <- & Hl & _). pose proof (li_acked _ HI). lia.
Qed.
Next Obligation.
  intros l a n b now HR Hb. pose proof (lookup_lt_Some _ _ _ Hb) as Hlt.
  pose proof HR as (HI & EA & EN & Hl & HP). pose proof (li_acked _ HI).
  destruct (ledger_step_rep (op_add b now false) l (Add l b now).2 a n) as (HI' & HE);
    [done|done|lia|done|].
  split; [done|]. pose proof HE as (EN' & EA' & _). split_and!; try lia.
  intros k c. rewrite (step_payload _ _ _ k HI HE). case_bool_decide as E.
  - intros [= <-]. subst k. by rewrite EN.
  - apply HP.
Qed.
Next Obligation.
  intros l a n v now HR. pose proof HR as (HI & EA & EN & Hl & HP). pose proof (li_acked _ HI).
  destruct (tx_step_ok (op_ack v now) l HI) as (l' & E & HI' & HE); [done|lia|].
  exists l'. split; [done|]. split; [done|]. pose proof HE as (EN' & EA' & _).
  rewrite EA, EN in EA'. split_and!; try done; try lia.
  clear EA'. intros k c. rewrite (step_payload _ _ _ k HI HE). case_bool_decide; [done|]. apply HP.
Qed.
Next Obligation.
  intros l a n l' HR (op & Hwf & E & Hop). pose proof HR as (HI & EA & EN & Hl & HP).
  destruct (ledger_step_rep op l l' a n) as (HI' & HE); [done|done|lia|done|].
  assert (lg_ackedNext l' = lg_ackedNext l /\ lg_nextSequence l' = lg_nextSequence l) as [EA' EN']
    by (destruct op; try done; split; apply HE).
  split; [done|]. split_and!; try lia. intros k c.
  rewrite (step_payload _ _ _ k HI HE). destruct op; try done; apply HP.
Qed.
Next Obligation.
  intros l a n k (HI & EA & EN & Hl & HP). rewrite <- EA, <- EN.
  destruct (payload_at l k) as [b|] eqn:E.
  - rewrite bool_decide_eq_true_2; [by rewrite (HP k b)|]. apply (live_dom l k HI).
    unfold payload_at in E. apply fmap_Some in E as (r & Hr & _). by exists r.
  - case_bool_decide as H; [|done]. apply (live_dom l k HI) in H as [r Hr].
    unfold payload_at in E. by rewrite Hr in E.
Qed.
End ledger_sender.

(** ** The delivery loop is a receiver *)

Lemma deliver_ack_mono clock fuel f s : rs_ackNext s <= rs_ackNext (deliver clock fuel f s).
Proof.
  revert f s. induction fuel as [|fuel IH]; intros f s; [done|]. cbn [deliver].
  destruct (writeAll _ _) as [[e|] pipe].
  - by rewrite (proj1 (proj2 (proj2 (rx_exit_fields _ _ _)))).
  - match goal with |- context [PopContiguous ?w] => destruct (PopContiguous w) as [[g|] w'] end.
    + etrans; [|apply IH].
      match goal with |- context [syncRXStatsFromWindow clock ?x] =>
        destruct (sync_fields clock x) as (_ & _ & _ & _ & -> & _) end. done.
    + unfold requestAck. simpl.
      match goal with |- context [rs_ackNext (syncRXStatsFromWindow clock ?x)] =>
        destruct (sync_fields clock x) as (_ & _ & _ & _ & -> & _) end. simpl. lia.
Qed.

Lemma rx_iter_ack_mono clock f s : rs_ackNext s <= rs_ackNext (rx_iter clock f s).
Proof.
  unfold rx_iter. set (s1 := if bool_decide _ then _ else s).
  assert (rs_ackNext s1 = rs_ackNext s) as <- by (unfold s1; by case_bool_decide).
  clearbody s1. destruct (Insert _ _ _) as [[d e] w].
  destruct e; [by rewrite (proj1 (proj2 (proj2 (rx_exit_fields _ _ _))))|].
  assert (forall x, rs_ackNext (addUnique f x) = rs_ackNext x) as HU
    by (intros x; apply (addUnique_fields f x)).
  destruct d; try done.
  - etrans; [|apply deliver_ack_mono]. by rewrite HU.
  - match goal with |- context [syncRXStatsFromWindow clock ?x] =>
      destruct (sync_fields clock x) as (_ & _ & _ & _ & -> & _) end. by rewrite HU.
Qed.

Section rx_receiver.
Variable clock : nat -> time.
Variable data : list bytes.
Hypothesis data_u64 : Z.of_nat (length data) < max_u64.

(** Sequences on the wire come from the ledger, so the frontier they leave is
    unique: the first one missing. *)
#[export] Program Instance rx_receiver : ReceiverSpec rxState data := {
  rcv_rep s seen n := rx_quiet data [] seen s /\ expected (rs_window s) = n;
  rcv_over s seen n := rx_end data [] seen s /\ expected (rs_window s) = n;
  rcv_out s := wr_out (rs_pipe s);
  rcv_ack := rs_ackNext;
  rcv_recv := rx_iter clock;
  rcv_live s := wr_script (rs_pipe s) = []
}.
Next Obligation. by intros s seen seen' n n' [_ <-] [_ <-]. Qed.
Next Obligation.
  intros s seen seen' n n' [HQ _] [HE _]. destruct (re_over _ _ _ _ HE) as [HO _].
  by rewrite (rq_running _ _ _ _ HQ) in HO.
Qed.
Next Obligation.
  intros s seen n [[[I1 I2 I3 I4 I5 I6 I7 I8] Q2 Q3 Q4 Q5 Q6] <-].
  destruct (wi_expected _ I1). split_and!; try done.
Qed.
Next Obligation.
  intros s seen n [[E1 E2 E3 (part & E4 & E5) E6 E7] <-]. split_and!; try done; try lia.
  by exists part.
Qed.
Next Obligation.
  intros s seen n f [HQ <-] Hf. eexists. pose proof (rx_iter_ack_mono clock f s) as HM.
  rewrite (rq_ack _ _ _ _ HQ) in HM.
  destruct (rx_iter_spec clock data [] data_u64 seen f s HQ Hf) as [HQ'|[HE _]].
  - split; [|left; split; [done|reflexivity]]. by rewrite <- (rq_ack _ _ _ _ HQ').
  - split; [|right; split; [done|reflexivity]]. pose proof (re_ack _ _ _ _ HE). lia.
Qed.
Next Obligation.
  intros s seen n f [HQ <-] Hs Hf Hn.
  destruct (rx_iter_spec clock data [] data_u64 seen f s HQ Hf) as [HQ'|[_ HC]].
  - eexists. rewrite <- Hn. split; [split; [exact HQ'|reflexivity]|].
    by apply (rx_iter_static clock (maxReorderFrames (rs_window s))).
  - destruct HC as [HC|(_ & HC & _)]; [done|lia].
Qed.
End rx_receiver.

(** ** The system *)

Record sys (S R : Type) := MkSys {
  sy_sender : S;
  sy_net : list StreamRXFrame; (* DATA frames some carrier may still deliver *)
  sy_acks : list Z;            (* acknowledgements some carrier may still deliver *)
  sy_receiver : R;
  sy_seen : list Z             (* ghost: sequences the receiver has been given *)
}.
Arguments MkSys {S R}.
Arguments sy_sender {S R}.
Arguments sy_net {S R}.
Arguments sy_acks {S R}.
Arguments sy_receiver {S R}.
Arguments sy_seen {S R}.

(** The delivered bytes are a prefix of the stream. *)
Lemma stream_prefix_concat data m part :
  part `prefix_of` default [] (data !! Z.to_nat m) ->
  stream_prefix data m ++ part `prefix_of` concat data.
Proof.
  intros [rest Hrest]. unfold stream_prefix.
  rewrite <- (take_drop (Z.to_nat m) data) at 2. rewrite concat_app. apply prefix_app.
  destruct (data !! Z.to_nat m) as [b|] eqn:Hb; simpl in Hrest.
  - rewrite (drop_S _ _ _ Hb). simpl. rewrite Hrest, <- app_assoc. by eexists.
  - destruct part; [apply prefix_nil|done].
Qed.

Section system.
Context {S R : Type} (data : list bytes) `{!SenderSpec S data} `{!ReceiverSpec R data}.

(** The chunk the application hands to [Write] next is the next chunk of
    [data]; frames and ACKs stay deliverable until dropped, so delivering one
    twice is a duplicate. *)
Inductive sys_step : sys S R -> sys S R -> Prop :=
| step_app s net acks r seen b now n a :
    snd_rep s a n -> data !! Z.to_nat n = Some b ->
    sys_step (MkSys s net acks r seen) (MkSys (snd_add b now s) net acks r seen)
| step_internal s s' net acks r seen :
    snd_internal s s' -> sys_step (MkSys s net acks r seen) (MkSys s' net acks r seen)
| step_transmit s net acks r seen k leg b :
    snd_payload s k = Some b ->
    sys_step (MkSys s net acks r seen) (MkSys s (MkRXFrame k leg b :: net) acks r seen)
| step_deliver s net acks r seen n f :
    f ∈ net -> rcv_rep r seen n ->
    sys_step (MkSys s net acks r seen) (MkSys s net acks (rcv_recv f r) (seen ++ [rx_Sequence f]))
| step_lose s net net' acks acks' r seen :
    net' ⊆ net -> acks' ⊆ acks ->
    sys_step (MkSys s net acks r seen) (MkSys s net' acks' r seen)
| step_send_ack s net acks r seen :
    sys_step (MkSys s net acks r seen) (MkSys s net (rcv_ack r :: acks) r seen)
| step_recv_ack s s' net acks r seen v now :
    v ∈ acks -> snd_ack v now s = Some s' ->
    sys_step (MkSys s net acks r seen) (MkSys s' net acks r seen).

Definition sys_steps := rtc sys_step.

(** Everything in flight was accepted by the sender, nothing beyond the
    receiver's frontier is acknowledged. *)
Definition sys_inv (y : sys S R) : Prop :=
  exists a n m,
    snd_rep (sy_sender y) a n /\
    (rcv_rep (sy_receiver y) (sy_seen y) m \/ rcv_over (sy_receiver y) (sy_seen y) m) /\
    (forall f, f ∈ sy_net y -> sent data f /\ rx_Sequence f < n) /\
    (forall k, k ∈ sy_seen y -> k < n) /\
    (forall v, v ∈ sy_acks y -> v <= m) /\ a <= m.

Lemma rcv_either r seen m :
  rcv_rep r seen m \/ rcv_over r seen m ->
  0 <= m <= Z.of_nat (length data) /\ rcv_ack r <= m /\ (forall k, 0 <= k < m -> k ∈ seen) /\
  exists part, part `prefix_of` default [] (data !! Z.to_nat m) /\
    rcv_out r = stream_prefix data m ++ part.
Proof.
  intros [H|H]; [apply rcv_rep_ok in H as (H1 & H2 & H3 & H4 & H5)|by apply rcv_over_ok in H].
  split_and!; try done; try lia. exists []. rewrite app_nil_r. split; [apply prefix_nil|done].
Qed.

Lemma sys_step_inv y y' : sys_step y y' -> sys_inv y -> sys_inv y'.
Proof.
  intros HS (a & n & m & H1 & H2 & H3 & H4 & H5 & H6).
  destruct HS as [s net acks r seen b now n' a' Hr' Hb|s s' net acks r seen Hi|
    s net acks r seen k leg b Hk|s net acks r seen n' f Hf Hr|s net net' acks acks' r seen Hn Ha|
    s net acks r seen|s s' net acks r seen v now Hv Hs]; simpl in *.
  - destruct (snd_rep_unique _ _ _ _ _ H1 Hr') as [<- <-].
    exists a, (n + 1), m. split_and!; try done; simpl.
    + by apply snd_add_ok.
    + intros f Hf. destruct (H3 f Hf). split; [done|lia].
    + intros k Hk. specialize (H4 k Hk). lia.
  - exists a, n, m. split_and!; try done; simpl. by eapply snd_internal_ok.
  - exists a, n, m. split_and!; try done; simpl.
    rewrite (snd_payload_ok s a n k H1) in Hk. case_bool_decide as Hkn; [|done].
    intros f [->|Hf]%elem_of_cons; [|by apply H3]. pose proof (snd_rep_bound s a n H1).
    split; [split; [simpl; lia|done]|simpl; lia].
  - destruct (H3 f Hf) as [Hs Hfn].
    assert (n' = m) as -> by (destruct H2 as [H2|H2];
      [by eapply rcv_rep_unique|by destruct (rcv_over_rep _ _ _ _ _ Hr H2)]).
    destruct (rcv_recv_ok r seen m f Hr Hs) as (m' & Hm & HR).
    exists a, n, m'. split_and!; try done; simpl; try lia.
    + intros k [Hk| ->]%elem_snoc; [by apply H4|done].
    + intros v Hv. specialize (H5 v Hv). lia.
  - exists a, n, m. split_and!; try done; simpl; intros x Hx; [by apply H3, Hn|by apply H5, Ha].
  - exists a, n, m. split_and!; try done; simpl. destruct (rcv_either _ _ _ H2) as (_ & HA & _).
    intros v [->|Hv]%elem_of_cons; [done|by apply H5].
  - destruct (snd_ack_ok s a n v now H1) as (s2 & E & HR). rewrite Hs in E. injection E as <-.
    specialize (H5 v) as Hvm. eexists _, n, m. split_and!; try done; simpl.
    case_bool_decide; [by apply H5|done].
Qed.

Lemma sys_steps_inv y y' : sys_steps y y' -> sys_inv y -> sys_inv y'.
Proof. induction 1; [done|]. intros. by eapply IHrtc, sys_step_inv. Qed.

(** What the invariant means for both ends. *)
Lemma sys_inv_safe y :
  sys_inv y -> exists a n m,
    snd_rep (sy_sender y) a n /\ a <= m <= n /\ rcv_out (sy_receiver y) `prefix_of` concat data /\
    (rcv_rep (sy_receiver y) (sy_seen y) m \/ rcv_over (sy_receiver y) (sy_seen y) m) /\
    (forall k, m <= k < n -> snd_payload (sy_sender y) k = data !! Z.to_nat k) /\
    (forall v, v ∈ sy_acks y -> v <= n).
Proof.
  intros (a & n & m & H1 & H2 & H3 & H4 & H5 & H6). exists a, n, m.
  destruct (rcv_either _ _ _ H2) as (Hm & _ & Hpast & part & Hpart & Hout).
  pose proof (snd_rep_bound _ _ _ H1) as [Ha Hn].
  assert (m <= n) as Hmn.
  { destruct (decide (m <= n)); [done|]. specialize (H4 (m - 1) ltac:(apply Hpast; lia)). lia. }
  split_and!; try done; try lia.
  - rewrite Hout. by apply stream_prefix_concat.
  - intros k Hk. rewrite (snd_payload_ok _ a n k H1). by rewrite bool_decide_eq_true_2 by lia.
  - intros v Hv. specialize (H5 v Hv). lia.
Qed.

(** From any state with a running receiver there is a schedule that delivers and
    acknowledges everything accepted so far. *)
Lemma sys_progress d y a n m :
  sys_inv y -> snd_rep (sy_sender y) a n -> rcv_rep (sy_receiver y) (sy_seen y) m ->
  rcv_live (sy_receiver y) -> Z.to_nat (n - m) = d ->
  exists y', sys_steps y y' /\ snd_rep (sy_sender y') n n /\
    rcv_rep (sy_receiver y') (sy_seen y') n.
Proof.
  revert y a m. induction d as [d IH] using lt_wf_ind. intros y a m HI HS HR HL Hd.
  destruct (sys_inv_safe y HI) as (a' & n' & m' & S1 & S2 & _ & S3 & S4 & _).
  destruct (snd_rep_unique _ _ _ _ _ HS S1) as [<- <-].
  assert (m' = m) as -> by (destruct S3 as [S3|S3];
    [by eapply rcv_rep_unique|by destruct (rcv_over_rep _ _ _ _ _ HR S3)]).
  destruct y as [s net acks r seen]; simpl in *.
  destruct (decide (m < n)) as [Hlt|Hge].
  - pose proof (snd_rep_bound s a n HS) as [_ Hn].
    destruct (rcv_rep_ok r seen m HR) as (Hm & _ & _ & _ & Hns).
    assert (is_Some (data !! Z.to_nat m)) as [b Hb] by (apply lookup_lt_is_Some; lia).
    set (f := MkRXFrame m 0 b). assert (sent data f) as Hf by (split; [simpl; lia|done]).
    destruct (rcv_next_ok r seen m f HR HL Hf eq_refl) as (m2 & HR2 & HL2).
    set (y1 := MkSys s (f :: net) acks r seen).
    set (y2 := MkSys s (f :: net) acks (rcv_recv f r) (seen ++ [m])).
    assert (sys_step (MkSys s net acks r seen) y1) as T1
      by (apply step_transmit; by rewrite S4 by lia).
    assert (sys_step y1 y2) as T2 by (eapply (step_deliver s (f :: net)); [left|done]).
    assert (sys_inv y2) as HI2 by (by eapply sys_step_inv, sys_step_inv).
    destruct (rcv_rep_ok _ _ _ HR2) as (Hm2 & _ & _ & _ & Hns2).
    destruct (rcv_recv_ok r seen m f HR Hf) as (m3 & Hm3 & [HR3|HR3]); cbn [rx_Sequence f] in HR3;
      [|by destruct (rcv_over_rep _ _ _ _ _ HR2 HR3)].
    assert (m3 = m2) as -> by (by eapply rcv_rep_unique).
    assert (m2 <> m) by (intros ->; apply Hns2; rewrite elem_snoc; by right).
    destruct (IH (Z.to_nat (n - m2)) ltac:(lia) y2 a m2 HI2 HS HR2 HL2 eq_refl)
      as (y' & Hy' & Hs' & Hr'). exists y'. split; [|done].
    eapply rtc_l; [exact T1|]. by eapply rtc_l.
  - assert (m = n) as -> by lia.
    destruct (rcv_rep_ok r seen n HR) as (_ & _ & HA & _ & _).
    destruct (snd_ack_ok s a n n 0 HS) as (s' & E & HS').
    assert ((if bool_decide (a < n <= n) then n else a) = n) as EA by (case_bool_decide; lia).
    rewrite EA in HS'. exists (MkSys s' net (n :: acks) r seen). split; [|done].
    eapply rtc_l; [apply step_send_ack|]. rewrite HA.
    eapply rtc_l; [|apply rtc_refl]. eapply step_recv_ack; [left|exact E].
Qed.
End system.

(** ** Theorems *)

Section concrete.
Variable clock : nat -> time.
Variable data : list bytes.
Hypothesis data_u64 : Z.of_nat (length data) < max_u64.

Definition session_init (maxLegs maxR : Z) (legs : nat) (pipe : list (Z * option io_error))
    (closing : bool) : sys StreamTXLedger rxState :=
  MkSys (newStreamTXLedger maxLegs) [] [] (rx_init maxR legs (MkWriter [] pipe) closing) [].

Definition session_steps : sys StreamTXLedger rxState -> sys StreamTXLedger rxState -> Prop :=
  @sys_steps StreamTXLedger rxState data (ledger_sender data data_u64)
    (rx_receiver clock data data_u64).

Definition session_inv : sys StreamTXLedger rxState -> Prop :=
  @sys_inv StreamTXLedger rxState data (ledger_sender data data_u64)
    (rx_receiver clock data data_u64).

Lemma session_init_inv maxLegs maxR legs pipe closing :
  session_inv (session_init maxLegs maxR legs pipe closing).
Proof.
  exists 0, 0, 0. split_and!; try done; simpl.
  - split; [apply new_ledger_inv|]. split_and!; try done; lia.
  - left. split; [by apply rx_init_quiet|done].
  - by intros f ?%not_elem_of_nil.
  - by intros k ?%not_elem_of_nil.
  - by intros v ?%not_elem_of_nil.
Qed.
End concrete.


(** One chunk accepted, transmitted on leg 0 and delivered. *)
Definition example_u64 : Z.of_nat (length example_data) < max_u64 := eq_refl.
Definition example_y1 : sys StreamTXLedger rxState :=
  MkSys (Add (newStreamTXLedger 2) (str "alpha") 1).2 [] []
    (rx_init 8 2 (MkWriter [] []) false) [].
Definition example_y3 : sys StreamTXLedger rxState :=
  MkSys (Add (newStreamTXLedger 2) (str "alpha") 1).2 [MkRXFrame 0 0 (str "alpha")] []
    (rx_iter (fun _ => 7) (MkRXFrame 0 0 (str "alpha")) (rx_init 8 2 (MkWriter [] []) false)) [0].

Lemma example_session1 :
  session_steps (fun _ => 7) example_data example_u64 (session_init 2 8 2 [] false) example_y1.
Proof.
  eapply rtc_l; [|apply rtc_refl].
  refine (step_app example_data (newStreamTXLedger 2) [] []
    (rx_init 8 2 (MkWriter [] []) false) [] (str "alpha") 1 0 0 _ eq_refl).
  split; [apply new_ledger_inv|]. split_and!; try done.
Qed.

#[local] Opaque rx_iter Add.
Lemma example_session3 :
  session_steps (fun _ => 7) example_data example_u64 (session_init 2 8 2 [] false) example_y3.
Proof.
  etrans; [apply example_session1|].
  set (l := (Add (newStreamTXLedger 2) (str "alpha") 1).2).
  set (r := rx_init 8 2 (MkWriter [] []) false).
  eapply rtc_l; [refine (step_transmit example_data l [] [] r [] 0 0 (str "alpha") _);
    vm_compute; done|].
  eapply rtc_l; [|apply rtc_refl].
  refine (step_deliver example_data l [MkRXFrame 0 0 (str "alpha")] [] r [] 0
    (MkRXFrame 0 0 (str "alpha")) _ _); [by left|].
  split; [by apply rx_init_quiet|done].
Qed.



