(* ===== verification/Repair.v ===== *)
(** * Retry and repair planning

    [core/stream_repair.go]: which outstanding records the host should queue
    again.  The planners read the ledger under its lock and return candidates;
    they change nothing.  A [StreamLegAvailability] is its 256 booleans. *)

From S2P Require Import Prelude Bytes TxLedger TxInv TxQueue.
From stdpp Require Import options.

(** ** The live mask *)

Definition StreamLegAvailability : Type := list bool.

Definition Has (a : StreamLegAvailability) (id : Z) : bool :=
  bool_decide (id < slen a) && default false (slice_get a id).

Definition Count (a : StreamLegAvailability) : Z :=
  fold_left (fun n live => if (live : bool) then n + 1 else n) a 0.

(** ** Ordinary retries *)

Record StreamTXRetryCandidate := MkRetry { rc_Record : ptr; rc_Avoid : Z }.

#[export] Instance StreamTXRetryCandidate_eq_dec : EqDecision StreamTXRetryCandidate.
Proof. solve_decision. Defined.

(** [record.Sequence()]: the sequence number never changes. *)
Definition seq_at (l : StreamTXLedger) (p : ptr) : Z :=
  match lg_heap l !! p with Some r => tr_sequence r | None => 0 end.

(** The body of the loop over the snapshot. *)
Definition retry_candidate (live : StreamLegAvailability) (st : StreamTXRetryState)
  : option StreamTXRetryCandidate :=
  if rt_LocalEnqueue st || rt_InTransit st || rt_RescueInTransit st then None else
  if bool_decide (rt_LastSentLeg st < 0) then Some (MkRetry (rt_Record st) (-1)) else
  if negb (Has live (u8 (rt_LastSentLeg st)))
  then Some (MkRetry (rt_Record st) (rt_LastSentLeg st)) else None.

Definition seq_le (l : StreamTXLedger) (a b : StreamTXRetryCandidate) : Prop :=
  seq_at l (rc_Record a) <= seq_at l (rc_Record b).
#[export] Instance seq_le_dec l : RelDecision (seq_le l).
Proof. intros a b. unfold seq_le. apply _. Defined.

#[export] Instance seq_le_trans l : Transitive (seq_le l).
Proof. intros a b c. unfold seq_le. lia. Qed.
#[export] Instance seq_le_total l : Total (seq_le l).
Proof. intros a b. unfold seq_le. lia. Qed.

Definition PlanRetries (l : StreamTXLedger) (live : StreamLegAvailability)
  : list StreamTXRetryCandidate :=
  merge_sort (seq_le l) (omap (retry_candidate live) (retrySnapshot l)).

(** ** Repair of the frontier *)

Record StreamTXFrontierCandidate := MkFrontierCandidate {
  fc_record : option ptr;
  fc_owner : Z;
  fc_reference : time;
  fc_overdue : bool;
  fc_exists : bool;
  fc_rescueInTransit : bool
}.

Inductive StreamTXFrontierAction :=
| StreamTXFrontierNone
| StreamTXFrontierNeedActivation
| StreamTXFrontierRescue.

Record StreamTXFrontierPlan := MkPlan {
  fp_Action : StreamTXFrontierAction;
  fp_Record : option ptr;
  fp_Avoid : Z
}.

Definition no_plan : StreamTXFrontierPlan := MkPlan StreamTXFrontierNone None 0.

Definition FrontierCandidate (l : StreamTXLedger) (now : time) (timeout : duration)
  : StreamTXFrontierCandidate :=
  let snapshot := frontierSnapshot l in
  if negb (fs_Exists snapshot) then MkFrontierCandidate None 0 zero_time false false false else
  MkFrontierCandidate (fs_Record snapshot) (fs_Owner snapshot) (fs_ReferenceTime snapshot)
    (negb (is_zero (fs_ReferenceTime snapshot))
     && bool_decide (timeout <= time_sub now (fs_ReferenceTime snapshot)))
    true (fs_RescueInTransit snapshot).

(** [for id, present := range live { if present { return ... } }]: the first live ID. *)
Fixpoint first_live (id : Z) (a : StreamLegAvailability) : option Z :=
  match a with
  | [] => None
  | present :: a => if (present : bool) then Some id else first_live (id + 1) a
  end.

Definition owner_repair (candidate : StreamTXFrontierCandidate) (live : StreamLegAvailability)
  : StreamTXFrontierPlan :=
  if bool_decide (fc_owner candidate < 0) || negb (Has live (u8 (fc_owner candidate)))
  then no_plan
  else MkPlan StreamTXFrontierRescue (fc_record candidate) (fc_owner candidate).

Definition DecideStreamTXFrontierRepair (candidate : StreamTXFrontierCandidate)
    (live : StreamLegAvailability) : StreamTXFrontierPlan :=
  if negb (fc_exists candidate) || fc_rescueInTransit candidate || negb (fc_overdue candidate)
  then no_plan else
  if bool_decide (Count live = 0) then no_plan else
  if bool_decide (Count live = 1) then
    match first_live 0 live with
    | Some id => MkPlan StreamTXFrontierRescue (fc_record candidate) (id - 1)
    | None => owner_repair candidate live
    end
  else owner_repair candidate live.

(** ** The restricted prefix of an overdue owner *)

Definition prefix_len : nat := 8.

(** The [continue] guard of the collection loop, negated. *)
Definition batch_eligible (owner : Z) (now cutoff : time) (cooldown : duration)
    (r : StreamTXRecord) : bool :=
  negb (bool_decide (tr_ordinaryOwner r <> owner) || after (tr_createdAt r) cutoff
        || tr_rescueInTransit r
        || (negb (is_zero (tr_lastRescueAt r))
            && bool_decide (time_sub now (tr_lastRescueAt r) < cooldown))).

(** [position]: how many leading entries have a smaller sequence. *)
Fixpoint prefix_position (s : Z) (prefix : list (ptr * StreamTXRecord)) : nat :=
  match prefix with
  | [] => 0
  | x :: prefix => if bool_decide (tr_sequence x.2 < s) then S (prefix_position s prefix) else 0
  end.

(** Insert into the fixed array of eight: entries from [position] on move one
    place to the right, and the last one falls off a full array. *)
Definition prefix_insert (prefix : list (ptr * StreamTXRecord)) (x : ptr * StreamTXRecord)
  : list (ptr * StreamTXRecord) :=
  let position := prefix_position (tr_sequence x.2) prefix in
  if bool_decide (prefix_len <= position)%nat then prefix else
  take prefix_len (take position prefix ++ x :: drop position prefix).

(** The records of [l.outstanding] in the order [range] happens to visit them. *)
Definition range_records (l : StreamTXLedger) (order : list ptr) : list (ptr * StreamTXRecord) :=
  omap (fun p => pair p <$> lg_heap l !! p) order.

(** The byte budget: the first record is always taken. *)
Fixpoint take_budget (first : bool) (bytes budget : Z) (prefix : list (ptr * StreamTXRecord))
  : list (ptr * StreamTXRecord) :=
  match prefix with
  | [] => []
  | x :: prefix =>
    let size := payload_size x.2 in
    if negb first && bool_decide (budget < bytes + size) then []
    else x :: take_budget false (bytes + size) budget prefix
  end.

Definition RestrictedFrontierBatch (l : StreamTXLedger) (order : list ptr)
    (frontier : option ptr) (owner : Z) (now cutoff : time) (cooldown : duration)
    (byteBudget : Z) : list ptr :=
  match frontier ≫= fun p => pair p <$> lg_heap l !! p with
  | None => []
  | Some (p, f) =>
    if bool_decide (lg_outstanding l !! lg_ackedNext l <> Some p)
       || bool_decide (tr_ordinaryOwner f <> owner) then [] else
    let eligible := List.filter (fun x => batch_eligible owner now cutoff cooldown x.2)
                      (range_records l order) in
    (take_budget true 0 byteBudget (fold_left prefix_insert eligible [])).*1
  end.

(** ** The live mask: lemmas *)

Lemma Count_from n a :
  fold_left (fun n live => if (live : bool) then n + 1 else n) a n
  = n + sum_with (fun live : bool => if live then 1 else 0) a.
Proof.
  revert n. induction a as [|b a IH]; intros n; simpl; [lia|]. rewrite IH. destruct b; lia.
Qed.

Lemma Count_sum a : Count a = sum_with (fun live : bool => if live then 1 else 0) a.
Proof. unfold Count. by rewrite Count_from. Qed.

Lemma Count_nonneg a : 0 <= Count a.
Proof. rewrite Count_sum. apply sum_with_nonneg. intros []; lia. Qed.

Lemma first_live_Some i (a : list bool) :
  0 < Count a -> exists n, first_live i a = Some (i + Z.of_nat n) /\ a !! n = Some true.
Proof.
  rewrite Count_sum. revert i. induction a as [|b a IH]; intros i; simpl; [lia|]. destruct b.
  - intros _. exists 0%nat. by rewrite Z.add_0_r.
  - intros H. destruct (IH (i + 1)) as (n & -> & Hn); [lia|].
    exists (S n). split; [f_equal; lia|done].
Qed.

Lemma Has_nat (a : list bool) n : a !! n = Some true -> Has a (Z.of_nat n) = true.
Proof.
  intros Hn. pose proof (lookup_lt_Some _ _ _ Hn). unfold Has, slice_get, slen.
  rewrite !bool_decide_eq_true_2 by lia. by rewrite Nat2Z.id, Hn.
Qed.

(** ** The retry snapshot *)

Lemma current_self l p r :
  lg_heap l !! p = Some r -> lg_outstanding l !! tr_sequence r = Some p ->
  current l (Some p) = Some (p, r).
Proof. intros Hp Ho. unfold current. by rewrite Hp, bool_decide_eq_true_2. Qed.

Lemma elem_of_retrySnapshot l st :
  ledger_inv l ->
  st ∈ retrySnapshot l <->
  exists p r, current l (Some p) = Some (p, r) /\
    st = MkRetryState p (tr_inTransit r) (tr_rescueInTransit r) (tr_localEnqueue r) (tr_lastSentLeg r).
Proof.
  intros HI. unfold retrySnapshot. rewrite list_elem_of_omap. split.
  - intros ([s p] & Hin%elem_of_map_to_list & H). simpl in *.
    destruct (li_heap _ HI _ _ Hin) as (r & Hp & <-). rewrite Hp in H. injection H as <-.
    exists p, r. split; [by apply current_self|done].
  - intros (p & r & (_ & Hp & Ho)%current_Some & ->). exists (tr_sequence r, p). simpl.
    rewrite elem_of_map_to_list, Hp. done.
Qed.

(** No two outstanding entries are the same record. *)
Lemma out_inj l s1 s2 p :
  ledger_inv l -> lg_outstanding l !! s1 = Some p -> lg_outstanding l !! s2 = Some p -> s1 = s2.
Proof.
  intros HI H1 H2. destruct (li_heap _ HI _ _ H1) as (r & ? & <-).
  destruct (li_heap _ HI _ _ H2) as (r' & ? & <-). congruence.
Qed.

Lemma NoDup_out_ptrs l : ledger_inv l -> NoDup (map_to_list (lg_outstanding l)).*2.
Proof.
  intros HI. apply NoDup_fmap_2_strong; [|apply NoDup_map_to_list].
  intros [s1 p1] [s2 p2] H1%elem_of_map_to_list H2%elem_of_map_to_list E. simpl in *. subst.
  f_equal. by eapply out_inj.
Qed.

Lemma retrySnapshot_ptrs l :
  ledger_inv l -> rt_Record <$> retrySnapshot l = (map_to_list (lg_outstanding l)).*2.
Proof.
  intros HI. unfold retrySnapshot.
  assert (forall kp, kp ∈ map_to_list (lg_outstanding l) -> is_Some (lg_heap l !! kp.2)) as H.
  { intros [s p] Hin%elem_of_map_to_list. destruct (li_heap _ HI _ _ Hin) as (r & ? & _). by exists r. }
  revert H. generalize (map_to_list (lg_outstanding l)). intros ps. induction ps as [|kp ps IH]; [done|].
  intros H. destruct (H kp) as [r Hr]; [left|]. simpl. rewrite Hr, fmap_cons. simpl. f_equal.
  apply IH. intros kp' ?. apply H. by right.
Qed.

Lemma retry_candidate_record lv st c : retry_candidate lv st = Some c -> rc_Record c = rt_Record st.
Proof. unfold retry_candidate. intros E. repeat case_match; try done; by injection E as <-. Qed.

Lemma retry_ptrs_sublist lv sts :
  rc_Record <$> omap (retry_candidate lv) sts `sublist_of` rt_Record <$> sts.
Proof.
  induction sts as [|st sts IH]; [constructor|]. rewrite fmap_cons. simpl.
  destruct (retry_candidate lv st) as [c|] eqn:E; [|by apply sublist_cons].
  rewrite <- (retry_candidate_record _ _ _ E).
  rewrite fmap_cons. by apply sublist_skip.
Qed.

Lemma StronglySorted_strict {A} (f : A -> Z) xs :
  StronglySorted (fun a b => f a <= f b) xs -> NoDup (f <$> xs) ->
  StronglySorted (fun a b => f a < f b) xs.
Proof.
  induction 1 as [|x xs Hs IH Hx]; [constructor|]. rewrite fmap_cons. intros [Hn Hd]%NoDup_cons.
  constructor; [by apply IH|]. apply Forall_forall. intros y Hy.
  rewrite Forall_forall in Hx. specialize (Hx _ Hy).
  destruct (decide (f x = f y)) as [E|]; [|lia]. exfalso. apply Hn. rewrite E.
  by apply list_elem_of_fmap_2.
Qed.

Lemma seq_at_current l p r : current l (Some p) = Some (p, r) -> seq_at l p = tr_sequence r.
Proof. intros (_ & Hp & _)%current_Some. unfold seq_at. by rewrite Hp. Qed.

Lemma elem_of_PlanRetries l lv c :
  c ∈ PlanRetries l lv <-> exists st, st ∈ retrySnapshot l /\ retry_candidate lv st = Some c.
Proof. unfold PlanRetries. by rewrite merge_sort_Permutation, list_elem_of_omap. Qed.

(** Two candidates with the same sequence are the same record. *)
Lemma NoDup_plan_seqs l lv :
  ledger_inv l -> NoDup ((fun c => seq_at l (rc_Record c)) <$> PlanRetries l lv).
Proof.
  intros HI.
  assert ((fun c => seq_at l (rc_Record c)) <$> PlanRetries l lv
          = seq_at l <$> (rc_Record <$> PlanRetries l lv)) as ->
    by (by rewrite <- list_fmap_compose).
  apply NoDup_fmap_2_strong.
  - intros p q (c & -> & Hc)%list_elem_of_fmap (d & -> & Hd)%list_elem_of_fmap E.
    apply elem_of_PlanRetries in Hc as (st & Hst & Ec), Hd as (st' & Hst' & Ed).
    apply elem_of_retrySnapshot in Hst as (p & r & Hp & ->), Hst' as (q & r' & Hq & ->); try done.
    rewrite (retry_candidate_record _ _ _ Ec), (retry_candidate_record _ _ _ Ed) in *. cbn [rt_Record] in *.
    rewrite (seq_at_current _ _ _ Hp), (seq_at_current _ _ _ Hq) in E.
    apply current_Some in Hp as (_ & _ & Ho), Hq as (_ & _ & Ho'). congruence.
  - unfold PlanRetries. rewrite merge_sort_Permutation.
    eapply sublist_NoDup; [|apply retry_ptrs_sublist].
    rewrite retrySnapshot_ptrs by done. by apply NoDup_out_ptrs.
Qed.

Definition planned (l : StreamTXLedger) (lv : StreamLegAvailability) (p : ptr) (avoid : Z) : Prop :=
  exists r, current l (Some p) = Some (p, r) /\
    tr_localEnqueue r = false /\ tr_inTransit r = false /\ tr_rescueInTransit r = false /\
    ((tr_lastSentLeg r < 0 /\ avoid = -1) \/
     (0 <= tr_lastSentLeg r /\ Has lv (u8 (tr_lastSentLeg r)) = false /\ avoid = tr_lastSentLeg r)).

Lemma PlanRetries_planned l lv p avoid :
  ledger_inv l -> MkRetry p avoid ∈ PlanRetries l lv <-> planned l lv p avoid.
Proof.
  intros HI. rewrite elem_of_PlanRetries. split.
  - intros (st & Hst & E). apply elem_of_retrySnapshot in Hst as (q & r & Hq & ->); [|done].
    unfold retry_candidate in E. cbn [rt_LocalEnqueue rt_InTransit rt_RescueInTransit
      rt_LastSentLeg rt_Record] in E.
    destruct (tr_localEnqueue r || tr_inTransit r || tr_rescueInTransit r) eqn:E1; [done|].
    apply orb_false_iff in E1 as [[E1 E2]%orb_false_iff E3].
    destruct (bool_decide_reflect (tr_lastSentLeg r < 0)).
    + injection E as -> <-. exists r. repeat split; try done. by left.
    + destruct (Has lv _) eqn:Hh; [done|]. injection E as -> <-. exists r.
      repeat split; try done. right. repeat split; [lia|done].
  - intros (r & Hp & H1 & H2 & H3 & H4). eexists. rewrite elem_of_retrySnapshot by done.
    split; [by exists p, r|]. unfold retry_candidate. simpl. rewrite H1, H2, H3. simpl.
    destruct H4 as [[? ->]|(? & Hh & ->)].
    + by rewrite bool_decide_eq_true_2.
    + rewrite bool_decide_eq_false_2 by lia. by rewrite Hh.
Qed.

(** C26. The ordinary retry plan: in strictly increasing sequence order, it lists
    exactly the outstanding records that are not being enqueued locally, have no
    attempt in flight, and were either never sent (nothing to avoid) or last sent
    on a leg that is not live (to be avoided). *)
Theorem PlanRetries_correct l lv :
  ledger_inv l ->
  StronglySorted (fun a b => seq_at l (rc_Record a) < seq_at l (rc_Record b)) (PlanRetries l lv) /\
  forall p avoid,
    MkRetry p avoid ∈ PlanRetries l lv <->
    exists r, current l (Some p) = Some (p, r) /\
      tr_localEnqueue r = false /\ tr_inTransit r = false /\ tr_rescueInTransit r = false /\
      ((tr_lastSentLeg r < 0 /\ avoid = -1) \/
       (0 <= tr_lastSentLeg r /\ Has lv (u8 (tr_lastSentLeg r)) = false /\ avoid = tr_lastSentLeg r)).
Proof.
  intros HI. split; [|intros; by apply PlanRetries_planned].
  apply StronglySorted_strict; [|by apply NoDup_plan_seqs].
  apply (Sorted_StronglySorted (seq_le l)). by apply (Sorted_merge_sort (seq_le l)).
Qed.

Definition one_live : StreamLegAvailability := true :: replicate 255 false.

(** The first eight steps of the example, then the loss of leg 1. *)
Definition lost_leg_ledger : StreamTXLedger := InvalidateLeg example_ledger 1.
Lemma lost_leg_ledger_inv : ledger_inv lost_leg_ledger.
Proof. apply InvalidateLeg_quiet, example_ledger_inv. Qed.

Lemma PlanRetries_correct_witness :
  MkRetry 0 (-1) ∈ PlanRetries lost_leg_ledger one_live /\
  MkRetry 1 (-1) ∉ PlanRetries lost_leg_ledger one_live.
Proof.
  destruct (PlanRetries_correct lost_leg_ledger one_live lost_leg_ledger_inv) as [_ H].
  split.
  - apply H. eexists. split; [vm_compute; reflexivity|]. vm_compute. repeat split. left. split; congruence.
  - intros (r & E & Hl & _)%H. vm_compute in E. injection E as <-. discriminate Hl.
Defined.

Lemma invalidate_local leg r : tr_localEnqueue (invalidate_record leg r) = tr_localEnqueue r.
Proof. unfold invalidate_record, drop_rescue, drop_transit. repeat case_match; done. Qed.

(** A failed carrier strands no record: whatever the live mask, after
    [InvalidateLeg] the plan contains every outstanding record that was queued
    for a carrier and whose attempts, ordinary, rescue and completed, were all on
    the lost leg. *)
Theorem leg_loss_replanned l leg p r lv :
  ledger_inv l -> 0 <= leg -> current l (Some p) = Some (p, r) -> tr_localEnqueue r = false ->
  (tr_inTransit r = true -> tr_transitLeg r = leg) ->
  (tr_rescueInTransit r = true -> tr_rescueLeg r = leg) ->
  (0 <= tr_lastSentLeg r -> tr_lastSentLeg r = leg) ->
  MkRetry p (-1) ∈ PlanRetries (InvalidateLeg l leg) lv.
Proof.
  intros HI Hleg (_ & Hp & Ho)%current_Some Hloc Ht Hr Hs.
  apply PlanRetries_planned; [by apply InvalidateLeg_quiet|].
  destruct (invalidate_attempts leg r) as (I1 & I2 & _ & I3 & _).
  exists (invalidate_record leg r). repeat split.
  - apply current_self; simpl.
    + rewrite map_lookup_imap, Hp. simpl. by rewrite bool_decide_eq_true_2.
    + by destruct (invalidate_account leg r) as (-> & _).
  - by rewrite invalidate_local.
  - rewrite I2. destruct (tr_inTransit r); [|done]. rewrite Ht by done.
    by rewrite bool_decide_eq_true_2.
  - rewrite I3. destruct (tr_rescueInTransit r); [|done]. rewrite Hr by done.
    by rewrite bool_decide_eq_true_2.
  - left. split; [|done]. rewrite I1.
    destruct (bool_decide_reflect (tr_lastSentLeg r = leg)); [lia|].
    destruct (Z_lt_le_dec (tr_lastSentLeg r) 0); [done|tauto].
Qed.

Lemma leg_loss_replanned_witness :
  MkRetry 0 (-1) ∈ PlanRetries (InvalidateLeg example_ledger 1) one_live.
Proof.
  destruct (current example_ledger (Some 0)) as [[q r]|] eqn:E; [|vm_compute in E; discriminate].
  assert (q = 0) as -> by (by apply current_Some in E as ([= <-] & _)).
  apply (leg_loss_replanned example_ledger 1 0 r one_live example_ledger_inv); [lia|exact E|..];
    vm_compute in E; injection E as <-; [reflexivity|discriminate|discriminate|reflexivity].
Defined.

(** ** Frontier repair *)

(** With two live legs there is one other than any given leg. *)
Lemma Count_other (a : list bool) k :
  1 < Count a -> exists n, a !! n = Some true /\ Z.of_nat n <> k.
Proof.
  rewrite Count_sum. revert k. induction a as [|b a IH]; intros k; simpl; [lia|]. intros H.
  destruct b.
  - destruct (decide (k = 0)) as [->|]; [|exists 0%nat; split; [done|lia]].
    destruct (first_live_Some 0 a) as (n & _ & Hn); [rewrite Count_sum; lia|].
    exists (S n). split; [done|lia].
  - destruct (IH (k - 1)) as (n & Hn & ?); [lia|]. exists (S n). split; [done|lia].
Qed.

Definition usable (lv : StreamLegAvailability) (avoid : Z) : Prop :=
  exists id, Has lv id = true /\ id <> avoid.

Lemma Decide_single c (lv : StreamLegAvailability) :
  fc_exists c = true -> fc_rescueInTransit c = false -> fc_overdue c = true -> Count lv = 1 ->
  exists avoid, DecideStreamTXFrontierRepair c lv = MkPlan StreamTXFrontierRescue (fc_record c) avoid
    /\ usable lv avoid.
Proof.
  intros H1 H2 H3 HC. unfold DecideStreamTXFrontierRepair. rewrite H1, H2, H3, HC. simpl.
  destruct (first_live_Some 0 lv) as (n & -> & Hn); [lia|]. eexists. split; [done|].
  exists (Z.of_nat n). split; [by apply Has_nat|lia].
Qed.

Lemma Decide_many c (lv : StreamLegAvailability) :
  fc_exists c = true -> fc_rescueInTransit c = false -> fc_overdue c = true -> 1 < Count lv ->
  DecideStreamTXFrontierRepair c lv = owner_repair c lv /\ forall avoid, usable lv avoid.
Proof.
  intros H1 H2 H3 HC. unfold DecideStreamTXFrontierRepair. rewrite H1, H2, H3. simpl.
  rewrite !bool_decide_eq_false_2 by lia. split; [done|]. intros avoid.
  destruct (Count_other lv avoid HC) as (n & Hn & ?). exists (Z.of_nat n).
  split; [by apply Has_nat|done].
Qed.

Lemma later_ge a b : a <= later a b /\ b <= later a b.
Proof. unfold later, after. case_bool_decide; lia. Qed.

(** The reference of the frontier is its latest activity. *)
Lemma frontier_reference l p r :
  lg_outstanding l !! lg_ackedNext l = Some p -> lg_heap l !! p = Some r ->
  tr_createdAt r <= fs_ReferenceTime (frontierSnapshot l).
Proof.
  intros Ho Hp. unfold frontierSnapshot. rewrite Ho. simpl. rewrite Hp. simpl.
  pose proof (later_ge (tr_createdAt r) (tr_transitSince r)) as [? _].
  pose proof (later_ge (later (tr_createdAt r) (tr_transitSince r)) (tr_lastSentAt r)) as [? _].
  pose proof (later_ge (later (later (tr_createdAt r) (tr_transitSince r)) (tr_lastSentAt r))
    (tr_lastRescueAt r)) as [? _]. lia.
Qed.

Lemma FrontierCandidate_overdue l p r now timeout :
  lg_outstanding l !! lg_ackedNext l = Some p -> lg_heap l !! p = Some r ->
  0 < tr_createdAt r -> timeout <= time_sub now (fs_ReferenceTime (frontierSnapshot l)) ->
  let c := FrontierCandidate l now timeout in
  fc_record c = Some p /\ fc_exists c = true /\ fc_overdue c = true /\
  fc_rescueInTransit c = tr_rescueInTransit r /\
  fc_owner c = (if tr_inTransit r then tr_transitLeg r
                else if bool_decide (tr_lastSentLeg r < 0) then tr_ordinaryOwner r
                else tr_lastSentLeg r).
Proof.
  intros Ho Hp Hc Ht. pose proof (frontier_reference l p r Ho Hp) as Hr.
  unfold FrontierCandidate. revert Ht Hr. unfold frontierSnapshot. rewrite Ho. simpl. rewrite Hp. simpl.
  intros Ht Hr. rewrite (bool_decide_eq_true_2 (timeout <= _)) by done. repeat split.
  unfold is_zero, zero_time. rewrite bool_decide_eq_false_2 by lia. done.
Qed.

(** C25. No stall at the frontier: when the oldest outstanding record has been
    idle for the timeout, has no rescue in flight and is not being enqueued, and
    some leg is live (the one carrying it, if it is in transit), then it is either
    in the ordinary retry plan or the frontier repair decides to rescue it,
    avoiding a leg that leaves a live one to use.  With a single live leg it is
    always the rescue. *)
Theorem overdue_frontier_repaired l p r now timeout lv :
  ledger_inv l -> lg_outstanding l !! lg_ackedNext l = Some p -> lg_heap l !! p = Some r ->
  0 < tr_createdAt r -> timeout <= time_sub now (fs_ReferenceTime (frontierSnapshot l)) ->
  tr_localEnqueue r = false -> tr_rescueInTransit r = false -> 0 < Count lv ->
  (tr_inTransit r = true -> 0 <= tr_transitLeg r /\ Has lv (u8 (tr_transitLeg r)) = true) ->
  let plan := DecideStreamTXFrontierRepair (FrontierCandidate l now timeout) lv in
  let rescued := exists avoid, plan = MkPlan StreamTXFrontierRescue (Some p) avoid /\
                   exists id, Has lv id = true /\ id <> avoid in
  ((exists avoid, MkRetry p avoid ∈ PlanRetries l lv) \/ rescued) /\ (Count lv = 1 -> rescued).
Proof.
  intros HI Ho Hp Hc Ht Hloc Hres HC Htr.
  destruct (FrontierCandidate_overdue _ _ _ _ _ Ho Hp Hc Ht) as (E1 & E2 & E3 & E4 & E5).
  rewrite Hres in E4. rewrite <- E1. cbn zeta.
  assert (Count lv = 1 -> exists avoid, DecideStreamTXFrontierRepair (FrontierCandidate l now timeout) lv
    = MkPlan StreamTXFrontierRescue (fc_record (FrontierCandidate l now timeout)) avoid
    /\ usable lv avoid) as H1 by (intros; by apply Decide_single).
  split; [|exact H1]. destruct (decide (Count lv = 1)); [right; by apply H1|].
  destruct (Decide_many (FrontierCandidate l now timeout) lv) as [-> Hu]; try done; [lia|].
  unfold owner_repair. rewrite E5. destruct (li_heap _ HI _ _ Ho) as (r' & Hp' & Hs).
  assert (r' = r) as -> by congruence.
  assert (current l (Some p) = Some (p, r)) as Hcur by (apply current_self; [done|by rewrite Hs]).
  destruct (tr_inTransit r) eqn:Hit.
  - destruct (Htr eq_refl) as [? ->]. rewrite bool_decide_eq_false_2 by lia. simpl.
    right. eexists. split; [done|]. apply Hu.
  - destruct (bool_decide_reflect (tr_lastSentLeg r < 0)) as [Hn|Hn].
    + left. exists (-1). apply PlanRetries_planned; [done|]. exists r. by eauto 10.
    + destruct (Has lv (u8 (tr_lastSentLeg r))) eqn:Hh.
      * right. rewrite bool_decide_eq_false_2 by done. simpl. eexists. split; [done|]. apply Hu.
      * left. exists (tr_lastSentLeg r). apply PlanRetries_planned; [done|]. exists r.
        repeat split; try done. right. repeat split; [lia|done].
Qed.

Definition two_live : StreamLegAvailability := true :: true :: replicate 254 false.

Definition example_frontier : StreamTXRecord :=
  default (new_record 0 [] 0 false) (lg_heap example_ledger !! 0).
Lemma example_frontier_facts :
  lg_outstanding example_ledger !! lg_ackedNext example_ledger = Some 0 /\
  lg_heap example_ledger !! 0 = Some example_frontier /\ 0 < tr_createdAt example_frontier /\
  50 <= time_sub 100 (fs_ReferenceTime (frontierSnapshot example_ledger)) /\
  tr_localEnqueue example_frontier = false /\ tr_rescueInTransit example_frontier = false /\
  tr_inTransit example_frontier = false /\ 0 < Count two_live /\ Count one_live = 1.
Proof. vm_compute. repeat split; congruence. Qed.

Lemma overdue_frontier_repaired_witness :
  (exists avoid, MkRetry 0 avoid ∈ PlanRetries example_ledger one_live) \/
  fp_Action (DecideStreamTXFrontierRepair (FrontierCandidate example_ledger 100 50) one_live)
    = StreamTXFrontierRescue.
Proof.
  destruct example_frontier_facts as (F1 & F2 & F3 & F4 & F5 & F6 & F7 & _ & F9).
  destruct (overdue_frontier_repaired example_ledger 0 example_frontier 100 50 one_live
    example_ledger_inv F1 F2 F3 F4 F5 F6) as [[H|(avoid & E & _)] _].
  - rewrite F9. lia.
  - rewrite F7. discriminate.
  - left. exact H.
  - right. rewrite E. reflexivity.
Defined.

(** ** The restricted prefix *)

Definition slt (x y : ptr * StreamTXRecord) : Prop := tr_sequence x.2 < tr_sequence y.2.

(** Insertion without the bound. *)
Definition ins (xs : list (ptr * StreamTXRecord)) (x : ptr * StreamTXRecord) :=
  let n := prefix_position (tr_sequence x.2) xs in take n xs ++ x :: drop n xs.

Lemma ins_perm x xs : ins xs x ≡ₚ x :: xs.
Proof. unfold ins. by rewrite <- Permutation_middle, take_drop. Qed.

Lemma ins_sorted x xs :
  StronglySorted slt xs -> tr_sequence x.2 ∉ (fun y => tr_sequence y.2) <$> xs ->
  StronglySorted slt (ins xs x).
Proof.
  unfold ins. induction 1 as [|y xs Hs IH Hy]; simpl.
  - intros _. by repeat constructor.
  - intros [Hne Hn]%not_elem_of_cons. case_bool_decide as Hlt; simpl.
    + constructor; [by apply IH|]. change (Forall (slt y) (ins xs x)).
      rewrite ins_perm. by constructor.
    + constructor; [by constructor|]. assert (slt x y) as Hxy by (unfold slt; lia).
      constructor; [done|]. eapply Forall_impl; [exact Hy|]. unfold slt in *. lia.
Qed.

Lemma prefix_position_take n s xs :
  prefix_position s (take n xs) = (n `min` prefix_position s xs)%nat.
Proof.
  revert n. induction xs as [|x xs IH]; intros [|n]; simpl; try done.
  destruct (bool_decide _); [by rewrite IH|lia].
Qed.

(** Inserting into the truncated array is truncating the insertion. *)
Lemma prefix_insert_take xs x :
  prefix_insert (take prefix_len xs) x = take prefix_len (ins xs x).
Proof.
  unfold prefix_insert, ins. rewrite prefix_position_take.
  set (k := prefix_position (tr_sequence x.2) xs).
  assert (k <= length xs)%nat as Hk.
  { subst k. generalize (tr_sequence x.2). intros s. clear. induction xs as [|y xs IH]; simpl; [done|].
    destruct (bool_decide _); lia. }
  destruct (decide (prefix_len <= k)%nat) as [Hle|Hlt].
  - rewrite bool_decide_eq_true_2 by lia. rewrite take_app_le by (rewrite length_take; lia).
    by rewrite take_take, Nat.min_l.
  - rewrite bool_decide_eq_false_2 by lia. rewrite Nat.min_r by lia.
    rewrite take_take, Nat.min_l by lia. rewrite !take_app, take_take.
    rewrite !length_take, (Nat.min_l k (length xs)) by lia. f_equal.
    destruct (prefix_len - k)%nat as [|m] eqn:E; [done|]. simpl. f_equal.
    rewrite skipn_firstn_comm, take_take. f_equal. lia.
Qed.

Lemma fold_prefix_insert ys xs :
  fold_left prefix_insert ys (take prefix_len xs) = take prefix_len (fold_left ins ys xs).
Proof.
  revert xs. induction ys as [|y ys IH]; intros xs; simpl; [done|].
  by rewrite prefix_insert_take, IH.
Qed.

Lemma fold_ins_perm ys xs : fold_left ins ys xs ≡ₚ ys ++ xs.
Proof.
  revert xs. induction ys as [|y ys IH]; intros xs; simpl; [done|].
  rewrite IH, ins_perm. by rewrite <- Permutation_middle.
Qed.

Lemma fold_ins_sorted ys xs :
  StronglySorted slt xs -> NoDup ((fun y => tr_sequence y.2) <$> (ys ++ xs)) ->
  StronglySorted slt (fold_left ins ys xs).
Proof.
  revert xs. induction ys as [|y ys IH]; intros xs Hs; simpl; [done|].
  intros [Hn Hd]%NoDup_cons. apply IH.
  - apply ins_sorted; [done|]. intros Hin. apply Hn. rewrite fmap_app. apply elem_of_app. by right.
  - rewrite fmap_app, ins_perm, fmap_cons, <- Permutation_middle, <- fmap_app. by constructor.
Qed.

Abbreviation sizes := (sum_with (fun x : ptr * StreamTXRecord => payload_size x.2)).

Lemma take_budget_rest bytes budget xs :
  exists zs, let ys := take_budget false bytes budget xs in
  xs = ys ++ zs /\ (ys = [] \/ bytes + sizes ys <= budget) /\
  (zs = [] \/ exists z zs', zs = z :: zs' /\ budget < bytes + sizes ys + payload_size z.2).
Proof.
  revert bytes. induction xs as [|x xs IH]; intros bytes; simpl; [by exists []; auto|].
  case_bool_decide as Hb; simpl.
  - exists (x :: xs). split_and!; [done|by left|right]. exists x, xs. split; [done|lia].
  - destruct (IH (bytes + payload_size x.2)) as (zs & E & H1 & H2). exists zs.
    cbn zeta in *. split_and!.
    + by f_equal.
    + right. destruct H1 as [->|]; simpl; lia.
    + destruct H2 as [|(z & zs' & -> & ?)]; [by left|right]. exists z, zs'. split; [done|lia].
Qed.

Lemma take_budget_split budget xs :
  exists zs, let ys := take_budget true 0 budget xs in
  xs = ys ++ zs /\ ((length ys <= 1)%nat \/ sizes ys <= budget) /\
  (zs = [] \/ exists z zs', ys <> [] /\ zs = z :: zs' /\ budget < sizes ys + payload_size z.2).
Proof.
  destruct xs as [|x xs]; [exists []; simpl; auto|]. cbn [take_budget negb andb].
  destruct (take_budget_rest (0 + payload_size x.2) budget xs) as (zs & E & H1 & H2). exists zs.
  cbn zeta in *. split_and!.
  - simpl. by f_equal.
  - destruct H1 as [->|]; [left; simpl; lia|right; simpl; lia].
  - destruct H2 as [|(z & zs' & -> & ?)]; [by left|right]. exists z, zs'.
    repeat split; [done|simpl; lia].
Qed.

(** The records of the outstanding map, in any order, with distinct sequences. *)
Lemma range_records_elem l order q r :
  ledger_inv l -> order ≡ₚ (map_to_list (lg_outstanding l)).*2 ->
  (q, r) ∈ range_records l order <-> current l (Some q) = Some (q, r).
Proof.
  intros HI Ho. unfold range_records. rewrite list_elem_of_omap. split.
  - intros (p & Hp & E). apply fmap_Some in E as (r' & Hr & [= -> ->]).
    rewrite Ho in Hp. apply list_elem_of_fmap in Hp as ([s p'] & -> & Hs%elem_of_map_to_list).
    simpl in *. destruct (li_heap _ HI _ _ Hs) as (r'' & Hr'' & <-).
    assert (r'' = r') as -> by congruence. by apply current_self.
  - intros (_ & Hq & Hs)%current_Some. exists q. split; [|by rewrite Hq].
    rewrite Ho. apply list_elem_of_fmap. exists (tr_sequence r, q). split; [done|].
    by apply elem_of_map_to_list.
Qed.

Lemma range_records_ptrs l order : (range_records l order).*1 `sublist_of` order.
Proof.
  induction order as [|p order IH]; [constructor|]. unfold range_records in *. simpl.
  destruct (lg_heap l !! p); simpl; [by apply sublist_skip|by apply sublist_cons].
Qed.

Lemma filter_sublist_bool {A} (b : A -> bool) xs : List.filter b xs `sublist_of` xs.
Proof.
  induction xs as [|x xs IH]; simpl; [constructor|].
  destruct (b x); [by apply sublist_skip|by apply sublist_cons].
Qed.

Lemma NoDup_range_seqs l order :
  ledger_inv l -> order ≡ₚ (map_to_list (lg_outstanding l)).*2 ->
  NoDup ((fun y => tr_sequence y.2) <$> range_records l order).
Proof.
  intros HI Ho. apply NoDup_fmap_2_strong.
  - intros [p r] [q r'] Hp Hq E. rewrite range_records_elem in Hp, Hq by done.
    apply current_Some in Hp as (_ & ? & ?), Hq as (_ & ? & ?). simpl in E. congruence.
  - apply (NoDup_fmap_1 fst). eapply sublist_NoDup; [|apply range_records_ptrs].
    rewrite Ho. by apply NoDup_out_ptrs.
Qed.

Lemma eligible_mark l q r leg owner now cutoff cooldown :
  current l (Some q) = Some (q, r) -> batch_eligible owner now cutoff cooldown r = true ->
  tr_inTransit r && bool_decide (tr_transitLeg r = leg) = false ->
  (MarkRestrictedRescueTransit l (Some q) leg owner now).1 = (now, true).
Proof.
  intros Hc He Ht. unfold batch_eligible in He.
  apply negb_true_iff, orb_false_iff in He as [He _].
  apply orb_false_iff in He as [[Ho _]%orb_false_iff Hr]. apply bool_decide_eq_false in Ho.
  unfold MarkRestrictedRescueTransit. pose proof Hc as (_ & Hq & _)%current_Some. simpl.
  rewrite Hq. rewrite bool_decide_eq_false_2 by done.
  unfold markRescueTransitLocked. by rewrite Hc, Hr, Ht.
Qed.

(** C27. The restricted batch of an overdue owner, whatever order the map is
    ranged in: it is the longest initial part, in sequence order, of the owner's
    eligible records that has at most eight records and, from the second one on,
    stays within the byte budget.  Every record of it can be marked for rescue on
    any leg that is not already carrying it. *)
Theorem RestrictedFrontierBatch_correct l order p f owner now cutoff cooldown budget :
  ledger_inv l -> order ≡ₚ (map_to_list (lg_outstanding l)).*2 ->
  lg_outstanding l !! lg_ackedNext l = Some p -> lg_heap l !! p = Some f ->
  tr_ordinaryOwner f = owner ->
  exists taken left,
    RestrictedFrontierBatch l order (Some p) owner now cutoff cooldown budget = taken.*1 /\
    (forall q r, (q, r) ∈ taken ++ left <->
       current l (Some q) = Some (q, r) /\ batch_eligible owner now cutoff cooldown r = true) /\
    StronglySorted (fun x y => tr_sequence x.2 < tr_sequence y.2) (taken ++ left) /\
    (length taken <= 8)%nat /\
    ((length taken <= 1)%nat \/ sum_with (fun x => payload_size x.2) taken <= budget) /\
    (left = [] \/ length taken = 8%nat \/ exists x rest, taken <> [] /\ left = x :: rest /\
       budget < sum_with (fun x => payload_size x.2) taken + payload_size x.2) /\
    (forall q r leg, (q, r) ∈ taken -> tr_inTransit r && bool_decide (tr_transitLeg r = leg) = false ->
       (MarkRestrictedRescueTransit l (Some q) leg owner now).1 = (now, true)).
Proof.
  intros HI Hord Ho Hp Hown. unfold RestrictedFrontierBatch. simpl. rewrite Hp. simpl.
  rewrite bool_decide_eq_false_2 by tauto.
  rewrite (bool_decide_eq_false_2 (tr_ordinaryOwner f <> owner)) by tauto.
  simpl. set (el := List.filter _ _). set (S := fold_left ins el []).
  rewrite <- (take_nil prefix_len), fold_prefix_insert. fold S.
  assert (forall q r, (q, r) ∈ S <-> current l (Some q) = Some (q, r) /\
    batch_eligible owner now cutoff cooldown r = true) as HS.
  { intros q r. subst S. rewrite fold_ins_perm, app_nil_r. subst el.
    rewrite list_elem_of_In, filter_In, <- list_elem_of_In, range_records_elem by done. done. }
  assert (StronglySorted slt S) as HSS.
  { apply fold_ins_sorted; [constructor|]. rewrite app_nil_r.
    eapply sublist_NoDup; [apply (NoDup_range_seqs l order); done|].
    apply fmap_sublist. subst el. apply filter_sublist_bool. }
  destruct (take_budget_split budget (take prefix_len S)) as (zs & E & HB & HM). cbn zeta in *.
  set (ys := take_budget true 0 budget (take prefix_len S)) in *.
  exists ys, (zs ++ drop prefix_len S).
  assert (ys ++ zs ++ drop prefix_len S = S) as ES by (by rewrite app_assoc, <- E, take_drop).
  rewrite ES. assert (length ys + length zs = prefix_len `min` length S)%nat as EL
    by (by rewrite <- length_app, <- E, length_take).
  unfold prefix_len in *. split_and!; try done; [lia| |].
  - destruct HM as [->|(x & rest & H1 & -> & H2)].
    + rewrite app_nil_l. cbn [length] in EL.
      destruct (decide (8 <= length S)%nat); [right; left; lia|left].
      apply drop_ge. lia.
    + right. right. by exists x, (rest ++ drop 8 S).
  - intros q r leg Hin Ht. assert ((q, r) ∈ S) as [? ?]%HS
      by (rewrite <- ES; apply elem_of_app; by left).
    by eapply eligible_mark.
Qed.

Definition example_order : list ptr := (map_to_list (lg_outstanding example_ledger)).*2.

Lemma RestrictedFrontierBatch_correct_witness :
  exists taken left,
    RestrictedFrontierBatch example_ledger example_order (Some 0) 1 100 50 10 1000 = taken.*1 /\
    StronglySorted (fun x y => tr_sequence x.2 < tr_sequence y.2) (taken ++ left) /\
    (0, example_frontier) ∈ taken ++ left.
Proof.
  destruct example_frontier_facts as (F1 & F2 & _).
  destruct (RestrictedFrontierBatch_correct example_ledger example_order 0 example_frontier 1
    100 50 10 1000 example_ledger_inv) as (taken & left & E & HE & HS & _);
    [reflexivity|exact F1|exact F2|vm_compute; reflexivity|].
  exists taken, left. split; [exact E|]. split; [exact HS|].
  apply HE. split; vm_compute; reflexivity.
Defined.
