(* ===== verification/RttCache.v ===== *)
(** * The carrier RTT probe cache

    [core/stream_rtt_probe_cache.go]: one session's probe tokens, pending probes,
    carrier generations and RTT feedback.  The parallel slices of the Go struct,
    which all have [maxLegs] elements, are one list of per-leg records; a
    [*T] stored in an [atomic.Pointer] is its value together with the number of
    the store, so that pointer comparison is equality.  [acceptProbe] and
    [acceptEchoAt] release the lock while they check the message: the two critical
    sections are two functions, and may be separated by any other calls.  Methods
    are called on a cache that is not nil. *)

From S2P Require Import Prelude Bytes Sha256 Wire Hello PathProtocol TxLedger.
From stdpp Require Import options.

(** ** Data *)

Definition StreamRTTProbePendingLimit : Z := 8.
Definition StreamRTTSampleWindow : duration := 30 * Second.
Definition streamRTTMaxSamples : nat := 5.

Record StreamPathFeedback := MkFeedback {
  fb_Identity : StreamPathIdentity;
  fb_RTT : duration;
  fb_Samples : Z;
  fb_ObservedAt : time
}.

Record streamRTTPending := MkPending { pd_identity : StreamPathIdentity; pd_started : time }.

Record streamRTTSample := MkSample { sm_rtt : duration; sm_at : time }.

Record streamRTTPublished := MkPublished {
  pb_identity : StreamPathIdentity;
  pb_samples : list streamRTTSample (* the first [count] elements of the array *)
}.

(** A [[2]T], indexed by direction. *)
Record per_direction (A : Type) := MkDir { dir_c2s : A; dir_s2c : A }.
Arguments MkDir {A}. Arguments dir_c2s {A}. Arguments dir_s2c {A}.
Definition dir_get {A} (d : Z) (x : per_direction A) : A :=
  if bool_decide (d = StreamRTTClientToServer) then dir_c2s x else dir_s2c x.
Definition dir_set {A} (d : Z) (v : A) (x : per_direction A) : per_direction A :=
  if bool_decide (d = StreamRTTClientToServer) then MkDir v (dir_s2c x) else MkDir (dir_c2s x) v.

(** Element [id] of each of the cache's slices. *)
Record rttLeg := MkRttLeg {
  rl_highWater : Z;
  rl_active : bool;
  rl_binding : StreamPathBinding;
  rl_probeKey : bytes;
  rl_lastPeerToken : per_direction Z;
  rl_samples : per_direction (list streamRTTSample);
  rl_activeView : option (Z * StreamPathBinding);
  rl_feedback : per_direction (option streamRTTPublished)
}.
#[export] Instance rttLeg_fields : Fields rttLeg := fun g =>
  MkRttLeg (rl_highWater g) (rl_active g) (rl_binding g) (rl_probeKey g) (rl_lastPeerToken g)
    (rl_samples g) (rl_activeView g) (rl_feedback g).

Definition zero_binding : StreamPathBinding := MkBinding (zero_bytes 16) 0 [] 0.
Definition zero_leg : rttLeg :=
  MkRttLeg 0 false zero_binding (zero_bytes 32) (MkDir 0 0) (MkDir [] []) None (MkDir None None).

Record streamRTTProbeCache := MkCache {
  rc_maxLegs : Z;
  rc_closed : bool;
  rc_legs : list rttLeg;
  rc_nextToken : Z;
  rc_pending : gmap Z streamRTTPending;
  rc_stores : Z (* number of [activeView] stores so far *)
}.
#[export] Instance streamRTTProbeCache_fields : Fields streamRTTProbeCache := fun c =>
  MkCache (rc_maxLegs c) (rc_closed c) (rc_legs c) (rc_nextToken c) (rc_pending c) (rc_stores c).

Definition newStreamRTTProbeCacheForLegs (maxLegs : Z) : streamRTTProbeCache :=
  let maxLegs := if bool_decide (maxLegs < 1) || bool_decide (MaxStreamLegIDCount < maxLegs) then 2 else maxLegs in
  MkCache maxLegs false (replicate (Z.to_nat maxLegs) zero_leg) 0 ∅ 0.
Definition newStreamRTTProbeCache : streamRTTProbeCache := newStreamRTTProbeCacheForLegs 2.

Definition leg_at (c : streamRTTProbeCache) (id : Z) : rttLeg :=
  default zero_leg (slice_get (rc_legs c) id).
Definition set_leg (id : Z) (g : rttLeg) (c : streamRTTProbeCache) : streamRTTProbeCache :=
  c <| rc_legs ::= <[Z.to_nat id := g]> |>.

Definition validStreamRTTDirection (d : Z) : bool :=
  bool_decide (d = StreamRTTClientToServer) || bool_decide (d = StreamRTTServerToClient).

(** ** Cleaning *)

Definition clear_leg (g : rttLeg) : rttLeg :=
  g <| rl_active := false |> <| rl_binding := zero_binding |> <| rl_probeKey := zero_bytes 32 |>
    <| rl_lastPeerToken := MkDir 0 0 |> <| rl_samples := MkDir [] [] |>
    <| rl_feedback := MkDir None None |>.

Definition clearLegLocked (id : Z) (c : streamRTTProbeCache) : streamRTTProbeCache :=
  set_leg id (clear_leg (leg_at c id))
    (c <| rc_pending ::= filter (fun tp => id_LegID (pd_identity tp.2) <> id) |>).

Definition pending_expired (now : time) (p : streamRTTPending) : bool :=
  negb (before now (pd_started p))
  && bool_decide (StreamRTTProbeTimeout <= time_sub now (pd_started p)).

Definition expirePendingLocked (now : time) (c : streamRTTProbeCache) : Z * streamRTTProbeCache :=
  let keep := filter (fun tp => pending_expired now tp.2 = false) (rc_pending c) in
  (Z.of_nat (size (rc_pending c)) - Z.of_nat (size keep), c <| rc_pending := keep |>).
Definition expirePending := expirePendingLocked.

(** ** Carriers *)

(** [c.activeView[id].Store(nil); c.clearLegLocked(id)] *)
Definition withdrawLeg (c : streamRTTProbeCache) (id : Z) : streamRTTProbeCache :=
  clearLegLocked id (set_leg id ((leg_at c id) <| rl_activeView := None |>) c).

Definition bindLeg (c : streamRTTProbeCache) (b : StreamPathBinding) (auth : StreamPathAuth)
  : option proto_error * streamRTTProbeCache :=
  match validateStreamPathBinding b with
  | Some e => (Some e, c)
  | None =>
    if bool_decide (rc_maxLegs c <= bd_LegID b) then (Some ErrStreamPathMessage, c) else
    if negb (validFor auth b) then (Some ErrStreamPathNegotiation, c) else
    if rc_closed c then (Some ErrStreamRTTCacheClosed, c) else
    let id := bd_LegID b in
    let g := leg_at c id in
    if bool_decide (bd_Generation b < rl_highWater g) then (Some ErrStreamRTTStaleGeneration, c) else
    if bool_decide (bd_Generation b = rl_highWater g) then
      if rl_active g && bool_decide (rl_binding g = b)
         && bool_decide (rl_probeKey g = au_probeKey auth)
      then (None, c) else (Some ErrStreamRTTGenerationReuse, c)
    else
    let c := clearLegLocked id c in
    let g := (leg_at c id) <| rl_highWater := bd_Generation b |> <| rl_binding := b |>
               <| rl_probeKey := au_probeKey auth |> <| rl_active := true |>
               <| rl_activeView := Some (rc_stores c, b) |> in
    (None, set_leg id g (c <| rc_stores ::= fun n => n + 1 |>))
  end.

Definition invalidateLeg (c : streamRTTProbeCache) (b : StreamPathBinding)
  : bool * streamRTTProbeCache :=
  if bool_decide (rc_maxLegs c <= bd_LegID b) then (false, c) else
  let id := bd_LegID b in
  let g := leg_at c id in
  if rc_closed c || negb (rl_active g) || bool_decide (rl_binding g <> b) then (false, c) else
  (true, withdrawLeg c id).

(** ** Samples *)

(** One step of the two insertion sorts of the file, seen from the right end: move
    left past every entry with a greater key. *)
Fixpoint insert_rev {A} (key : A -> Z) (x : A) (rev_acc : list A) : list A :=
  match rev_acc with
  | [] => [x]
  | y :: acc => if bool_decide (key x < key y) then y :: insert_rev key x acc else x :: rev_acc
  end.
Definition insertion_sort {A} (key : A -> Z) (l : list A) : list A :=
  rev (fold_left (fun acc x => insert_rev key x acc) l []).

Definition window_end (now : time) (current : list streamRTTSample) : time :=
  fold_left (fun e s => if after (sm_at s) e then sm_at s else e) current now.

Definition keep_samples (current : list streamRTTSample) (rtt : duration) (now : time)
  : list streamRTTSample :=
  let windowEnd := window_end now current in
  let recent := List.filter (fun s =>
      bool_decide (0 <= time_sub windowEnd (sm_at s))
      && bool_decide (time_sub windowEnd (sm_at s) <= StreamRTTSampleWindow)) current in
  let recent := if bool_decide (time_sub windowEnd now <= StreamRTTSampleWindow)
                then recent ++ [MkSample rtt now] else recent in
  let recent := insertion_sort sm_at recent in
  if bool_decide (streamRTTMaxSamples < length recent)%nat
  then drop (length recent - streamRTTMaxSamples) recent else recent.

Definition recordSampleLocked (identity : StreamPathIdentity) (rtt : duration) (now : time)
    (c : streamRTTProbeCache) : streamRTTProbeCache :=
  let id := id_LegID identity in
  if bool_decide (rc_maxLegs c <= id) then c else
  let g := leg_at c id in
  let d := id_Direction identity in
  let recent := keep_samples (dir_get d (rl_samples g)) rtt now in
  set_leg id (g <| rl_samples ::= dir_set d recent |>
                <| rl_feedback ::= dir_set d (Some (MkPublished identity recent)) |>) c.

(** [clock] is [time.Now()] at the call of [time.Since]. *)
Definition recordHandshakeSample (c : streamRTTProbeCache) (b : StreamPathBinding)
    (identity : StreamPathIdentity) (auth : StreamPathAuth) (clock : time)
  : bool * streamRTTProbeCache :=
  let '(rtt, observedAt) := carrierHandshakeSample auth in
  if bool_decide (rc_maxLegs c <= bd_LegID b)
     || bool_decide (id_Direction identity <> StreamRTTClientToServer)
     || bool_decide (rtt <= 0) || bool_decide (StreamRTTProbeTimeout <= rtt)
     || is_zero observedAt || negb (validFor auth b) || bool_decide (binding identity <> b)
  then (false, c) else
  let g := leg_at c (bd_LegID b) in
  if rc_closed c || negb (rl_active g) || bool_decide (rl_binding g <> b) then (false, c) else
  let age := time_sub clock observedAt in
  if bool_decide (age < 0) || bool_decide (StreamRTTSampleWindow < age) then (false, c) else
  (true, recordSampleLocked identity rtt observedAt c).

(** ** Probes *)

(** [!c.active[id] || c.binding[id] != b], negated. *)
Definition bound (c : streamRTTProbeCache) (b : StreamPathBinding) : bool :=
  rl_active (leg_at c (bd_LegID b)) && bool_decide (rl_binding (leg_at c (bd_LegID b)) = b).

Definition pending_for_leg (id : Z) (c : streamRTTProbeCache) : Z :=
  map_sum (fun p => if bool_decide (id_LegID (pd_identity p) = id) then 1 else 0) (rc_pending c).

Definition startProbeAt (c : streamRTTProbeCache) (identity : StreamPathIdentity) (now : time)
  : result proto_error (Z * bytes) * streamRTTProbeCache :=
  if negb (validStreamRTTDirection (id_Direction identity))
     || bool_decide (rc_maxLegs c <= id_LegID identity)
  then (Err ErrStreamPathMessage, c) else
  if rc_closed c then (Err ErrStreamRTTCacheClosed, c) else
  if negb (bound c (binding identity)) then (Err ErrStreamRTTStaleGeneration, c) else
  let c := (expirePendingLocked now c).2 in
  if bool_decide (StreamRTTProbePendingLimit <= pending_for_leg (id_LegID identity) c)
  then (Err ErrStreamRTTPendingFull, c) else
  if bool_decide (rc_nextToken c = max_u64) then (Err ErrStreamRTTTokenExhausted, c) else
  let token := rc_nextToken c + 1 in
  match encodeStreamRTTMessage (MkRTT StreamRTTProbe identity token)
          (rl_probeKey (leg_at c (id_LegID identity))) with
  | Err e => (Err e, c)
  | Ok wire =>
    (Ok (token, wire), c <| rc_nextToken := token |>
                         <| rc_pending ::= <[token := MkPending identity now]> |>)
  end.

Definition cancelProbe (c : streamRTTProbeCache) (identity : StreamPathIdentity) (token : Z)
  : bool * streamRTTProbeCache :=
  if bool_decide (rc_maxLegs c <= id_LegID identity) || bool_decide (token = 0) then (false, c) else
  match rc_pending c !! token with
  | Some p => if bool_decide (pd_identity p = identity)
              then (true, c <| rc_pending ::= delete token |>) else (false, c)
  | None => (false, c)
  end.

(** *** The peer's probe *)

(** First critical section: the key of the bound carrier. *)
Definition acceptProbe_begin (c : streamRTTProbeCache) (b : StreamPathBinding)
    (expectedDirection : Z) : result proto_error bytes :=
  if bool_decide (rc_maxLegs c <= bd_LegID b) || negb (validStreamRTTDirection expectedDirection)
  then Err ErrStreamPathMessage else
  if rc_closed c || negb (bound c b) then Err ErrStreamRTTStaleGeneration else
  Ok (rl_probeKey (leg_at c (bd_LegID b))).

(** Second critical section. *)
Definition acceptProbe_commit (c : streamRTTProbeCache) (b : StreamPathBinding)
    (message : StreamRTTMessage) : result proto_error bytes * streamRTTProbeCache :=
  if rc_closed c || negb (bound c b) then (Err ErrStreamRTTStaleGeneration, c) else
  let id := bd_LegID b in
  let g := leg_at c id in
  let d := id_Direction (rtt_Identity message) in
  if bool_decide (rtt_Token message <= dir_get d (rl_lastPeerToken g))
  then (Err ErrStreamRTTReplay, c) else
  match encodeStreamRTTMessage (MkRTT StreamRTTEcho (rtt_Identity message) (rtt_Token message))
          (rl_probeKey g) with
  | Err e => (Err e, c)
  | Ok echoWire =>
    (Ok echoWire, set_leg id (g <| rl_lastPeerToken ::= dir_set d (rtt_Token message) |>) c)
  end.

(** [c1] and [c] are the cache at the two critical sections. *)
Definition acceptProbe (c1 c : streamRTTProbeCache) (b : StreamPathBinding)
    (expectedDirection : Z) (wire : bytes) : result proto_error bytes * streamRTTProbeCache :=
  match (let? key := acceptProbe_begin c1 b expectedDirection in
         let? message := decodeStreamRTTMessage wire key b in
         if bool_decide (rtt_Kind message <> StreamRTTProbe)
            || bool_decide (id_Direction (rtt_Identity message) <> expectedDirection)
         then Err ErrStreamPathMessage else Ok message) with
  | Err e => (Err e, c)
  | Ok message => acceptProbe_commit c b message
  end.

(** *** The echo of our own probe *)

Definition acceptEcho_begin (c : streamRTTProbeCache) (identity : StreamPathIdentity)
  : result proto_error bytes :=
  if bool_decide (rc_maxLegs c <= id_LegID identity)
     || negb (validStreamRTTDirection (id_Direction identity))
  then Err ErrStreamPathMessage else
  if rc_closed c || negb (bound c (binding identity)) then Err ErrStreamRTTStaleGeneration else
  Ok (rl_probeKey (leg_at c (id_LegID identity))).

Definition acceptEcho_commit (c : streamRTTProbeCache) (identity : StreamPathIdentity)
    (token : Z) (now : time) : option proto_error * streamRTTProbeCache :=
  if rc_closed c || negb (bound c (binding identity)) then (Some ErrStreamRTTStaleGeneration, c) else
  match rc_pending c !! token with
  | None => (Some ErrStreamRTTNoPending, c)
  | Some p =>
    if bool_decide (pd_identity p <> identity) then (Some ErrStreamRTTNoPending, c) else
    let c := c <| rc_pending ::= delete token |> in
    if before now (pd_started p) || bool_decide (StreamRTTProbeTimeout <= time_sub now (pd_started p))
    then (Some ErrStreamRTTProbeExpired, c) else
    let rtt := time_sub now (pd_started p) in
    if bool_decide (rtt <= 0) then (None, c) else
    (None, recordSampleLocked identity rtt now c)
  end.

Definition acceptEchoAt (c1 c : streamRTTProbeCache) (identity : StreamPathIdentity)
    (wire : bytes) (now : time) : option proto_error * streamRTTProbeCache :=
  match (let? key := acceptEcho_begin c1 identity in
         let? message := decodeStreamRTTMessage wire key (binding identity) in
         if bool_decide (rtt_Kind message <> StreamRTTEcho)
            || bool_decide (id_Direction (rtt_Identity message) <> id_Direction identity)
         then Err ErrStreamPathMessage else Ok message) with
  | Err e => (Some e, c)
  | Ok message => acceptEcho_commit c identity (rtt_Token message) now
  end.

(** ** The lock-free reader *)

Definition fresh_sample (now : time) (s : streamRTTSample) : bool :=
  bool_decide (0 <= time_sub now (sm_at s))
  && bool_decide (time_sub now (sm_at s) <= StreamRTTSampleWindow).

Definition median (sorted : list duration) : duration :=
  let count := length sorted in
  let high := default 0 (sorted !! (count / 2)%nat) in
  if bool_decide (count mod 2 = 0)%nat then
    let low := default 0 (sorted !! (count / 2 - 1)%nat) in low + Z.quot (high - low) 2
  else high.

(** [c1], [c2], [c3] are the cache at the three atomic loads. *)
Definition pathFeedbackAt (c1 c2 c3 : streamRTTProbeCache) (identity : StreamPathIdentity)
    (now : time) : option StreamPathFeedback :=
  if bool_decide (rc_maxLegs c1 <= id_LegID identity)
     || negb (validStreamRTTDirection (id_Direction identity)) then None else
  let id := id_LegID identity in
  match rl_activeView (leg_at c1 id) with
  | None => None
  | Some (v, b) =>
    if bool_decide (b <> binding identity) then None else
    match dir_get (id_Direction identity) (rl_feedback (leg_at c2 id)) with
    | None => None
    | Some snapshot =>
      if bool_decide (pb_identity snapshot <> identity) then None else
      let fresh := List.filter (fresh_sample now) (pb_samples snapshot) in
      let newest := window_end zero_time fresh in
      if bool_decide (length fresh = 0%nat)
         || bool_decide (rl_activeView (leg_at c3 id) <> Some (v, b)) then None else
      Some (MkFeedback identity (median (insertion_sort (fun d => d) (map sm_rtt fresh)))
              (Z.of_nat (length fresh)) newest)
    end
  end.

Definition close (c : streamRTTProbeCache) : streamRTTProbeCache :=
  if rc_closed c then c else
  let c := c <| rc_closed := true |> in
  let c := fold_left withdrawLeg (seqZ 0 (slen (rc_legs c))) c in
  c <| rc_pending := ∅ |>.

(** ** Calls *)

(** Every call that can change the cache.  The second critical sections take the
    message the first ones let through: any message at all. *)
Inductive rtt_op :=
| rop_bind (b : StreamPathBinding) (auth : StreamPathAuth)
| rop_handshake (b : StreamPathBinding) (i : StreamPathIdentity) (auth : StreamPathAuth) (clock : time)
| rop_invalidate (b : StreamPathBinding)
| rop_start (i : StreamPathIdentity) (now : time)
| rop_cancel (i : StreamPathIdentity) (token : Z)
| rop_expire (now : time)
| rop_probe (b : StreamPathBinding) (m : StreamRTTMessage)
| rop_echo (i : StreamPathIdentity) (token : Z) (now : time)
| rop_close.

Definition rtt_exec (c : streamRTTProbeCache) (op : rtt_op) : streamRTTProbeCache :=
  match op with
  | rop_bind b auth => (bindLeg c b auth).2
  | rop_handshake b i auth clock => (recordHandshakeSample c b i auth clock).2
  | rop_invalidate b => (invalidateLeg c b).2
  | rop_start i now => (startProbeAt c i now).2
  | rop_cancel i token => (cancelProbe c i token).2
  | rop_expire now => (expirePending now c).2
  | rop_probe b m => (acceptProbe_commit c b m).2
  | rop_echo i token now => (acceptEcho_commit c i token now).2
  | rop_close => close c
  end.
Definition rtt_run (ops : list rtt_op) (c : streamRTTProbeCache) : streamRTTProbeCache :=
  fold_left rtt_exec ops c.

(** The widths of the Go types ([LegID] is a byte), and the direction that the
    first critical section has checked. *)
Definition rop_wf (op : rtt_op) : Prop :=
  match op with
  | rop_bind b _ | rop_handshake b _ _ _ | rop_invalidate b => is_u8 (bd_LegID b)
  | rop_start i _ => is_u8 (id_LegID i)
  | rop_probe b m => is_u8 (bd_LegID b) /\ validStreamRTTDirection (id_Direction (rtt_Identity m)) = true
  | rop_echo i _ _ => is_u8 (id_LegID i) /\ validStreamRTTDirection (id_Direction i) = true
  | rop_cancel _ _ | rop_expire _ | rop_close => True
  end.

(** ** Invariant *)

Definition valid_dir (d : Z) : Prop := validStreamRTTDirection d = true.

Definition samples_ok (l : list streamRTTSample) : Prop :=
  (length l <= streamRTTMaxSamples)%nat /\
  StronglySorted (fun a b => sm_at a <= sm_at b) l /\
  Forall (fun s => 0 < sm_rtt s < StreamRTTProbeTimeout) l.

Record leg_ok (stores id : Z) (g : rttLeg) : Prop := {
  lk_water : 0 <= rl_highWater g;
  lk_active : rl_active g = true ->
    bd_LegID (rl_binding g) = id /\ bd_Generation (rl_binding g) = rl_highWater g /\
    validateStreamPathBinding (rl_binding g) = None /\
    exists v, 0 <= v < stores /\ rl_activeView g = Some (v, rl_binding g);
  lk_inactive : rl_active g = false ->
    rl_activeView g = None /\ rl_feedback g = MkDir None None;
  lk_samples : forall d, samples_ok (dir_get d (rl_samples g));
  lk_feedback : forall d pb, valid_dir d -> dir_get d (rl_feedback g) = Some pb ->
    binding (pb_identity pb) = rl_binding g /\ id_Direction (pb_identity pb) = d /\
    pb_samples pb = dir_get d (rl_samples g)
}.

Record cache_inv (c : streamRTTProbeCache) : Prop := {
  ci_len : slen (rc_legs c) = rc_maxLegs c;
  ci_max : 1 <= rc_maxLegs c <= MaxStreamLegIDCount;
  ci_token : is_u64 (rc_nextToken c);
  ci_stores : 0 <= rc_stores c;
  ci_pending : forall t p, rc_pending c !! t = Some p ->
    0 < t <= rc_nextToken c /\ bound c (binding (pd_identity p)) = true /\
    valid_dir (id_Direction (pd_identity p));
  ci_limit : forall id, pending_for_leg id c <= StreamRTTProbePendingLimit;
  ci_legs : forall id, leg_ok (rc_stores c) id (leg_at c id);
  ci_closed : rc_closed c = true -> forall id, rl_active (leg_at c id) = false
}.

(** ** How the cache evolves *)

Record leg_evolves (stores : Z) (g g' : rttLeg) : Prop := {
  le_water : rl_highWater g <= rl_highWater g';
  le_same : rl_highWater g' = rl_highWater g -> rl_active g' = true ->
    rl_active g = true /\ rl_binding g' = rl_binding g /\ rl_probeKey g' = rl_probeKey g /\
    forall d, valid_dir d -> dir_get d (rl_lastPeerToken g) <= dir_get d (rl_lastPeerToken g');
  le_view : forall v b, rl_activeView g' = Some (v, b) -> v < stores ->
    rl_activeView g = Some (v, b)
}.

Record evolves (c c' : streamRTTProbeCache) : Prop := {
  ev_max : rc_maxLegs c' = rc_maxLegs c;
  ev_closed : rc_closed c = true -> rc_closed c' = true;
  ev_token : rc_nextToken c <= rc_nextToken c';
  ev_stores : rc_stores c <= rc_stores c';
  ev_pending : forall t p, rc_pending c' !! t = Some p -> t <= rc_nextToken c ->
    rc_pending c !! t = Some p;
  ev_legs : forall id, leg_evolves (rc_stores c) (leg_at c id) (leg_at c' id)
}.

Lemma leg_evolves_refl n g : leg_evolves n g g.
Proof. by split. Qed.

#[export] Instance evolves_preorder : PreOrder evolves.
Proof.
  split.
  - intros c. by split.
  - intros c1 c2 c3 [A1 A2 A3 A4 A5 A6] [B1 B2 B3 B4 B5 B6]. split; try lia; [tauto| |].
    + intros t p Hp Ht. apply A5; [|done]. apply B5; [done|lia].
    + intros id. destruct (A6 id) as [L1 L2 L3], (B6 id) as [M1 M2 M3]. split; [lia| |].
      * intros E Ha. destruct M2 as (Ha' & E1 & E2 & E3); [lia|done|].
        destruct L2 as (Ha'' & F1 & F2 & F3); [lia|done|]. rewrite E1, E2, F1, F2.
        repeat split; try done. intros d Hd. specialize (E3 d Hd). specialize (F3 d Hd). lia.
      * intros v b Hv Hlt. apply L3; [|done]. apply M3; [done|lia].
Qed.

(** ** Legs *)

Lemma leg_at_set c id g j :
  0 <= id < slen (rc_legs c) ->
  leg_at (set_leg id g c) j = if bool_decide (id = j) then g else leg_at c j.
Proof.
  intros Hid. unfold leg_at, set_leg, slice_get, slen in *. simpl.
  destruct (bool_decide_reflect (id = j)) as [<-|Hne].
  - rewrite bool_decide_eq_true_2 by lia. rewrite list_lookup_insert_eq by lia. done.
  - case_bool_decide; [|done]. rewrite list_lookup_insert_ne by lia. done.
Qed.

Lemma set_leg_len id g c : slen (rc_legs (set_leg id g c)) = slen (rc_legs c).
Proof. unfold slen, set_leg. simpl. by rewrite length_insert. Qed.

Lemma samples_ok_nil : samples_ok [].
Proof. unfold samples_ok, streamRTTMaxSamples. simpl. split_and!; [lia|constructor|constructor]. Qed.

Lemma zero_leg_ok n id : leg_ok n id zero_leg.
Proof.
  split; simpl; try done.
  - intros d. unfold dir_get. case_bool_decide; apply samples_ok_nil.
  - intros d pb _. unfold dir_get. by case_bool_decide.
Qed.

Lemma leg_at_out c id : ~ (0 <= id < slen (rc_legs c)) -> leg_at c id = zero_leg.
Proof.
  intros H. unfold leg_at. destruct (slice_get (rc_legs c) id) eqn:E; [|done].
  exfalso. apply H. by eapply slice_get_range.
Qed.

Lemma active_range c id : rl_active (leg_at c id) = true -> 0 <= id < slen (rc_legs c).
Proof.
  intros H. destruct (decide (0 <= id < slen (rc_legs c))); [done|].
  by rewrite leg_at_out in H.
Qed.

Lemma bound_spec c b :
  bound c b = true <-> rl_active (leg_at c (bd_LegID b)) = true /\ rl_binding (leg_at c (bd_LegID b)) = b.
Proof. unfold bound. by rewrite andb_true_iff, bool_decide_eq_true. Qed.

Lemma bound_range c b : bound c b = true -> 0 <= bd_LegID b < slen (rc_legs c).
Proof. intros [H _]%bound_spec. by apply active_range. Qed.

Lemma dir_get_set {A} d d' (v : A) x :
  valid_dir d -> valid_dir d' -> dir_get d' (dir_set d v x) = if bool_decide (d = d') then v else dir_get d' x.
Proof.
  unfold valid_dir, validStreamRTTDirection, dir_get, dir_set, StreamRTTClientToServer,
    StreamRTTServerToClient. rewrite !orb_true_iff, !bool_decide_eq_true.
  intros [-> | ->] [-> | ->]; done.
Qed.

Lemma dir_set_cases {A} d d' (v : A) x :
  dir_get d' (dir_set d v x) = v \/ dir_get d' (dir_set d v x) = dir_get d' x.
Proof. unfold dir_get, dir_set. repeat case_bool_decide; simpl; auto. Qed.

(** ** Basic changes of the cache *)

Definition good (c c' : streamRTTProbeCache) : Prop := cache_inv c' /\ evolves c c'.

Lemma good_refl c : cache_inv c -> good c c.
Proof. by split. Qed.
Lemma good_trans c1 c2 c3 : good c1 c2 -> good c2 c3 -> good c1 c3.
Proof. intros [_ H1] [H2 H3]. split; [done|]. by transitivity c2. Qed.

Abbreviation on_leg id :=
  (fun p => if bool_decide (id_LegID (pd_identity p) = id) then 1 else 0).

Lemma map_sum_subset {A} (f : A -> Z) (m1 m2 : gmap Z A) :
  (forall x, 0 <= f x) -> m1 ⊆ m2 -> map_sum f m1 <= map_sum f m2.
Proof.
  intros Hf. revert m2. induction m1 as [|k x m1 Hk IH] using map_ind; intros m2 Hs.
  - rewrite map_sum_empty. by apply map_sum_nonneg.
  - assert (m2 !! k = Some x) as Hk2 by (eapply lookup_weaken; [apply lookup_insert_eq|done]).
    rewrite map_sum_insert by done. pose proof (map_sum_delete f m2 k x Hk2).
    enough (map_sum f m1 <= map_sum f (delete k m2)) by lia. apply IH.
    rewrite <- (delete_insert_id m1 k x) by done. by apply delete_mono.
Qed.

(** Pending probes may be dropped at any time. *)
Lemma shrink_good c m :
  cache_inv c -> m ⊆ rc_pending c -> good c (c <| rc_pending := m |>).
Proof.
  intros [] Hm. split; split; try done; try lia.
  - intros t p Hp. eapply lookup_weaken in Hp; [|exact Hm]. by apply ci_pending0.
  - intros id. etrans; [|apply (ci_limit0 id)]. apply map_sum_subset; [|done].
    intros p. case_bool_decide; lia.
  - intros t p Hp _. by eapply lookup_weaken.
Qed.

(** One leg changes, and keeps the probes that are pending on it. *)
Lemma set_leg_good c id g n :
  cache_inv c -> 0 <= id < slen (rc_legs c) -> 0 <= n ->
  leg_ok (rc_stores c + n) id g -> leg_evolves (rc_stores c) (leg_at c id) g ->
  (rc_closed c = true -> rl_active g = false) ->
  (forall t p, rc_pending c !! t = Some p -> id_LegID (pd_identity p) = id ->
     rl_active g = true /\ rl_binding g = binding (pd_identity p)) ->
  good c (set_leg id g (c <| rc_stores ::= fun k => k + n |>)).
Proof.
  intros [] Hid Hn Hok Hev Hcl Hpd.
  set (c2 := c <| rc_stores ::= fun k => k + n |>).
  assert (forall j, leg_at (set_leg id g c2) j = if bool_decide (id = j) then g else leg_at c j) as EL.
  { intros j. by rewrite (leg_at_set c2). }
  split; split; try done; simpl; try lia.
  - rewrite <- ci_len0. apply (set_leg_len id g c).
  - intros t p Hp. destruct (ci_pending0 _ _ Hp) as (H1 & H2 & H3). split_and!; try done; [lia|lia|].
    apply bound_spec. rewrite EL. simpl. case_bool_decide as E; [by eapply Hpd|].
    exact (proj1 (bound_spec _ _) H2).
  - intros j. rewrite EL. case_bool_decide as E; [by subst|].
    destruct (ci_legs0 j) as [? Ha ? ? ?]. split; try done. intros Hac.
    destruct (Ha Hac) as (? & ? & ? & v & ? & ?). repeat split; try done. exists v. split; [lia|done].
  - intros Hc j. rewrite EL. case_bool_decide; [by apply Hcl|by apply ci_closed0].
  - intros j. rewrite EL. case_bool_decide as E; [by subst|apply leg_evolves_refl].
Qed.

(** ** Sorting and samples *)

Section insertion.
Context {A : Type} (key : A -> Z).

Lemma insert_rev_perm x acc : insert_rev key x acc ≡ₚ x :: acc.
Proof.
  induction acc as [|y acc IH]; simpl; [done|]. case_bool_decide; [|done].
  rewrite IH. apply Permutation_swap.
Qed.

Lemma insert_rev_sorted x acc :
  StronglySorted (fun a b => key b <= key a) acc ->
  StronglySorted (fun a b => key b <= key a) (insert_rev key x acc).
Proof.
  induction 1 as [|y acc Hs IH Hy]; simpl; [by repeat constructor|]. case_bool_decide.
  - constructor; [done|]. rewrite insert_rev_perm. constructor; [lia|done].
  - constructor; [by constructor|]. constructor; [lia|].
    eapply Forall_impl; [exact Hy|]. simpl. lia.
Qed.

Lemma insertion_sort_perm l : insertion_sort key l ≡ₚ l.
Proof.
  unfold insertion_sort. rewrite <- Permutation_rev.
  assert (forall acc, fold_left (fun acc x => insert_rev key x acc) l acc ≡ₚ l ++ acc) as H.
  { induction l as [|x l IH]; intros acc; simpl; [done|].
    by rewrite IH, insert_rev_perm, <- Permutation_middle. }
  by rewrite H, app_nil_r.
Qed.

Lemma rev_sorted (R : relation A) l : StronglySorted R l -> StronglySorted (fun a b => R b a) (rev l).
Proof.
  induction 1 as [|x l Hs IH Hx]; simpl; [constructor|]. apply StronglySorted_app_2.
  - intros a b Ha Hb. apply list_elem_of_singleton in Hb as ->. rewrite Forall_forall in Hx.
    apply Hx. by rewrite <- Permutation_rev in Ha.
  - done.
  - by repeat constructor.
Qed.

Lemma insertion_sort_sorted l : StronglySorted (fun a b => key a <= key b) (insertion_sort key l).
Proof.
  unfold insertion_sort. apply (rev_sorted (fun a b => key b <= key a)).
  assert (forall acc, StronglySorted (fun a b => key b <= key a) acc ->
    StronglySorted (fun a b => key b <= key a)
      (fold_left (fun acc x => insert_rev key x acc) l acc)) as H.
  { induction l as [|x l IH]; intros acc Hs; simpl; [done|]. by apply IH, insert_rev_sorted. }
  apply H. constructor.
Qed.
End insertion.

Lemma keep_samples_ok current rtt now :
  samples_ok current -> 0 < rtt < StreamRTTProbeTimeout -> samples_ok (keep_samples current rtt now).
Proof.
  intros (Hl & Hs & Hf) Hr. unfold keep_samples.
  set (recent := if bool_decide (time_sub _ now <= _) then _ else _).
  assert (Forall (fun s => 0 < sm_rtt s < StreamRTTProbeTimeout) recent) as HF.
  { subst recent. assert (forall b, Forall (fun s => 0 < sm_rtt s < StreamRTTProbeTimeout)
      (List.filter b current)) as H.
    { intros b. rewrite Forall_forall in *. intros s Hin. apply Hf.
      rewrite list_elem_of_In in *. by apply filter_In in Hin as []. }
    case_bool_decide; [apply Forall_app; split; [apply H|by apply Forall_singleton]|apply H]. }
  pose proof (insertion_sort_sorted sm_at recent) as HSS.
  case_bool_decide as Hb; [|split_and!; [lia|done|by rewrite insertion_sort_perm]].
  rewrite <- (take_drop (length (insertion_sort sm_at recent) - streamRTTMaxSamples)) in HSS.
  split_and!.
  - rewrite length_drop. lia.
  - by apply StronglySorted_app_1_r in HSS.
  - apply Forall_drop. by rewrite insertion_sort_perm.
Qed.

(** ** Every call *)

Ltac split_if E := match goal with |- context [if ?b then _ else _] => destruct b eqn:E end.

Lemma clear_leg_ok stores id g : 0 <= rl_highWater g -> rl_activeView g = None -> leg_ok stores id (clear_leg g).
Proof.
  intros Hw Hv. split; simpl; try done.
  - intros d. unfold dir_get. case_bool_decide; apply samples_ok_nil.
  - intros d pb _. unfold dir_get. by case_bool_decide.
Qed.

(** Withdraw the view of a leg, then clear it. *)
Lemma withdraw_good c id :
  cache_inv c -> 0 <= id < slen (rc_legs c) ->
  good c (withdrawLeg c id).
Proof.
  intros HI Hid. unfold withdrawLeg, clearLegLocked. rewrite leg_at_set by done.
  rewrite bool_decide_eq_true_2 by done.
  set (m := filter (fun tp => id_LegID (pd_identity tp.2) <> id) (rc_pending c)).
  set (g := clear_leg _).
  assert (set_leg id g ((set_leg id ((leg_at c id) <| rl_activeView := None |>) c)
      <| rc_pending ::= filter (fun tp => id_LegID (pd_identity tp.2) <> id) |>)
    = set_leg id g (c <| rc_pending := m |> <| rc_stores ::= fun k => k + 0 |>)) as ->.
  { destruct c. unfold set_leg, update. simpl. f_equal; [by rewrite list_insert_insert_eq|lia]. }
  assert (good c (c <| rc_pending := m |>)) as HG.
  { apply shrink_good; [done|]. apply map_filter_subseteq. }
  eapply good_trans; [exact HG|]. destruct HG as [HI' _].
  apply set_leg_good; try done.
  - apply clear_leg_ok; [|done]. apply (ci_legs _ HI id).
  - intros t p Hp E. exfalso. simpl in Hp. apply map_lookup_filter_Some in Hp as [_ Hp]. done.
Qed.

Lemma invalidateLeg_good c b : cache_inv c -> is_u8 (bd_LegID b) -> good c (invalidateLeg c b).2.
Proof.
  intros HI [H0 _]. unfold invalidateLeg. case_bool_decide; [by apply good_refl|].
  destruct (_ || _) eqn:E; [by apply good_refl|]. apply withdraw_good; [done|].
  rewrite (ci_len _ HI). lia.
Qed.

Lemma validateStreamPathBinding_None b :
  validateStreamPathBinding b = None -> bd_Generation b <> 0.
Proof. unfold validateStreamPathBinding. destruct (_ || _) eqn:E; [done|]. by bool_prop. Qed.

Lemma bindLeg_good c b auth : cache_inv c -> is_u8 (bd_LegID b) -> good c (bindLeg c b auth).2.
Proof.
  intros HI [H0 _]. unfold bindLeg. destruct (validateStreamPathBinding b) eqn:Hv; [by apply good_refl|].
  case_bool_decide as Hm; [by apply good_refl|]. destruct (negb _); [by apply good_refl|].
  destruct (rc_closed c) eqn:Hc; [by apply good_refl|].
  set (id := bd_LegID b) in *. assert (0 <= id < slen (rc_legs c)) as Hid by (rewrite (ci_len _ HI); lia).
  destruct (bool_decide_reflect (bd_Generation b < rl_highWater (leg_at c id))); [by apply good_refl|].
  destruct (bool_decide_reflect (bd_Generation b = rl_highWater (leg_at c id))).
  { destruct (_ && _); by apply good_refl. }
  set (m := filter (fun tp => id_LegID (pd_identity tp.2) <> id) (rc_pending c)).
  unfold clearLegLocked. rewrite leg_at_set by done. rewrite bool_decide_eq_true_2 by done.
  set (g := _ <| rl_activeView := _ |>). fold m.
  assert (good c (c <| rc_pending := m |>)) as HG.
  { apply shrink_good; [done|]. apply map_filter_subseteq. }
  assert ((set_leg id g ((set_leg id (clear_leg (leg_at c id))
      (c <| rc_pending ::= filter (fun tp => id_LegID (pd_identity tp.2) <> id) |>))
        <| rc_stores ::= fun n => n + 1 |>))
    = set_leg id g (c <| rc_pending := m |> <| rc_stores ::= fun k => k + 1 |>)) as E.
  { destruct c. unfold set_leg, update. simpl. f_equal. by rewrite list_insert_insert_eq. }
  eapply eq_ind_r with (P := good c); [|exact E].
  eapply good_trans; [exact HG|]. destruct HG as [HI' _].
  pose proof (ci_stores _ HI). pose proof (lk_water _ _ _ (ci_legs _ HI id)).
  apply set_leg_good; try done.
  - split; simpl; [lia| | | |]; try done.
    + intros _. repeat split; try done. exists (rc_stores c). split; [lia|done].
    + intros d. unfold dir_get. case_bool_decide; apply samples_ok_nil.
    + intros d pb _. unfold dir_get. by case_bool_decide.
  - change (leg_evolves (rc_stores c) (leg_at c id) g). split; simpl; [lia|lia|].
    intros v b' [= <- <-]. lia.
  - simpl. by rewrite Hc.
  - intros t p Hp E'. exfalso. simpl in Hp. apply map_lookup_filter_Some in Hp as [_ Hp]. done.
Qed.

Lemma recordSample_good c identity rtt now :
  cache_inv c -> bound c (binding identity) = true -> valid_dir (id_Direction identity) ->
  0 < rtt < StreamRTTProbeTimeout -> good c (recordSampleLocked identity rtt now c).
Proof.
  intros HI Hb Hd Hr. unfold recordSampleLocked. case_bool_decide; [by apply good_refl|].
  pose proof (bound_range _ _ Hb) as Hid. apply bound_spec in Hb as [Ha HB].
  cbn [bd_LegID binding] in *. set (id := id_LegID identity) in *.
  set (d := id_Direction identity) in *. set (recent := keep_samples _ _ _). set (g := _ <| rl_feedback ::= _ |>).
  assert (set_leg id g c = set_leg id g (c <| rc_stores ::= fun k => k + 0 |>)) as ->.
  { destruct c. unfold set_leg, update. simpl. f_equal. lia. }
  pose proof (ci_legs _ HI id) as [W1 W2 W3 W4 W5]. apply set_leg_good; try done.
  - rewrite Z.add_0_r. split; try done; simpl.
    + by rewrite Ha.
    + intros d'. destruct (dir_set_cases d d' recent (rl_samples (leg_at c id))) as [-> | ->];
        [by apply keep_samples_ok|done].
    + intros d' pb Hd'. rewrite !dir_get_set by done. case_bool_decide as E.
      * intros [= <-]. simpl. split_and!; [by rewrite HB|by rewrite <- E|done].
      * apply (W5 d' pb Hd').
  - simpl. intros Hc. by rewrite (ci_closed _ HI Hc) in Ha.
  - simpl. intros t p Hp E. destruct (ci_pending _ HI _ _ Hp) as (_ & Hbd%bound_spec & _).
    cbn [bd_LegID binding] in Hbd. rewrite E in Hbd. done.
Qed.

Lemma recordHandshakeSample_good c b i auth clock :
  cache_inv c -> good c (recordHandshakeSample c b i auth clock).2.
Proof.
  intros HI. unfold recordHandshakeSample, carrierHandshakeSample.
  split_if E; [by apply good_refl|]. split_if E2; [by apply good_refl|].
  split_if E3; [by apply good_refl|]. rewrite !orb_false_iff, !bool_decide_eq_false in E.
  rewrite !orb_false_iff, !bool_decide_eq_false in E2.
  destruct E as ((((((_ & Hd%dec_stable) & H1) & H2) & _) & _) & Hb%dec_stable).
  destruct E2 as ((_ & Ha%negb_false_iff) & HB%dec_stable). simpl.
  apply recordSample_good; [done| | |lia].
  - rewrite Hb. by apply bound_spec.
  - unfold valid_dir, validStreamRTTDirection. by rewrite Hd.
Qed.

Lemma expirePending_good c now : cache_inv c -> good c (expirePendingLocked now c).2.
Proof. intros HI. apply shrink_good; [done|]. apply map_filter_subseteq. Qed.

Lemma cancelProbe_good c i token : cache_inv c -> good c (cancelProbe c i token).2.
Proof.
  intros HI. unfold cancelProbe. destruct (_ || _); [by apply good_refl|].
  destruct (rc_pending c !! token); [|by apply good_refl].
  case_bool_decide; [|by apply good_refl]. apply (shrink_good c (delete token (rc_pending c)) HI).
  apply delete_subseteq.
Qed.

(** Recording a new probe under the next token. *)
Lemma add_pending_good c i now :
  cache_inv c -> bound c (binding i) = true -> valid_dir (id_Direction i) ->
  pending_for_leg (id_LegID i) c < StreamRTTProbePendingLimit -> rc_nextToken c <> max_u64 ->
  good c (c <| rc_nextToken := rc_nextToken c + 1 |>
            <| rc_pending ::= <[rc_nextToken c + 1 := MkPending i now]> |>).
Proof.
  intros HI Hb Hd Hl Ht. pose proof HI as []. unfold max_u64, is_u64 in *.
  assert (rc_pending c !! (rc_nextToken c + 1) = None) as HN.
  { destruct (rc_pending c !! _) eqn:E; [|done]. apply ci_pending0 in E as [? _]. lia. }
  split; split; simpl; try done; try lia.
  - unfold is_u64. lia.
  - intros t p [[<- <-]|[? Hp]]%lookup_insert_Some; simpl.
    + split_and!; [lia|lia|done|done].
    + destruct (ci_pending0 _ _ Hp) as (? & ? & ?). split_and!; [lia|lia|done|done].
  - intros id. unfold pending_for_leg. simpl. rewrite map_sum_insert by done. simpl.
    fold (pending_for_leg id c). case_bool_decide; [subst; lia|apply ci_limit0].
  - intros t p [[<- <-]|[? Hp]]%lookup_insert_Some Hle; [lia|done].
Qed.

Lemma startProbeAt_good c i now : cache_inv c -> good c (startProbeAt c i now).2.
Proof.
  intros HI. unfold startProbeAt. destruct (_ || _) eqn:E; [by apply good_refl|].
  apply orb_false_iff in E as [Hd%negb_false_iff _].
  destruct (rc_closed c); [by apply good_refl|].
  destruct (bound c (binding i)) eqn:Hb; [|by apply good_refl]. cbn [negb].
  pose proof (expirePending_good c now HI) as HG. revert HG.
  generalize (eq_refl : bound (expirePendingLocked now c).2 (binding i) = bound c (binding i)).
  generalize (expirePendingLocked now c).2. intros c1 E HG. rewrite Hb in E.
  case_bool_decide as Hl; [done|]. case_bool_decide as Ht; [done|].
  destruct (encodeStreamRTTMessage _ _); [|done]. cbn [snd].
  eapply good_trans; [exact HG|]. apply add_pending_good; try done; [apply HG|lia].
Qed.

Lemma acceptProbe_good c b m :
  cache_inv c -> valid_dir (id_Direction (rtt_Identity m)) -> good c (acceptProbe_commit c b m).2.
Proof.
  intros HI Hd. unfold acceptProbe_commit.
  destruct (rc_closed c || negb (bound c b)) eqn:E; [by apply good_refl|].
  case_bool_decide as Ht; [by apply good_refl|].
  destruct (encodeStreamRTTMessage _ _); [|by apply good_refl]. cbn [snd].
  apply orb_false_iff in E as [Hc Hb%negb_false_iff].
  pose proof (bound_range _ _ Hb) as Hid. apply bound_spec in Hb as [Ha HB].
  set (id := bd_LegID b) in *. set (g := _ <| rl_lastPeerToken ::= _ |>).
  assert (set_leg id g c = set_leg id g (c <| rc_stores ::= fun k => k + 0 |>)) as ->.
  { destruct c. unfold set_leg, update. simpl. f_equal. lia. }
  pose proof (ci_legs _ HI id) as [W1 W2 W3 W4 W5]. apply set_leg_good; try done.
  - by rewrite Z.add_0_r.
  - split; simpl; try done. intros _ _. repeat split; try done. intros d' Hd'.
    rewrite dir_get_set by done. case_bool_decide as E; [rewrite <- E; lia|lia].
  - simpl. by rewrite Hc.
  - simpl. intros t p Hp E. destruct (ci_pending _ HI _ _ Hp) as (_ & Hbd%bound_spec & _).
    cbn [bd_LegID binding] in Hbd. rewrite E in Hbd. done.
Qed.

Lemma acceptEcho_good c i token now :
  cache_inv c -> valid_dir (id_Direction i) -> good c (acceptEcho_commit c i token now).2.
Proof.
  intros HI Hd. unfold acceptEcho_commit.
  destruct (rc_closed c || negb (bound c (binding i))) eqn:E; [by apply good_refl|].
  apply orb_false_iff in E as [_ Hb%negb_false_iff].
  destruct (rc_pending c !! token) as [p|]; [|by apply good_refl].
  case_bool_decide; [by apply good_refl|].
  assert (good c (c <| rc_pending ::= delete token |>)) as HG
    by (apply (shrink_good c (delete token (rc_pending c)) HI), delete_subseteq).
  split_if E; [done|]. split_if E2; [done|]. apply bool_decide_eq_false in E2.
  apply orb_false_iff in E as [_ E%bool_decide_eq_false].
  eapply good_trans; [exact HG|]. apply recordSample_good; [apply HG|done|done|lia].
Qed.

Lemma withdrawLeg_len c j : slen (rc_legs (withdrawLeg c j)) = slen (rc_legs c).
Proof. unfold withdrawLeg, clearLegLocked. rewrite !set_leg_len. simpl. apply set_leg_len. Qed.

Lemma withdrawLeg_at c j id :
  0 <= j < slen (rc_legs c) ->
  leg_at (withdrawLeg c j) id
  = if bool_decide (j = id) then clear_leg ((leg_at c j) <| rl_activeView := None |>) else leg_at c id.
Proof.
  intros Hj. unfold withdrawLeg, clearLegLocked. set (g := (leg_at c j) <| rl_activeView := None |>).
  rewrite leg_at_set; [|exact (eq_ind_r (fun n => 0 <= j < n) Hj (set_leg_len j g c))].
  change (leg_at (_ <| rc_pending ::= _ |>) id) with (leg_at (set_leg j g c) id).
  rewrite !leg_at_set by done. rewrite (bool_decide_eq_true_2 (j = j)) by done. by case_bool_decide.
Qed.

Lemma withdraw_all_good c ids :
  cache_inv c -> (forall id, id ∈ ids -> 0 <= id < slen (rc_legs c)) ->
  good c (fold_left withdrawLeg ids c) /\
  forall id, id ∈ ids \/ rl_active (leg_at c id) = false ->
    rl_active (leg_at (fold_left withdrawLeg ids c) id) = false.
Proof.
  revert c. induction ids as [|j ids IH]; intros c HI Hids; simpl.
  - split; [by apply good_refl|]. intros id [[]%not_elem_of_nil|]; done.
  - pose proof (withdraw_good c j HI (Hids j (list_elem_of_here _ _))) as HG.
    destruct (IH (withdrawLeg c j)) as [HG' HA]; [apply HG|intros id ?; rewrite withdrawLeg_len; apply Hids; by right|].
    split; [by eapply good_trans|]. intros id Hid. apply HA.
    destruct (decide (id ∈ ids)); [by left|right].
    rewrite withdrawLeg_at by (apply Hids; left). case_bool_decide as E; [done|].
    destruct Hid as [[|]%elem_of_cons|]; [by subst|done|done].
Qed.

(** The closed flag does not take part in clearing. *)
Lemma withdraw_closed ids c :
  fold_left withdrawLeg ids (c <| rc_closed := true |>)
  = (fold_left withdrawLeg ids c) <| rc_closed := true |>.
Proof. revert c. induction ids as [|j ids IH]; intros c; simpl; [done|]. by rewrite <- IH. Qed.

Lemma close_good c : cache_inv c -> good c (close c).
Proof.
  intros HI. unfold close. destruct (rc_closed c) eqn:Hc; [by apply good_refl|].
  rewrite withdraw_closed. change (slen (rc_legs (c <| rc_closed := true |>))) with (slen (rc_legs c)).
  destruct (withdraw_all_good c (seqZ 0 (slen (rc_legs c))) HI) as [HG HA].
  { intros id Hin%elem_of_seqZ. lia. }
  assert (forall id, rl_active (leg_at (fold_left withdrawLeg (seqZ 0 (slen (rc_legs c))) c) id) = false) as HAll.
  { intros id. apply HA. destruct (decide (0 <= id < slen (rc_legs c))).
    - left. apply elem_of_seqZ. lia.
    - right. by rewrite leg_at_out. }
  revert HG HAll. clear HA. generalize (fold_left withdrawLeg (seqZ 0 (slen (rc_legs c))) c). intros c' HG HAll.
  eapply good_trans; [exact HG|]. destruct HG as [HI' _]. pose proof HI' as [].
  split; split; simpl; try done; try lia.
Qed.

Lemma exec_good c op : cache_inv c -> rop_wf op -> good c (rtt_exec c op).
Proof.
  intros HI Hwf. destruct op; simpl in *.
  - by apply bindLeg_good.
  - by apply recordHandshakeSample_good.
  - by apply invalidateLeg_good.
  - by apply startProbeAt_good.
  - by apply cancelProbe_good.
  - by apply expirePending_good.
  - apply acceptProbe_good; [done|apply Hwf].
  - apply acceptEcho_good; [done|apply Hwf].
  - by apply close_good.
Qed.

Lemma run_good ops c : cache_inv c -> Forall rop_wf ops -> good c (rtt_run ops c).
Proof.
  revert c. induction ops as [|op ops IH]; intros c HI Hwf; [by apply good_refl|].
  apply Forall_cons in Hwf as [H1 H2]. pose proof (exec_good c op HI H1) as HG.
  eapply good_trans; [exact HG|]. apply IH; [apply HG|done].
Qed.

Lemma new_cache_inv n : cache_inv (newStreamRTTProbeCacheForLegs n).
Proof.
  unfold newStreamRTTProbeCacheForLegs. set (k := if _ || _ then 2 else n).
  assert (1 <= k <= MaxStreamLegIDCount) as Hk.
  { subst k. unfold MaxStreamLegIDCount. destruct (_ || _) eqn:E; [lia|]. bool_prop. lia. }
  assert (forall id, leg_at (MkCache k false (replicate (Z.to_nat k) zero_leg) 0 ∅ 0) id = zero_leg) as EL.
  { intros id. unfold leg_at, slice_get. simpl. case_bool_decide; [|done].
    destruct (replicate _ _ !! _) eqn:E; [|done]. by apply lookup_replicate in E as [-> _]. }
  split; simpl; try done.
  - unfold slen. rewrite length_replicate. lia.
  - intros id. rewrite EL. apply zero_leg_ok.
Qed.

(** After any sequence of calls the cache is well formed: every pending probe
    has its own token, not above the last one issued, and belongs to the carrier
    that is bound now; no leg has more than eight of them; a bound carrier is the
    newest generation of its leg and is what lock-free readers see; at most five
    samples per direction, in time order, each above zero and below the two-second
    timeout, and published for exactly that carrier and direction. *)
Theorem rtt_cache_invariant maxLegs ops :
  Forall rop_wf ops -> cache_inv (rtt_run ops (newStreamRTTProbeCacheForLegs maxLegs)).
Proof. intros Hwf. apply run_good; [apply new_cache_inv|done]. Qed.

Definition example_id : StreamPathIdentity :=
  MkIdentity (str "0123456789abcdef") 1 (str "carrier-a") 7 StreamRTTClientToServer.
Definition example_auth : StreamPathAuth :=
  MkAuth (str "0123456789abcdef") 1 StreamCapabilityPathRTT (zero_bytes 32) (zero_bytes 32)
    (zero_bytes 16) true (50 * Millisecond) 5.
(** Bind, seed from the handshake, probe twice, answer one echo, let the other expire. *)
Definition example_rtt_ops : list rtt_op :=
  [rop_bind (binding example_id) example_auth;
   rop_handshake (binding example_id) example_id example_auth (1 * Second);
   rop_start example_id (2 * Second); rop_start example_id (3 * Second);
   rop_echo example_id 1 (2 * Second + 40 * Millisecond); rop_expire (6 * Second)].
Lemma example_rtt_ops_wf : Forall rop_wf example_rtt_ops.
Proof. repeat constructor; done. Qed.

Lemma rtt_cache_invariant_witness :
  cache_inv (rtt_run example_rtt_ops (newStreamRTTProbeCacheForLegs 2)) /\
  map sm_rtt (dir_c2s (rl_samples (leg_at (rtt_run example_rtt_ops
    (newStreamRTTProbeCacheForLegs 2)) 1))) = [50 * Millisecond; 40 * Millisecond].
Proof.
  split; [|vm_compute; reflexivity]. apply (rtt_cache_invariant 2 example_rtt_ops example_rtt_ops_wf).
Defined.

(** ** At most once *)

Lemma acceptEcho_unchanged c i t now :
  rc_pending c !! t = None -> exists e, acceptEcho_commit c i t now = (Some e, c).
Proof. intros H. unfold acceptEcho_commit. split_if E; [eauto|]. rewrite H. eauto. Qed.

Lemma acceptEcho_retires c i t now :
  (exists e, acceptEcho_commit c i t now = (Some e, c)) \/
  (is_Some (rc_pending c !! t) /\ rc_pending (acceptEcho_commit c i t now).2 !! t = None).
Proof.
  unfold acceptEcho_commit. split_if E; [eauto|]. destruct (rc_pending c !! t) as [p|]; [|eauto].
  split_if E1; [eauto|]. right. split; [by exists p|].
  split_if E2; [by apply lookup_delete_eq|]. split_if E3; [by apply lookup_delete_eq|].
  simpl. unfold recordSampleLocked. split_if E4; by apply lookup_delete_eq.
Qed.

(** C32. At most one sample per probe and one echo per peer probe.  A token whose
    pending probe is gone (answered, expired, cancelled or dropped with its
    carrier) is never pending again, whatever calls follow, so an echo carrying it
    is refused and changes nothing; accepting an echo makes its token one of
    those.  On the other side, once a probe has been echoed, a probe of the same
    carrier and direction with the same or an older token is refused for ever. *)
Theorem rtt_at_most_once c ops :
  cache_inv c -> Forall rop_wf ops ->
  (forall t, t <= rc_nextToken c -> rc_pending c !! t = None ->
     let c' := rtt_run ops c in
     rc_pending c' !! t = None /\ forall i now, exists e, acceptEcho_commit c' i t now = (Some e, c')) /\
  (forall i t now, (exists e, acceptEcho_commit c i t now = (Some e, c)) \/
     (is_Some (rc_pending c !! t) /\ rc_pending (acceptEcho_commit c i t now).2 !! t = None)) /\
  (forall b m m' echo c1, acceptProbe_commit c b m = (Ok echo, c1) ->
     valid_dir (id_Direction (rtt_Identity m)) ->
     id_Direction (rtt_Identity m') = id_Direction (rtt_Identity m) -> rtt_Token m' <= rtt_Token m ->
     let c' := rtt_run ops c1 in exists e, acceptProbe_commit c' b m' = (Err e, c')).
Proof.
  intros HI Hwf. split_and!.
  - intros t Ht HN c'. destruct (run_good ops c HI Hwf) as [_ HE].
    assert (rc_pending c' !! t = None) as HN'.
    { destruct (rc_pending c' !! t) eqn:E; [|done]. apply (ev_pending _ _ HE) in E; [congruence|done]. }
    split; [done|]. intros i now. by apply acceptEcho_unchanged.
  - intros. apply acceptEcho_retires.
  - intros b m m' echo c1 E Hd Hd' Ht c'.
    pose proof (acceptProbe_good c b m HI Hd) as [HI1 _]. rewrite E in HI1. simpl in HI1.
    destruct (run_good ops c1 HI1 Hwf) as [HI2 HE]. fold c' in HE, HI2.
    unfold acceptProbe_commit in *.
    destruct (rc_closed c || negb (bound c b)) eqn:Eb; [done|].
    apply orb_false_iff in Eb as [_ Hb%negb_false_iff]. pose proof (bound_range _ _ Hb) as Hid.
    apply bound_spec in Hb as [Ha HB].
    split_if E1; [by eauto|]. apply orb_false_iff in E1 as [_ [Ha' HB']%negb_false_iff%bound_spec].
    destruct (bool_decide (rtt_Token m <= _)); [done|].
    destruct (encodeStreamRTTMessage (MkRTT StreamRTTEcho (rtt_Identity m) _) _); [|done].
    injection E as _ <-.
    pose proof (le_same _ _ _ (ev_legs _ _ HE (bd_LegID b))) as HS.
    rewrite leg_at_set, bool_decide_eq_true_2 in HS by done.
    destruct HS as (_ & _ & _ & HL); [|done|].
    { simpl. destruct (lk_active _ _ _ (ci_legs _ HI2 (bd_LegID b)) Ha') as (_ & G1 & _).
      destruct (lk_active _ _ _ (ci_legs _ HI (bd_LegID b)) Ha) as (_ & G2 & _). congruence. }
    specialize (HL _ Hd). simpl in HL. rewrite dir_get_set, bool_decide_eq_true_2 in HL by done.
    rewrite Hd', bool_decide_eq_true_2 by lia. eauto.
Qed.

Definition answered_cache : streamRTTProbeCache :=
  rtt_run (take 5 example_rtt_ops) (newStreamRTTProbeCacheForLegs 2).
Lemma answered_cache_inv : cache_inv answered_cache.
Proof. apply run_good; [apply new_cache_inv|]. apply Forall_take, example_rtt_ops_wf. Qed.
Lemma answered_cache_facts : 1 <= rc_nextToken answered_cache /\ rc_pending answered_cache !! 1 = None.
Proof. vm_compute. split; congruence. Qed.

Lemma rtt_at_most_once_witness :
  exists e, acceptEcho_commit (rtt_run [rop_start example_id (4 * Second)] answered_cache)
    example_id 1 (4 * Second)
  = (Some e, rtt_run [rop_start example_id (4 * Second)] answered_cache).
Proof.
  destruct answered_cache_facts as [F1 F2].
  destruct (rtt_at_most_once answered_cache [rop_start example_id (4 * Second)] answered_cache_inv)
    as [H _]; [repeat constructor; done|].
  destruct (H 1 F1 F2) as [_ HE]. apply HE.
Defined.

(** ** The two critical sections *)

(** While the same carrier stays bound, its key does not change. *)
Lemma key_stable c1 c2 b :
  cache_inv c1 -> cache_inv c2 -> evolves c1 c2 -> bound c1 b = true -> bound c2 b = true ->
  rl_probeKey (leg_at c2 (bd_LegID b)) = rl_probeKey (leg_at c1 (bd_LegID b)).
Proof.
  intros HI1 HI2 HE [Ha HB]%bound_spec [Ha' HB']%bound_spec.
  destruct (le_same _ _ _ (ev_legs _ _ HE (bd_LegID b))) as (_ & _ & E & _); try done.
  destruct (lk_active _ _ _ (ci_legs _ HI1 (bd_LegID b)) Ha) as (_ & G1 & _).
  destruct (lk_active _ _ _ (ci_legs _ HI2 (bd_LegID b)) Ha') as (_ & G2 & _). congruence.
Qed.

(** Releasing the lock to check a message is harmless.  Whatever calls run
    between the two critical sections of [acceptEchoAt] or [acceptProbe], the call
    either is refused without any effect or does exactly what it would do, message
    check included, if it ran atomically at its second critical section. *)
Theorem accept_linearizable c1 ops :
  cache_inv c1 -> Forall rop_wf ops ->
  let c2 := rtt_run ops c1 in
  (forall i wire now,
     acceptEchoAt c1 c2 i wire now = acceptEchoAt c2 c2 i wire now \/
     exists e, acceptEchoAt c1 c2 i wire now = (Some e, c2)) /\
  (forall b d wire,
     acceptProbe c1 c2 b d wire = acceptProbe c2 c2 b d wire \/
     exists e, acceptProbe c1 c2 b d wire = (Err e, c2)).
Proof.
  intros HI Hwf c2. destruct (run_good ops c1 HI Hwf) as [HI2 HE]. fold c2 in HI2, HE. split.
  - intros i wire now. unfold acceptEchoAt, acceptEcho_begin. rewrite (ev_max _ _ HE).
    split_if E0; [by left|]. split_if E1; [simpl; eauto|].
    destruct (rc_closed c2 || negb (bound c2 (binding i))) eqn:E2.
    + right. simpl. unfold acceptEcho_commit. rewrite E2.
      destruct (decodeStreamRTTMessage _ _ _); simpl; [|eauto]. split_if E3; eauto.
    + left. apply orb_false_iff in E1 as [_ E1%negb_false_iff], E2 as [_ E2%negb_false_iff].
      pose proof (key_stable _ _ _ HI HI2 HE E1 E2) as EK. cbn [bd_LegID binding] in EK. by rewrite EK.
  - intros b d wire. unfold acceptProbe, acceptProbe_begin. rewrite (ev_max _ _ HE).
    split_if E0; [by left|]. split_if E1; [simpl; eauto|].
    destruct (rc_closed c2 || negb (bound c2 b)) eqn:E2.
    + right. simpl. unfold acceptProbe_commit. rewrite E2.
      destruct (decodeStreamRTTMessage _ _ _); simpl; [|eauto]. split_if E3; eauto.
    + left. apply orb_false_iff in E1 as [_ E1%negb_false_iff], E2 as [_ E2%negb_false_iff].
      by rewrite (key_stable _ _ _ HI HI2 HE E1 E2).
Qed.

Lemma accept_linearizable_witness :
  let c2 := rtt_run [rop_invalidate (binding example_id)] answered_cache in
  acceptEchoAt answered_cache c2 example_id [] 0 = acceptEchoAt c2 c2 example_id [] 0 \/
  exists e, acceptEchoAt answered_cache c2 example_id [] 0 = (Some e, c2).
Proof.
  destruct (accept_linearizable answered_cache [rop_invalidate (binding example_id)]
    answered_cache_inv) as [H _]; [repeat constructor; done|].
  exact (H example_id [] 0).
Defined.

(** ** A complete round trip *)

(** A message decodes at the other end, under that end's own carrier name and
    generation: only the session, the leg and the direction are on the wire. *)
Lemma rtt_cross_decode m key wire b :
  rtt_wf m -> encodeStreamRTTMessage m key = Ok wire -> validateStreamPathBinding b = None ->
  bd_SessionID b = id_SessionID (rtt_Identity m) -> bd_LegID b = id_LegID (rtt_Identity m) ->
  decodeStreamRTTMessage wire key b
  = Ok (MkRTT (rtt_Kind m) (MkIdentity (bd_SessionID b) (bd_LegID b) (bd_CarrierID b)
          (bd_Generation b) (id_Direction (rtt_Identity m))) (rtt_Token m)).
Proof.
  intros Hwf He Hb HS HL. destruct m as [k [s l car gen d] tok], b as [s' l' car' gen'].
  simpl in *. subst s' l'.
  destruct (rtt_decode_encoded (MkRTT k (MkIdentity s l car' gen' d) tok) key wire) as [_ H];
    [done| |exact H].
  unfold encodeStreamRTTMessage in *. destruct (validateStreamRTTMessage _) eqn:E; [done|].
  apply validateStreamRTTMessage_None in E as (_ & E1 & E2 & E3).
  rewrite (proj2 (validateStreamRTTMessage_None _)); done.
Qed.

Lemma startProbeAt_ok c i now token wire c' :
  startProbeAt c i now = (Ok (token, wire), c') ->
  valid_dir (id_Direction i) /\ id_LegID i < rc_maxLegs c /\ bound c (binding i) = true /\
  token = rc_nextToken c + 1 /\
  encodeStreamRTTMessage (MkRTT StreamRTTProbe i token) (rl_probeKey (leg_at c (id_LegID i))) = Ok wire.
Proof.
  unfold startProbeAt. split_if E0; [done|]. apply orb_false_iff in E0 as [Hd%negb_false_iff Hl%bool_decide_eq_false].
  split_if E1; [done|]. split_if E2; [done|]. apply negb_false_iff in E2.
  split_if E3; [done|]. split_if E4; [done|].
  change (rl_probeKey (leg_at (expirePendingLocked now c).2 (id_LegID i)))
    with (rl_probeKey (leg_at c (id_LegID i))).
  change (rc_nextToken (expirePendingLocked now c).2) with (rc_nextToken c).
  destruct (encodeStreamRTTMessage _ _) as [w|] eqn:Ew; [|done].
  intros E. injection E as <- <- _. split_and!; try done. lia.
Qed.

Lemma bound_open c b : cache_inv c -> bound c b = true -> rc_closed c || negb (bound c b) = false.
Proof.
  intros HI Hb. rewrite Hb, orb_false_r. destruct (rc_closed c) eqn:Hc; [|done].
  apply bound_spec in Hb as [Ha _]. by rewrite (ci_closed _ HI Hc) in Ha.
Qed.

Lemma bound_valid c b : cache_inv c -> bound c b = true -> validateStreamPathBinding b = None.
Proof.
  intros HI [Ha HB]%bound_spec. destruct (lk_active _ _ _ (ci_legs _ HI _) Ha) as (_ & _ & H & _).
  by rewrite HB in H.
Qed.

(** The other end answers a fresh probe. *)
Lemma acceptProbe_answers c b key m wire :
  cache_inv c -> bound c b = true -> rl_probeKey (leg_at c (bd_LegID b)) = key ->
  rtt_wf m -> rtt_Kind m = StreamRTTProbe -> valid_dir (id_Direction (rtt_Identity m)) ->
  encodeStreamRTTMessage m key = Ok wire ->
  bd_SessionID b = id_SessionID (rtt_Identity m) -> bd_LegID b = id_LegID (rtt_Identity m) ->
  dir_get (id_Direction (rtt_Identity m)) (rl_lastPeerToken (leg_at c (bd_LegID b))) < rtt_Token m ->
  exists echo c' me, acceptProbe c c b (id_Direction (rtt_Identity m)) wire = (Ok echo, c') /\
    encodeStreamRTTMessage me key = Ok echo /\ rtt_wf me /\ rtt_Kind me = StreamRTTEcho /\
    id_SessionID (rtt_Identity me) = id_SessionID (rtt_Identity m) /\
    id_LegID (rtt_Identity me) = id_LegID (rtt_Identity m) /\
    id_Direction (rtt_Identity me) = id_Direction (rtt_Identity m) /\ rtt_Token me = rtt_Token m.
Proof.
  intros HI Hb HK Hwf Hk Hd He HS HL Ht. pose proof (bound_valid _ _ HI Hb) as Hv.
  pose proof (bound_range _ _ Hb) as Hr. rewrite (ci_len _ HI) in Hr.
  unfold acceptProbe, acceptProbe_begin. rewrite bool_decide_eq_false_2 by lia.
  rewrite Hd, (bound_open _ _ HI Hb). cbn [orb negb]. rewrite HK. cbn [result_bind].
  rewrite (rtt_cross_decode m key wire b) by done. cbn [result_bind].
  rewrite Hk. cbn [rtt_Kind rtt_Identity id_Direction]. rewrite !bool_decide_ne_refl. cbn [orb].
  unfold acceptProbe_commit. rewrite (bound_open _ _ HI Hb). cbn [rtt_Kind rtt_Identity id_Direction rtt_Token].
  rewrite bool_decide_eq_false_2 by lia. rewrite HK.
  set (me := MkRTT StreamRTTEcho _ _).
  assert (validateStreamRTTMessage me = None) as Hve.
  { unfold encodeStreamRTTMessage in He. destruct (validateStreamRTTMessage m) eqn:E; [done|].
    apply validateStreamRTTMessage_None in E as (_ & _ & E2 & E3).
    apply validateStreamRTTMessage_None. simpl. split_and!; try done; first [by destruct b|by right]. }
  assert (encodeStreamRTTMessage me key = Ok (rtt_prefix me ++ streamRTTMessageMAC key (rtt_prefix me))) as Ee
    by (unfold encodeStreamRTTMessage; by rewrite Hve).
  rewrite Ee. eexists _, _, me. split; [reflexivity|]. split; [exact Ee|].
  destruct Hwf as (_ & (? & ? & ?) & ?).
  split; [split_and!; [done|split_and!; simpl; congruence|done]|]. simpl. by rewrite HS, HL.
Qed.

(** Our end accepts the echo of a pending probe. *)
Lemma acceptEcho_accepts c i started now me echo :
  cache_inv c -> id_Direction i = id_Direction (rtt_Identity me) ->
  rc_pending c !! rtt_Token me = Some (MkPending i started) ->
  encodeStreamRTTMessage me (rl_probeKey (leg_at c (id_LegID i))) = Ok echo -> rtt_wf me ->
  rtt_Kind me = StreamRTTEcho -> id_SessionID (rtt_Identity me) = id_SessionID i ->
  id_LegID (rtt_Identity me) = id_LegID i -> 0 < now - started < StreamRTTProbeTimeout ->
  acceptEchoAt c c i echo now
  = (None, recordSampleLocked i (now - started) now (c <| rc_pending ::= delete (rtt_Token me) |>)).
Proof.
  intros HI Hd Hp He Hwf Hk HS HL Hr. destruct (ci_pending _ HI _ _ Hp) as (_ & Hb & Hdir).
  simpl in Hb, Hdir. pose proof (bound_range _ _ Hb) as Hrg. rewrite (ci_len _ HI) in Hrg.
  cbn [bd_LegID binding] in Hrg. unfold acceptEchoAt, acceptEcho_begin.
  rewrite bool_decide_eq_false_2 by lia. rewrite Hdir, (bound_open _ _ HI Hb). cbn [orb negb result_bind].
  rewrite (rtt_cross_decode me _ echo (binding i)); try done; [|by eapply bound_valid].
  cbn [result_bind rtt_Kind rtt_Identity id_Direction rtt_Token]. rewrite Hk, <- Hd, !bool_decide_ne_refl.
  cbn [orb rtt_Token]. unfold acceptEcho_commit. rewrite (bound_open _ _ HI Hb), Hp. cbn [pd_identity pd_started].
  rewrite bool_decide_ne_refl. unfold StreamRTTProbeTimeout, Second in *.
  assert (time_sub now started = now - started) as -> by (apply time_sub_small; unfold is_i64; lia).
  unfold before. rewrite bool_decide_eq_false_2 by lia. rewrite bool_decide_eq_false_2 by lia.
  cbn [orb]. rewrite bool_decide_eq_false_2 by lia. done.
Qed.

(** C31. A probe measures its round trip.  Two ends that hold the same probe key
    for a session's leg, each under its own carrier name and generation: the probe
    one end starts is answered by the other if its token is fresh there, and if it
    is still pending when the echo arrives, after any other calls and within the
    timeout, the echo is accepted, retires exactly that token and records exactly
    the elapsed time. *)
Theorem rtt_round_trip cA i now token wire cA' cB b ops now' :
  cache_inv cA -> cache_inv cB -> identity_wf i ->
  startProbeAt cA i now = (Ok (token, wire), cA') ->
  bound cB b = true -> bd_SessionID b = id_SessionID i -> bd_LegID b = id_LegID i ->
  rl_probeKey (leg_at cB (id_LegID i)) = rl_probeKey (leg_at cA (id_LegID i)) ->
  dir_get (id_Direction i) (rl_lastPeerToken (leg_at cB (id_LegID i))) < token ->
  Forall rop_wf ops ->
  let c := rtt_run ops cA' in
  rc_pending c !! token = Some (MkPending i now) -> 0 < now' - now < StreamRTTProbeTimeout ->
  exists echo cB',
    acceptProbe cB cB b (id_Direction i) wire = (Ok echo, cB') /\
    acceptEchoAt c c i echo now'
    = (None, recordSampleLocked i (now' - now) now' (c <| rc_pending ::= delete token |>)).
Proof.
  intros HA HB Hi Hs Hb HS HL HK Ht Hwf c Hp Hr.
  pose proof (startProbeAt_good cA i now HA) as [HA' HE]. rewrite Hs in HA', HE. cbn [snd] in HA', HE.
  destruct (run_good ops cA' HA' Hwf) as [HC HE2]. fold c in HC, HE2.
  destruct (startProbeAt_ok _ _ _ _ _ _ Hs) as (Hd & _ & HbA & Etok & He).
  assert (is_u64 token) as Htok.
  { pose proof (ci_token _ HC) as [_ ?]. destruct (ci_pending _ HC _ _ Hp) as ((? & ?) & _). unfold is_u64. lia. }
  assert (rtt_wf (MkRTT StreamRTTProbe i token)) as Hwm by (by split_and!).
  destruct (acceptProbe_answers cB b _ (MkRTT StreamRTTProbe i token) wire HB Hb eq_refl Hwm eq_refl)
    as (echo & cB' & me & E1 & E2 & E3 & E4 & E5 & E6 & E7 & E8); simpl; try done;
    [by rewrite HL, HK|by rewrite HL|].
  simpl in *. exists echo, cB'. split; [exact E1|]. rewrite <- E8.
  destruct (ci_pending _ HC _ _ Hp) as (_ & Hbc & _). simpl in Hbc.
  assert (evolves cA c) as HE3 by (by transitivity cA').
  pose proof (key_stable _ _ _ HA HC HE3 HbA Hbc) as EK. cbn [bd_LegID binding] in EK.
  apply acceptEcho_accepts; try done; [by rewrite E8|]. by rewrite EK, <- HK, <- HL.
Qed.

Definition cache_a : streamRTTProbeCache :=
  rtt_run [rop_bind (binding example_id) example_auth] newStreamRTTProbeCache.
Definition binding_b : StreamPathBinding := MkBinding (str "0123456789abcdef") 1 (str "carrier-b") 3.
Definition cache_b : streamRTTProbeCache :=
  rtt_run [rop_bind binding_b example_auth] newStreamRTTProbeCache.
Lemma cache_a_inv : cache_inv cache_a.
Proof. apply run_good; [apply new_cache_inv|repeat constructor; done]. Qed.
Lemma cache_b_inv : cache_inv cache_b.
Proof. apply run_good; [apply new_cache_inv|repeat constructor; done]. Qed.
Lemma example_probe_started :
  match startProbeAt cache_a example_id (2 * Second) with
  | (Ok (t, _), c') => t = 1 /\ rc_pending c' !! 1 = Some (MkPending example_id (2 * Second))
  | _ => False
  end.
Proof. vm_compute. split; reflexivity. Qed.
Lemma example_ends :
  bound cache_b binding_b = true /\
  rl_probeKey (leg_at cache_b (id_LegID example_id)) = rl_probeKey (leg_at cache_a (id_LegID example_id)) /\
  dir_get (id_Direction example_id) (rl_lastPeerToken (leg_at cache_b (id_LegID example_id))) < 1.
Proof. vm_compute. split; [reflexivity|]. split; reflexivity. Qed.

Lemma example_id_wf : identity_wf example_id.
Proof. unfold identity_wf, is_u8. split; [reflexivity|]. vm_compute. intuition congruence. Qed.

Lemma rtt_round_trip_witness :
  exists token wire cA' echo cB',
    startProbeAt cache_a example_id (2 * Second) = (Ok (token, wire), cA') /\
    acceptProbe cache_b cache_b binding_b (id_Direction example_id) wire = (Ok echo, cB') /\
    (acceptEchoAt cA' cA' example_id echo (2 * Second + 30)).1 = None.
Proof.
  pose proof example_probe_started as HP.
  destruct (startProbeAt cache_a example_id (2 * Second)) as [[[token wire]|e] cA'] eqn:E; [|contradiction].
  destruct HP as [-> HP]. destruct example_ends as (F1 & F2 & F3).
  destruct (rtt_round_trip cache_a example_id (2 * Second) 1 wire cA' cache_b binding_b []
    (2 * Second + 30) cache_a_inv cache_b_inv) as (echo & cB' & H1 & H2);
    [exact example_id_wf|exact E|exact F1|reflexivity|reflexivity|exact F2|exact F3
    |constructor|exact HP|unfold StreamRTTProbeTimeout, Second; lia|].
  exists 1, wire, cA', echo, cB'. split; [reflexivity|]. split; [exact H1|].
  change (rtt_run [] cA') with cA' in H2. rewrite H2. reflexivity.
Defined.

(** ** Feedback *)

Lemma sorted_lookup (s : list Z) i j x y :
  StronglySorted Z.le s -> (i <= j)%nat -> s !! i = Some x -> s !! j = Some y -> x <= y.
Proof.
  intros Hs. revert i j. induction Hs as [|z s Hs IH Hz]; intros i j Hij Hi Hj; [done|].
  destruct i as [|i], j as [|j]; simpl in *; try lia.
  - simplify_eq. done.
  - simplify_eq. rewrite Forall_forall in Hz. apply Hz. by eapply list_elem_of_lookup_2.
  - apply (IH i j); [lia|done|done].
Qed.

(** The median splits a sorted list: the lower half is not above it and the upper
    half not below it. *)
Lemma median_splits (s : list Z) j x :
  StronglySorted Z.le s -> s !! j = Some x ->
  ((2 * j < length s)%nat -> x <= median s) /\ ((length s <= 2 * j + 1)%nat -> median s <= x).
Proof.
  intros Hs Hj. pose proof (lookup_lt_Some _ _ _ Hj) as Hlt.
  unfold median. set (n := length s) in *. pose proof (Nat.div_mod_eq n 2) as Hn.
  pose proof (Nat.mod_upper_bound n 2 ltac:(lia)) as Hm. set (k := (n / 2)%nat) in *.
  destruct (lookup_lt_is_Some_2 s k) as [h Hh]; [fold n; lia|]. rewrite Hh. cbn [from_option id].
  case_bool_decide as Hev.
  - destruct (lookup_lt_is_Some_2 s (k - 1)) as [l Hl]; [fold n; lia|]. rewrite Hl. cbn [from_option id].
    assert (l <= h) by (eapply (sorted_lookup s (k - 1) k); [done|lia|done|done]).
    assert (0 <= Z.quot (h - l) 2 <= h - l).
    { rewrite Z.quot_div_nonneg by lia. split; [apply Z.div_pos; lia|].
      apply Z.div_le_upper_bound; lia. }
    split; intros.
    + assert (x <= l) by (eapply (sorted_lookup s j (k - 1)); [done|lia|done|done]). lia.
    + assert (h <= x) by (eapply (sorted_lookup s k j); [done|lia|done|done]). lia.
  - split; intros; [eapply (sorted_lookup s j k)|eapply (sorted_lookup s k j)]; try done; lia.
Qed.

Lemma window_end_from l e : e <= window_end e l.
Proof.
  unfold window_end. revert e. induction l as [|y l IH]; intros e; simpl; [lia|].
  etrans; [|apply IH]. unfold after. case_bool_decide; lia.
Qed.

Lemma window_end_ge now l s : s ∈ l -> sm_at s <= window_end now l.
Proof.
  revert now. induction l as [|y l IH]; intros now Hin; [by apply not_elem_of_nil in Hin|].
  change (window_end now (y :: l)) with (window_end (if after (sm_at y) now then sm_at y else now) l).
  apply elem_of_cons in Hin as [->|Hin]; [|by apply IH].
  etrans; [|apply window_end_from]. unfold after. case_bool_decide; lia.
Qed.

Lemma median_range (s : list Z) lo hi :
  StronglySorted Z.le s -> s <> [] -> Forall (fun x => lo < x < hi) s -> lo < median s < hi.
Proof.
  intros Hs Hne HF. assert (0 < length s)%nat as Hl by (destruct s; simpl; [done|lia]).
  destruct (lookup_lt_is_Some_2 s 0 Hl) as [x Hx].
  destruct (lookup_lt_is_Some_2 s (length s - 1)) as [y Hy]; [lia|].
  destruct (median_splits s _ _ Hs Hx) as [H1 _]. destruct (median_splits s _ _ Hs Hy) as [_ H2].
  pose proof (Forall_lookup_1 _ _ _ _ HF Hx). pose proof (Forall_lookup_1 _ _ _ _ HF Hy).
  simpl in *. lia.
Qed.

(** A view loaded twice was there in between. *)
Lemma view_between c1 c2 c3 id v b :
  cache_inv c1 -> cache_inv c2 -> evolves c1 c2 -> evolves c2 c3 ->
  rl_activeView (leg_at c1 id) = Some (v, b) -> rl_activeView (leg_at c3 id) = Some (v, b) ->
  rl_active (leg_at c2 id) = true /\ rl_binding (leg_at c2 id) = b.
Proof.
  intros HI1 HI2 HE1 HE2 H1 H3.
  assert (v < rc_stores c1) as Hv.
  { pose proof (ci_legs _ HI1 id) as L. destruct (rl_active (leg_at c1 id)) eqn:Ha.
    - destruct (lk_active _ _ _ L Ha) as (_ & _ & _ & v' & ? & Ev). rewrite H1 in Ev.
      injection Ev as -> _. lia.
    - destruct (lk_inactive _ _ _ L Ha) as [Ev _]. congruence. }
  assert (rl_activeView (leg_at c2 id) = Some (v, b)) as H2.
  { apply (le_view _ _ _ (ev_legs _ _ HE2 id)); [done|]. pose proof (ev_stores _ _ HE1). lia. }
  pose proof (ci_legs _ HI2 id) as L. destruct (rl_active (leg_at c2 id)) eqn:Ha.
  - destruct (lk_active _ _ _ L Ha) as (_ & _ & _ & v' & _ & Ev). split; [done|congruence].
  - destruct (lk_inactive _ _ _ L Ha) as [Ev _]. congruence.
Qed.

Lemma fresh_rtts_range now l :
  samples_ok l ->
  let fresh := List.filter (fresh_sample now) l in
  (length fresh <= 5)%nat /\ Forall (fun x => 0 < x < StreamRTTProbeTimeout) (map sm_rtt fresh).
Proof.
  intros (Hlen & _ & Hrtt) fresh. split.
  - etrans; [|exact Hlen]. apply List.filter_length_le.
  - apply Forall_forall. intros x (s & -> & Hs)%list_elem_of_fmap.
    rewrite Forall_forall in Hrtt. apply Hrtt. subst fresh.
    rewrite list_elem_of_In in *. by apply filter_In in Hs as [].
Qed.

(** What the scheduler reads.  The feedback a lock-free read returns, with any
    calls between its three atomic loads, is for a carrier that was bound when the
    samples were loaded: it is computed from the one to five samples of exactly that
    carrier and direction taken within the last thirty seconds, its RTT lies above
    zero and below the two-second timeout, half of the samples are not above it and
    half not below it, and none is newer than the reported observation time. *)
Theorem path_feedback_median c1 ops1 ops2 i now fb :
  cache_inv c1 -> Forall rop_wf ops1 -> Forall rop_wf ops2 ->
  let c2 := rtt_run ops1 c1 in
  let c3 := rtt_run ops2 c2 in
  pathFeedbackAt c1 c2 c3 i now = Some fb ->
  let samples := List.filter (fresh_sample now)
                   (dir_get (id_Direction i) (rl_samples (leg_at c2 (id_LegID i)))) in
  bound c2 (binding i) = true /\ fb_Identity fb = i /\
  fb_Samples fb = Z.of_nat (length samples) /\ 1 <= fb_Samples fb <= 5 /\
  0 < fb_RTT fb < StreamRTTProbeTimeout /\
  (exists sorted, sorted ≡ₚ map sm_rtt samples /\ StronglySorted Z.le sorted /\
     forall j x, sorted !! j = Some x ->
       ((2 * j < length sorted)%nat -> x <= fb_RTT fb) /\
       ((length sorted <= 2 * j + 1)%nat -> fb_RTT fb <= x)) /\
  (forall s, s ∈ samples -> sm_at s <= fb_ObservedAt fb).
Proof.
  intros HI H1 H2 c2 c3. destruct (run_good ops1 c1 HI H1) as [HI2 HE12]. fold c2 in HI2, HE12.
  destruct (run_good ops2 c2 HI2 H2) as [HI3 HE23]. fold c3 in HI3, HE23.
  unfold pathFeedbackAt. split_if E0; [done|]. apply orb_false_iff in E0 as [_ Hd%negb_false_iff].
  destruct (rl_activeView (leg_at c1 (id_LegID i))) as [[v b]|] eqn:Ev; [|done].
  split_if E1; [done|]. apply bool_decide_eq_false, dec_stable in E1. subst b.
  destruct (dir_get (id_Direction i) (rl_feedback (leg_at c2 (id_LegID i)))) as [pb|] eqn:Efb; [|done].
  split_if E2; [done|]. apply bool_decide_eq_false, dec_stable in E2.
  split_if E3; [done|]. apply orb_false_iff in E3 as [E3%bool_decide_eq_false E4%bool_decide_eq_false%dec_stable].
  pose proof (ci_legs _ HI2 (id_LegID i)) as L2.
  destruct (lk_feedback _ _ _ L2 _ _ Hd Efb) as (_ & _ & Es). rewrite Es in *.
  set (samples := List.filter _ _) in *. intros [= <-]. cbn zeta.
  cbn [fb_Identity fb_Samples fb_RTT fb_ObservedAt].
  destruct (fresh_rtts_range now _ (lk_samples _ _ _ L2 (id_Direction i))) as [Hl5 HF].
  fold samples in Hl5, HF. set (sorted := insertion_sort (fun d => d) (map sm_rtt samples)).
  assert (sorted ≡ₚ map sm_rtt samples) as HP by apply insertion_sort_perm.
  assert (StronglySorted Z.le sorted) as HSt by apply (insertion_sort_sorted (fun d => d)).
  assert (length sorted = length samples) as HLn by (by rewrite HP, length_map).
  assert (0 < median sorted < StreamRTTProbeTimeout) as HM.
  { apply median_range; [done| |by rewrite HP]. intros E. rewrite E in HLn. simpl in HLn. lia. }
  split_and!; try done; try lia.
  - apply bound_spec. by apply (view_between c1 c2 c3 (id_LegID i) v).
  - exists sorted. split_and!; try done. intros j x Hj. by apply median_splits.
  - intros s Hs. by apply window_end_ge.
Qed.

Lemma answered_feedback :
  match pathFeedbackAt answered_cache answered_cache answered_cache example_id (4 * Second) with
  | Some fb => fb_RTT fb = 45 * Millisecond
  | None => False
  end.
Proof. vm_compute. reflexivity. Qed.

Lemma path_feedback_median_witness :
  exists fb, pathFeedbackAt answered_cache answered_cache answered_cache example_id (4 * Second) = Some fb /\
    fb_RTT fb = 45 * Millisecond /\ 0 < fb_RTT fb < StreamRTTProbeTimeout.
Proof.
  pose proof answered_feedback as HV.
  destruct (pathFeedbackAt answered_cache answered_cache answered_cache example_id (4 * Second))
    as [fb|] eqn:E; [|contradiction].
  destruct (path_feedback_median answered_cache [] [] example_id (4 * Second) fb answered_cache_inv
    (Forall_nil_2 _) (Forall_nil_2 _) E) as (_ & _ & _ & _ & HR & _).
  exists fb. split; [reflexivity|]. split; [exact HV|exact HR].
Defined.
