(* ===== verification/Datagram.v ===== *)
(** * Datagram frames and the duplicate filter

    [core/datagram_engine.go]: the configuration with its defaults, the
    DATAGRAM frame codec with its address field, and the receive-side filter
    that suppresses the second copy of a datagram sent on several legs.  The
    engine around them is [DatagramEngine]. *)

From S2P Require Import Prelude Bytes Wire.
From stdpp Require Import options.

(** ** Configuration *)

Definition DatagramFrameType : Z := 5.
Definition MaxDatagramPayload : Z := 16 * 1024.
Definition MaxDatagramAddressSize : Z := 512.

Inductive DatagramMode := DatagramStripe | DatagramDuplicate | DatagramAdaptive.
#[export] Instance DatagramMode_eq_dec : EqDecision DatagramMode.
Proof. solve_decision. Defined.

Record DatagramConfig := MkDatagramConfig {
  cfg_Mode : DatagramMode;
  cfg_QueueFrames : Z;
  cfg_MaxDatagramSize : Z;
  cfg_DedupWindow : Z; (* uint64 *)
  cfg_IdleTimeout : duration;
  cfg_RecoveryTimeout : duration;
  cfg_AdaptiveQueueDelay : duration;
  cfg_AdaptiveDuplicateThreshold : Z
}.
#[export] Instance DatagramConfig_fields : Fields DatagramConfig := fun c =>
  MkDatagramConfig (cfg_Mode c) (cfg_QueueFrames c) (cfg_MaxDatagramSize c) (cfg_DedupWindow c)
    (cfg_IdleTimeout c) (cfg_RecoveryTimeout c) (cfg_AdaptiveQueueDelay c)
    (cfg_AdaptiveDuplicateThreshold c).

(** [if cfg.F is out of range { cfg.F = v }] *)
Definition set_default (bad : DatagramConfig -> bool) (f : DatagramConfig -> DatagramConfig)
    (cfg : DatagramConfig) : DatagramConfig := if bad cfg then f cfg else cfg.

(** The defaults of [NewDatagramEngine], in order. *)
Definition datagram_defaults (cfg : DatagramConfig) : DatagramConfig :=
  fold_left (fun cfg d => set_default d.1 d.2 cfg)
    [(fun cfg => bool_decide (cfg_QueueFrames cfg <= 0), fun cfg => cfg <| cfg_QueueFrames := 256 |>);
     (fun cfg => bool_decide (cfg_MaxDatagramSize cfg <= 0),
      fun cfg => cfg <| cfg_MaxDatagramSize := MaxDatagramPayload |>);
     (fun cfg => bool_decide (MaxStreamFramePayload - 2 - 512 < cfg_MaxDatagramSize cfg),
      fun cfg => cfg <| cfg_MaxDatagramSize := MaxStreamFramePayload - 2 - 512 |>);
     (fun cfg => bool_decide (cfg_DedupWindow cfg = 0), fun cfg => cfg <| cfg_DedupWindow := 4096 |>);
     (fun cfg => bool_decide (cfg_IdleTimeout cfg <= 0),
      fun cfg => cfg <| cfg_IdleTimeout := 120 * Second |>);
     (fun cfg => bool_decide (cfg_RecoveryTimeout cfg <= 0),
      fun cfg => cfg <| cfg_RecoveryTimeout := 15 * Second |>);
     (fun cfg => bool_decide (cfg_AdaptiveQueueDelay cfg <= 0),
      fun cfg => cfg <| cfg_AdaptiveQueueDelay := 120 * Millisecond |>)] cfg.

(** ** Frames on the wire *)

Fixpoint writeDatagramParts (w : Writer) (parts : list bytes) : option io_error * Writer :=
  match parts with
  | [] => (None, w)
  | part :: parts =>
    match write_loop (length part) w part io_ErrUnexpectedEOF with
    | (Some e, w) => (Some e, w)
    | (None, w) => writeDatagramParts w parts
    end
  end.

Definition WriteDatagramFrame (conn : Writer) (id : Z) (address data : bytes)
  : option proto_error * Writer :=
  if bool_decide (address = []) || bool_decide (MaxDatagramAddressSize < slen address)
  then (Some errDatagramAddress, conn) else
  let payloadLength := 2 + slen address + slen data in
  if bool_decide (MaxStreamFramePayload < payloadLength)
  then (Some errDatagramFrameTooLarge, conn) else
  let header := header_bytes (MkHeader DatagramFrameType id (u32 payloadLength)) in
  let '(err, conn) :=
    writeDatagramParts conn [header; be_put 2 (u16 (slen address)); address; data] in
  (ErrIO <$> err, conn).

Definition ReadDatagramFrame (conn : Reader) (maxDatagram : Z)
  : result proto_error (Z * bytes * bytes * Reader) :=
  let? (header, conn) := lift_io (ReadFull conn StreamFrameHeaderSize) in
  if bool_decide (at_ header 0 <> DatagramFrameType) then Err errDatagramUnexpectedFrame else
  let id := be_get (sub header 1 9) in
  let payloadLength := be_get (sub header 9 13) in
  let maxPayloadLength := 2 + MaxDatagramAddressSize + maxDatagram in
  if bool_decide (payloadLength < 3) || bool_decide (maxPayloadLength < payloadLength)
     || bool_decide (MaxStreamFramePayload < payloadLength)
  then Err errDatagramFrameLength else
  let? (payload, conn) := lift_io (ReadFull conn (Z.to_nat payloadLength)) in
  let addressLength := be_get (sub payload 0 2) in
  if bool_decide (addressLength <= 0) || bool_decide (MaxDatagramAddressSize < addressLength)
     || bool_decide (slen payload < 2 + addressLength)
  then Err errDatagramAddressLength else
  let stop := (2 + Z.to_nat addressLength)%nat in
  let address := sub payload 2 stop in
  let data := drop stop payload in
  if bool_decide (maxDatagram < slen data) then Err errDatagramExceedsMaximum else
  Ok (id, address, data, conn).

(** ** Duplicate filter *)

Record dedupState := MkDedup { dd_seen : gset Z; dd_maxSeen : Z }.
#[export] Instance dedupState_fields : Fields dedupState := fun s =>
  MkDedup (dd_seen s) (dd_maxSeen s).

Definition mayBeReplicated (cfg : DatagramConfig) (sz : Z) : bool :=
  bool_decide (cfg_Mode cfg = DatagramDuplicate)
  || (bool_decide (cfg_Mode cfg = DatagramAdaptive)
      && bool_decide (0 < cfg_AdaptiveDuplicateThreshold cfg)
      && bool_decide (sz <= cfg_AdaptiveDuplicateThreshold cfg)).

Definition seen_len (s : dedupState) : Z := Z.of_nat (size (dd_seen s)).

Definition acceptDatagramID (cfg : DatagramConfig) (id sz : Z) (s : dedupState)
  : bool * dedupState :=
  let window := cfg_DedupWindow cfg in
  if mayBeReplicated cfg sz && bool_decide (0 < seen_len s) && bool_decide (window < dd_maxSeen s)
     && bool_decide (id < dd_maxSeen s - window)
  then (false, s) else
  if bool_decide (id ∈ dd_seen s) then (false, s) else
  let s := s <| dd_seen ::= union {[id]} |> in
  let s := if bool_decide (dd_maxSeen s < id) || bool_decide (seen_len s = 1)
           then s <| dd_maxSeen := id |> else s in
  let s := if bool_decide (window < dd_maxSeen s) && bool_decide (u64 (window * 2) < seen_len s)
           then s <| dd_seen ::= filter (fun seq => ~ seq < dd_maxSeen s - window) |> else s in
  (true, s).

(** ** The codec *)

(** The bytes of a datagram frame. *)
Definition datagram_bytes (id : Z) (address data : bytes) : bytes :=
  header_bytes (MkHeader DatagramFrameType id (2 + slen address + slen data))
    ++ be_put 2 (slen address) ++ address ++ data.

Definition datagram_wf (id : Z) (address data : bytes) : Prop :=
  is_u64 id /\ 1 <= slen address <= MaxDatagramAddressSize /\
  2 + slen address + slen data <= MaxStreamFramePayload.

Lemma slen_nonneg {A} (l : list A) : 0 <= slen l.
Proof. unfold slen. lia. Qed.

Lemma slen_nil {A} (l : list A) : slen l = 0 <-> l = [].
Proof. unfold slen. destruct l; simpl; split; (done || lia). Qed.

Lemma writeDatagramParts_ok w parts w' :
  writeDatagramParts w parts = (None, w') -> wr_out w' = wr_out w ++ concat parts.
Proof.
  revert w. induction parts as [|p parts IH]; intros w; simpl.
  - intros [= <-]. by rewrite app_nil_r.
  - destruct (write_loop _ _ _ _) as [[e|] w1] eqn:E; [done|]. intros H. rewrite (IH _ H).
    apply write_loop_spec in E as (k & -> & Hk); [|lia]. rewrite (Hk eq_refl). by rewrite <- app_assoc.
Qed.

Lemma WriteDatagramFrame_ok w id address data w' :
  is_u64 id -> WriteDatagramFrame w id address data = (None, w') ->
  datagram_wf id address data /\ wr_out w' = wr_out w ++ datagram_bytes id address data.
Proof.
  intros Hid. unfold WriteDatagramFrame.
  destruct (bool_decide (address = []) || bool_decide (MaxDatagramAddressSize < slen address)) eqn:Ea; [done|].
  apply orb_false_iff in Ea as [E1%bool_decide_eq_false E2%bool_decide_eq_false].
  case_bool_decide as E3; [done|].
  assert (1 <= slen address) by (pose proof (slen_nonneg address); rewrite <- slen_nil in E1; lia).
  pose proof (slen_nonneg data).
  assert (is_u32 (2 + slen address + slen data) /\ is_u16 (slen address)) as [H32 H16].
  { unfold MaxStreamFramePayload, MaxDatagramAddressSize, is_u32, is_u16 in *. lia. }
  rewrite (u32_small _ H32), (u16_small _ H16).
  destruct (writeDatagramParts _ _) as [[e|] w1] eqn:E; [done|]. intros [= <-].
  split; [split_and!; (done || lia)|]. rewrite (writeDatagramParts_ok _ _ _ E).
  unfold datagram_bytes. simpl. by rewrite app_nil_r.
Qed.

Lemma datagram_payload_parse address data :
  1 <= slen address <= MaxDatagramAddressSize ->
  let payload := be_put 2 (slen address) ++ address ++ data in
  be_get (sub payload 0 2) = slen address /\
  sub payload 2 (2 + Z.to_nat (slen address)) = address /\
  drop (2 + Z.to_nat (slen address)) payload = data /\ slen payload = 2 + slen address + slen data.
Proof.
  intros Ha payload. unfold payload.
  assert (length (be_put 2 (slen address)) = 2%nat) as Hl by apply length_be_put.
  assert (Z.to_nat (slen address) = length address) as Ez by (unfold slen; lia).
  rewrite Ez. split_and!.
  - rewrite sub_here by done. apply be_get_put_small. unfold MaxDatagramAddressSize in *. lia.
  - rewrite sub_skip, Hl by lia. rewrite sub_here by lia. done.
  - rewrite app_assoc. apply drop_app_length'. rewrite length_app, Hl. lia.
  - unfold slen. rewrite !length_app, length_be_put. lia.
Qed.

Lemma ReadDatagramFrame_bytes id address data rest e maxDatagram :
  datagram_wf id address data -> slen data <= maxDatagram ->
  ReadDatagramFrame (MkReader (datagram_bytes id address data ++ rest) e) maxDatagram
  = Ok (id, address, data, MkReader rest e).
Proof.
  intros (Hid & Ha & Hp) Hm. pose proof (slen_nonneg data).
  set (h := MkHeader DatagramFrameType id (2 + slen address + slen data)).
  assert (header_wf h) as Hh.
  { unfold header_wf, h, is_u8, is_u32, is_u64, DatagramFrameType, MaxStreamFramePayload in *. simpl. lia. }
  unfold ReadDatagramFrame, datagram_bytes. fold h. rewrite <- app_assoc.
  rewrite (ReadFull_app _ _ _ _ (length_header_bytes h)). cbn [lift_io result_bind].
  pose proof (header_bytes_parse h [] Hh) as HP. rewrite app_nil_r in HP. cbn zeta in HP.
  rewrite (f_equal hdr_Type HP : at_ (header_bytes h) 0 = DatagramFrameType).
  rewrite (f_equal hdr_Value HP : be_get (sub (header_bytes h) 1 9) = id).
  rewrite (f_equal hdr_Length HP : be_get (sub (header_bytes h) 9 13) = 2 + slen address + slen data).
  rewrite bool_decide_ne_refl.
  set (payload := be_put 2 (slen address) ++ address ++ data).
  destruct (datagram_payload_parse address data Ha) as (P1 & P2 & P3 & P4). fold payload in P1, P2, P3, P4.
  rewrite !bool_decide_eq_false_2 by lia. cbn [orb].
  rewrite (ReadFull_app (Z.to_nat (2 + slen address + slen data)) payload) by (unfold slen in *; lia).
  cbn [lift_io result_bind]. rewrite P1.
  rewrite !bool_decide_eq_false_2 by lia. cbn [orb]. rewrite P2, P3.
  rewrite bool_decide_eq_false_2 by lia. done.
Qed.

Lemma ReadDatagramFrame_ok d e maxDatagram id address data r' :
  ReadDatagramFrame (MkReader d e) maxDatagram = Ok (id, address, data, r') ->
  datagram_wf id address data /\ slen data <= maxDatagram /\
  d = datagram_bytes id address data ++ rd_data r' /\ rd_err r' = e.
Proof.
  unfold ReadDatagramFrame. intros H.
  apply result_bind_ok in H as ([header conn] & H1 & H).
  destruct (ReadFull (MkReader d e) StreamFrameHeaderSize) as [[a r]|] eqn:E1; [|done].
  cbn [lift_io] in H1. apply Ok_inj in H1. injection H1 as -> ->.
  apply ReadFull_ok in E1 as (Ed & Hlen & Ee). cbn [rd_data rd_err] in Ed, Ee.
  case_bool_decide as HT; [done|].
  destruct (_ || _) eqn:EL in H; [done|]. rewrite !orb_false_iff, !bool_decide_eq_false in EL.
  destruct EL as ((L1 & L2) & L3).
  apply result_bind_ok in H as ([payload conn2] & H2 & H).
  destruct (ReadFull conn _) as [[b r2]|] eqn:E2; [|done].
  cbn [lift_io] in H2. apply Ok_inj in H2. injection H2 as -> ->.
  apply ReadFull_ok in E2 as (Ed2 & Hlen2 & Ee2).
  destruct (_ || _) eqn:EA in H; [done|]. rewrite !orb_false_iff, !bool_decide_eq_false in EA.
  destruct EA as ((A1 & A2) & A3). case_bool_decide as HM; [done|].
  apply Ok_inj in H. injection H as <- <- <- <-.
  destruct (header_bytes_of header Hlen) as [Hb (_ & Hw & _)].
  rewrite HT in Hb. cbn [hdr_Value] in Hw.
  set (n := be_get (sub payload 0 2)) in *. set (k := be_get (sub header 9 13)) in *.
  assert (slen payload = k) as Hk by (unfold slen; rewrite Hlen2; lia).
  assert (slen (sub payload 2 (2 + Z.to_nat n)) = n) as Hsa.
  { unfold slen in *. rewrite length_sub by lia. lia. }
  assert (slen (drop (2 + Z.to_nat n) payload) = k - 2 - n) as Hsd.
  { unfold slen in *. rewrite length_drop. lia. }
  change (S (S (Z.to_nat n))) with (2 + Z.to_nat n)%nat.
  split_and!; [split_and!; [done|rewrite Hsa; lia..|rewrite Hsa, Hsd; lia]|rewrite Hsd in *; lia| |congruence].
  unfold datagram_bytes. rewrite Hsa, Hsd. replace (2 + n + (k - 2 - n)) with k by lia.
  rewrite Hb, Ed, Ed2, <- !app_assoc. f_equal. rewrite !app_assoc. f_equal.
  unfold n. rewrite (put_get_sub payload 0 2 2) by (unfold slen in *; lia). fold n.
  rewrite sub_sub_app by lia. rewrite <- sub_0_app. symmetry. apply take_drop.
Qed.

(** The datagram codec.  A write that reports success has put exactly the
    frame's bytes on the wire, however the carrier splits them.  A read returns a
    datagram, leaving the rest of the stream, exactly when the stream starts with
    the bytes of that datagram and the datagram is within the reader's limit: each
    frame has one encoding and is read back as it was written. *)
Theorem datagram_codec :
  (forall w id address data w',
     is_u64 id -> WriteDatagramFrame w id address data = (None, w') ->
     datagram_wf id address data /\ wr_out w' = wr_out w ++ datagram_bytes id address data) /\
  (forall d e maxDatagram id address data rest,
     ReadDatagramFrame (MkReader d e) maxDatagram = Ok (id, address, data, MkReader rest e) <->
     datagram_wf id address data /\ slen data <= maxDatagram /\
     d = datagram_bytes id address data ++ rest).
Proof.
  split; [apply WriteDatagramFrame_ok|]. intros d e maxDatagram id address data rest. split.
  - intros (H1 & H2 & H3 & _)%ReadDatagramFrame_ok. done.
  - intros (H1 & H2 & ->). by apply ReadDatagramFrame_bytes.
Qed.

Lemma datagram_codec_witness :
  exists w', WriteDatagramFrame (MkWriter [] [(3, None); (10, None)]) 9 (str "[::1]:53") (str "q") = (None, w') /\
    ReadDatagramFrame (MkReader (wr_out w' ++ str "more") io_EOF) 10
    = Ok (9, str "[::1]:53", str "q", MkReader (str "more") io_EOF).
Proof.
  destruct datagram_codec as [HW HR].
  destruct (WriteDatagramFrame (MkWriter [] [(3, None); (10, None)]) 9 (str "[::1]:53") (str "q"))
    as [[e|] w'] eqn:E; [vm_compute in E; discriminate|].
  assert (is_u64 9) as H9 by (unfold is_u64; lia). destruct (HW _ _ _ _ _ H9 E) as [H1 H2].
  exists w'. split; [reflexivity|]. apply HR. split; [exact H1|]. rewrite H2.
  split; [vm_compute; discriminate|reflexivity].
Defined.

(** ** Duplicates *)

(** The datagrams among [arrivals] (ID and size) that the filter lets through. *)
Fixpoint accepted (cfg : DatagramConfig) (arrivals : list (Z * Z)) (s : dedupState)
  : list Z * dedupState :=
  match arrivals with
  | [] => ([], s)
  | (id, sz) :: arrivals =>
    let '(ok, s) := acceptDatagramID cfg id sz s in
    let '(ids, s) := accepted cfg arrivals s in
    (if ok then id :: ids else ids, s)
  end.

Definition empty_dedup : dedupState := MkDedup ∅ 0.

Record dedup_inv (cfg : DatagramConfig) (s : dedupState) : Prop := {
  di_max : forall id, id ∈ dd_seen s -> 0 <= id <= dd_maxSeen s;
  di_top : dd_seen s <> ∅ -> dd_maxSeen s ∈ dd_seen s;
  di_bound : seen_len s <= 2 * cfg_DedupWindow cfg
}.

(** An ID the filter will refuse if it may be replicated. *)
Definition refused (cfg : DatagramConfig) (s : dedupState) (id : Z) : Prop :=
  id ∈ dd_seen s \/
  (dd_seen s <> ∅ /\ cfg_DedupWindow cfg < dd_maxSeen s /\ id < dd_maxSeen s - cfg_DedupWindow cfg).

Lemma seen_len_pos s : 0 < seen_len s <-> dd_seen s <> ∅.
Proof.
  unfold seen_len. split.
  - intros H E. rewrite E, size_empty in H. lia.
  - intros H. enough (size (dd_seen s) <> 0%nat) by lia. by rewrite size_empty_iff, leibniz_equiv_iff.
Qed.

Lemma size_interval (X : gset Z) a b :
  a <= b + 1 -> (forall x, x ∈ X -> a <= x <= b) -> Z.of_nat (size X) <= b - a + 1.
Proof.
  intros Hab H. assert (X ⊆ list_to_set (C:=gset Z) (seqZ a (b - a + 1))) as Hs.
  { intros x Hx. apply elem_of_list_to_set, elem_of_seqZ. specialize (H x Hx). lia. }
  apply subseteq_size in Hs. rewrite size_list_to_set, length_seqZ in Hs by apply NoDup_seqZ. lia.
Qed.

(** What an acceptance does to the state. *)
Lemma accept_state cfg id sz s s' :
  acceptDatagramID cfg id sz s = (true, s') ->
  id ∉ dd_seen s /\
  dd_maxSeen s' = (if bool_decide (dd_seen s = ∅) then id else dd_maxSeen s `max` id) /\
  (dd_seen s' = {[id]} ∪ dd_seen s \/
   (cfg_DedupWindow cfg < dd_maxSeen s' /\
    dd_seen s' = filter (fun seq => ~ seq < dd_maxSeen s' - cfg_DedupWindow cfg) ({[id]} ∪ dd_seen s))) /\
  (dd_maxSeen s' <= cfg_DedupWindow cfg \/ seen_len s' <= u64 (cfg_DedupWindow cfg * 2) \/
   dd_seen s' = filter (fun seq => ~ seq < dd_maxSeen s' - cfg_DedupWindow cfg) ({[id]} ∪ dd_seen s)).
Proof.
  unfold acceptDatagramID. match goal with |- context [if ?b then (false, s) else _] => destruct b end; [done|].
  case_bool_decide as Hin; [done|]. intros [= <-].
  set (s1 := s <| dd_seen ::= union {[id]} |>).
  set (s2 := if _ || _ then (s1 <| dd_maxSeen := id |>) else s1).
  assert (dd_seen s2 = {[id]} ∪ dd_seen s) as ES by (subst s2; by destruct (_ || _)).
  assert (dd_maxSeen s2 = (if bool_decide (dd_seen s = ∅) then id else dd_maxSeen s `max` id)) as EM.
  { assert (seen_len s1 = 1 <-> dd_seen s = ∅) as H1.
    { unfold seen_len, s1. simpl. rewrite size_union, size_singleton by set_solver. split; intros H.
      - apply leibniz_equiv, size_empty_iff. lia.
      - rewrite H, size_empty. lia. }
    subst s2. change (dd_maxSeen s1) with (dd_maxSeen s).
    destruct (bool_decide_reflect (dd_maxSeen s < id)) as [Hm|Hm]; simpl;
      destruct (bool_decide_reflect (seen_len s1 = 1)) as [Hl|Hl]; simpl;
      destruct (bool_decide_reflect (dd_seen s = ∅)) as [He|He]; try tauto; lia. }
  clearbody s2. split; [done|].
  match goal with |- context [if ?b then (s2 <| dd_seen ::= _ |>) else s2] => destruct b eqn:Eb end.
  - apply andb_true_iff in Eb as [Eb%bool_decide_eq_true _].
    change (dd_maxSeen (s2 <| dd_seen ::= _ |>)) with (dd_maxSeen s2). rewrite EM in *.
    simpl. rewrite ES. split; [done|]. split; [right; done|]. right. right. done.
  - rewrite EM. split; [done|]. split; [by left|].
    apply andb_false_iff in Eb as [Eb%bool_decide_eq_false|Eb%bool_decide_eq_false]; [left; lia|right; left; lia].
Qed.

Lemma accept_rejects cfg id sz s s' : acceptDatagramID cfg id sz s = (false, s') -> s' = s.
Proof.
  unfold acceptDatagramID. match goal with |- context [if ?b then (false, s) else _] => destruct b end;
    [by intros [= <-]|]. case_bool_decide; [by intros [= <-]|done].
Qed.

Lemma accept_refused cfg id sz s :
  mayBeReplicated cfg sz = true -> refused cfg s id -> acceptDatagramID cfg id sz s = (false, s).
Proof.
  intros Hm [Hin|(Hne & Hw & Hlt)]; unfold acceptDatagramID.
  - rewrite (bool_decide_eq_true_2 _ Hin). by destruct (_ && _).
  - apply seen_len_pos in Hne.
    by rewrite Hm, (bool_decide_eq_true_2 _ Hne), (bool_decide_eq_true_2 _ Hw),
      (bool_decide_eq_true_2 _ Hlt).
Qed.

(** Of a filter that runs, [seen] is never emptied. *)
Lemma accept_seen cfg id sz s s' :
  0 <= cfg_DedupWindow cfg -> dedup_inv cfg s -> acceptDatagramID cfg id sz s = (true, s') ->
  dd_maxSeen s' ∈ dd_seen s' /\ refused cfg s' id /\ (forall j, refused cfg s j -> refused cfg s' j) /\
  (dd_seen s <> ∅ -> dd_maxSeen s <= dd_maxSeen s').
Proof.
  intros HW [D1 D2 _] (Hn & EM & HS & _)%accept_state.
  assert (dd_maxSeen s' ∈ ({[id]} : gset Z) ∪ dd_seen s) as Htop.
  { rewrite EM. case_bool_decide as E; [set_solver|]. specialize (D2 E).
    destruct (Z.max_spec (dd_maxSeen s) id) as [[_ ->]|[_ ->]]; set_solver. }
  assert (dd_maxSeen s' ∈ dd_seen s') as Htop'.
  { destruct HS as [->|(? & ->)]; [done|]. apply elem_of_filter. split; [lia|done]. }
  assert (forall j, j ∈ ({[id]} : gset Z) ∪ dd_seen s -> refused cfg s' j) as HR.
  { intros j Hj. destruct HS as [HS|(Hw & HS)]; [left; by rewrite HS|].
    destruct (decide (j < dd_maxSeen s' - cfg_DedupWindow cfg)).
    - right. split_and!; [set_solver|done|done].
    - left. rewrite HS. by apply elem_of_filter. }
  assert (dd_seen s <> ∅ -> dd_maxSeen s <= dd_maxSeen s') as Hmono.
  { intros Hne. rewrite EM, bool_decide_eq_false_2 by done. lia. }
  split_and!; try done.
  - apply HR. set_solver.
  - intros j [Hj|(Hne & Hw & Hlt)]; [apply HR; set_solver|].
    specialize (Hmono Hne). right. split_and!; [set_solver|lia|lia].
Qed.

Lemma accept_inv cfg id sz s :
  0 < cfg_DedupWindow cfg < 2 ^ 63 -> 0 <= id -> dedup_inv cfg s ->
  dedup_inv cfg (acceptDatagramID cfg id sz s).2.
Proof.
  intros HW Hid HI. destruct (acceptDatagramID cfg id sz s) as [[] s'] eqn:E; simpl;
    [|by rewrite (accept_rejects _ _ _ _ _ E)].
  pose proof (accept_seen cfg id sz s s' ltac:(lia) HI E) as (Htop & _).
  apply accept_state in E as (Hn & EM & HS & HB). destruct HI as [D1 D2 D3].
  assert (forall j, j ∈ ({[id]} : gset Z) ∪ dd_seen s -> 0 <= j <= dd_maxSeen s') as HU.
  { intros j [->%elem_of_singleton|Hj]%elem_of_union; rewrite EM; case_bool_decide as E.
    - lia.
    - lia.
    - rewrite E in Hj. by apply elem_of_empty in Hj.
    - specialize (D1 j Hj). lia. }
  assert (forall j, j ∈ dd_seen s' -> 0 <= j <= dd_maxSeen s') as HM.
  { intros j Hj. apply HU. destruct HS as [<-|(_ & HS)]; [done|].
    rewrite HS in Hj. by apply elem_of_filter in Hj as []. }
  split; [done|done|].
  destruct HB as [HB|[HB|HB]].
  - pose proof (HM _ Htop). unfold seen_len.
    pose proof (size_interval (dd_seen s') 0 (dd_maxSeen s') ltac:(lia) HM). lia.
  - rewrite u64_small in HB by (unfold is_u64; lia). lia.
  - unfold seen_len. pose proof (size_interval (dd_seen s') (dd_maxSeen s' - cfg_DedupWindow cfg)
      (dd_maxSeen s') ltac:(lia)) as H.
    enough (forall x, x ∈ dd_seen s' -> dd_maxSeen s' - cfg_DedupWindow cfg <= x <= dd_maxSeen s') as HE
      by (specialize (H HE); lia).
    intros j Hj. rewrite HB in Hj. apply elem_of_filter in Hj as [Hj1 Hj2]. specialize (HU j Hj2). lia.
Qed.

(** Everything the filter knows was let through, and its maximum is the newest. *)
Lemma accepted_spec cfg arrivals s :
  0 < cfg_DedupWindow cfg < 2 ^ 63 -> Forall (fun a => 0 <= a.1) arrivals -> dedup_inv cfg s ->
  let '(ids, s') := accepted cfg arrivals s in
  dedup_inv cfg s' /\ (forall j, refused cfg s j -> refused cfg s' j) /\
  (forall j, j ∈ dd_seen s' -> j ∈ dd_seen s \/ j ∈ ids) /\
  (forall j, refused cfg s j -> (forall sz, (j, sz) ∈ arrivals -> mayBeReplicated cfg sz = true) -> j ∉ ids).
Proof.
  intros HW. revert s. induction arrivals as [|[id sz] arrivals IH]; intros s Hpos HI; simpl.
  - split_and!; try done; [auto|]. intros j _ _. apply not_elem_of_nil.
  - apply Forall_cons in Hpos as [Hid Hpos]. simpl in Hid.
    pose proof (accept_inv cfg id sz s HW Hid HI) as HI1.
    destruct (acceptDatagramID cfg id sz s) as [ok s1] eqn:E. simpl in HI1.
    specialize (IH s1 Hpos HI1). destruct (accepted cfg arrivals s1) as [ids s'].
    destruct IH as (IH1 & IH2 & IH3 & IH4). destruct ok.
    + pose proof (accept_seen cfg id sz s s1 ltac:(lia) HI E) as (_ & _ & HR & _).
      split_and!; [done|auto| |].
      * intros j [Hj|Hj]%IH3; [|right; by right]. apply accept_state in E as (_ & _ & HS & _).
        assert (j ∈ ({[id]} : gset Z) ∪ dd_seen s) as [->%elem_of_singleton|]%elem_of_union.
        { destruct HS as [<-|(_ & HS)]; [done|]. rewrite HS in Hj. by apply elem_of_filter in Hj as []. }
        -- right. left.
        -- by left.
      * intros j Hj Hrep. apply not_elem_of_cons. split.
        -- intros ->. rewrite accept_refused in E; [done| |done]. apply Hrep. left.
        -- apply IH4; [auto|]. intros sz' ?. apply Hrep. by right.
    + apply accept_rejects in E as ->. split_and!; try done.
      intros j Hj Hrep. apply IH4; [done|]. intros sz' ?. apply Hrep. by right.
Qed.

Lemma accepted_app cfg l1 l2 s :
  accepted cfg (l1 ++ l2) s =
  let '(ids1, s1) := accepted cfg l1 s in
  let '(ids2, s2) := accepted cfg l2 s1 in (ids1 ++ ids2, s2).
Proof.
  revert s. induction l1 as [|[id sz] l1 IH]; intros s; simpl; [by destruct (accepted cfg l2 s)|].
  destruct (acceptDatagramID cfg id sz s) as [ok s0]. rewrite IH.
  destruct (accepted cfg l1 s0) as [ids1 s1]. destruct (accepted cfg l2 s1) as [ids2 s2].
  by destruct ok.
Qed.

Lemma empty_dedup_inv cfg : 0 < cfg_DedupWindow cfg -> dedup_inv cfg empty_dedup.
Proof.
  intros H. split; simpl; [set_solver|done|]. unfold seen_len, empty_dedup. cbn [dd_seen].
  rewrite size_empty. lia.
Qed.

Lemma accepted_once cfg arrivals s id l1 l2 :
  0 < cfg_DedupWindow cfg < 2 ^ 63 -> Forall (fun a => 0 <= a.1) arrivals -> dedup_inv cfg s ->
  (forall sz, (id, sz) ∈ arrivals -> mayBeReplicated cfg sz = true) ->
  (accepted cfg arrivals s).1 = l1 ++ id :: l2 -> id ∉ l2.
Proof.
  intros HW. revert s l1. induction arrivals as [|[id' sz] arrivals IH]; intros s l1 Hpos HI Hrep; simpl.
  - intros H. by destruct l1.
  - apply Forall_cons in Hpos as [Hid Hpos]. simpl in Hid.
    pose proof (accept_inv cfg id' sz s HW Hid HI) as HI1.
    destruct (acceptDatagramID cfg id' sz s) as [ok s1] eqn:E. simpl in HI1.
    assert (forall sz, (id, sz) ∈ arrivals -> mayBeReplicated cfg sz = true) as Hrep'
      by (intros sz' ?; apply Hrep; by right).
    pose proof (accepted_spec cfg arrivals s1 HW Hpos HI1) as HS. specialize (IH s1).
    destruct (accepted cfg arrivals s1) as [ids s'] eqn:EA. destruct HS as (_ & _ & _ & H4).
    destruct ok; [|intros; by eapply IH]. destruct l1 as [|x l1]; simpl; intros [= -> ->].
    + apply H4; [|done]. assert (0 <= cfg_DedupWindow cfg) as H0 by lia.
      by destruct (accept_seen _ _ _ _ _ H0 HI E) as (_ & HR & _).
    + by eapply IH.
Qed.

(** C35. The duplicate filter.  Over any sequence of arrivals and with a bounded
    memory of at most twice the window: a datagram that the peer may have
    replicated is let through at most once, however late its copies are; and a
    datagram not let through before is never dropped, unless it may be a replica
    and is older than the window below some datagram already let through. *)
Theorem dedup_filter cfg arrivals :
  0 < cfg_DedupWindow cfg < 2 ^ 63 -> Forall (fun a => 0 <= a.1) arrivals ->
  let '(ids, s) := accepted cfg arrivals empty_dedup in
  seen_len s <= 2 * cfg_DedupWindow cfg /\
  (forall id l1 l2, (forall sz, (id, sz) ∈ arrivals -> mayBeReplicated cfg sz = true) ->
     ids = l1 ++ id :: l2 -> id ∉ l1 ++ l2) /\
  (forall id sz, id ∉ ids ->
     (mayBeReplicated cfg sz = true -> forall j, j ∈ ids -> j - cfg_DedupWindow cfg <= id) ->
     (acceptDatagramID cfg id sz s).1 = true).
Proof.
  intros HW Hpos. pose proof (empty_dedup_inv cfg ltac:(lia)) as HI0.
  pose proof (accepted_spec cfg arrivals empty_dedup HW Hpos HI0) as HS.
  pose proof (fun id l1 l2 => accepted_once cfg arrivals empty_dedup id l1 l2 HW Hpos HI0) as HO.
  destruct (accepted cfg arrivals empty_dedup) as [ids s]. destruct HS as ([D1 D2 D3] & _ & HS & _).
  simpl in HO. split_and!; [done| |].
  - intros id l1 l2 Hrep ->. rewrite elem_of_app. intros [H|H].
    + apply list_elem_of_split in H as (a & b & ->). rewrite <- app_assoc in HO. simpl in HO.
      apply (HO id a (b ++ id :: l2) Hrep eq_refl). apply elem_of_app. right. left.
    + by apply (HO id l1 l2 Hrep eq_refl).
  - intros id sz Hn Hold. unfold acceptDatagramID.
    assert (id ∉ dd_seen s) as Hns by (intros [H|H]%HS; [by apply elem_of_empty in H|done]).
    rewrite (bool_decide_eq_false_2 _ Hns).
    match goal with |- context [if ?b then (false, s) else _] => destruct b eqn:Eb end; [|done].
    rewrite !andb_true_iff, !bool_decide_eq_true in Eb. destruct Eb as (((Hm & Hl) & _) & Hlt).
    apply seen_len_pos, D2, HS in Hl as [Hl|Hl]; [by apply elem_of_empty in Hl|].
    specialize (Hold Hm _ Hl). lia.
Qed.

Definition example_datagram_cfg : DatagramConfig :=
  datagram_defaults (MkDatagramConfig DatagramDuplicate 0 0 2 0 0 0 0).
Definition example_arrivals : list (Z * Z) := [(0, 10); (3, 10); (0, 10); (4, 10); (5, 10); (6, 10); (3, 10)].

Lemma dedup_filter_witness :
  (accepted example_datagram_cfg example_arrivals empty_dedup).1 = [0; 3; 4; 5; 6] /\
  3 ∉ [0] ++ [4; 5; 6].
Proof.
  split; [vm_compute; reflexivity|].
  pose proof (dedup_filter example_datagram_cfg example_arrivals) as H.
  assert (E : (accepted example_datagram_cfg example_arrivals empty_dedup).1 = [0] ++ 3 :: [4; 5; 6])
    by (vm_compute; reflexivity).
  destruct (accepted example_datagram_cfg example_arrivals empty_dedup) as [ids s].
  cbn [fst] in E. destruct H as (_ & H & _).
  - vm_compute. split; reflexivity.
  - repeat constructor; simpl; lia.
  - apply (H 3 [0] [4; 5; 6]); [reflexivity|exact E].
Defined.
