(* ===== verification/DatagramEngine.v ===== *)
(** * The datagram engine

    [core/datagram_engine.go]: leg slots and their retirement, the sender with its
    queues and byte reservations, the reader and the writer of a leg, receiving,
    idle and recovery timeouts.

    A [*datagramLeg] is a key of [de_heap].  A Go channel is its buffered contents
    and a closed [done] channel a flag.  A goroutine blocked on a channel is part
    of the state: a sender waiting for room in [de_waiting], a reader waiting to
    publish in [dl_publishing].  The clock is an argument.  The score that
    [chooseLeg] minimises is floating-point arithmetic over measured throughput
    and delay: it and its order are parameters of the sender.  The throughput
    estimator and the host's callbacks are left out. *)

From S2P Require Import Prelude Bytes Wire Datagram.
From stdpp Require Import options.

(** ** State *)

Abbreviation ptr := Z (only parsing).

Record datagramFrame := MkDFrame {
  df_id : Z;
  df_address : bytes;
  df_data : bytes;
  df_queuedAt : time
}.

Record datagramLeg := MkDLeg {
  dl_id : Z;
  dl_conn : Writer;
  dl_in : Reader;
  dl_send : list datagramFrame;
  dl_closed : bool;
  dl_retired : bool;
  dl_writer : bool;                       (* [legWriteLoop] is running *)
  dl_reader : bool;                       (* [legReadLoop] is running *)
  dl_publishing : option datagramFrame;   (* at [c.incoming <- packet] *)
  dl_queuedBytes : Z                      (* atomic.Int64 *)
}.
#[export] Instance datagramLeg_fields : Fields datagramLeg := fun g =>
  MkDLeg (dl_id g) (dl_conn g) (dl_in g) (dl_send g) (dl_closed g) (dl_retired g) (dl_writer g)
    (dl_reader g) (dl_publishing g) (dl_queuedBytes g).

Record DatagramEngine := MkEngine {
  de_cfg : DatagramConfig;
  de_heap : gmap Z datagramLeg;
  de_fresh : ptr;
  de_legs : gmap Z ptr;
  de_retiring : gmap Z ptr;
  de_incoming : list datagramFrame;
  de_done : bool;
  de_txSeq : Z;
  de_dedup : dedupState;
  de_txBytes : gmap Z Z;
  de_rxUniqueBytes : gmap Z Z;
  de_duplicateTx : Z;
  de_duplicateDrop : Z;
  de_lastActivity : Z; (* UnixNano *)
  de_recoveryEpoch : Z;
  de_waiting : list (ptr * datagramFrame)
}.
#[export] Instance DatagramEngine_fields : Fields DatagramEngine := fun e =>
  MkEngine (de_cfg e) (de_heap e) (de_fresh e) (de_legs e) (de_retiring e) (de_incoming e)
    (de_done e) (de_txSeq e) (de_dedup e) (de_txBytes e) (de_rxUniqueBytes e) (de_duplicateTx e)
    (de_duplicateDrop e) (de_lastActivity e) (de_recoveryEpoch e) (de_waiting e).

Definition unix_nano (t : time) : Z := i64 (t - unixToInternal * Second).

Definition NewDatagramEngine (cfg : DatagramConfig) (now : time) : DatagramEngine :=
  MkEngine (datagram_defaults cfg) ∅ 0 ∅ ∅ [] false 0 empty_dedup ∅ ∅ 0 0 (unix_nano now) 0 [].

Definition touch (now : time) (e : DatagramEngine) : DatagramEngine :=
  e <| de_lastActivity := unix_nano now |>.

(** [leg.f = v] through the pointer. *)
Definition upd_leg (p : ptr) (f : datagramLeg -> datagramLeg) (e : DatagramEngine)
  : DatagramEngine := e <| de_heap ::= alter f p |>.

(** ** Closing *)

(** [leg.close(err)]: once; the carrier and [leg.done] are closed. *)
Definition leg_close (p : ptr) (e : DatagramEngine) : DatagramEngine :=
  upd_leg p (fun g => g <| dl_closed := true |>) e.

Definition Close (e : DatagramEngine) : DatagramEngine :=
  if de_done e then e else
  let e := e <| de_done := true |> in
  fold_left (fun e p => leg_close p e) (map_to_list (de_legs e)).*2 e.

(** One tick of [idleLoop]; [time.Unix(0, last)] is the time [last] nanoseconds
    after 1970. *)
Definition idle_tick (now : time) (e : DatagramEngine) : DatagramEngine :=
  if de_done e then e else
  let last := de_lastActivity e in
  if bool_decide (last <> 0)
     && bool_decide (cfg_IdleTimeout (de_cfg e) <= time_sub now (last + unixToInternal * Second))
  then Close e else e.

(** ** Leg slots *)

Inductive attach_result :=
| attach_ok (p : ptr)
| attach_closed
| attach_invalid
| attach_duplicate
| attach_wait. (* blocked until the retiring generation is gone *)

(** One iteration of the loop of [AttachLeg]. *)
Definition AttachLeg (id : Z) (conn : Writer) (input : Reader) (e : DatagramEngine)
  : attach_result * DatagramEngine :=
  if bool_decide (1 < id) then (attach_invalid, e) else
  if de_done e then (attach_closed, e) else
  match de_legs e !! id with
  | Some _ => (attach_duplicate, e)
  | None =>
    match de_retiring e !! id with
    | Some _ => (attach_wait, e)
    | None =>
      let p := de_fresh e in
      let g := MkDLeg id conn input [] false false true true None 0 in
      (attach_ok p, e <| de_heap ::= <[p := g]> |> <| de_fresh := p + 1 |>
                      <| de_legs ::= <[id := p]> |>
                      <| de_recoveryEpoch ::= fun n => u64 (n + 1) |>)
    end
  end.

(** The new epoch for [failIfNoLegRecovers], if the last leg went. *)
Definition handleLegFailure (p : ptr) (e : DatagramEngine) : option Z * DatagramEngine :=
  match de_heap e !! p with
  | None => (None, e)
  | Some g =>
    let wasDone := de_done e in
    let e := leg_close p e in
    if wasDone then (None, e) else
    if bool_decide (de_legs e !! dl_id g = Some p) then
      let e := e <| de_legs ::= delete (dl_id g) |> <| de_retiring ::= <[dl_id g := p]> |> in
      if bool_decide (size (de_legs e) = 0%nat) then
        let e := e <| de_recoveryEpoch ::= fun n => u64 (n + 1) |> in
        (Some (de_recoveryEpoch e), e)
      else (None, e)
    else (None, e)
  end.

Definition ReplaceLeg (id : Z) (e : DatagramEngine) : bool * DatagramEngine :=
  match de_legs e !! id with
  | None => (false, e)
  | Some p => (true, (handleLegFailure p e).2)
  end.

(** The goroutine that waits for the two workers of a failed leg. *)
Definition finish_retire (p : ptr) (e : DatagramEngine) : DatagramEngine :=
  match de_heap e !! p with
  | None => e
  | Some g =>
    if dl_writer g || dl_reader g then e else
    let e := if bool_decide (de_retiring e !! dl_id g = Some p)
             then e <| de_retiring ::= delete (dl_id g) |> else e in
    upd_leg p (fun g => g <| dl_retired := true |>) e
  end.

Definition hasLeg (id : Z) (e : DatagramEngine) : bool :=
  match de_legs e !! id with Some _ => true | None => false end.
Definition LegCount (e : DatagramEngine) : Z := Z.of_nat (size (de_legs e)).

(** The slots in ID order; only the IDs 0 and 1 are ever attached. *)
Definition availableLegs (e : DatagramEngine) : list ptr :=
  omap (fun id => match de_legs e !! id with
                  | Some p => match de_heap e !! p with
                              | Some g => if dl_closed g then None else Some p
                              | None => None end
                  | None => None end) [0; 1].

(** The timer of [failIfNoLegRecovers]. *)
Definition recovery_expired (epoch : Z) (e : DatagramEngine) : DatagramEngine :=
  if de_done e then e else
  if bool_decide (de_recoveryEpoch e = epoch) && bool_decide (availableLegs e = [])
  then Close e else e.

(** ** The sender *)

Definition frame_len (f : datagramFrame) : Z := slen (df_data f).

Definition has_room (e : DatagramEngine) (g : datagramLeg) : bool :=
  bool_decide (slen (dl_send g) < cfg_QueueFrames (de_cfg e)).

Definition reserve (p : ptr) (n : Z) (e : DatagramEngine) : DatagramEngine :=
  upd_leg p (fun g => g <| dl_queuedBytes ::= fun q => i64 (q + n) |>) e.
Definition push (p : ptr) (f : datagramFrame) (e : DatagramEngine) : DatagramEngine :=
  upd_leg p (fun g => g <| dl_send ::= fun q => q ++ [f] |>) e.

(** [enqueue(leg, packet, deadline, true)] *)
Definition try_enqueue (p : ptr) (f : datagramFrame) (e : DatagramEngine)
  : bool * DatagramEngine :=
  match de_heap e !! p with
  | None => (false, e)
  | Some g =>
    if dl_closed g then (false, e) else
    let e := reserve p (frame_len f) e in
    if has_room e g then (true, push p f e) else (false, reserve p (- frame_len f) e)
  end.

Inductive enqueue_result := enqueue_yes | enqueue_no | enqueue_blocked.

(** [enqueue(leg, packet, deadline, false)]: a past deadline gives up at once;
    otherwise the [select] sends if there is room and blocks if there is none.
    When the core is already done, either ready case may be taken:
    [prefer_done] says which. *)
Definition enqueue (p : ptr) (f : datagramFrame) (deadline now : time) (prefer_done : bool)
    (e : DatagramEngine) : enqueue_result * DatagramEngine :=
  match de_heap e !! p with
  | None => (enqueue_no, e)
  | Some g =>
    if dl_closed g then (enqueue_no, e) else
    let e := reserve p (frame_len f) e in
    if negb (is_zero deadline) && bool_decide (time_sub deadline now <= 0)
    then (enqueue_no, reserve p (- frame_len f) e) else
    if de_done e && prefer_done then (enqueue_no, reserve p (- frame_len f) e) else
    if has_room e g then (enqueue_yes, push p f e) else
    if de_done e then (enqueue_no, reserve p (- frame_len f) e) else
    (enqueue_blocked, e <| de_waiting ::= fun ws => ws ++ [(p, f)] |>)
  end.

Definition shouldDuplicate (cfg : DatagramConfig) (sz : Z) (legs : list ptr) : bool :=
  if bool_decide (length legs < 2)%nat then false else
  if bool_decide (cfg_Mode cfg = DatagramDuplicate) then true else
  bool_decide (cfg_Mode cfg = DatagramAdaptive)
  && bool_decide (0 < cfg_AdaptiveDuplicateThreshold cfg)
  && bool_decide (sz <= cfg_AdaptiveDuplicateThreshold cfg).

Fixpoint enqueue_all (legs : list ptr) (f : datagramFrame) (e : DatagramEngine)
  : Z * DatagramEngine :=
  match legs with
  | [] => (0, e)
  | p :: legs =>
    let '(ok, e) := try_enqueue p f e in
    let '(n, e) := enqueue_all legs f e in
    (if ok then n + 1 else n, e)
  end.

Inductive send_result :=
| send_ok
| send_too_large
| send_invalid_address
| send_no_leg
| send_unavailable
| send_blocked. (* waiting in [enqueue] *)

(** The last loop of [Send]: any other live leg, without blocking. *)
Fixpoint send_fallback (best : Z) (legs : list ptr) (f : datagramFrame) (e : DatagramEngine)
  : send_result * DatagramEngine :=
  match legs with
  | [] => (send_unavailable, e)
  | p :: legs =>
    if bool_decide (dl_id <$> de_heap e !! p = Some best) then send_fallback best legs f e else
    let '(ok, e) := try_enqueue p f e in
    if ok then (send_ok, e) else send_fallback best legs f e
  end.

Definition leg_id (e : DatagramEngine) (p : ptr) : Z :=
  match de_heap e !! p with Some g => dl_id g | None => 0 end.

Section sender.
Context {F : Type} (flt : F -> F -> bool) (score : DatagramEngine -> ptr -> Z -> F).

(** [best == nil || score < bestScore] *)
Fixpoint choose (e : DatagramEngine) (packetSize : Z) (best : option (ptr * F)) (legs : list ptr)
  : option ptr :=
  match legs with
  | [] => fst <$> best
  | p :: legs =>
    let s := score e p packetSize in
    choose e packetSize
      match best with
      | None => Some (p, s)
      | Some (q, t) => if flt s t then Some (p, s) else Some (q, t)
      end legs
  end.
Definition chooseLeg (e : DatagramEngine) (legs : list ptr) (packetSize : Z) : option ptr :=
  choose e packetSize None legs.

Definition Send (data address : bytes) (deadline now : time) (prefer_done : bool)
    (e : DatagramEngine) : send_result * DatagramEngine :=
  if bool_decide (data = []) then (send_ok, e) else
  if bool_decide (cfg_MaxDatagramSize (de_cfg e) < slen data) then (send_too_large, e) else
  if bool_decide (address = []) || bool_decide (MaxDatagramAddressSize < slen address)
  then (send_invalid_address, e) else
  let legs := availableLegs e in
  if bool_decide (legs = []) then (send_no_leg, e) else
  let f := MkDFrame (de_txSeq e) address data now in
  let e := touch now (e <| de_txSeq ::= fun n => u64 (n + 1) |>) in
  let '(queued, e) := if shouldDuplicate (de_cfg e) (slen data) legs
                      then enqueue_all legs f e else (0, e) in
  if bool_decide (0 < queued) then
    (send_ok, if bool_decide (1 < queued)
              then e <| de_duplicateTx ::= fun n => u64 (n + (queued - 1)) |> else e)
  else
  match chooseLeg e legs (slen data) with
  | None => send_fallback (-1) (availableLegs e) f e
  | Some best =>
    match enqueue best f deadline now prefer_done e with
    | (enqueue_yes, e) => (send_ok, e)
    | (enqueue_no, e) => send_fallback (leg_id e best) (availableLegs e) f e
    | (enqueue_blocked, e) => (send_blocked, e)
    end
  end.
End sender.

(** A blocked sender goes on: with room in the queue, or because the core or the
    leg closed or its deadline passed. *)
Definition resume_sent (i : nat) (e : DatagramEngine) : option (send_result * DatagramEngine) :=
  match de_waiting e !! i with
  | None => None
  | Some (p, f) =>
    match de_heap e !! p with
    | None => None
    | Some g =>
      if has_room e g then Some (send_ok, push p f (e <| de_waiting ::= delete i |>)) else None
    end
  end.
Definition resume_failed (i : nat) (e : DatagramEngine) : option (send_result * DatagramEngine) :=
  match de_waiting e !! i with
  | None => None
  | Some (p, f) =>
    let e := reserve p (- frame_len f) (e <| de_waiting ::= delete i |>) in
    Some (send_fallback (leg_id e p) (availableLegs e) f e)
  end.

(** ** The workers of a leg *)

Definition add_bytes (id n : Z) (m : gmap Z Z) : gmap Z Z := <[id := u64 (default 0 (m !! id) + n)]> m.

(** [legWriteLoop] takes a packet. *)
Definition write_step (p : ptr) (now : time) (e : DatagramEngine) : option DatagramEngine :=
  match de_heap e !! p with
  | None => None
  | Some g =>
    match dl_writer g, dl_send g with
    | true, f :: rest =>
      let '(err, conn) := WriteDatagramFrame (dl_conn g) (df_id f) (df_address f) (df_data f) in
      let e := upd_leg p (fun g => g <| dl_send := rest |>
                 <| dl_queuedBytes ::= fun q => i64 (q + - frame_len f) |>
                 <| dl_conn := conn |>) e in
      match err with
      | Some _ => Some (upd_leg p (fun g => g <| dl_writer := false |>) (handleLegFailure p e).2)
      | None => Some (touch now (e <| de_txBytes ::= add_bytes (dl_id g) (frame_len f) |>))
      end
    | _, _ => None
    end
  end.

(** Either worker sees [c.done] or [leg.done]. *)
Definition writer_exit (p : ptr) (e : DatagramEngine) : option DatagramEngine :=
  match de_heap e !! p with
  | Some g => if dl_writer g && (de_done e || dl_closed g)
              then Some (upd_leg p (fun g => g <| dl_writer := false |>) e) else None
  | None => None
  end.

(** [legReadLoop] reads a frame; a closed carrier reads as an error. *)
Definition read_step (p : ptr) (now : time) (e : DatagramEngine) : option DatagramEngine :=
  match de_heap e !! p with
  | None => None
  | Some g =>
    match dl_reader g, dl_publishing g with
    | true, None =>
      match (if dl_closed g then Err (ErrIO io_other)
             else ReadDatagramFrame (dl_in g) (cfg_MaxDatagramSize (de_cfg e))) with
      | Err _ => Some (upd_leg p (fun g => g <| dl_reader := false |>) (handleLegFailure p e).2)
      | Ok (id, address, data, conn) =>
        let e := upd_leg p (fun g => g <| dl_in := conn |>) e in
        let '(ok, d) := acceptDatagramID (de_cfg e) id (slen data) (de_dedup e) in
        let e := e <| de_dedup := d |> in
        if negb ok then Some (e <| de_duplicateDrop ::= fun n => u64 (n + 1) |>) else
        let e := e <| de_rxUniqueBytes ::= add_bytes (dl_id g) (slen data) |> in
        Some (touch now (upd_leg p (fun g =>
                g <| dl_publishing := Some (MkDFrame id address data now) |>) e))
      end
    | _, _ => None
    end
  end.

Definition publish_step (p : ptr) (e : DatagramEngine) : option DatagramEngine :=
  match de_heap e !! p with
  | None => None
  | Some g =>
    match dl_publishing g with
    | None => None
    | Some f =>
      if bool_decide (slen (de_incoming e) < cfg_QueueFrames (de_cfg e) * 2)
      then Some (upd_leg p (fun g => g <| dl_publishing := None |>)
                   (e <| de_incoming ::= fun q => q ++ [f] |>))
      else None
    end
  end.
Definition publish_exit (p : ptr) (e : DatagramEngine) : option DatagramEngine :=
  match de_heap e !! p with
  | Some g => if de_done e && bool_decide (is_Some (dl_publishing g))
              then Some (upd_leg p (fun g => g <| dl_publishing := None |>
                                               <| dl_reader := false |>) e)
              else None
  | None => None
  end.

(** ** Receiving *)

Inductive receive_result :=
| receive_datagram (address payload : bytes)
| receive_timeout
| receive_closed
| receive_blocked.

(** A past deadline is a timeout; when the core is done, either ready case of the
    [select] may be taken. *)
Definition Receive (deadline now : time) (prefer_done : bool) (e : DatagramEngine)
  : receive_result * DatagramEngine :=
  if negb (is_zero deadline) && bool_decide (time_sub deadline now <= 0)
  then (receive_timeout, e) else
  if de_done e && prefer_done then (receive_closed, e) else
  match de_incoming e with
  | [] => (if de_done e then receive_closed else receive_blocked, e)
  | f :: rest => (receive_datagram (df_address f) (df_data f), e <| de_incoming := rest |>)
  end.

(** ** Runs *)

(** Every atomic action of the engine's goroutines and callers. *)
Inductive dg_op :=
| dop_attach (id : Z) (conn : Writer) (input : Reader)
| dop_replace (id : Z)
| dop_fail (p : ptr)
| dop_retire (p : ptr)
| dop_send (data address : bytes) (deadline now : time) (prefer_done : bool)
| dop_resume_sent (i : nat)
| dop_resume_failed (i : nat)
| dop_write (p : ptr) (now : time)
| dop_writer_exit (p : ptr)
| dop_read (p : ptr) (now : time)
| dop_publish (p : ptr)
| dop_publish_exit (p : ptr)
| dop_receive (deadline now : time) (prefer_done : bool)
| dop_idle (now : time)
| dop_recover (epoch : Z)
| dop_close.

Section run.
Context {F : Type} (flt : F -> F -> bool) (score : DatagramEngine -> ptr -> Z -> F).

(** An action that is not enabled changes nothing. *)
Definition dg_exec (e : DatagramEngine) (op : dg_op) : DatagramEngine :=
  match op with
  | dop_attach id conn input => (AttachLeg id conn input e).2
  | dop_replace id => (ReplaceLeg id e).2
  | dop_fail p => (handleLegFailure p e).2
  | dop_retire p => finish_retire p e
  | dop_send data address deadline now pd => (Send flt score data address deadline now pd e).2
  | dop_resume_sent i => default e (snd <$> resume_sent i e)
  | dop_resume_failed i => default e (snd <$> resume_failed i e)
  | dop_write p now => default e (write_step p now e)
  | dop_writer_exit p => default e (writer_exit p e)
  | dop_read p now => default e (read_step p now e)
  | dop_publish p => default e (publish_step p e)
  | dop_publish_exit p => default e (publish_exit p e)
  | dop_receive deadline now pd => (Receive deadline now pd e).2
  | dop_idle now => idle_tick now e
  | dop_recover epoch => recovery_expired epoch e
  | dop_close => Close e
  end.
Definition dg_run (ops : list dg_op) (e : DatagramEngine) : DatagramEngine := fold_left dg_exec ops e.
End run.

Definition dop_wf (op : dg_op) : Prop :=
  match op with dop_attach id _ _ => 0 <= id | _ => True end.

(** ** Invariant *)

Definition waiting_bytes (p : ptr) (e : DatagramEngine) : Z :=
  sum_with (fun w => if bool_decide (w.1 = p) then frame_len w.2 else 0) (de_waiting e).

Record engine_inv (e : DatagramEngine) : Prop := {
  ei_cfg : 0 < cfg_QueueFrames (de_cfg e) /\ 0 < cfg_DedupWindow (de_cfg e);
  ei_fresh : forall p g, de_heap e !! p = Some g -> p < de_fresh e;
  ei_leg : forall id p, de_legs e !! id = Some p ->
    0 <= id <= 1 /\ exists g, de_heap e !! p = Some g /\ dl_id g = id /\ dl_closed g = de_done e;
  ei_retiring : forall id p, de_retiring e !! id = Some p ->
    de_legs e !! id = None /\ exists g, de_heap e !! p = Some g /\ dl_id g = id /\ dl_closed g = true;
  ei_queue : forall p g, de_heap e !! p = Some g ->
    slen (dl_send g) <= cfg_QueueFrames (de_cfg e) /\
    dl_queuedBytes g = i64 (sum_with frame_len (dl_send g) + waiting_bytes p e);
  ei_waiting : Forall (fun w => is_Some (de_heap e !! w.1)) (de_waiting e);
  ei_incoming : slen (de_incoming e) <= cfg_QueueFrames (de_cfg e) * 2
}.

(** What an action that leaves the slots alone may change of a leg. *)
Definition slot_view (g : datagramLeg) : Z * bool := (dl_id g, dl_closed g).

(** [e'] has the slots of [e]. *)
Record same_slots (e e' : DatagramEngine) : Prop := {
  ss_cfg : de_cfg e' = de_cfg e;
  ss_fresh : de_fresh e' = de_fresh e;
  ss_legs : de_legs e' = de_legs e;
  ss_retiring : de_retiring e' = de_retiring e;
  ss_done : de_done e' = de_done e;
  ss_heap : forall p, slot_view <$> de_heap e' !! p = slot_view <$> de_heap e !! p
}.

Lemma same_slots_inv e e' :
  engine_inv e -> same_slots e e' ->
  (forall p g, de_heap e' !! p = Some g -> slen (dl_send g) <= cfg_QueueFrames (de_cfg e') /\
     dl_queuedBytes g = i64 (sum_with frame_len (dl_send g) + waiting_bytes p e')) ->
  Forall (fun w => is_Some (de_heap e' !! w.1)) (de_waiting e') ->
  slen (de_incoming e') <= cfg_QueueFrames (de_cfg e') * 2 -> engine_inv e'.
Proof.
  intros [I1 I2 I3 I4 I5 I6 I7] [S1 S2 S3 S4 S5 S6] HQ HWt HIn.
  assert (forall p g, de_heap e !! p = Some g -> exists g', de_heap e' !! p = Some g' /\
    dl_id g' = dl_id g /\ dl_closed g' = dl_closed g) as HF.
  { intros p g Hg. specialize (S6 p). rewrite Hg in S6. destruct (de_heap e' !! p) as [g'|]; [|done].
    injection S6 as ? ?. by exists g'. }
  split; try done; rewrite ?S1, ?S2, ?S3, ?S4, ?S5; try done.
  - intros p g Hg. specialize (S6 p). rewrite Hg in S6. destruct (de_heap e !! p) eqn:E; [|done]. by eapply I2.
  - intros id p Hp. destruct (I3 _ _ Hp) as (? & g & Hg & ? & ?). split; [done|].
    destruct (HF _ _ Hg) as (g' & ? & ? & ?). exists g'. split_and!; congruence.
  - intros id p Hp. destruct (I4 _ _ Hp) as (? & g & Hg & ? & ?). split; [done|].
    destruct (HF _ _ Hg) as (g' & ? & ? & ?). exists g'. split_and!; congruence.
Qed.

(** ** Accounts *)

(** Every queue is within its capacity, and every reservation counter is the bytes
    queued plus what is owed. *)
Definition accounts (e : DatagramEngine) (owed : ptr -> Z) : Prop :=
  forall p g, de_heap e !! p = Some g ->
    slen (dl_send g) <= cfg_QueueFrames (de_cfg e) /\
    dl_queuedBytes g = i64 (sum_with frame_len (dl_send g) + owed p).

Definition owe (p : ptr) (n : Z) (owed : ptr -> Z) : ptr -> Z :=
  fun q => if bool_decide (p = q) then owed q + n else owed q.

Lemma accounts_ext e owed owed' : (forall p, owed p = owed' p) -> accounts e owed -> accounts e owed'.
Proof. intros H HA p g Hg. rewrite <- H. by apply HA. Qed.

Lemma i64_add a b : i64 (i64 a + b) = i64 (a + b).
Proof.
  unfold i64. replace ((a + 2 ^ 63) `mod` 2 ^ 64 - 2 ^ 63 + b + 2 ^ 63) with ((a + 2 ^ 63) `mod` 2 ^ 64 + b) by lia.
  rewrite Zplus_mod_idemp_l. do 2 f_equal. lia.
Qed.

Lemma upd_leg_lookup p f e q :
  de_heap (upd_leg p f e) !! q = if bool_decide (p = q) then f <$> de_heap e !! q else de_heap e !! q.
Proof.
  unfold upd_leg. simpl. case_bool_decide as E; [subst; apply lookup_alter_eq|by apply lookup_alter_ne].
Qed.

Lemma upd_leg_slots p f e :
  (forall g, slot_view (f g) = slot_view g) -> same_slots e (upd_leg p f e).
Proof.
  intros Hf. split; try done. intros q. rewrite upd_leg_lookup. case_bool_decide; [|done].
  destruct (de_heap e !! q); [|done]. simpl. by rewrite Hf.
Qed.

#[export] Instance same_slots_preorder : PreOrder same_slots.
Proof.
  split; [by split|]. intros e1 e2 e3 [] []. split; try congruence.
Qed.

Lemma accounts_upd p f e owed owed' :
  accounts e owed -> (forall q, q <> p -> owed' q = owed q) ->
  (forall g, de_heap e !! p = Some g -> slen (dl_send (f g)) <= cfg_QueueFrames (de_cfg e) /\
     dl_queuedBytes (f g) = i64 (sum_with frame_len (dl_send (f g)) + owed' p)) ->
  accounts (upd_leg p f e) owed'.
Proof.
  intros HA Ho Hf q g. rewrite upd_leg_lookup. case_bool_decide as E.
  - subst q. intros (g0 & Hg & ->)%fmap_Some. by apply Hf.
  - intros Hg. rewrite Ho by done. by apply HA.
Qed.

Lemma reserve_accounts p n e owed : accounts e owed -> accounts (reserve p n e) (owe p n owed).
Proof.
  intros HA. apply (accounts_upd p _ e owed); [done| |].
  - intros q Hq. unfold owe. by rewrite bool_decide_eq_false_2.
  - intros g Hg. destruct (HA _ _ Hg) as [H1 H2]. simpl. split; [done|].
    rewrite H2, i64_add. unfold owe. rewrite bool_decide_eq_true_2 by done. f_equal. lia.
Qed.

Lemma push_accounts p f e g owed :
  accounts e owed -> de_heap e !! p = Some g -> has_room e g = true ->
  accounts (push p f e) (owe p (- frame_len f) owed).
Proof.
  intros HA Hg Hr%bool_decide_eq_true. apply (accounts_upd p _ e owed); [done| |].
  - intros q Hq. unfold owe. by rewrite bool_decide_eq_false_2.
  - intros g' Hg'. rewrite Hg in Hg'. injection Hg' as <-. destruct (HA _ _ Hg) as [H1 H2]. simpl. split.
    + unfold slen in *. rewrite length_app. simpl. lia.
    + rewrite H2. unfold owe. rewrite bool_decide_eq_true_2 by done.
      rewrite sum_with_app. simpl. f_equal. lia.
Qed.

Lemma owe_cancel p n owed q : owe p (- n) (owe p n owed) q = owed q.
Proof. unfold owe. case_bool_decide; lia. Qed.

(** Queueing work: slots, waiting senders, received datagrams and sequence numbers
    stay, and the accounts balance. *)
Record queues_only (e e' : DatagramEngine) : Prop := {
  qo_slots : same_slots e e';
  qo_waiting : de_waiting e' = de_waiting e;
  qo_incoming : de_incoming e' = de_incoming e;
  qo_accounts : forall owed, accounts e owed -> accounts e' owed
}.
#[export] Instance queues_only_preorder : PreOrder queues_only.
Proof.
  split; [by split|]. intros e1 e2 e3 [A1 A2 A3 A4] [B1 B2 B3 B4].
  split; [by transitivity e2|congruence..|auto].
Qed.

Lemma rollback_queues p n e : queues_only e (reserve p (- n) (reserve p n e)).
Proof.
  split; try done.
  - transitivity (reserve p n e); by apply upd_leg_slots.
  - intros owed HA. eapply accounts_ext; [apply owe_cancel|].
    by apply reserve_accounts, reserve_accounts.
Qed.

Lemma reserve_push_queues p f e g :
  de_heap e !! p = Some g -> has_room e g = true ->
  queues_only e (push p f (reserve p (frame_len f) e)).
Proof.
  intros Hg Hr. split; try done.
  - transitivity (reserve p (frame_len f) e); by apply upd_leg_slots.
  - intros owed HA. eapply accounts_ext; [apply owe_cancel|].
    eapply push_accounts; [by apply reserve_accounts| |].
    + unfold reserve. rewrite upd_leg_lookup, bool_decide_eq_true_2, Hg by done. done.
    + done.
Qed.

Lemma try_enqueue_queues p f e : queues_only e (try_enqueue p f e).2.
Proof.
  unfold try_enqueue. destruct (de_heap e !! p) as [g|] eqn:Hg; [|done].
  destruct (dl_closed g); [done|].
  change (has_room (reserve p (frame_len f) e) g) with (has_room e g).
  destruct (has_room e g) eqn:Hr; [by eapply reserve_push_queues|apply rollback_queues].
Qed.

Lemma enqueue_all_queues legs f e : queues_only e (enqueue_all legs f e).2.
Proof.
  revert e. induction legs as [|p legs IH]; intros e; simpl; [done|].
  pose proof (try_enqueue_queues p f e) as H. destruct (try_enqueue p f e) as [ok e1].
  specialize (IH e1). destruct (enqueue_all legs f e1) as [n e2]. simpl in *. by transitivity e1.
Qed.

Lemma send_fallback_queues best legs f e : queues_only e (send_fallback best legs f e).2.
Proof.
  revert e. induction legs as [|p legs IH]; intros e; simpl; [done|].
  case_bool_decide as Hb; [apply IH|].
  pose proof (try_enqueue_queues p f e) as H. destruct (try_enqueue p f e) as [[] e1]; [done|].
  simpl in *. transitivity e1; [done|apply IH].
Qed.

(** ** Every action *)

Abbreviation owed_of e := (fun p => waiting_bytes p e).

Lemma queues_only_inv e e' : engine_inv e -> queues_only e e' -> engine_inv e'.
Proof.
  intros HI [Q1 Q2 Q3 Q4]. apply (same_slots_inv e); [done|done| | |].
  - intros p g Hg. unfold waiting_bytes. rewrite Q2. by apply (Q4 (owed_of e) (ei_queue _ HI)).
  - rewrite Q2. eapply Forall_impl; [apply (ei_waiting _ HI)|]. intros w [g Hg]. simpl.
    pose proof (ss_heap _ _ Q1 w.1) as E. rewrite Hg in E. destruct (de_heap e' !! w.1); [eauto|done].
  - rewrite Q3, (ss_cfg _ _ Q1). apply (ei_incoming _ HI).
Qed.

(** A change of one leg that keeps its slot, its queue and its counter. *)
Lemma upd_leg_inv p f e :
  engine_inv e ->
  (forall g, slot_view (f g) = slot_view g /\ dl_send (f g) = dl_send g /\
     dl_queuedBytes (f g) = dl_queuedBytes g) ->
  engine_inv (upd_leg p f e).
Proof.
  intros HI Hf. apply (queues_only_inv e); [done|]. split; try done.
  - apply upd_leg_slots. intros g. apply Hf.
  - intros owed HA. apply (accounts_upd p f e owed); [done|done|]. intros g Hg.
    destruct (Hf g) as (_ & -> & ->). by apply HA.
Qed.

Lemma waiting_bytes_snoc p q f e :
  waiting_bytes q (e <| de_waiting ::= fun ws => ws ++ [(p, f)] |>) = owe p (frame_len f) (owed_of e) q.
Proof.
  unfold waiting_bytes, owe. simpl. rewrite sum_with_app. simpl. case_bool_decide; lia.
Qed.

Lemma enqueue_inv p f deadline now pd e : engine_inv e -> engine_inv (enqueue p f deadline now pd e).2.
Proof.
  intros HI. unfold enqueue. destruct (de_heap e !! p) as [g|] eqn:Hg; [|done].
  destruct (dl_closed g); [done|].
  assert (engine_inv (reserve p (- frame_len f) (reserve p (frame_len f) e))) as HR
    by (apply (queues_only_inv e); [done|apply rollback_queues]).
  change (has_room (reserve p (frame_len f) e) g) with (has_room e g).
  change (de_done (reserve p (frame_len f) e)) with (de_done e).
  destruct (_ && _); [done|]. destruct (de_done e && pd); [done|].
  destruct (has_room e g) eqn:Hr.
  { apply (queues_only_inv e); [done|by eapply reserve_push_queues]. }
  destruct (de_done e); [done|]. cbn [snd]. apply (same_slots_inv e); [done| | | |].
  - transitivity (reserve p (frame_len f) e); [by apply upd_leg_slots|by split].
  - intros q g' Hg'. rewrite (waiting_bytes_snoc p q f (reserve p (frame_len f) e)).
    exact (reserve_accounts p (frame_len f) e _ (ei_queue _ HI) q g' Hg').
  - simpl. apply Forall_app. split.
    + eapply Forall_impl; [apply (ei_waiting _ HI)|]. intros w Hw. simpl.
      apply lookup_alter_is_Some. done.
    + apply Forall_singleton. simpl. apply lookup_alter_is_Some. by exists g.
  - apply (ei_incoming _ HI).
Qed.

Lemma waiting_bytes_delete i p f e q :
  de_waiting e !! i = Some (p, f) ->
  owed_of e q = owe p (frame_len f) (owed_of (e <| de_waiting ::= delete i |>)) q.
Proof.
  intros Hi. unfold waiting_bytes, owe. simpl.
  rewrite (sum_with_perm _ _ _ (delete_Permutation _ _ _ Hi)). simpl. case_bool_decide; lia.
Qed.

(** The reservation of a sender that stops waiting is owed by nobody yet. *)
Lemma unwait_accounts i p f e :
  engine_inv e -> de_waiting e !! i = Some (p, f) ->
  let e1 := e <| de_waiting ::= delete i |> in
  accounts e1 (owe p (frame_len f) (owed_of e1)) /\
  Forall (fun w => is_Some (de_heap e !! w.1)) (de_waiting e1) /\ is_Some (de_heap e !! p).
Proof.
  intros HI Hi e1. split_and!.
  - intros q g Hg. destruct (ei_queue _ HI q g Hg) as [H1 H2]. split; [done|].
    pose proof (waiting_bytes_delete i p f e q Hi) as E. cbn beta in E. by rewrite H2, E.
  - pose proof (ei_waiting _ HI) as HF. rewrite (delete_Permutation _ _ _ Hi) in HF.
    by apply Forall_cons in HF as [_ HF].
  - apply (Forall_lookup_1 _ _ _ _ (ei_waiting _ HI) Hi).
Qed.

Lemma unwait_inv i p f e e' :
  engine_inv e -> de_waiting e !! i = Some (p, f) ->
  let e1 := e <| de_waiting ::= delete i |> in
  same_slots e1 e' -> de_waiting e' = de_waiting e1 -> de_incoming e' = de_incoming e1 ->
  (forall owed, accounts e1 (owe p (frame_len f) owed) -> accounts e' owed) -> engine_inv e'.
Proof.
  intros HI Hi e1 HS HW HN HA. destruct (unwait_accounts i p f e HI Hi) as (A1 & A2 & A3). fold e1 in A1, A2.
  apply (same_slots_inv e); [done|by transitivity e1; [by split|]| | |].
  - intros q g Hg. unfold waiting_bytes. rewrite HW. by apply (HA (owed_of e1) A1).
  - rewrite HW. eapply Forall_impl; [exact A2|]. intros w [g Hg]. simpl.
    pose proof (ss_heap _ _ HS w.1) as E. change (de_heap e1) with (de_heap e) in E. rewrite Hg in E.
    destruct (de_heap e' !! w.1); [eauto|done].
  - rewrite HN, (ss_cfg _ _ HS). apply (ei_incoming _ HI).
Qed.

Lemma resume_sent_inv i e : engine_inv e -> engine_inv (default e (snd <$> resume_sent i e)).
Proof.
  intros HI. unfold resume_sent. destruct (de_waiting e !! i) as [[p f]|] eqn:Hi; [|done].
  destruct (de_heap e !! p) as [g|] eqn:Hg; [|done].
  destruct (has_room e g) eqn:Hr; [|done]. simpl. eapply unwait_inv; [done|done| |done|done|].
  - by apply upd_leg_slots.
  - intros owed HA. eapply accounts_ext; [apply owe_cancel|]. by eapply push_accounts.
Qed.

Lemma resume_failed_inv i e : engine_inv e -> engine_inv (default e (snd <$> resume_failed i e)).
Proof.
  intros HI. unfold resume_failed. destruct (de_waiting e !! i) as [[p f]|] eqn:Hi; [|done].
  simpl. eapply queues_only_inv; [|apply send_fallback_queues].
  eapply unwait_inv; [done|done| |done|done|].
  - by apply upd_leg_slots.
  - intros owed HA. eapply accounts_ext; [apply owe_cancel|]. by apply reserve_accounts.
Qed.

Lemma Send_inv {F} (flt : F -> F -> bool) score data address deadline now pd e :
  engine_inv e -> engine_inv (Send flt score data address deadline now pd e).2.
Proof.
  intros HI. unfold Send. case_bool_decide; [done|]. case_bool_decide; [done|].
  destruct (_ || _); [done|]. case_bool_decide; [done|].
  set (f := MkDFrame _ _ _ _). set (e1 := touch now _).
  assert (engine_inv e1) as HE1 by (apply (queues_only_inv e); [done|by split]).
  set (q := if shouldDuplicate _ _ _ then _ else _).
  assert (queues_only e1 q.2) as HQ
    by (subst q; destruct (shouldDuplicate _ _ _); [apply enqueue_all_queues|done]).
  destruct q as [queued e2]. cbn [snd] in HQ.
  assert (engine_inv e2) as HE2 by (by eapply queues_only_inv).
  case_bool_decide; [cbn [snd]; case_bool_decide; [|done]; by apply (queues_only_inv e2)|].
  destruct (chooseLeg _ _ _ _ _) as [best|]; [|eapply queues_only_inv; [exact HE2|apply send_fallback_queues]].
  pose proof (enqueue_inv best f deadline now pd e2 HE2) as HE.
  destruct (enqueue best f deadline now pd e2) as [[] e3]; [done| |done].
  eapply queues_only_inv; [exact HE|apply send_fallback_queues].
Qed.

(** Changes of the slots keep queues, counters and waiting senders. *)
Lemma slots_change_inv e e' :
  engine_inv e ->
  de_cfg e' = de_cfg e -> de_waiting e' = de_waiting e -> de_incoming e' = de_incoming e ->
  de_fresh e' = de_fresh e ->
  (forall p, (fun g => (dl_id g, dl_send g, dl_queuedBytes g)) <$> de_heap e' !! p
             = (fun g => (dl_id g, dl_send g, dl_queuedBytes g)) <$> de_heap e !! p) ->
  (forall id p, de_legs e' !! id = Some p ->
    0 <= id <= 1 /\ exists g, de_heap e' !! p = Some g /\ dl_id g = id /\ dl_closed g = de_done e') ->
  (forall id p, de_retiring e' !! id = Some p ->
    de_legs e' !! id = None /\ exists g, de_heap e' !! p = Some g /\ dl_id g = id /\ dl_closed g = true) ->
  engine_inv e'.
Proof.
  intros [I1 I2 I3 I4 I5 I6 I7] E1 E2 E3 E4 EH HL HR. split; try done; rewrite ?E1, ?E2, ?E3, ?E4; try done.
  - intros p g Hg. specialize (EH p). rewrite Hg in EH. destruct (de_heap e !! p) eqn:E; [|done]. by eapply I2.
  - intros p g Hg. specialize (EH p). rewrite Hg in EH. destruct (de_heap e !! p) as [g0|] eqn:E; [|done].
    injection EH as _ -> ->. unfold waiting_bytes. rewrite E2. by apply I5.
  - eapply Forall_impl; [exact I6|]. intros w [g Hg]. simpl. specialize (EH w.1). rewrite Hg in EH.
    destruct (de_heap e' !! w.1); [eauto|done].
Qed.

Lemma leg_close_lookup p e q :
  de_heap (leg_close p e) !! q =
  if bool_decide (p = q) then (fun g => g <| dl_closed := true |>) <$> de_heap e !! q else de_heap e !! q.
Proof. apply upd_leg_lookup. Qed.

Lemma handleLegFailure_inv p e : engine_inv e -> engine_inv (handleLegFailure p e).2.
Proof.
  intros HI. unfold handleLegFailure. destruct (de_heap e !! p) as [g|] eqn:Hg; [|done].
  assert (forall q, (fun g => (dl_id g, dl_send g, dl_queuedBytes g)) <$> de_heap (leg_close p e) !! q
    = (fun g => (dl_id g, dl_send g, dl_queuedBytes g)) <$> de_heap e !! q) as EH.
  { intros q. rewrite leg_close_lookup. case_bool_decide; [|done]. by destruct (de_heap e !! q). }
  assert (forall q h, de_heap e !! q = Some h -> exists h', de_heap (leg_close p e) !! q = Some h' /\
    dl_id h' = dl_id h /\ (p = q -> dl_closed h' = true) /\ (p <> q -> dl_closed h' = dl_closed h) /\
    (dl_closed h = true -> dl_closed h' = true)) as HC.
  { intros q h Hq. rewrite leg_close_lookup, Hq. case_bool_decide; simpl; eexists; split; done. }
  assert (forall id q, de_retiring e !! id = Some q -> de_legs e !! id = None /\
    exists h, de_heap (leg_close p e) !! q = Some h /\ dl_id h = id /\ dl_closed h = true) as HR.
  { intros id q Hq. destruct (ei_retiring _ HI _ _ Hq) as (? & h & Hh & ? & ?). split; [done|].
    destruct (HC _ _ Hh) as (h' & ? & ? & _ & _ & ?). exists h'. split_and!; [done|congruence|auto]. }
  destruct (de_done e) eqn:Hd.
  - apply (slots_change_inv e); try done. intros id q Hq.
    destruct (ei_leg _ HI _ _ Hq) as (? & h & Hh & ? & Hcl). split; [done|].
    destruct (HC _ _ Hh) as (h' & ? & ? & _ & _ & Hc). exists h'. split_and!; [done|congruence|].
    change (dl_closed h' = de_done e). rewrite Hd in *. auto.
  - change (de_legs (leg_close p e)) with (de_legs e). case_bool_decide as Hl.
    + set (e1 := _ <| de_retiring ::= _ |>).
      assert (engine_inv e1) as HE1.
      { apply (slots_change_inv e); try done; simpl.
        - intros id q [Hne Hq]%lookup_delete_Some. destruct (ei_leg _ HI _ _ Hq) as (? & h & Hh & ? & ?).
          split; [done|]. assert (p <> q) by (intros <-; congruence).
          destruct (HC _ _ Hh) as (h' & ? & ? & _ & Hc & _). exists h'. split_and!; [done|congruence|].
          rewrite Hc by done. done.
        - intros id q [[<- <-]|[Hne Hq]]%lookup_insert_Some.
          + split; [apply lookup_delete_eq|]. destruct (HC _ _ Hg) as (h' & ? & ? & Hc & _).
            exists h'. split_and!; [done|done|auto].
          + destruct (HR _ _ Hq) as [? ?]. split; [|done]. by rewrite lookup_delete_ne. }
      case_bool_decide; [|done]. by apply (queues_only_inv e1).
    + apply (slots_change_inv e); try done. intros id q Hq.
      destruct (ei_leg _ HI _ _ Hq) as (? & h & Hh & ? & Hcl). split; [done|].
      assert (p <> q) by (intros <-; simplify_eq; done).
      destruct (HC _ _ Hh) as (h' & ? & ? & _ & Hc & _). exists h'. split_and!; [done|congruence|].
      rewrite Hc by done. done.
Qed.

Lemma fold_close ps e :
  let e' := fold_left (fun e p => leg_close p e) ps e in
  de_cfg e' = de_cfg e /\ de_waiting e' = de_waiting e /\ de_incoming e' = de_incoming e /\
  de_fresh e' = de_fresh e /\ de_legs e' = de_legs e /\ de_retiring e' = de_retiring e /\
  de_done e' = de_done e /\
  forall q, de_heap e' !! q = (fun g => if bool_decide (q ∈ ps) then g <| dl_closed := true |> else g)
                              <$> de_heap e !! q.
Proof.
  revert e. induction ps as [|p ps IH]; intros e; cbn [fold_left].
  - split_and!; try done. intros q. by destruct (de_heap e !! q).
  - destruct (IH (leg_close p e)) as (-> & -> & -> & -> & -> & -> & -> & H). split_and!; try done.
    intros q. rewrite H, leg_close_lookup. destruct (de_heap e !! q) as [g|]; [|by destruct (bool_decide (p = q))].
    destruct (bool_decide_reflect (p = q)) as [->|Hne]; simpl;
      destruct (bool_decide_reflect (q ∈ ps)) as [Hin|Hin].
    + by rewrite bool_decide_eq_true_2 by (by right).
    + by rewrite bool_decide_eq_true_2 by left.
    + by rewrite bool_decide_eq_true_2 by (by right).
    + rewrite bool_decide_eq_false_2; [done|]. by intros [?|?]%elem_of_cons.
Qed.

Lemma Close_inv e : engine_inv e -> engine_inv (Close e).
Proof.
  intros HI. unfold Close. destruct (de_done e) eqn:Hd; [done|].
  set (e1 := e <| de_done := true |>). set (ps := (map_to_list (de_legs e1)).*2).
  destruct (fold_close ps e1) as (F1 & F2 & F3 & F4 & F5 & F6 & F7 & F8).
  apply (slots_change_inv e); try done.
  - intros p. rewrite F8. change (de_heap e1) with (de_heap e). destruct (de_heap e !! p); [|done].
    simpl. by case_bool_decide.
  - rewrite F5, F7. intros id p Hp. destruct (ei_leg _ HI _ _ Hp) as (? & g & Hg & ? & _). split; [done|].
    exists (g <| dl_closed := true |>). rewrite F8. change (de_heap e1) with (de_heap e). rewrite Hg. simpl.
    rewrite bool_decide_eq_true_2; [done|]. subst ps. apply list_elem_of_fmap.
    exists (id, p). split; [done|]. by apply elem_of_map_to_list.
  - rewrite F5, F6. intros id p Hp. destruct (ei_retiring _ HI _ _ Hp) as (? & g & Hg & ? & ?). split; [done|].
    rewrite F8. change (de_heap e1) with (de_heap e). rewrite Hg. simpl.
    case_bool_decide; eexists; (split; [done|]); done.
Qed.

Lemma AttachLeg_inv id conn input e : engine_inv e -> 0 <= id -> engine_inv (AttachLeg id conn input e).2.
Proof.
  intros HI Hid. unfold AttachLeg. case_bool_decide; [done|]. destruct (de_done e) eqn:Hd; [done|].
  destruct (de_legs e !! id) eqn:Hl; [done|]. destruct (de_retiring e !! id) eqn:Hr; [done|]. cbn [snd].
  destruct HI as [I1 I2 I3 I4 I5 I6 I7].
  assert (forall p g, de_heap e !! p = Some g -> p <> de_fresh e) as Hf by (intros p g Hg%I2; lia).
  assert (waiting_bytes (de_fresh e) e = 0) as HW.
  { unfold waiting_bytes. induction I6 as [|w ws [g Hg] _ IH]; simpl; [done|].
    rewrite bool_decide_eq_false_2 by (by eapply Hf). done. }
  split; simpl; try done.
  - intros p g [[<- <-]|[_ Hg%I2]]%lookup_insert_Some; lia.
  - intros id' p [[<- <-]|[Hne Hp]]%lookup_insert_Some.
    + split; [lia|]. eexists. rewrite lookup_insert_eq. done.
    + destruct (I3 _ _ Hp) as (? & g & Hg & ? & ?). split; [done|]. exists g.
      rewrite lookup_insert_ne by (apply not_eq_sym; by eapply Hf). done.
  - intros id' p Hp. destruct (I4 _ _ Hp) as (? & g & Hg & ? & ?). split.
    + rewrite lookup_insert_ne; [done|]. intros <-. congruence.
    + exists g. rewrite lookup_insert_ne by (apply not_eq_sym; by eapply Hf). done.
  - intros p g [[<- <-]|[Hne Hg]]%lookup_insert_Some.
    + simpl. change (waiting_bytes (de_fresh e) _) with (waiting_bytes (de_fresh e) e). rewrite HW.
      unfold slen. simpl. split; [lia|done].
    + by apply I5.
  - eapply Forall_impl; [exact I6|]. intros w Hw. simpl. apply lookup_insert_is_Some.
    destruct (decide (de_fresh e = w.1)); [by left|by right].
Qed.

Lemma finish_retire_inv p e : engine_inv e -> engine_inv (finish_retire p e).
Proof.
  intros HI. unfold finish_retire. destruct (de_heap e !! p) as [g|]; [|done].
  destruct (_ || _); [done|]. apply upd_leg_inv; [|done]. case_bool_decide; [|done].
  apply (slots_change_inv e); try done; simpl.
  - apply (ei_leg _ HI).
  - intros id q [_ Hq]%lookup_delete_Some. by apply (ei_retiring _ HI).
Qed.

Lemma write_step_inv p now e : engine_inv e -> engine_inv (default e (write_step p now e)).
Proof.
  intros HI. unfold write_step. destruct (de_heap e !! p) as [g|] eqn:Hg; [|done].
  destruct (dl_writer g); [|done]. destruct (dl_send g) as [|f rest] eqn:Hs; [done|].
  destruct (WriteDatagramFrame _ _ _ _) as [err conn].
  match goal with |- context [upd_leg p ?h e] => set (e1 := upd_leg p h e) end.
  assert (engine_inv e1) as HE1.
  { apply (queues_only_inv e); [done|]. split; try done; [by apply upd_leg_slots|].
    intros owed HA. apply (accounts_upd p _ e owed); [done|done|]. intros g' Hg'.
    rewrite Hg in Hg'. injection Hg' as <-. destruct (HA _ _ Hg) as [H1 H2]. rewrite Hs in H1, H2. simpl.
    split; [unfold slen in *; simpl in *; lia|]. rewrite H2, i64_add. simpl. f_equal. lia. }
  destruct err; simpl.
  - apply upd_leg_inv; [by apply handleLegFailure_inv|done].
  - by apply (queues_only_inv e1).
Qed.

Lemma read_step_inv p now e : engine_inv e -> engine_inv (default e (read_step p now e)).
Proof.
  intros HI. unfold read_step. destruct (de_heap e !! p) as [g|]; [|done].
  destruct (dl_reader g); [|done]. destruct (dl_publishing g); [done|].
  destruct (if dl_closed g then _ else _) as [[[[id address] data] conn]|]; simpl;
    [|apply upd_leg_inv; [by apply handleLegFailure_inv|done]].
  match goal with |- context [upd_leg p ?h e] => set (e1 := upd_leg p h e) end.
  assert (engine_inv e1) as HE1 by (by apply upd_leg_inv).
  destruct (acceptDatagramID _ _ _ _) as [ok d].
  destruct ok; simpl; [|by apply (queues_only_inv e1)].
  match goal with |- engine_inv (touch now (upd_leg p ?h ?e2)) =>
    apply (queues_only_inv (upd_leg p h e2)); [|by split]; apply upd_leg_inv; [|done];
    by apply (queues_only_inv e1) end.
Qed.

Lemma writer_exit_inv p e : engine_inv e -> engine_inv (default e (writer_exit p e)).
Proof.
  intros HI. unfold writer_exit. destruct (de_heap e !! p) as [g|]; [|done].
  destruct (_ && _); [|done]. by apply upd_leg_inv.
Qed.

Lemma publish_step_inv p e : engine_inv e -> engine_inv (default e (publish_step p e)).
Proof.
  intros HI. unfold publish_step. destruct (de_heap e !! p) as [g|]; [|done].
  destruct (dl_publishing g) as [f|]; [|done]. case_bool_decide as Hr; [|done].
  apply upd_leg_inv; [|done]. apply (same_slots_inv e); [done|by split| | |].
  - apply (ei_queue _ HI).
  - apply (ei_waiting _ HI).
  - simpl. unfold slen in *. rewrite length_app. simpl. lia.
Qed.

Lemma publish_exit_inv p e : engine_inv e -> engine_inv (default e (publish_exit p e)).
Proof.
  intros HI. unfold publish_exit. destruct (de_heap e !! p) as [g|]; [|done].
  destruct (_ && _); [|done]. by apply upd_leg_inv.
Qed.

Lemma Receive_inv deadline now pd e : engine_inv e -> engine_inv (Receive deadline now pd e).2.
Proof.
  intros HI. unfold Receive. destruct (_ && _); [done|]. destruct (_ && _); [done|].
  destruct (de_incoming e) as [|f rest] eqn:E; [done|]. apply (same_slots_inv e); [done|by split| | |].
  - apply (ei_queue _ HI).
  - apply (ei_waiting _ HI).
  - pose proof (ei_incoming _ HI) as H. rewrite E in H. unfold slen in *. simpl in *. lia.
Qed.

(** A default keeps the fields it does not set. *)
Lemma set_default_keeps {A} (f : DatagramConfig -> A) bad fix_ cfg :
  (forall c, f (fix_ c) = f c) -> f (set_default bad fix_ cfg) = f cfg.
Proof. intros H. unfold set_default. by destruct (bad cfg). Qed.

Lemma defaults_positive cfg :
  0 <= cfg_DedupWindow cfg ->
  0 < cfg_QueueFrames (datagram_defaults cfg) /\ 0 < cfg_DedupWindow (datagram_defaults cfg).
Proof.
  intros HW. unfold datagram_defaults. cbn [fold_left fst snd].
  rewrite !(set_default_keeps cfg_QueueFrames) by done.
  do 3 rewrite (set_default_keeps cfg_DedupWindow) by done. unfold set_default at 1 2. split.
  - case_bool_decide; simpl; lia.
  - case_bool_decide as H; [simpl; lia|]. revert H.
    rewrite !(set_default_keeps cfg_DedupWindow) by done. lia.
Qed.

Lemma new_engine_inv cfg now : 0 <= cfg_DedupWindow cfg -> engine_inv (NewDatagramEngine cfg now).
Proof.
  intros HW. pose proof (defaults_positive cfg HW) as HC. unfold NewDatagramEngine.
  revert HC. generalize (datagram_defaults cfg). intros cfg' HC.
  split; simpl; try done. unfold slen. simpl. lia.
Qed.

Section runs.
Context {F : Type} (flt : F -> F -> bool) (score : DatagramEngine -> ptr -> Z -> F).

Lemma dg_exec_inv e op : engine_inv e -> dop_wf op -> engine_inv (dg_exec flt score e op).
Proof.
  intros HI Hwf. destruct op; simpl in *.
  - by apply AttachLeg_inv.
  - unfold ReplaceLeg. destruct (de_legs e !! id); [by apply handleLegFailure_inv|done].
  - by apply handleLegFailure_inv.
  - by apply finish_retire_inv.
  - by apply Send_inv.
  - by apply resume_sent_inv.
  - by apply resume_failed_inv.
  - by apply write_step_inv.
  - by apply writer_exit_inv.
  - by apply read_step_inv.
  - by apply publish_step_inv.
  - by apply publish_exit_inv.
  - by apply Receive_inv.
  - unfold idle_tick. destruct (de_done e); [done|]. destruct (_ && _); [by apply Close_inv|done].
  - unfold recovery_expired. destruct (de_done e); [done|]. destruct (_ && _); [by apply Close_inv|done].
  - by apply Close_inv.
Qed.

Lemma dg_run_inv ops e : engine_inv e -> Forall dop_wf ops -> engine_inv (dg_run flt score ops e).
Proof.
  revert e. induction ops as [|op ops IH]; intros e HI Hwf; simpl; [done|].
  apply Forall_cons in Hwf as [H1 H2]. apply IH; [by apply dg_exec_inv|done].
Qed.

End runs.

Definition example_peer : bytes := datagram_bytes 0 (str "10.0.0.1:53") (str "answer").
Definition example_dg_ops : list dg_op :=
  [dop_attach 0 (MkWriter [] []) (MkReader example_peer io_EOF);
   dop_attach 1 (MkWriter [] [(0, None)]) (MkReader example_peer io_EOF);
   dop_send (str "query") (str "10.0.0.1:53") 0 5 false;
   dop_write 0 6; dop_write 1 7; dop_read 0 8; dop_publish 0; dop_receive 0 9 false;
   dop_read 0 10; dop_recover 3].
Definition example_dg_cfg : DatagramConfig := MkDatagramConfig DatagramDuplicate 4 0 64 0 0 0 0.
Definition by_backlog (e : DatagramEngine) (p : ptr) (n : Z) : Z :=
  match de_heap e !! p with Some g => dl_queuedBytes g + n | None => n end.


(** ** What [Send] does *)

Definition queue (e : DatagramEngine) (p : ptr) : list datagramFrame :=
  match de_heap e !! p with Some g => dl_send g | None => [] end.

(** [f] has been appended to the queues of [ps] and to no other; slots, waiting
    senders and counters are as before. *)
Record appended (f : datagramFrame) (ps : list ptr) (e e' : DatagramEngine) : Prop := {
  ap_queue : forall q, queue e' q = queue e q ++ (if bool_decide (q ∈ ps) then [f] else []);
  ap_avail : availableLegs e' = availableLegs e;
  ap_waiting : de_waiting e' = de_waiting e;
  ap_dup : de_duplicateTx e' = de_duplicateTx e;
  ap_seq : de_txSeq e' = de_txSeq e
}.

Lemma same_slots_avail e e' : same_slots e e' -> availableLegs e' = availableLegs e.
Proof.
  intros [S1 S2 S3 S4 S5 S6]. unfold availableLegs. rewrite S3.
  assert (forall id, match de_legs e !! id with
    | Some p => match de_heap e' !! p with Some g => if dl_closed g then None else Some p | None => None end
    | None => None end
    = match de_legs e !! id with
    | Some p => match de_heap e !! p with Some g => if dl_closed g then None else Some p | None => None end
    | None => None end) as H.
  { intros id. destruct (de_legs e !! id) as [p|]; [|done]. specialize (S6 p).
    destruct (de_heap e' !! p) as [g'|], (de_heap e !! p) as [g|]; try done. by injection S6 as _ ->. }
  simpl. by rewrite !H.
Qed.

Lemma appended_refl f e : appended f [] e e.
Proof. split; try done. intros q. by rewrite app_nil_r. Qed.

Lemma appended_trans f ps qs e1 e2 e3 :
  (forall p, p ∈ ps -> p ∉ qs) -> appended f ps e1 e2 -> appended f qs e2 e3 -> appended f (ps ++ qs) e1 e3.
Proof.
  intros Hdis [A1 A2 A3 A4 A5] [B1 B2 B3 B4 B5]. split; try congruence.
  intros q. rewrite B1, A1, <- app_assoc. f_equal. specialize (Hdis q).
  destruct (bool_decide_reflect (q ∈ ps)), (bool_decide_reflect (q ∈ qs));
    destruct (bool_decide_reflect (q ∈ ps ++ qs)) as [Hc|Hc]; rewrite elem_of_app in Hc; simpl; tauto.
Qed.

(** A change of one leg's counter, or of its queue as well. *)
Lemma appended_upd f p h e :
  (forall g, slot_view (h g) = slot_view g /\ dl_send (h g) = dl_send g) -> appended f [] e (upd_leg p h e).
Proof.
  intros Hh. split; try done; [|by apply same_slots_avail, upd_leg_slots; intros; apply Hh].
  intros q. rewrite app_nil_r. unfold queue. rewrite upd_leg_lookup. case_bool_decide; [|done].
  destruct (de_heap e !! q); [|done]. simpl. by destruct (Hh d) as [_ ->].
Qed.

Lemma appended_push f p e : is_Some (de_heap e !! p) -> appended f [p] e (push p f e).
Proof.
  intros [g Hg]. split; try done; [|by apply same_slots_avail, upd_leg_slots].
  intros q. unfold queue, push. rewrite upd_leg_lookup.
  destruct (bool_decide_reflect (p = q)) as [<-|Hne].
  - rewrite Hg. simpl. by rewrite bool_decide_eq_true_2 by left.
  - rewrite bool_decide_eq_false_2 by (by rewrite list_elem_of_singleton). by rewrite app_nil_r.
Qed.

Lemma reserve_push_appended f p e g :
  de_heap e !! p = Some g -> appended f [p] e (push p f (reserve p (frame_len f) e)).
Proof.
  intros Hg. apply (appended_trans f [] [p] e (reserve p (frame_len f) e)); [set_solver|by apply appended_upd|].
  apply appended_push. unfold reserve. rewrite upd_leg_lookup, bool_decide_eq_true_2, Hg by done. by eexists.
Qed.

Lemma rollback_appended f p n e : appended f [] e (reserve p (- n) (reserve p n e)).
Proof.
  apply (appended_trans f [] [] e (reserve p n e)); [set_solver|by apply appended_upd|by apply appended_upd].
Qed.

Lemma try_enqueue_appended p f e ok e' :
  try_enqueue p f e = (ok, e') -> appended f (if ok then [p] else []) e e'.
Proof.
  unfold try_enqueue. destruct (de_heap e !! p) as [g|] eqn:Hg; [|intros [= <- <-]; apply appended_refl].
  destruct (dl_closed g); [intros [= <- <-]; apply appended_refl|].
  destruct (has_room _ g); intros [= <- <-]; [by eapply reserve_push_appended|apply rollback_appended].
Qed.

Lemma enqueue_all_appended legs f e n e' :
  NoDup legs -> enqueue_all legs f e = (n, e') ->
  exists ps, NoDup ps /\ (forall p, p ∈ ps -> p ∈ legs) /\ n = slen ps /\ appended f ps e e'.
Proof.
  revert e n. induction legs as [|p legs IH]; intros e n Hnd; simpl.
  - intros [= <- <-]. exists []. split_and!; [constructor|done|done|apply appended_refl].
  - apply NoDup_cons in Hnd as [Hp Hnd]. destruct (try_enqueue p f e) as [ok e1] eqn:E1.
    destruct (enqueue_all legs f e1) as [m e2] eqn:E2. intros [= <- <-].
    destruct (IH _ _ Hnd E2) as (ps & P1 & P2 & -> & P4). apply try_enqueue_appended in E1.
    exists ((if ok then [p] else []) ++ ps). split_and!.
    + destruct ok; [|done]. apply NoDup_cons. split; [auto|done].
    + intros q. destruct ok; simpl; [intros [->|?]%elem_of_cons; [left|right; auto]|right; auto].
    + destruct ok; unfold slen; simpl; lia.
    + eapply appended_trans; [|done|done]. destruct ok; [|set_solver].
      intros q ->%list_elem_of_singleton. auto.
Qed.

Lemma send_fallback_appended best legs f e r e' :
  send_fallback best legs f e = (r, e') ->
  (r = send_ok /\ exists p, p ∈ legs /\ appended f [p] e e') \/ (r = send_unavailable /\ appended f [] e e').
Proof.
  revert e. induction legs as [|p legs IH]; intros e; simpl.
  - intros [= <- <-]. right. split; [done|apply appended_refl].
  - case_bool_decide as Hb.
    { intros [[-> (q & Hq & HA)]|?]%IH; [left|by right]. split; [done|]. exists q. split; [by right|done]. }
    destruct (try_enqueue p f e) as [ok e1] eqn:E1. apply try_enqueue_appended in E1. destruct ok.
    + intros [= <- <-]. left. split; [done|]. exists p. split; [left|done].
    + intros [[-> (q & Hq & HA)]|[-> HA]]%IH; [left|right]; (split; [done|]).
      * exists q. split; [by right|]. by apply (appended_trans f [] [q] e e1); [set_solver|..].
      * by apply (appended_trans f [] [] e e1); [set_solver|..].
Qed.

Lemma enqueue_appended p f deadline now pd e r e' :
  enqueue p f deadline now pd e = (r, e') ->
  match r with
  | enqueue_yes => appended f [p] e e'
  | enqueue_no => appended f [] e e'
  | enqueue_blocked => exists e1, appended f [] e e1 /\ e' = e1 <| de_waiting ::= fun ws => ws ++ [(p, f)] |>
  end.
Proof.
  unfold enqueue. destruct (de_heap e !! p) as [g|] eqn:Hg; [|intros [= <- <-]; apply appended_refl].
  destruct (dl_closed g); [intros [= <- <-]; apply appended_refl|].
  destruct (_ && _); [intros [= <- <-]; apply rollback_appended|].
  destruct (_ && pd); [intros [= <- <-]; apply rollback_appended|].
  destruct (has_room _ g); [intros [= <- <-]; by eapply reserve_push_appended|].
  destruct (de_done _); intros [= <- <-]; [apply rollback_appended|].
  eexists. split; [|reflexivity]. by apply appended_upd.
Qed.

Lemma omap_pair_NoDup {A} (h : Z -> option A) :
  (forall x y, h 0 = Some x -> h 1 = Some y -> x <> y) -> NoDup (omap h [0; 1]).
Proof.
  intros H. simpl. destruct (h 0) as [x|], (h 1) as [y|].
  - apply NoDup_cons. split; [|apply NoDup_singleton]. rewrite list_elem_of_singleton. by apply H.
  - apply NoDup_singleton.
  - apply NoDup_singleton.
  - constructor.
Qed.

Lemma available_NoDup e : engine_inv e -> NoDup (availableLegs e).
Proof.
  intros HI. apply omap_pair_NoDup. intros p q.
  destruct (de_legs e !! 0) as [p'|] eqn:E0; [|done]. destruct (de_legs e !! 1) as [q'|] eqn:E1; [|done].
  destruct (ei_leg _ HI _ _ E0) as (_ & g & Hg & H0 & _).
  destruct (ei_leg _ HI _ _ E1) as (_ & g' & Hg' & H1 & _). rewrite Hg, Hg'.
  destruct (dl_closed g); [done|]. destruct (dl_closed g'); [done|]. intros [= ->] [= ->] ->.
  rewrite Hg in Hg'. injection Hg' as ->. congruence.
Qed.

Section send.
Context {F : Type} (flt : F -> F -> bool) (score : DatagramEngine -> ptr -> Z -> F).

Lemma choose_in e n legs best p :
  choose flt score e n best legs = Some p -> p ∈ legs \/ fst <$> best = Some p.
Proof.
  revert best. induction legs as [|q legs IH]; intros best; simpl; [by right|].
  intros [H|H]%IH; [left; by right|]. destruct best as [[q' s']|]; simpl in *.
  - destruct (flt _ _); simpl in H; [left; simplify_eq; left|by right].
  - left. simplify_eq. left.
Qed.

Lemma choose_some e n legs best : legs <> [] \/ is_Some best -> is_Some (choose flt score e n best legs).
Proof.
  revert best. induction legs as [|q legs IH]; intros best [H|H]; simpl; try done.
  - by apply fmap_is_Some.
  - apply IH. right. destruct best as [[]|]; [destruct (flt _ _)|]; by eexists.
  - apply IH. right. destruct best as [[]|]; [destruct (flt _ _)|]; by eexists.
Qed.

(** The second half of [Send], after duplication was not tried or queued nothing. *)
Lemma send_single e e' r f deadline now pd n :
  availableLegs e <> [] ->
  match chooseLeg flt score e (availableLegs e) n with
  | None => send_fallback (-1) (availableLegs e) f e
  | Some best =>
    match enqueue best f deadline now pd e with
    | (enqueue_yes, e) => (send_ok, e)
    | (enqueue_no, e) => send_fallback (leg_id e best) (availableLegs e) f e
    | (enqueue_blocked, e) => (send_blocked, e)
    end
  end = (r, e') ->
  (r = send_ok /\ exists p, p ∈ availableLegs e /\ appended f [p] e e') \/
  (r = send_unavailable /\ appended f [] e e') \/
  (r = send_blocked /\ exists p e1, p ∈ availableLegs e /\ appended f [] e e1 /\
     e' = e1 <| de_waiting ::= fun ws => ws ++ [(p, f)] |>).
Proof.
  intros Hne. destruct (choose_some e n (availableLegs e) None (or_introl Hne)) as [best Hb].
  unfold chooseLeg. rewrite Hb. apply choose_in in Hb as [Hb|Hb]; [|done].
  destruct (enqueue best f deadline now pd e) as [er e1] eqn:E. apply enqueue_appended in E. destruct er.
  - intros [= <- <-]. left. eauto.
  - rewrite (ap_avail _ _ _ _ E). intros [[-> (p & Hp & HA)]|[-> HA]]%send_fallback_appended.
    + left. split; [done|]. exists p. split; [done|]. by apply (appended_trans f [] [p] e e1); [set_solver|..].
    + right. left. split; [done|]. by apply (appended_trans f [] [] e e1); [set_solver|..].
  - intros [= <- <-]. right. right. split; [done|]. destruct E as (e0 & ? & ?). eauto.
Qed.

(** A valid datagram sent while some leg is up gets the next sequence number
    and is appended, once each, to the queues of a set [ps] of live legs and to no
    other queue.  [Send] succeeds exactly when that set is not empty, and counts its
    other members as duplicates; it reports failure when no leg took the datagram;
    otherwise it is blocked on one live leg. *)
Theorem Send_queues_once data address deadline now pd e r e' :
  engine_inv e -> data <> [] -> slen data <= cfg_MaxDatagramSize (de_cfg e) ->
  address <> [] -> slen address <= MaxDatagramAddressSize -> availableLegs e <> [] ->
  Send flt score data address deadline now pd e = (r, e') ->
  let f := MkDFrame (de_txSeq e) address data now in
  de_txSeq e' = u64 (de_txSeq e + 1) /\
  exists ps, NoDup ps /\ (forall p, p ∈ ps -> p ∈ availableLegs e) /\
    (forall q, queue e' q = queue e q ++ (if bool_decide (q ∈ ps) then [f] else [])) /\
    match r with
    | send_ok => ps <> [] /\ de_waiting e' = de_waiting e /\
        de_duplicateTx e' = (if bool_decide (1 < slen ps)
                             then u64 (de_duplicateTx e + (slen ps - 1)) else de_duplicateTx e)
    | send_unavailable => ps = [] /\ de_waiting e' = de_waiting e /\
        de_duplicateTx e' = de_duplicateTx e
    | send_blocked => ps = [] /\ exists p, p ∈ availableLegs e /\
        de_waiting e' = de_waiting e ++ [(p, f)] /\ de_duplicateTx e' = de_duplicateTx e
    | _ => False
    end.
Proof.
  intros HI Hd Hm Ha Hal Hne. unfold Send. rewrite !bool_decide_eq_false_2 by (done || lia).
  cbn [orb].
  set (f := MkDFrame _ _ _ _). set (e1 := touch now _).
  assert (availableLegs e1 = availableLegs e) as Hav by done.
  set (q := if shouldDuplicate _ _ _ then _ else _).
  assert (exists ps, NoDup ps /\ (forall p, p ∈ ps -> p ∈ availableLegs e) /\ q.1 = slen ps /\
    appended f ps e1 q.2) as (ps & P1 & P2 & P3 & P4).
  { subst q. destruct (shouldDuplicate _ _ _).
    - destruct (enqueue_all (availableLegs e) f e1) as [n e2] eqn:E.
      by apply (enqueue_all_appended (availableLegs e)); [apply available_NoDup|].
    - exists []. split_and!; [apply NoDup_nil_2|by intros ? ?%not_elem_of_nil|done|apply appended_refl]. }
  destruct q as [queued e2]. cbn [fst snd] in P3, P4. subst queued. destruct P4 as [Q1 Q2 Q3 Q4 Q5].
  case_bool_decide as Hq.
  - assert (ps <> []) by (intros ->; done). intros [= <- <-]. split.
    { case_bool_decide; simpl; by rewrite Q5. }
    exists ps. split_and!; try done; case_bool_decide; try done; simpl; by rewrite Q4.
  - assert (ps = []) as -> by (unfold slen in Hq; destruct ps; [done|simpl in Hq; lia]).
    replace (availableLegs e) with (availableLegs e2) in Hne |- * by (by rewrite Q2).
    intros Hs. apply send_single in Hs; [|done].
    assert (forall q, queue e2 q = queue e q) as HQ2 by (intros q; rewrite Q1; apply app_nil_r).
    destruct Hs as [[-> (p & Hp & [R1 R2 R3 R4 R5])]|[[-> [R1 R2 R3 R4 R5]]
      |[-> (p & e3 & Hp & [R1 R2 R3 R4 R5] & ->)]]].
    + split; [by rewrite R5, Q5|]. exists [p]. split_and!; try congruence; try done.
      * apply NoDup_singleton.
      * by intros ? ->%list_elem_of_singleton.
      * intros q. by rewrite R1, HQ2.
      * by rewrite R3, Q3.
      * by rewrite R4, Q4.
    + split; [by rewrite R5, Q5|]. exists [].
      split_and!; [apply NoDup_nil_2|by intros ? ?%not_elem_of_nil| |done|by rewrite R3, Q3|by rewrite R4, Q4].
      intros q. by rewrite R1, HQ2.
    + split; [simpl; by rewrite R5, Q5|]. exists [].
      split_and!; [apply NoDup_nil_2|by intros ? ?%not_elem_of_nil| |done|].
      * intros q. rewrite <- HQ2. apply R1.
      * exists p. split; [done|]. simpl. by rewrite R3, Q3, R4, Q4.
Qed.
End send.

Definition attached_engine : DatagramEngine :=
  dg_run Z.ltb by_backlog (take 2 example_dg_ops) (NewDatagramEngine example_dg_cfg 0).
Lemma attached_engine_inv : engine_inv attached_engine.
Proof.
  apply dg_run_inv; [apply new_engine_inv; vm_compute; discriminate|repeat constructor; simpl; lia].
Qed.
Lemma attached_engine_facts :
  slen (str "query") <= cfg_MaxDatagramSize (de_cfg attached_engine) /\
  slen (str "10.0.0.1:53") <= MaxDatagramAddressSize /\ availableLegs attached_engine <> [] /\
  (Send Z.ltb by_backlog (str "query") (str "10.0.0.1:53") 0 5 false attached_engine).1 = send_ok.
Proof. vm_compute. repeat split; discriminate. Qed.

Lemma Send_queues_once_witness :
  exists e' ps, Send Z.ltb by_backlog (str "query") (str "10.0.0.1:53") 0 5 false attached_engine
      = (send_ok, e') /\ ps <> [] /\ de_txSeq e' = 1 /\
    forall q, queue e' q = queue attached_engine q ++
      (if bool_decide (q ∈ ps) then [MkDFrame 0 (str "10.0.0.1:53") (str "query") 5] else []).
Proof.
  destruct attached_engine_facts as (F1 & F2 & F3 & F4).
  destruct (Send Z.ltb by_backlog (str "query") (str "10.0.0.1:53") 0 5 false attached_engine)
    as [r e'] eqn:E. cbn [fst] in F4. subst r.
  destruct (Send_queues_once Z.ltb by_backlog (str "query") (str "10.0.0.1:53") 0 5 false
    attached_engine send_ok e' attached_engine_inv) as (H1 & ps & _ & _ & H2 & H3 & _);
    [discriminate|exact F1|discriminate|exact F2|exact F3|exact E|].
  exists e', ps. split; [reflexivity|]. split; [exact H3|]. split; [exact H1|exact H2].
Defined.
