(* ===== verification/TxLane.v ===== *)
(** * Attempts in the transmit ledger

    A record can be on two lanes at once: the ordinary attempt ([inTransit]) and the
    rescue ([rescueInTransit]).  [lane] reads one of them for an outstanding record.
    The lemmas say which ledger methods put a record on a lane and which take it
    off. *)

From S2P Require Import Prelude Bytes TxLedger TxInv TxQueue.
From stdpp Require Import options.

Definition lane_of (r : StreamTXRecord) (rescue : bool) : option (Z * time) :=
  if rescue then if tr_rescueInTransit r then Some (tr_rescueLeg r, tr_rescueSince r) else None
  else if tr_inTransit r then Some (tr_transitLeg r, tr_transitSince r) else None.

(** The leg and the start of the attempt an outstanding record is on. *)
Definition lane (l : StreamTXLedger) (q : ptr) (rescue : bool) : option (Z * time) :=
  match current l (Some q) with Some (_, r) => lane_of r rescue | None => None end.

(** No record gets onto a lane, or changes its lane. *)
Definition lanes_shrink (l l' : StreamTXLedger) : Prop :=
  forall q b x, lane l' q b = Some x -> lane l q b = Some x.

Lemma shrink_refl l : lanes_shrink l l.
Proof. by intros q b x. Qed.

Definition att (r : StreamTXRecord) := (tr_sequence r, lane_of r false, lane_of r true).

Lemma att_eq r r' : att r' = att r -> tr_sequence r' = tr_sequence r /\ forall b, lane_of r' b = lane_of r b.
Proof.
  intros H. split; [exact (f_equal (fun x => x.1.1) H)|].
  intros []; [exact (f_equal snd H)|exact (f_equal (fun x => x.1.2) H)].
Qed.

Lemma heap_shrink l l' :
  lg_outstanding l' ⊆ lg_outstanding l ->
  (forall q, att <$> lg_heap l' !! q = att <$> lg_heap l !! q) -> lanes_shrink l l'.
Proof.
  intros HO HH q b x. unfold lane, current. specialize (HH q).
  destruct (lg_heap l' !! q) as [r'|] eqn:E'; [|done].
  destruct (lg_heap l !! q) as [r|] eqn:E; [|done].
  apply (inj Some), att_eq in HH as [Hs Hl]. rewrite <- Hs.
  case_bool_decide as Ho; [|done]. rewrite bool_decide_eq_true_2 by (by eapply lookup_weaken).
  by rewrite Hl.
Qed.

Lemma same_shrink l l' :
  lg_outstanding l' = lg_outstanding l -> lg_heap l' = lg_heap l -> lanes_shrink l l'.
Proof. intros E1 E2. apply heap_shrink; [by rewrite E1|by intros; rewrite E2]. Qed.

Lemma shrink_trans l1 l2 l3 : lanes_shrink l1 l2 -> lanes_shrink l2 l3 -> lanes_shrink l1 l3.
Proof. intros A B q b x H. by apply A, B. Qed.

(** A record updated in place. *)
Lemma lane_store l record p r r' q b :
  current l record = Some (p, r) -> tr_sequence r' = tr_sequence r ->
  lane (store p r' l) q b = if bool_decide (q = p) then lane_of r' b else lane l q b.
Proof.
  intros (-> & Hp & Ho)%current_Some Hs. unfold lane, current. simpl. case_bool_decide as E.
  - subst q. rewrite lookup_insert_eq, Hs, bool_decide_eq_true_2 by done. done.
  - by rewrite lookup_insert_ne.
Qed.

Lemma lane_current l q r b : current l (Some q) = Some (q, r) -> lane l q b = lane_of r b.
Proof. intros E. unfold lane. by rewrite E. Qed.

Lemma current_ptr l record p r : current l record = Some (p, r) -> record = Some p /\ current l (Some p) = Some (p, r).
Proof. intros H. by destruct (current_Some _ _ _ _ H) as (-> & _). Qed.

Lemma store_shrink l record p r r' :
  current l record = Some (p, r) -> att r' = att r -> lanes_shrink l (store p r' l).
Proof.
  intros Hc [Hs Hl]%att_eq q b x. rewrite (lane_store _ _ _ _ _ _ _ Hc Hs).
  case_bool_decide as E; [|done]. subst q. destruct (current_ptr _ _ _ _ Hc) as [_ Hp].
  by rewrite (lane_current _ _ _ _ Hp), Hl.
Qed.

Lemma evidence_shrink e r now l : lanes_shrink l (evidenceLocked e r now l).
Proof. destruct (evidence_fields e r now l) as (_ & _ & E3 & E4 & _). by apply same_shrink. Qed.

(** ** The methods of an attempt *)

Lemma MarkTransit_lane l q0 leg now q b x :
  lane (MarkTransit l (Some q0) leg now).2 q b = Some x ->
  lane l q b = Some x \/
  (MarkTransit l (Some q0) leg now).1 = true /\ q = q0 /\ b = false /\ x = (leg, now).
Proof.
  unfold MarkTransit. destruct (current l (Some q0)) as [[p r]|] eqn:Hc; [|by left].
  destruct (current_ptr _ _ _ _ Hc) as [[= <-] _].
  destruct (tr_inTransit r); [by left|]. simpl.
  rewrite (lane_store _ _ _ _ _ _ _ Hc) by by case_bool_decide.
  case_bool_decide as E; [|by left]. subst q. rewrite (lane_current _ _ _ _ Hc).
  destruct b; intros H; [left|right]; revert H; case_bool_decide; simpl; try done; by intros [= <-].
Qed.

Lemma markRescue_lane l q0 leg now q b x :
  lane (markRescueTransitLocked l (Some q0) leg now).2 q b = Some x ->
  lane l q b = Some x \/
  (markRescueTransitLocked l (Some q0) leg now).1.2 = true /\ q = q0 /\ b = true /\ x = (leg, now).
Proof.
  unfold markRescueTransitLocked. destruct (current l (Some q0)) as [[p r]|] eqn:Hc; [|by left].
  destruct (current_ptr _ _ _ _ Hc) as [[= <-] _].
  destruct (tr_rescueInTransit r); [by left|]. destruct (_ && _); [by left|]. simpl.
  rewrite (lane_store _ _ _ _ _ _ _ Hc) by done.
  case_bool_decide as E; [|by left]. subst q. rewrite (lane_current _ _ _ _ Hc).
  destruct b; intros H; [right|by left]. revert H. by intros [= <-].
Qed.

Lemma restricted_lane l q0 leg owner now q b x :
  lane (MarkRestrictedRescueTransit l (Some q0) leg owner now).2 q b = Some x ->
  lane l q b = Some x \/
  (MarkRestrictedRescueTransit l (Some q0) leg owner now).1.2 = true /\ q = q0 /\ b = true /\ x = (leg, now).
Proof.
  unfold MarkRestrictedRescueTransit. simpl. destruct (lg_heap l !! q0) as [r|]; [|by left].
  case_bool_decide; [by left|]. apply markRescue_lane.
Qed.

Lemma drop_rescue_lane r b : lane_of (drop_rescue r) b = if b then None else lane_of r false.
Proof. unfold drop_rescue. by destruct (time_equal _ _), b. Qed.
Lemma drop_transit_lane r b : lane_of (drop_transit r) b = if b then lane_of r true else None.
Proof. by destruct b. Qed.
Lemma drop_rescue_seq r : tr_sequence (drop_rescue r) = tr_sequence r.
Proof. unfold drop_rescue. by destruct (time_equal _ _). Qed.

Lemma clear_lane l q0 leg rescue started q b id t :
  lane (clearAttemptAt l (Some q0) leg rescue started) q b = Some (id, t) ->
  lane l q b = Some (id, t) /\ ~ (q = q0 /\ b = rescue /\ id = leg /\ t = started).
Proof.
  unfold clearAttemptAt. destruct (current l (Some q0)) as [[p r]|] eqn:Hc.
  2:{ intros H. split; [done|]. intros (-> & _). unfold lane in H. by rewrite Hc in H. }
  destruct (current_ptr _ _ _ _ Hc) as [[= <-] _].
  destruct rescue; match goal with |- context [if ?c then store _ _ _ else _] => destruct c eqn:E end.
  - rewrite (lane_store _ _ _ _ _ _ _ Hc) by apply drop_rescue_seq. destruct (bool_decide_reflect (q = q0)) as [->|Eq].
    + rewrite drop_rescue_lane. destruct b; [done|]. rewrite (lane_current _ _ _ _ Hc).
      intros H. split; [done|]. by intros (_ & ? & _).
    + intros H. split; [done|]. by intros (? & _).
  - intros H. split; [done|]. intros (-> & -> & -> & ->). rewrite (lane_current _ _ _ _ Hc) in H. simpl in H.
    destruct (tr_rescueInTransit r); [|done]. injection H as <- <-.
    rewrite bool_decide_eq_true_2 in E by done. unfold time_equal in E.
    rewrite (bool_decide_eq_true_2 (tr_rescueSince r = _)) in E by done. by rewrite orb_true_r in E.
  - rewrite (lane_store _ _ _ _ _ _ _ Hc) by done. destruct (bool_decide_reflect (q = q0)) as [->|Eq].
    + rewrite drop_transit_lane. destruct b; [|done]. rewrite (lane_current _ _ _ _ Hc).
      intros H. split; [done|]. by intros (_ & ? & _).
    + intros H. split; [done|]. by intros (? & _).
  - intros H. split; [done|]. intros (-> & -> & -> & ->). rewrite (lane_current _ _ _ _ Hc) in H. simpl in H.
    destruct (tr_inTransit r); [|done]. injection H as <- <-.
    rewrite bool_decide_eq_true_2 in E by done. unfold time_equal in E.
    rewrite (bool_decide_eq_true_2 (tr_transitSince r = _)) in E by done. by rewrite orb_true_r in E.
Qed.

(** [AttemptCurrent] reads the lane. *)
Lemma AttemptCurrent_lane l q leg rescue :
  AttemptCurrent l (Some q) leg rescue = true <-> exists t, lane l q rescue = Some (leg, t).
Proof.
  unfold AttemptCurrent, lane. destruct (current l (Some q)) as [[p r]|]; [|by split; [|intros [? ?]]].
  unfold lane_of. destruct rescue.
  - destruct (tr_rescueInTransit r); simpl; [|by split; [|intros [? ?]]]. rewrite bool_decide_eq_true.
    split; [intros ->; eauto|by intros [? [= -> _]]].
  - destruct (tr_inTransit r); simpl; [|by split; [|intros [? ?]]]. rewrite bool_decide_eq_true.
    split; [intros ->; eauto|by intros [? [= -> _]]].
Qed.

Lemma MarkAttemptSent_cases l q0 leg rescue now :
  (MarkAttemptSent l (Some q0) leg rescue now).2 = l /\ AttemptCurrent l (Some q0) leg rescue = false \/
  exists r r', current l (Some q0) = Some (q0, r) /\ tr_sequence r' = tr_sequence r /\
    lane_of r' rescue = None /\ lane_of r' (negb rescue) = lane_of r (negb rescue) /\
    lanes_shrink (store q0 r' l) (MarkAttemptSent l (Some q0) leg rescue now).2.
Proof.
  unfold MarkAttemptSent, AttemptCurrent. destruct (current l (Some q0)) as [[p r]|] eqn:Hc; [|by left].
  destruct (current_ptr _ _ _ _ Hc) as [[= <-] _].
  assert ((if rescue then negb (tr_rescueInTransit r) || bool_decide (tr_rescueLeg r <> leg)
           else negb (tr_inTransit r) || bool_decide (tr_transitLeg r <> leg))
    = negb (if rescue then tr_rescueInTransit r && bool_decide (tr_rescueLeg r = leg)
            else tr_inTransit r && bool_decide (tr_transitLeg r = leg))) as ->.
  { destruct rescue; rewrite negb_andb, bool_decide_not; done. }
  destruct (if rescue then _ else _) eqn:E; simpl; [|by left]. right. exists r. cbv zeta. simpl.
  match goal with |- context [evidenceLocked _ ?x _ _] => set (r2 := x) end.
  exists r2. split; [done|]. unfold r2. clear.
  split_and!.
  - by repeat case_match.
  - by destruct rescue; repeat case_match.
  - by destruct rescue; repeat case_match.
  - apply evidence_shrink.
Qed.

Lemma sent_lane l q0 leg rescue now q b id t :
  lane (MarkAttemptSent l (Some q0) leg rescue now).2 q b = Some (id, t) ->
  lane l q b = Some (id, t) /\ ~ (q = q0 /\ b = rescue /\ id = leg).
Proof.
  destruct (MarkAttemptSent_cases l q0 leg rescue now) as [[-> HF]|(r & r' & Hc & Hs & H1 & H2 & HE)].
  - intros H. split; [done|]. intros (-> & -> & ->).
    assert (AttemptCurrent l (Some q0) leg rescue = true) by (apply AttemptCurrent_lane; eauto). congruence.
  - intros H%HE. rewrite (lane_store _ _ _ _ _ _ _ Hc Hs) in H. case_bool_decide as E.
    + subst q. destruct (decide (b = rescue)) as [->|Hne]; [by rewrite H1 in H|].
      assert (b = negb rescue) as Eb by (by destruct b, rescue).
      rewrite Eb, H2 in H. split; [rewrite (lane_current _ _ _ _ Hc); by rewrite Eb|by intros (_ & ? & _)].
    + split; [done|]. by intros (? & _).
Qed.

Lemma invalidate_lane_of leg r b :
  lane_of (invalidate_record leg r) b
  = match lane_of r b with
    | Some (id, t) => if bool_decide (id = leg) then None else Some (id, t)
    | None => None
    end.
Proof.
  unfold invalidate_record.
  destruct (bool_decide (tr_ordinaryOwner r = leg)), (tr_inTransit r) eqn:E1, (bool_decide (tr_transitLeg r = leg)) eqn:E2,
    (tr_rescueInTransit r) eqn:E3, (bool_decide (tr_rescueLeg r = leg)) eqn:E4, b; simpl; rewrite ?E1, ?E2, ?E3, ?E4; simpl;
    rewrite ?E1, ?E2, ?E3, ?E4; simpl; unfold drop_rescue; simpl; repeat case_match; simpl in *;
    rewrite ?E1, ?E3; try done; simplify_eq; congruence.
Qed.

Lemma invalidate_lane l leg q b id t :
  lane (InvalidateLeg l leg) q b = Some (id, t) -> lane l q b = Some (id, t) /\ id <> leg.
Proof.
  unfold lane, current, InvalidateLeg. simpl. rewrite map_lookup_imap.
  destruct (lg_heap l !! q) as [r|]; [|done]. simpl.
  destruct (bool_decide (lg_outstanding l !! tr_sequence r = Some q)) eqn:Ho.
  - assert (tr_sequence (invalidate_record leg r) = tr_sequence r) as ->
      by (destruct (invalidate_account leg r) as (H & _); exact H).
    rewrite Ho, invalidate_lane_of. destruct (lane_of r b) as [[id' t']|]; [|done].
    destruct (bool_decide_reflect (id' = leg)); [done|]. by intros [= <- <-].
  - by rewrite Ho.
Qed.

(** ** The other methods *)

Lemma MarkRescueQueued_shrink l record leg started : lanes_shrink l (MarkRescueQueued l record leg started).2.
Proof.
  unfold MarkRescueQueued. destruct (current l record) as [[p r]|] eqn:Hc; [|apply shrink_refl].
  case_match; [apply shrink_refl|]. by eapply store_shrink.
Qed.

Lemma markWriteStarted_shrink l p leg rescue now : lanes_shrink l (markWriteStarted l p leg rescue now).
Proof.
  unfold markWriteStarted. destruct (current l (Some p)) as [[q r]|] eqn:Hc; [|apply shrink_refl].
  case_match; [|apply shrink_refl]. eapply shrink_trans; [|apply evidence_shrink]. by eapply store_shrink.
Qed.

Lemma setOrigin_shrink l p generation epoch : lanes_shrink l (setOrigin l p generation epoch).
Proof.
  unfold setOrigin. destruct (current l (Some p)) as [[q r]|] eqn:Hc; [|apply shrink_refl].
  eapply shrink_trans; [|apply evidence_shrink]. by eapply store_shrink.
Qed.

Lemma ensureLocked_frame l : lg_outstanding (ensureLocked l) = lg_outstanding l /\ lg_heap (ensureLocked l) = lg_heap l.
Proof. unfold ensureLocked. by repeat case_match. Qed.

Lemma ensureLeg_frame l id :
  lg_outstanding (ensureLegLocked l id).2 = lg_outstanding l /\ lg_heap (ensureLegLocked l id).2 = lg_heap l.
Proof.
  unfold ensureLegLocked. destruct (ensureLocked_frame l) as [E1 E2].
  repeat case_match; simpl; by rewrite ?E1, ?E2.
Qed.

Lemma counters_sub_frame l id r l' :
  counters_sub l id r = Some l' -> lg_outstanding l' = lg_outstanding l /\ lg_heap l' = lg_heap l.
Proof.
  unfold counters_sub. intros E. apply bind_Some in E as (? & _ & E). apply bind_Some in E as (? & _ & E).
  apply bind_Some in E as (? & _ & [= <-]). done.
Qed.
Lemma counters_add_frame l id r l' :
  counters_add l id r = Some l' -> lg_outstanding l' = lg_outstanding l /\ lg_heap l' = lg_heap l.
Proof.
  unfold counters_add. intros E. apply bind_Some in E as (? & _ & E). apply bind_Some in E as (? & _ & E).
  apply bind_Some in E as (? & _ & [= <-]). done.
Qed.

Lemma current_frame l l' record :
  lg_outstanding l' = lg_outstanding l -> lg_heap l' = lg_heap l -> current l' record = current l record.
Proof. intros E1 E2. unfold current. by rewrite E1, E2. Qed.

Lemma markOrdinaryAdmitted_shrink l record id l' :
  markOrdinaryAdmitted l record id = Some l' -> lanes_shrink l l'.
Proof.
  unfold markOrdinaryAdmitted. destruct (ensureLeg_frame l id) as [E1 E2].
  destruct (ensureLegLocked l id) as [ok l1]. simpl in E1, E2. pose proof (same_shrink l l1 E1 E2) as HS.
  destruct ok; simpl; [|by intros [= <-]].
  destruct (current l1 record) as [[p r]|] eqn:Hc; [|by intros [= <-]].
  case_match; [by intros [= <-]|]. intros E. apply bind_Some in E as (? & _ & [= <-]).
  eapply shrink_trans; [exact HS|].
  eapply (shrink_trans _ (store p (r <| tr_ordinaryAdmitted := true |>) l1)); [by eapply store_shrink|].
  by apply same_shrink.
Qed.

Lemma assignOrdinary_shrink l record id now ok l' :
  assignOrdinary l record id now = Some (ok, l') -> lanes_shrink l l'.
Proof.
  unfold assignOrdinary. destruct (ensureLeg_frame l id) as [E1 E2].
  destruct (ensureLegLocked l id) as [ok1 l1]. simpl in E1, E2. pose proof (same_shrink l l1 E1 E2) as HS.
  destruct ok1; simpl; [|by intros [= _ <-]].
  destruct (current l1 record) as [[p r]|] eqn:Hc; [|by intros [= _ <-]].
  case_match; [by intros [= _ <-]|]. intros E. apply bind_Some in E as (l2 & Hl2 & E).
  apply bind_Some in E as (l3 & Hl3 & [= _ <-]).
  assert (lg_outstanding l2 = lg_outstanding l1 /\ lg_heap l2 = lg_heap l1) as [F1 F2].
  { case_match; [by eapply counters_sub_frame|by injection Hl2 as <-]. }
  apply counters_add_frame in Hl3 as [G1 G2].
  rewrite <- (current_frame l1 l2) in Hc by done.
  eapply shrink_trans; [exact HS|]. eapply (shrink_trans _ l2); [by apply same_shrink|].
  eapply shrink_trans; [|by apply (same_shrink _ l3 G1 G2)].
  eapply shrink_trans; [|apply evidence_shrink]. by eapply store_shrink.
Qed.

Lemma finishLocal_shrink l p : lanes_shrink l (finishLocalEnqueue l p).
Proof.
  apply heap_shrink; [done|]. intros q. simpl. destruct (decide (p = q)) as [<-|Hne].
  - rewrite lookup_alter_eq. by destruct (lg_heap l !! p).
  - by rewrite lookup_alter_ne.
Qed.

Lemma retire_frame now head s l res l' res' :
  retire now head s (l, res) = Some (l', res') ->
  lg_outstanding l' ⊆ lg_outstanding l /\ lg_heap l' = lg_heap l.
Proof.
  unfold retire. destruct (lg_outstanding l !! s) as [p|]; [|by intros [= <- _]].
  intros E. apply bind_Some in E as (r & _ & E). apply bind_Some in E as (res1 & _ & E).
  apply bind_Some in E as ([l2 res2] & E & [= <- _]).
  destruct (evidence_fields "ACK_retire" r now l) as (_ & _ & F3 & F4 & _).
  case_match.
  - apply bind_Some in E as (l3 & [G1 G2]%counters_sub_frame & E). apply bind_Some in E as (? & _ & [= <- _]).
    rewrite G1, G2. simpl. rewrite F3, F4. split; [apply delete_subseteq|done].
  - injection E as <- _. simpl. rewrite F3, F4. split; [apply delete_subseteq|done].
Qed.

Lemma retire_loop_frame n now head s l res l' res' :
  retire_loop n now head s (l, res) = Some (l', res') ->
  lg_outstanding l' ⊆ lg_outstanding l /\ lg_heap l' = lg_heap l.
Proof.
  revert s l res. induction n as [|n IH]; intros s l res; simpl; [by intros [= <- _]|].
  intros E. apply bind_Some in E as ([l1 res1] & [F1 F2]%retire_frame & [G1 G2]%IH).
  split; [by etransitivity|congruence].
Qed.

Lemma expose_shrink next now l : lanes_shrink l (expose_frontier next now l).
Proof.
  unfold expose_frontier. destruct (lg_outstanding l !! next ≫= _) as [[p r]|] eqn:E; [|apply shrink_refl].
  apply bind_Some in E as (p' & Ho & E). apply fmap_Some in E as (r' & Hr & [= -> ->]).
  case_match; [|apply shrink_refl].
  eapply shrink_trans; [|apply evidence_shrink]. apply heap_shrink; [done|]. intros q. simpl.
  destruct (decide (p' = q)) as [<-|Hne]; [by rewrite lookup_insert_eq, Hr|by rewrite lookup_insert_ne].
Qed.

Lemma ApplyACK_shrink l next now res l' : ApplyACK l next now = Some (res, l') -> lanes_shrink l l'.
Proof.
  unfold ApplyACK. destruct (ensureLocked_frame l) as [E1 E2].
  pose proof (same_shrink l (ensureLocked l) E1 E2) as HS. set (l0 := ensureLocked l) in *.
  case_bool_decide; [by intros [= _ <-]|]. case_bool_decide; [by intros [= _ <-]|].
  intros E. apply bind_Some in E as (legs & _ & E). apply bind_Some in E as ([l1 res1] & [F1 F2]%retire_loop_frame & E).
  eapply shrink_trans; [exact HS|]. eapply shrink_trans; [apply (heap_shrink l0 l1); [done|by intros; rewrite F2]|].
  eapply (shrink_trans _ (l1 <| lg_ackedNext := next |>)); [by apply same_shrink|].
  eapply shrink_trans; [apply (expose_shrink next now)|].
  destruct (bool_decide (0 < ak_Released res1)); injection E as _ <-; by apply same_shrink.
Qed.

Lemma add_shrink l payload now local : ledger_inv l -> lanes_shrink l (add l payload now local).2.
Proof.
  intros HI. unfold add. destruct (ensureLocked_frame l) as [E1 E2].
  pose proof (same_shrink l (ensureLocked l) E1 E2) as HS.
  assert (lg_fresh (ensureLocked l) = lg_fresh l) as E3 by (unfold ensureLocked; by repeat case_match).
  set (l0 := ensureLocked l) in *. cbv zeta. simpl.
  eapply shrink_trans; [exact HS|]. eapply shrink_trans; [|apply evidence_shrink].
  set (r := if bool_decide (_ = lg_ackedNext l0) then _ else _).
  assert (forall b, lane_of r b = None) as Hr by (intros b; unfold r; case_bool_decide; by destruct b).
  intros q b x. unfold lane, current. simpl. rewrite E3. destruct (decide (lg_fresh l = q)) as [<-|Hne].
  - rewrite lookup_insert_eq. case_bool_decide; [|done]. by rewrite Hr.
  - rewrite lookup_insert_ne by done. destruct (lg_heap l0 !! q) as [r'|]; [|done].
    rewrite lookup_insert. case_decide as D; [|done].
    rewrite bool_decide_eq_false_2; [done|]. intros [= E]. done.
Qed.
