(* ===== verification/Legs.v ===== *)
(** * The legs of a stream engine

    [core/stream_engine.go]: the leg registry ([attachLeg], [handleLegFailure],
    [ReplaceLeg], retirement, the recovery timer), the life cycle of the session
    ([StartGracefulClose], [beginFinalizing], [failWithAppClose]), and the path of
    a record through a leg: [tryQueue] and its rescue counterpart, the send and
    rescue queues, and the leg writer.

    A [*streamLeg] is a key of [se_heap], so that a retired generation is still a
    value other goroutines hold.  Every critical section is one step; what a
    goroutine holds between two of its sections is part of the state: a dispatch
    under the read side of [dispatchMu] in [sl_dispatch], the attempts a writer has
    taken out of a queue in [sl_hand], a failure that is being handled in
    [se_failing], a running recovery timer in [se_timers], the legs a shutdown has
    still to close in [se_shutdown].  The clock is an argument.  The bounded-rescue
    budget, telemetry and trace hooks are nil; wake-up channels, which carry no
    data, and the admission and capacity controllers are left out. *)

From S2P Require Import Prelude Bytes Wire Hello PathProtocol RxWindow TxLedger TxInv TxQueue Repair RttCache.
From stdpp Require Import pretty.
From stdpp Require Import options.
#[local] Open Scope Z_scope.

(** ** Data *)

Notation lptr := Z (only parsing).

Inductive eng_error :=
| ErrProto (e : proto_error)
| ErrStreamClosed
| ErrStreamLegNotFound
| errConfig
| errDuplicateLeg
| errLegStillActive
| errRecoveryTimeout
| errDrainStalled
| errCloseNotification
| errDrainUncertain
| ErrCarrier (e : io_error).
#[export] Instance eng_error_eq_dec : EqDecision eng_error.
Proof. solve_decision. Defined.

Record StreamConfig := MkConfig {
  cf_MaxActiveLegs : Z;
  cf_StartupPreferredLeg : Z;
  cf_PathAware : bool;             (* ExperimentalPathAware *)
  cf_PathRole : Z;
  cf_QueueFrames : Z;
  cf_BandwidthMbps : list Z;
  cf_activateAtOnce : bool;        (* ThresholdBytesPS = 0 and the mode is not dynamic *)
  cf_slowLegProtection : bool;
  cf_RecoveryTimeout : duration
}.
#[export] Instance StreamConfig_fields : Fields StreamConfig := fun c =>
  MkConfig (cf_MaxActiveLegs c) (cf_StartupPreferredLeg c) (cf_PathAware c) (cf_PathRole c)
    (cf_QueueFrames c) (cf_BandwidthMbps c) (cf_activateAtOnce c) (cf_slowLegProtection c)
    (cf_RecoveryTimeout c).

Record txSendAttempt := MkSend {
  sa_record : ptr;
  sa_rescue : bool;
  sa_ordinary : bool;
  sa_started : time
}.

(** How far a [tryQueue] call has come: past the [closed]/[draining] check, past
    the ledger claim, past the queue. *)
Inductive dispatch_stage := Checked | Claimed | Pushed.
#[export] Instance dispatch_stage_eq_dec : EqDecision dispatch_stage.
Proof. solve_decision. Defined.

Record dispatch := MkDispatch {
  dp_stage : dispatch_stage;
  dp_attempt : txSendAttempt;
  dp_owner : Z (* of a restricted rescue; -1 otherwise *)
}.
#[export] Instance dispatch_fields : Fields dispatch := fun d =>
  MkDispatch (dp_stage d) (dp_attempt d) (dp_owner d).

(** [debugWriterState]: writing, or back from the carrier and not yet committed. *)
Inductive writer_state := WriterIdle | WriterWriting | WriterWrote (ok : bool).
#[export] Instance writer_state_eq_dec : EqDecision writer_state.
Proof. solve_decision. Defined.

Record streamLeg := MkLeg {
  sl_id : Z;
  sl_generation : Z;
  sl_pathBinding : StreamPathBinding;
  sl_pathIdentity : StreamPathIdentity;
  sl_pathRTTEnabled : bool;
  sl_drainAuth : StreamPathAuth;
  sl_drainBinding : bytes;
  sl_drainEnabled : bool;
  sl_priorMbps : Z;
  sl_draining : bool;
  sl_closed : bool;                  (* the flag and the channel [done] *)
  sl_closeErr : option eng_error;    (* what [onClose] was called with *)
  sl_dispatch : list dispatch;
  sl_send : list txSendAttempt;
  sl_rescue : list txSendAttempt;
  sl_hand : list txSendAttempt;
  sl_writer : writer_state;
  sl_workers : Z;
  sl_retired : bool
}.
#[export] Instance streamLeg_fields : Fields streamLeg := fun l =>
  MkLeg (sl_id l) (sl_generation l) (sl_pathBinding l) (sl_pathIdentity l) (sl_pathRTTEnabled l)
    (sl_drainAuth l) (sl_drainBinding l) (sl_drainEnabled l) (sl_priorMbps l) (sl_draining l)
    (sl_closed l) (sl_closeErr l) (sl_dispatch l) (sl_send l) (sl_rescue l) (sl_hand l)
    (sl_writer l) (sl_workers l) (sl_retired l).

(** A call of [handleLegFailure] that has removed its leg: what it still has to do. *)
Inductive failure_stage := MustInvalidate | MustNotify.
#[export] Instance failure_stage_eq_dec : EqDecision failure_stage.
Proof. solve_decision. Defined.
Record failure := MkFailure {
  fl_leg : lptr; fl_err : eng_error; fl_remaining : Z; fl_stage : failure_stage }.

(** The goroutine of [StartGracefulClose]: waiting for the transmit loop and for
    the outstanding data, sending the CLOSE frame. *)
Inductive closer_stage := CloserDraining | CloserSending.
#[export] Instance closer_stage_eq_dec : EqDecision closer_stage.
Proof. solve_decision. Defined.

Record StreamEngine := MkEngine {
  se_cfg : StreamConfig;
  se_maxActiveLegs : Z;
  se_configError : bool;
  se_legGeneration : list Z;
  se_pathRTTCache : option streamRTTProbeCache;
  se_pathSession : option bytes;   (* pathSessionSet, pathSessionID *)
  se_drainSession : option bytes;  (* drainSessionSet, drainSessionID *)
  se_legs : gmap Z lptr;
  se_retiring : gmap Z lptr;
  se_heap : gmap lptr streamLeg;
  se_fresh : lptr;
  se_txLedger : StreamTXLedger;
  se_active : bool;
  se_closing : bool;
  se_graceful : bool;              (* gracefulCh closed *)
  se_closer : option (eng_error * closer_stage);
  se_txStopped : bool;
  se_finalizing : bool;
  se_done : bool;
  se_closeErr : option eng_error;
  se_appClosed : bool;
  se_joining : Z;                  (* legs published, epoch not yet advanced *)
  se_recoveryEpoch : Z;
  se_timers : list Z;              (* epochs of the running recovery timers *)
  se_failing : list failure;
  se_shutdown : list lptr;
  se_legDown : list lptr           (* OnLegDown calls, latest last *)
}.
#[export] Instance StreamEngine_fields : Fields StreamEngine := fun e =>
  MkEngine (se_cfg e) (se_maxActiveLegs e) (se_configError e) (se_legGeneration e)
    (se_pathRTTCache e) (se_pathSession e) (se_drainSession e) (se_legs e) (se_retiring e)
    (se_heap e) (se_fresh e) (se_txLedger e) (se_active e) (se_closing e) (se_graceful e) (se_closer e) (se_txStopped e)
    (se_finalizing e) (se_done e) (se_closeErr e) (se_appClosed e) (se_joining e) (se_recoveryEpoch e)
    (se_timers e) (se_failing e) (se_shutdown e) (se_legDown e).

(** ** Construction *)

Definition DefaultMaxActiveStreamLegs : Z := 16.

Definition normalizeMaxActiveStreamLegs (configured : Z) : Z * bool :=
  if bool_decide (configured = 0) then (DefaultMaxActiveStreamLegs, false) else
  if bool_decide (configured < 1) || bool_decide (MaxStreamLegIDCount < configured)
  then (DefaultMaxActiveStreamLegs, true) else (configured, false).

(** Only the defaults of the fields kept here. *)
Definition NewStreamEngine (cfg : StreamConfig) : StreamEngine :=
  let '(maxActiveLegs, configError) := normalizeMaxActiveStreamLegs (cf_MaxActiveLegs cfg) in
  let configError := configError || bool_decide (maxActiveLegs <= cf_StartupPreferredLeg cfg) in
  let queueFrames := if bool_decide (cf_QueueFrames cfg <= 0) then 256 else cf_QueueFrames cfg in
  let timeout := if bool_decide (cf_RecoveryTimeout cfg <= 0) then 15 * Second
                 else cf_RecoveryTimeout cfg in
  let cfg := cfg <| cf_MaxActiveLegs := maxActiveLegs |> <| cf_QueueFrames := queueFrames |>
                 <| cf_RecoveryTimeout := timeout |> in
  let cache := if cf_PathAware cfg
                  && (bool_decide (cf_PathRole cfg = StreamPathRoleClient)
                      || bool_decide (cf_PathRole cfg = StreamPathRoleServer))
               then Some (newStreamRTTProbeCacheForLegs maxActiveLegs) else None in
  MkEngine cfg maxActiveLegs configError (replicate (Z.to_nat maxActiveLegs) 0) cache None None
    ∅ ∅ ∅ 0 (newStreamTXLedger maxActiveLegs) (cf_activateAtOnce cfg) false false None
    false false false None false 0 0 [] [] [] [].

(** ** Queries *)

Definition getLeg (e : StreamEngine) (id : Z) : option lptr := se_legs e !! id.
Definition hasLeg (e : StreamEngine) (id : Z) : bool := bool_decide (is_Some (getLeg e id)).
Definition legCount (e : StreamEngine) : Z := Z.of_nat (size (se_legs e)).
Definition HasLeg := hasLeg.
Definition LegCount := legCount.

Definition LegGeneration (e : StreamEngine) (id : Z) : Z * bool :=
  match getLeg e id ≫= fun p => se_heap e !! p with
  | None => (0, false)
  | Some l => (sl_generation l, true)
  end.

Definition open_leg (l : streamLeg) : bool := negb (sl_closed l) && negb (sl_draining l).

Definition leg_le (a b : Z * lptr) : Prop := a.1 <= b.1.
#[export] Instance leg_le_dec : RelDecision leg_le.
Proof. intros a b. unfold leg_le. apply _. Defined.

(** [range c.legs], then [sort.Slice] by identifier. *)
Definition availableLegs (e : StreamEngine) : list lptr :=
  (merge_sort leg_le (List.filter (fun kp =>
     from_option open_leg false (se_heap e !! kp.2)) (map_to_list (se_legs e)))).*2.

Definition streamLegAvailability (e : StreamEngine) (legs : list lptr) : StreamLegAvailability :=
  fold_left (fun available p =>
    match se_heap e !! p with
    | Some l => <[Z.to_nat (sl_id l) := true]> available
    | None => available
    end) legs (replicate 256 false).

Definition pathDirections (e : StreamEngine) : option (Z * Z) :=
  if bool_decide (cf_PathRole (se_cfg e) = StreamPathRoleClient)
  then Some (StreamRTTClientToServer, StreamRTTServerToClient) else
  if bool_decide (cf_PathRole (se_cfg e) = StreamPathRoleServer)
  then Some (StreamRTTServerToClient, StreamRTTClientToServer) else None.

Definition upd_leg (p : lptr) (f : streamLeg -> streamLeg) (e : StreamEngine) : StreamEngine :=
  e <| se_heap ::= alter f p |>.
Definition upd_ledger (f : StreamTXLedger -> StreamTXLedger) (e : StreamEngine) : StreamEngine :=
  e <| se_txLedger ::= f |>.

(** ** Attaching a carrier *)

Definition hex_nibble (z : Z) : byte := byte_of_Z (if bool_decide (z < 10) then 48 + z else 87 + z).
Definition hex_bytes (b : bytes) : bytes :=
  flat_map (fun x => [hex_nibble (byte_to_Z x / 16); hex_nibble (byte_to_Z x mod 16)]) b.
Definition decimal (z : Z) : bytes := str (pretty (Z.to_N z)).
(** [fmt.Sprintf("%x/%d/%d", session, id, generation)] *)
Definition carrier_name (session : bytes) (id generation : Z) : bytes :=
  hex_bytes session ++ str "/" ++ decimal id ++ str "/" ++ decimal generation.

Definition other_session (known : option bytes) (session : bytes) : bool :=
  match known with Some s => bool_decide (s <> session) | None => false end.

(** The [pathRTTEnabled] part of [attachLeg]. *)
Definition attach_path (e : StreamEngine) (id generation : Z) (auth : StreamPathAuth)
    (clock : time) : result eng_error (StreamPathBinding * StreamPathIdentity * StreamEngine) :=
  match se_pathRTTCache e with
  | None => Err (ErrProto ErrStreamPathNegotiation)
  | Some cache =>
    if negb (cf_PathAware (se_cfg e)) then Err (ErrProto ErrStreamPathNegotiation) else
    match pathDirections e with
    | None => Err (ErrProto ErrStreamPathRole)
    | Some (localDirection, _) =>
      let session := au_sessionID auth in
      if other_session (se_pathSession e) session then Err (ErrProto ErrStreamPathMessage) else
      let pathBinding := MkBinding session id (carrier_name session id generation) generation in
      if negb (validFor auth pathBinding) then Err (ErrProto ErrStreamPathMessage) else
      match bindLeg cache pathBinding auth with
      | (Some err, _) => Err (ErrProto err)
      | (None, cache) =>
        let pathIdentity := MkIdentity session id (bd_CarrierID pathBinding) generation
                              localDirection in
        let cache := (recordHandshakeSample cache pathBinding pathIdentity auth clock).2 in
        Ok (pathBinding, pathIdentity, e <| se_pathRTTCache := Some cache |>
                                         <| se_pathSession := Some session |>)
      end
    end
  end.

(** The [drainEnabled] part. *)
Definition attach_drain (e : StreamEngine) (auth : StreamPathAuth) : result eng_error StreamEngine :=
  if other_session (se_drainSession e) (au_sessionID auth)
  then Err (ErrProto ErrStreamDrainMessage) else
  if bool_decide (au_drainBinding auth = zero_bytes 16)
  then Err (ErrProto ErrStreamDrainMessage) else
  Ok (e <| se_drainSession := Some (au_sessionID auth) |>).

Definition zero_identity : StreamPathIdentity := MkIdentity (zero_bytes 16) 0 [] 0 0.

Definition prior_of (e : StreamEngine) (id priorMbps : Z) : Z :=
  if bool_decide (0 < priorMbps) then priorMbps else
  match slice_get (cf_BandwidthMbps (se_cfg e)) id with
  | Some m => if bool_decide (0 < m) then m else 1
  | None => 1
  end.

(** The [&streamLeg{...}] literal. *)
Definition new_leg (e : StreamEngine) (id generation : Z) (b : StreamPathBinding)
    (i : StreamPathIdentity) (rtt drain : bool) (auth : StreamPathAuth) (priorMbps : Z) : streamLeg :=
  MkLeg id generation b i rtt auth (au_drainBinding auth) drain (prior_of e id priorMbps)
    false false None [] [] [] [] WriterIdle (if rtt then 3 else 2) false.

Inductive attach_outcome :=
| AttachErr (err : eng_error)
| AttachWait (retiring : lptr)  (* wait for [retired], then try again *)
| Attached (p : lptr).

(** Publish the leg: the registry, the generation counter ([admissionRejoined]). *)
Definition attach_install (e : StreamEngine) (l : streamLeg) : attach_outcome * StreamEngine :=
  let p := se_fresh e in
  (Attached p,
   e <| se_heap ::= <[p := l]> |> <| se_fresh ::= Z.succ |> <| se_legs ::= <[sl_id l := p]> |>
     <| se_legGeneration ::= <[Z.to_nat (sl_id l) := sl_generation l]> |>
     <| se_joining ::= Z.succ |>).

(** One round of the loop of [attachLeg], under [lifecycleMu] and [legsMu]. *)
Definition attachLeg (e : StreamEngine) (id : Z) (auth : option StreamPathAuth) (priorMbps : Z)
    (clock : time) : attach_outcome * StreamEngine :=
  if se_configError e then (AttachErr errConfig, e) else
  if bool_decide (se_maxActiveLegs e <= id) then (AttachErr (ErrProto errInvalidLeg), e) else
  if se_finalizing e || se_done e then (AttachErr ErrStreamClosed, e) else
  match se_legs e !! id, se_retiring e !! id with
  | Some _, _ => (AttachErr errDuplicateLeg, e)
  | None, Some retiring => (AttachWait retiring, e)
  | None, None =>
    let previousGeneration := default 0 (slice_get (se_legGeneration e) id) in
    if bool_decide (previousGeneration = max_u64)
    then (AttachErr (ErrProto ErrStreamRTTGenerationReuse), e) else
    let generation := previousGeneration + 1 in
    match auth with
    | None => attach_install e (new_leg e id generation zero_binding zero_identity false false
                                  zero_auth priorMbps)
    | Some auth =>
      let rtt := PathRTTEnabled auth in
      let drain := CoordinatedDrainEnabled auth in
      if negb rtt && negb drain then (AttachErr (ErrProto ErrStreamPathNegotiation), e) else
      match (if rtt then attach_path e id generation auth clock
             else Ok (zero_binding, zero_identity, e)) with
      | Err err => (AttachErr err, e)
      | Ok (b, i, e) =>
        match (if drain then attach_drain e auth else Ok e) with
        | Err err => (AttachErr err, e)
        | Ok e => attach_install e (new_leg e id generation b i rtt drain auth priorMbps)
        end
      end
    end
  end.

(** After the locks: a join cancels an older recovery deadline. *)
Definition attach_join (e : StreamEngine) : StreamEngine :=
  e <| se_joining ::= Z.pred |> <| se_recoveryEpoch ::= fun n => u64 (n + 1) |>.

(** ** Closing and failure of a leg *)

(** [close], once. *)
Definition leg_close (err : eng_error) (l : streamLeg) : streamLeg :=
  if sl_closed l then l else l <| sl_closed := true |> <| sl_closeErr := Some err |>.

Definition activate (e : StreamEngine) : StreamEngine := e <| se_active := true |>.

(** [handleLegFailure] up to the release of [legsMu]. *)
Definition handleLegFailure (e : StreamEngine) (p : lptr) (err : eng_error) : StreamEngine :=
  match se_heap e !! p with
  | None => e
  | Some l =>
    let e := if sl_pathRTTEnabled l
             then e <| se_pathRTTCache ::= fmap (fun c => (invalidateLeg c (sl_pathBinding l)).2) |>
             else e in
    let e := upd_leg p (leg_close err) e in
    if bool_decide (se_legs e !! sl_id l = Some p) then
      let e := e <| se_legs ::= delete (sl_id l) |> <| se_retiring ::= <[sl_id l := p]> |> in
      e <| se_failing ::= fun fs => fs ++ [MkFailure p err (legCount e) MustInvalidate] |>
    else e
  end.

(** [InvalidateLegWithReason], then the retirement goroutine is started. *)
Definition failure_invalidate (f : failure) (e : StreamEngine) : StreamEngine :=
  match se_heap e !! fl_leg f with
  | None => e
  | Some l => upd_ledger (fun tx => InvalidateLeg tx (sl_id l)) e
  end.

(** The rest: nothing when the session is over, otherwise activation, the
    [OnLegDown] callback and, without a leg, the recovery timer. *)
Definition failure_notify (f : failure) (e : StreamEngine) : StreamEngine :=
  if se_done e || se_finalizing e then e else
  if se_closing e && negb (HasOutstanding (se_txLedger e)) then e else
  match se_heap e !! fl_leg f with
  | None => e
  | Some l =>
    let e := if bool_decide (sl_id l = 0) && negb (se_active e) then activate e else e in
    let e := e <| se_legDown ::= fun d => d ++ [fl_leg f] |> in
    if bool_decide (fl_remaining f = 0) then
      let e := e <| se_recoveryEpoch ::= fun n => u64 (n + 1) |> in
      e <| se_timers ::= fun ts => ts ++ [se_recoveryEpoch e] |>
    else e
  end.

(** [ReplaceLeg] *)
Definition ReplaceLeg (e : StreamEngine) (id : Z) (err : eng_error) : bool * StreamEngine :=
  match getLeg e id with
  | None => (false, e)
  | Some p => (true, handleLegFailure e p err)
  end.

(** The retirement goroutine, once every worker has exited. *)
Definition retire_leg (e : StreamEngine) (p : lptr) : StreamEngine :=
  match se_heap e !! p with
  | None => e
  | Some l =>
    let e := if bool_decide (se_retiring e !! sl_id l = Some p)
             then e <| se_retiring ::= delete (sl_id l) |> else e in
    upd_leg p (fun l => l <| sl_retired := true |>) e
  end.

(** [WaitLegRetired]: an answer, or the leg whose [retired] channel to wait for. *)
Definition WaitLegRetired (e : StreamEngine) (id : Z) : option eng_error + lptr :=
  if bool_decide (se_maxActiveLegs e <= id) then inl (Some ErrStreamLegNotFound) else
  match se_legs e !! id, se_retiring e !! id with
  | Some _, _ => inl (Some errLegStillActive)
  | None, None => inl None
  | None, Some p => inr p
  end.

(** ** The life of the session *)

Definition beginFinalizing (e : StreamEngine) : bool * StreamEngine :=
  if se_done e then (false, e) else (true, e <| se_finalizing := true |>).

(** The transports to close are taken under the locks and closed after them. *)
Definition failWithAppClose (e : StreamEngine) (err : eng_error) (closeApp : bool) : StreamEngine :=
  let e := e <| se_pathRTTCache ::= fmap RttCache.close |> in
  if se_done e then e else
  e <| se_finalizing := true |> <| se_closeErr := Some err |> <| se_done := true |>
    <| se_appClosed := closeApp |> <| se_shutdown := (map_to_list (se_legs e)).*2 |>.
Definition fail (e : StreamEngine) (err : eng_error) : StreamEngine := failWithAppClose e err true.

Definition Close (e : StreamEngine) : StreamEngine :=
  fail (e <| se_closing := true |>) ErrStreamClosed.

Definition finishGracefulClose (e : StreamEngine) (err : eng_error) : StreamEngine :=
  if bool_decide (err = ErrCarrier io_EOF) then failWithAppClose e err false else fail e err.

Definition StartGracefulClose (e : StreamEngine) (err : eng_error) : StreamEngine :=
  let e := e <| se_closing := true |> in
  if se_graceful e || se_done e then e else
  e <| se_graceful := true |> <| se_closer := Some (err, CloserDraining) |>.

(** The closing goroutine after [drainOutstandingOnClose] has returned [nil] ... *)
Definition closer_drained (e : StreamEngine) (err : eng_error) : StreamEngine :=
  let '(ok, e) := beginFinalizing e in
  if ok then e <| se_closer := Some (err, CloserSending) |> else e <| se_closer := None |>.
(** ... or an error, ... *)
Definition closer_stalled (e : StreamEngine) : StreamEngine :=
  (fail e errDrainStalled) <| se_closer := None |>.
(** ... and after [sendCloseFrame]. *)
Definition closer_sent (e : StreamEngine) (err : eng_error) (ok : bool) : StreamEngine :=
  let e := if ok then finishGracefulClose e err else fail e errCloseNotification in
  e <| se_closer := None |>.

(** When the recovery timer of [epoch] fires. *)
Definition failIfNoLegRecovers (e : StreamEngine) (epoch : Z) : StreamEngine :=
  if negb (se_done e) && bool_decide (se_recoveryEpoch e = epoch) && bool_decide (legCount e = 0)
  then fail e errRecoveryTimeout else e.

(** ** Queueing a record on a leg *)

Definition rescue_capacity : Z := 8.
Definition send_full (e : StreamEngine) (l : streamLeg) (rescue : bool) : bool :=
  if rescue then bool_decide (rescue_capacity <= slen (sl_rescue l))
  else bool_decide (cf_QueueFrames (se_cfg e) <= slen (sl_send l)).

(** The guard of [tryQueue] under [dispatchMu.RLock]. *)
Definition tryQueue (e : StreamEngine) (p : lptr) (record : ptr) (retry : bool) : StreamEngine :=
  match se_heap e !! p with
  | Some l => if open_leg l
              then upd_leg p (fun l => l <| sl_dispatch ::= fun ds => ds ++
                     [MkDispatch Checked (MkSend record false (negb retry) zero_time) (-1)] |>) e
              else e
  | None => e
  end.
Definition tryQueueRescueOwnedAttempt (e : StreamEngine) (p : lptr) (record : ptr) (owner : Z)
  : StreamEngine :=
  match se_heap e !! p with
  | Some l => if open_leg l
              then upd_leg p (fun l => l <| sl_dispatch ::= fun ds => ds ++
                     [MkDispatch Checked (MkSend record true false zero_time) owner] |>) e
              else e
  | None => e
  end.

Definition drop_dispatch (p : lptr) (k : nat) (e : StreamEngine) : StreamEngine :=
  upd_leg p (fun l => l <| sl_dispatch ::= delete k |>) e.

(** The claim of the record in the ledger. *)
Definition dispatch_claim (e : StreamEngine) (p : lptr) (k : nat) (now : time) : StreamEngine :=
  match (let! l := se_heap e !! p in let! d := sl_dispatch l !! k in Some (l, d)) with
  | Some (l, MkDispatch Checked a owner) =>
    let tx := se_txLedger e in
    let '(marked, tx) :=
      if sa_rescue a then
        if bool_decide (0 <= owner) then
          let '(_, ok, tx) := MarkRestrictedRescueTransit tx (Some (sa_record a)) (sl_id l) owner now in
          (ok, tx)
        else let '(_, ok, tx) := MarkRescueTransit tx (Some (sa_record a)) (sl_id l) now in (ok, tx)
      else MarkTransit tx (Some (sa_record a)) (sl_id l) now in
    let e := e <| se_txLedger := tx |> in
    if marked then
      let a := MkSend (sa_record a) (sa_rescue a) (sa_ordinary a) now in
      upd_leg p (fun l => l <| sl_dispatch ::= <[k := MkDispatch Claimed a owner]> |>) e
    else drop_dispatch p k e
  | _ => e
  end.

(** The three cases of the [select]. *)
Inductive select_case := TakeDone | TakeSend | TakeDefault.

Definition push_attempt (a : txSendAttempt) (l : streamLeg) : streamLeg :=
  if sa_rescue a then l <| sl_rescue ::= fun q => q ++ [a] |>
  else l <| sl_send ::= fun q => q ++ [a] |>.

Definition clear_attempt (l : streamLeg) (a : txSendAttempt) (e : StreamEngine) : StreamEngine :=
  upd_ledger (fun tx => clearAttemptAt tx (Some (sa_record a)) (sl_id l) (sa_rescue a) (sa_started a)) e.

(** [None]: this case of the [select] is not ready, or the ledger panics. *)
Definition dispatch_select (e : StreamEngine) (p : lptr) (k : nat) (c : select_case)
  : option StreamEngine :=
  let! l := se_heap e !! p in
  let! d := sl_dispatch l !! k in
  let '(MkDispatch stage a owner) := d in
  if bool_decide (stage <> Claimed) then None else
  let full := send_full e l (sa_rescue a) in
  match c with
  | TakeDone =>
    if sl_closed l then Some (drop_dispatch p k (clear_attempt l a e)) else None
  | TakeSend =>
    if full then None else
    let e := upd_leg p (fun l =>
      (push_attempt a l) <| sl_dispatch ::= <[k := MkDispatch Pushed a owner]> |>) e in
    if sa_rescue a then
      Some (upd_ledger (fun tx =>
        (MarkRescueQueued tx (Some (sa_record a)) (sl_id l) (sa_started a)).2) e)
    else if sa_ordinary a && cf_slowLegProtection (se_cfg e) then
      let! tx := markOrdinaryAdmitted (se_txLedger e) (Some (sa_record a)) (sl_id l) in
      Some (e <| se_txLedger := tx |>)
    else Some e
  | TakeDefault =>
    if sl_closed l || negb full then None else
    let e := if negb (sa_rescue a) && negb (se_active e) && bool_decide (legCount e = 1)
             then activate e else e in
    Some (drop_dispatch p k (clear_attempt l a e))
  end.

(** The second look at [closed], after the queue has accepted the attempt. *)
Definition dispatch_finish (e : StreamEngine) (p : lptr) (k : nat) : StreamEngine :=
  match (let! l := se_heap e !! p in let! d := sl_dispatch l !! k in Some (l, d)) with
  | Some (l, MkDispatch Pushed a _) =>
    drop_dispatch p k (if sl_closed l then clear_attempt l a e else e)
  | _ => e
  end.

(** ** The writer of a leg *)

(** [case attempt := <-leg.send] and [case rescue := <-leg.rescue]: an ordinary
    attempt is taken with empty hands, a rescue also while one is held. *)
Definition take_send (e : StreamEngine) (p : lptr) : option StreamEngine :=
  let! l := se_heap e !! p in
  match sl_hand l, sl_send l with
  | [], a :: send => Some (upd_leg p (fun l => l <| sl_send := send |> <| sl_hand := [a] |>) e)
  | _, _ => None
  end.
Definition take_rescue (e : StreamEngine) (p : lptr) : option StreamEngine :=
  let! l := se_heap e !! p in
  match sl_rescue l with
  | a :: rescue =>
    if bool_decide (sl_writer l <> WriterIdle) || existsb sa_rescue (sl_hand l) then None else
    Some (upd_leg p (fun l => l <| sl_rescue := rescue |> <| sl_hand ::= cons a |>) e)
  | [] => None
  end.

(** [writeAttempt]: a stale attempt is dropped, another one goes to the carrier. *)
Definition writeAttempt (e : StreamEngine) (p : lptr) (now : time) : option StreamEngine :=
  let! l := se_heap e !! p in
  match sl_hand l with
  | a :: hand =>
    if bool_decide (sl_writer l <> WriterIdle) then None else
    if AttemptCurrent (se_txLedger e) (Some (sa_record a)) (sl_id l) (sa_rescue a) then
      Some (upd_leg p (fun l => l <| sl_writer := WriterWriting |>)
             (upd_ledger (fun tx => markWriteStarted tx (sa_record a) (sl_id l) (sa_rescue a) now) e))
    else Some (upd_leg p (fun l => l <| sl_hand := hand |>) e)
  | [] => None
  end.

(** The carrier write has returned. *)
Definition write_return (e : StreamEngine) (p : lptr) (ok : bool) : option StreamEngine :=
  let! l := se_heap e !! p in
  if bool_decide (sl_writer l <> WriterWriting) then None
  else Some (upd_leg p (fun l => l <| sl_writer := WriterWrote ok |>) e).

(** [commitSuccessfulDataWrite], or the failure of the leg. *)
Definition write_commit (e : StreamEngine) (p : lptr) (now : time) (err : eng_error)
  : option StreamEngine :=
  let! l := se_heap e !! p in
  match sl_writer l, sl_hand l with
  | WriterWrote ok, a :: hand =>
    let e := upd_leg p (fun l => l <| sl_writer := WriterIdle |> <| sl_hand := hand |>) e in
    if ok then
      Some (upd_ledger (fun tx =>
        (MarkAttemptSent tx (Some (sa_record a)) (sl_id l) (sa_rescue a) now).2) e)
    else Some (handleLegFailure (clear_attempt l a e) p err)
  | _, _ => None
  end.

(** ** Steps *)

Inductive leg_op :=
| lo_attach (id : Z) (auth : option StreamPathAuth) (prior : Z) (clock : time)
| lo_join
| lo_fail (p : lptr) (err : eng_error)
| lo_invalidate (k : nat)
| lo_notify (k : nat)
| lo_worker_exit (p : lptr)
| lo_retire (p : lptr)
| lo_timer (k : nat)
| lo_shutdown (err : eng_error)
| lo_close
| lo_shutdown_leg
| lo_graceful (err : eng_error)
| lo_tx_stop
| lo_drained
| lo_stalled
| lo_close_sent (ok : bool)
| lo_activate
| lo_tx (op : tx_op)
| lo_rtt (op : rtt_op)
| lo_queue (p : lptr) (record : ptr) (retry : bool)
| lo_rescue (p : lptr) (record : ptr) (owner : Z)
| lo_claim (p : lptr) (k : nat) (now : time)
| lo_select (p : lptr) (k : nat) (c : select_case)
| lo_finish (p : lptr) (k : nat)
| lo_take_send (p : lptr)
| lo_take_rescue (p : lptr)
| lo_write (p : lptr) (now : time)
| lo_wrote (p : lptr) (ok : bool)
| lo_commit (p : lptr) (now : time) (err : eng_error).

(** The ledger calls made by the transmit loop, the ACK readers and the admission
    controller; those of the leg path have steps of their own. *)
Definition tx_outside (e : StreamEngine) (op : tx_op) : bool :=
  match op with
  | op_add _ _ _ => negb (se_txStopped e)
  | op_finishLocal _ | op_assign _ _ _ | op_admitted _ _ | op_origin _ _ _ | op_ack _ _
  | op_trace => true
  | _ => false
  end.
(** The cache is bound and unbound by the registry only. *)
Definition rtt_outside (op : rtt_op) : bool :=
  match op with rop_bind _ _ | rop_invalidate _ => false | _ => true end.

Definition must_invalidate (e : StreamEngine) (p : lptr) : bool :=
  existsb (fun f => bool_decide (fl_leg f = p) && bool_decide (fl_stage f = MustInvalidate))
    (se_failing e).

(** [None]: the step is not enabled (or a panic). *)
Definition leg_exec (e : StreamEngine) (op : leg_op) : option StreamEngine :=
  match op with
  | lo_attach id auth prior clock => Some (attachLeg e id auth prior clock).2
  | lo_join => if bool_decide (0 < se_joining e) then Some (attach_join e) else None
  | lo_fail p err => let! _ := se_heap e !! p in Some (handleLegFailure e p err)
  | lo_invalidate k =>
    let! f := se_failing e !! k in
    if bool_decide (fl_stage f = MustInvalidate) then
      Some (failure_invalidate f (e <| se_failing ::=
              <[k := MkFailure (fl_leg f) (fl_err f) (fl_remaining f) MustNotify]> |>))
    else None
  | lo_notify k =>
    let! f := se_failing e !! k in
    if bool_decide (fl_stage f = MustNotify)
    then Some (failure_notify f (e <| se_failing ::= delete k |>)) else None
  | lo_worker_exit p =>
    let! l := se_heap e !! p in
    if bool_decide (0 < sl_workers l)
    then Some (upd_leg p (fun l => l <| sl_workers ::= Z.pred |>) e) else None
  | lo_retire p =>
    let! l := se_heap e !! p in
    if bool_decide (se_retiring e !! sl_id l = Some p) && bool_decide (sl_workers l = 0)
       && negb (must_invalidate e p)
    then Some (retire_leg e p) else None
  | lo_timer k =>
    let! epoch := se_timers e !! k in
    Some (failIfNoLegRecovers (e <| se_timers ::= delete k |>) epoch)
  | lo_shutdown err => Some (fail e err)
  | lo_close => Some (Close e)
  | lo_shutdown_leg =>
    match se_shutdown e, se_closeErr e with
    | p :: rest, Some err => Some (upd_leg p (leg_close err) (e <| se_shutdown := rest |>))
    | _, _ => None
    end
  | lo_graceful err => Some (StartGracefulClose e err)
  | lo_tx_stop => Some (e <| se_txStopped := true |>)
  | lo_drained =>
    match se_closer e with
    | Some (err, CloserDraining) =>
      if se_txStopped e && negb (HasOutstanding (se_txLedger e))
      then Some (closer_drained e err) else None
    | _ => None
    end
  | lo_stalled =>
    match se_closer e with
    | Some (_, CloserDraining) => Some (closer_stalled e)
    | _ => None
    end
  | lo_close_sent ok =>
    match se_closer e with
    | Some (err, CloserSending) => Some (closer_sent e err ok)
    | _ => None
    end
  | lo_activate => Some (activate e)
  | lo_tx op =>
    if tx_outside e op then let! tx := tx_step op (se_txLedger e) in Some (e <| se_txLedger := tx |>)
    else None
  | lo_rtt op =>
    if rtt_outside op then Some (e <| se_pathRTTCache ::= fmap (fun c => rtt_exec c op) |>) else None
  | lo_queue p record retry => Some (tryQueue e p record retry)
  | lo_rescue p record owner => Some (tryQueueRescueOwnedAttempt e p record owner)
  | lo_claim p k now => Some (dispatch_claim e p k now)
  | lo_select p k c => dispatch_select e p k c
  | lo_finish p k => Some (dispatch_finish e p k)
  | lo_take_send p => take_send e p
  | lo_take_rescue p => take_rescue e p
  | lo_write p now => writeAttempt e p now
  | lo_wrote p ok => write_return e p ok
  | lo_commit p now err => write_commit e p now err
  end.

Fixpoint leg_run (ops : list leg_op) (e : StreamEngine) : option StreamEngine :=
  match ops with
  | [] => Some e
  | op :: ops => let! e := leg_exec e op in leg_run ops e
  end.

(** The widths of the Go types. *)
Definition lop_wf (op : leg_op) : Prop :=
  match op with
  | lo_attach id auth _ _ => is_u8 id
  | lo_tx op => op_wf op
  | lo_rtt op => rop_wf op
  | _ => True
  end.
