(* ===== verification/LegsInv.v ===== *)
(** * The leg registry: invariant

    What [Legs] keeps in every state the engine can reach, whatever the order of
    its goroutines' steps: one generation of a leg identifier at a time, no
    replacement before the workers of the old generation have exited and its
    records are retryable, generations that only grow, failures reported once, a
    life cycle that ends once. *)

From S2P Require Import Prelude Bytes Wire Hello PathProtocol RxWindow TxLedger TxInv TxQueue Repair RttCache Legs.
From stdpp Require Import options.
#[local] Open Scope Z_scope.

(** ** The ledger of the engine *)

(** Every call is a ledger method; [new] says whether it may be [addLocal]. *)
Definition tx_call (new : bool) (l l' : StreamTXLedger) : Prop :=
  l' = l \/ exists op, op_wf op /\ tx_step op l = Some l' /\
    (new = false -> match op with op_add _ _ _ => False | _ => True end).

(** Nothing is outstanding. *)
Definition settled (l : StreamTXLedger) : Prop := lg_ackedNext l = lg_nextSequence l.

Lemma HasOutstanding_settled l : ledger_inv l -> HasOutstanding l = false <-> settled l.
Proof.
  intros HI. unfold HasOutstanding, settled. rewrite bool_decide_eq_false.
  destruct (li_acked _ HI) as [_ Hle]. split.
  - intros Hs. destruct (decide (lg_ackedNext l = lg_nextSequence l)) as [|Hne]; [done|]. exfalso.
    apply Hs. intros Hz. apply map_size_empty_iff in Hz.
    destruct (proj2 (li_dom _ HI (lg_ackedNext l))) as [x Hx]; [lia|]. by rewrite Hz, lookup_empty in Hx.
  - intros Heq Hs. apply Hs. apply map_size_empty_iff, map_empty. intros s.
    destruct (lg_outstanding l !! s) eqn:E; [|done]. exfalso.
    destruct (proj1 (li_dom _ HI s)); [by eexists|]. lia.
Qed.

Lemma tx_call_ok new l l' n :
  ledger_inv l -> lg_nextSequence l <= n -> n < max_u64 -> tx_call new l l' ->
  ledger_inv l' /\ lg_nextSequence l' <= n + 1 /\ (new = false -> settled l -> settled l').
Proof.
  intros HI Hn Hlt [->|(op & Hwf & Hop & Hnew)]; [split_and!; [done|lia|done]|].
  destruct (tx_step_ok op l HI Hwf ltac:(lia)) as (l2 & Hop2 & HI2 & HE). simplify_eq.
  split_and!; [done|..].
  - destruct op; simpl in HE; try (destruct HE; lia).
  - intros ->. specialize (Hnew eq_refl). unfold settled.
    destruct op; try done; simpl in HE; try (destruct HE; congruence).
    destruct HE as (E1 & E2 & _). rewrite E1, E2. destruct (li_acked _ HI). case_bool_decide; lia.
Qed.

Lemma tx_call_refl new l : tx_call new l l.
Proof. by left. Qed.
Lemma tx_call_op new op l l' :
  op_wf op -> tx_step op l = Some l' ->
  match op with op_add _ _ _ => new = true | _ => True end -> tx_call new l l'.
Proof. intros Hwf Hop Hnew. right. exists op. split_and!; [done..|]. intros ->. by destruct op. Qed.

(** ** Invariant *)

Definition gen_of (e : StreamEngine) (id : Z) : Z := default 0 (slice_get (se_legGeneration e) id).

(** Where a leg object stands: registered, waiting for its workers, or gone. *)
Record leg_placed (e : StreamEngine) (p : lptr) (l : streamLeg) : Prop := {
  lp_range : 0 <= sl_id l < se_maxActiveLegs e;
  lp_gen : 1 <= sl_generation l <= gen_of e (sl_id l);
  lp_fresh : p < se_fresh e;
  lp_workers : 0 <= sl_workers l;
  lp_path : sl_pathRTTEnabled l = true -> bd_LegID (sl_pathBinding l) = sl_id l;
  lp_where : se_legs e !! sl_id l = Some p \/ se_retiring e !! sl_id l = Some p \/
    (sl_retired l = true /\ sl_workers l = 0 /\ open_leg l = false)
}.

(** [n] bounds the number of steps taken so far. *)
Record engine_inv (n : Z) (e : StreamEngine) : Prop := {
  ei_ledger : ledger_inv (se_txLedger e);
  ei_next : lg_nextSequence (se_txLedger e) <= n;
  ei_epoch : 0 <= se_recoveryEpoch e <= n;
  ei_max : 1 <= se_maxActiveLegs e <= MaxStreamLegIDCount;
  ei_len : slen (se_legGeneration e) = se_maxActiveLegs e;
  ei_gens : forall id, 0 <= gen_of e id <= max_u64;
  ei_cache : forall c, se_pathRTTCache e = Some c ->
    cache_inv c /\ rc_maxLegs c = se_maxActiveLegs e /\
    forall id, rl_highWater (leg_at c id) <= gen_of e id + 1;
  ei_placed : forall p l, se_heap e !! p = Some l -> leg_placed e p l;
  ei_unique : forall p q l m, se_heap e !! p = Some l -> se_heap e !! q = Some m ->
    sl_id l = sl_id m -> sl_generation l = sl_generation m -> p = q;
  ei_legs : forall id p, se_legs e !! id = Some p ->
    se_retiring e !! id = None /\
    exists l, se_heap e !! p = Some l /\ sl_id l = id /\ sl_generation l = gen_of e id /\
      sl_retired l = false;
  ei_retiring : forall id p, se_retiring e !! id = Some p ->
    exists l, se_heap e !! p = Some l /\ sl_id l = id /\ open_leg l = false /\
      sl_retired l = false;
  ei_failing : forall f, f ∈ se_failing e ->
    exists l, se_heap e !! fl_leg f = Some l /\ se_legs e !! sl_id l <> Some (fl_leg f) /\
      sl_closed l = true /\
      (fl_stage f = MustInvalidate -> se_retiring e !! sl_id l = Some (fl_leg f));
  ei_down : forall p, p ∈ se_legDown e ->
    exists l, se_heap e !! p = Some l /\ se_legs e !! sl_id l <> Some p;
  ei_reports : NoDup (se_legDown e ++ map fl_leg (se_failing e));
  ei_timers : NoDup (se_timers e) /\ forall t, t ∈ se_timers e -> 1 <= t <= se_recoveryEpoch e;
  ei_done : se_done e = true -> se_finalizing e = true /\ is_Some (se_closeErr e);
  ei_shutdown : forall id p l, se_done e = true -> se_legs e !! id = Some p ->
    se_heap e !! p = Some l -> sl_closed l = true \/ p ∈ se_shutdown e;
  ei_closer : forall err, se_closer e = Some (err, CloserSending) ->
    se_finalizing e = true /\ se_txStopped e = true /\ settled (se_txLedger e);
  ei_eof : se_done e = true -> se_appClosed e = false ->
    se_closeErr e = Some (ErrCarrier io_EOF) /\ se_txStopped e = true /\ settled (se_txLedger e)
}.

(** ** Steps on the data path

    They change the queues of a leg, the ledger and the activation flag. *)

Definition core (l : streamLeg) : streamLeg :=
  l <| sl_dispatch := [] |> <| sl_send := [] |> <| sl_rescue := [] |> <| sl_hand := [] |>
    <| sl_writer := WriterIdle |>.

Definition same_heap (h h' : gmap lptr streamLeg) : Prop := forall p, core <$> h' !! p = core <$> h !! p.

Definition data_step (new : bool) (e e' : StreamEngine) : Prop :=
  exists h tx a, e' = e <| se_heap := h |> <| se_txLedger := tx |> <| se_active := a |> /\
    same_heap (se_heap e) h /\ tx_call new (se_txLedger e) tx.

Lemma same_heap_refl h : same_heap h h.
Proof. done. Qed.
Lemma same_heap_alter h p f :
  (forall l, h !! p = Some l -> core (f l) = core l) -> same_heap h (alter f p h).
Proof.
  intros Hf q. destruct (decide (p = q)) as [<-|Hne]; [|by rewrite lookup_alter_ne].
  rewrite lookup_alter_eq. destruct (h !! p) as [l|] eqn:E; [|done]. simpl. by rewrite Hf.
Qed.
Lemma same_heap_trans h1 h2 h3 : same_heap h1 h2 -> same_heap h2 h3 -> same_heap h1 h3.
Proof. intros A B p. by rewrite B, A. Qed.

Lemma core_fields l l' : core l' = core l ->
  sl_id l' = sl_id l /\ sl_generation l' = sl_generation l /\ sl_closed l' = sl_closed l /\
  sl_draining l' = sl_draining l /\ sl_workers l' = sl_workers l /\ sl_retired l' = sl_retired l /\
  open_leg l' = open_leg l /\ sl_pathRTTEnabled l' = sl_pathRTTEnabled l /\
  sl_pathBinding l' = sl_pathBinding l.
Proof. destruct l, l'. unfold core, open_leg. simpl. intros [=]. by subst. Qed.

Lemma same_heap_l h h' p l : same_heap h h' -> h !! p = Some l ->
  exists l', h' !! p = Some l' /\ core l' = core l.
Proof. intros HS Hp. specialize (HS p). rewrite Hp in HS. simpl in HS. by apply fmap_Some in HS as (l' & ? & ?); eauto. Qed.
Lemma same_heap_r h h' p l' : same_heap h h' -> h' !! p = Some l' ->
  exists l, h !! p = Some l /\ core l' = core l.
Proof.
  intros HS Hp. specialize (HS p). rewrite Hp in HS. simpl in HS. symmetry in HS.
  apply fmap_Some in HS as (l & ? & ?); eauto.
Qed.

Lemma data_step_inv n e e' new :
  engine_inv n e -> n < max_u64 -> (se_txStopped e = true -> new = false) ->
  data_step new e e' -> engine_inv (n + 1) e'.
Proof.
  intros HI Hn Hnew (h & tx & a & -> & HS & HT).
  destruct (tx_call_ok _ _ _ n (ei_ledger _ _ HI) (ei_next _ _ HI) Hn HT) as (HL & HN & HX).
  destruct HI. constructor; simpl; try done.
  - lia.
  - intros p l' Hl'. destruct (same_heap_r _ _ _ _ HS Hl') as (l & Hl & Hc).
    apply core_fields in Hc as (C1 & C2 & C3 & C4 & C5 & C6 & C7 & C8 & C9).
    destruct (ei_placed0 _ _ Hl) as [A1 A2 A3 A4 A5 A6].
    constructor; simpl; rewrite ?C1, ?C2, ?C5, ?C6, ?C7, ?C8, ?C9; done.
  - intros p q l' m' Hl' Hm'. destruct (same_heap_r _ _ _ _ HS Hl') as (l & Hl & Hc).
    destruct (same_heap_r _ _ _ _ HS Hm') as (m & Hm & Hd).
    apply core_fields in Hc as (C1 & C2 & _), Hd as (D1 & D2 & _).
    rewrite C1, C2, D1, D2. by eapply ei_unique0.
  - intros id p Hp. destruct (ei_legs0 _ _ Hp) as (? & l & Hl & ? & ? & ?).
    destruct (same_heap_l _ _ _ _ HS Hl) as (l' & Hl' & Hc).
    apply core_fields in Hc as (C1 & C2 & C3 & C4 & C5 & C6 & C7 & _).
    split; [done|]. exists l'. by rewrite C1, C2, C6.
  - intros id p Hp. destruct (ei_retiring0 _ _ Hp) as (l & Hl & ? & ? & ?).
    destruct (same_heap_l _ _ _ _ HS Hl) as (l' & Hl' & Hc).
    apply core_fields in Hc as (C1 & C2 & C3 & C4 & C5 & C6 & C7 & _).
    exists l'. by rewrite C1, C6, C7.
  - intros f Hf. destruct (ei_failing0 _ Hf) as (l & Hl & ? & ? & ?).
    destruct (same_heap_l _ _ _ _ HS Hl) as (l' & Hl' & Hc).
    apply core_fields in Hc as (C1 & C2 & C3 & C4 & C5 & C6 & C7 & _).
    exists l'. by rewrite C1, C3.
  - intros p Hp. destruct (ei_down0 _ Hp) as (l & Hl & ?).
    destruct (same_heap_l _ _ _ _ HS Hl) as (l' & Hl' & Hc).
    apply core_fields in Hc as (C1 & _). exists l'. by rewrite C1.
  - intros id p l' Hd Hp Hl'. destruct (same_heap_r _ _ _ _ HS Hl') as (l & Hl & Hc).
    apply core_fields in Hc as (C1 & C2 & C3 & _). rewrite C3. by eapply ei_shutdown0.
  - intros err Hc. destruct (ei_closer0 _ Hc) as (? & Ht & ?).
    split_and!; [done..|]. by apply HX; [apply Hnew|].
  - intros Hd Ha. destruct (ei_eof0 Hd Ha) as (? & ? & ?).
    split_and!; [done..|]. by apply HX; [apply Hnew|].
Qed.

Lemma data_intro new e e' :
  e' = e <| se_heap := se_heap e' |> <| se_txLedger := se_txLedger e' |> <| se_active := se_active e' |> ->
  same_heap (se_heap e) (se_heap e') -> tx_call new (se_txLedger e) (se_txLedger e') ->
  data_step new e e'.
Proof. intros E HS HT. by exists (se_heap e'), (se_txLedger e'), (se_active e'). Qed.

Lemma data_refl e : data_step false e e.
Proof. apply data_intro; [by destruct e|done|apply tx_call_refl]. Qed.

(** Prove [data_step]: the engine is updated in those three fields, the leg in its
    queues, the ledger by one method. *)
Ltac data_tac e :=
  apply data_intro; [by destruct e| |];
  [first [apply same_heap_alter; intros ? ?; by unfold core, push_attempt; repeat case_match | done]|
   first [apply tx_call_refl | eapply tx_call_op; [| |done]; [|reflexivity]; simpl; auto]].

Lemma tryQueue_data e p r retry : data_step false e (tryQueue e p r retry).
Proof.
  unfold tryQueue. destruct (se_heap e !! p) as [l|]; [|apply data_refl].
  destruct (open_leg l); [|apply data_refl]. data_tac e.
Qed.
Lemma tryQueueRescue_data e p r owner : data_step false e (tryQueueRescueOwnedAttempt e p r owner).
Proof.
  unfold tryQueueRescueOwnedAttempt. destruct (se_heap e !! p) as [l|]; [|apply data_refl].
  destruct (open_leg l); [|apply data_refl]. data_tac e.
Qed.

Lemma MarkTransit_step l r leg now : tx_step (op_transit r leg now) l = Some (MarkTransit l r leg now).2.
Proof. done. Qed.

(** What the claim does to the ledger. *)
Definition claim_tx (tx : StreamTXLedger) (a : txSendAttempt) (id owner : Z) (now : time)
  : bool * StreamTXLedger :=
  if sa_rescue a then
    if bool_decide (0 <= owner) then
      let '(_, ok, tx) := MarkRestrictedRescueTransit tx (Some (sa_record a)) id owner now in (ok, tx)
    else let '(_, ok, tx) := MarkRescueTransit tx (Some (sa_record a)) id now in (ok, tx)
  else MarkTransit tx (Some (sa_record a)) id now.

Lemma claim_call tx a id owner now : tx_call false tx (claim_tx tx a id owner now).2.
Proof.
  unfold claim_tx. destruct (sa_rescue a); [|by apply (tx_call_op _ (op_transit (Some (sa_record a)) id now))].
  case_bool_decide.
  - pose proof (tx_call_op false (op_restricted (Some (sa_record a)) id owner now) tx _ I eq_refl I) as H'.
    simpl in H'. by destruct (MarkRestrictedRescueTransit _ _ _ _ _) as [[? ?] ?].
  - pose proof (tx_call_op false (op_rescue (Some (sa_record a)) id now) tx _ I eq_refl I) as H'.
    simpl in H'. by destruct (MarkRescueTransit _ _ _ _) as [[? ?] ?].
Qed.

Lemma dispatch_claim_data e p k now : data_step false e (dispatch_claim e p k now).
Proof.
  unfold dispatch_claim. destruct (se_heap e !! p) as [l|] eqn:Hp; [|apply data_refl]. simpl.
  destruct (sl_dispatch l !! k) as [[[] a owner]|]; simpl; try apply data_refl.
  fold (claim_tx (se_txLedger e) a (sl_id l) owner now).
  pose proof (claim_call (se_txLedger e) a (sl_id l) owner now) as HT.
  destruct (claim_tx _ _ _ _ _) as [ok tx]. simpl in HT.
  destruct ok; (apply data_intro; [by destruct e| |done]); simpl;
    (apply same_heap_alter; intros ? ?; done).
Qed.

Lemma clear_call l a tx :
  tx_call false tx (clearAttemptAt tx (Some (sa_record a)) (sl_id l) (sa_rescue a) (sa_started a)).
Proof. by apply (tx_call_op _ (op_clear (Some (sa_record a)) (sl_id l) (sa_rescue a) (sa_started a))). Qed.

Lemma dispatch_select_data n e p k c e' :
  engine_inv n e -> dispatch_select e p k c = Some e' -> data_step false e e'.
Proof.
  intros HI. unfold dispatch_select. destruct (se_heap e !! p) as [l|] eqn:Hp; [|done]. simpl.
  destruct (sl_dispatch l !! k) as [[stage a owner]|]; [|done]. simpl. case_bool_decide; [done|].
  destruct c.
  - destruct (sl_closed l); intros [= <-]. apply data_intro; [by destruct e| |apply clear_call].
    apply same_heap_alter. done.
  - destruct (send_full e l (sa_rescue a)); [done|].
    assert (forall (x : streamLeg) (d : dispatch), core ((push_attempt a x) <| sl_dispatch ::= <[k := d]> |>) = core x)
      as Hcore by (intros x d; unfold core, push_attempt; by destruct (sa_rescue a)).
    destruct (sa_rescue a).
    + intros [= <-]. apply data_intro; [by destruct e| |].
      * apply same_heap_alter. intros. apply Hcore.
      * by apply (tx_call_op _ (op_queued (Some (sa_record a)) (sl_id l) (sa_started a))).
    + destruct (sa_ordinary a && cf_slowLegProtection (se_cfg e)).
      * intros E. apply bind_Some in E as (tx & Htx & [= <-]).
        apply data_intro; [by destruct e|apply same_heap_alter; intros; apply Hcore|].
        apply (tx_call_op _ (op_admitted (Some (sa_record a)) (sl_id l))); [|done..].
        destruct (ei_placed _ _ HI _ _ Hp) as [? _ _ _ _ _]. destruct (ei_max _ _ HI). simpl. lia.
      * intros [= <-]. apply data_intro; [by destruct e|apply same_heap_alter; intros; apply Hcore|].
        apply tx_call_refl.
  - destruct (sl_closed l || negb (send_full e l (sa_rescue a))); intros [= <-].
    destruct (negb (sa_rescue a) && negb (se_active e) && bool_decide (legCount e = 1));
      (apply data_intro; [by destruct e|apply same_heap_alter; done|apply clear_call]).
Qed.

Lemma dispatch_finish_data e p k : data_step false e (dispatch_finish e p k).
Proof.
  unfold dispatch_finish. destruct (se_heap e !! p) as [l|] eqn:Hp; [|apply data_refl]. simpl.
  destruct (sl_dispatch l !! k) as [[[] a owner]|]; simpl; try apply data_refl.
  destruct (sl_closed l); (apply data_intro; [by destruct e|apply same_heap_alter; done|]).
  - apply clear_call.
  - apply tx_call_refl.
Qed.

Lemma take_send_data e p e' : take_send e p = Some e' -> data_step false e e'.
Proof.
  unfold take_send. destruct (se_heap e !! p) as [l|]; [|done]. simpl.
  destruct (sl_hand l); [|done]. destruct (sl_send l); [done|]. intros [= <-]. data_tac e.
Qed.
Lemma take_rescue_data e p e' : take_rescue e p = Some e' -> data_step false e e'.
Proof.
  unfold take_rescue. destruct (se_heap e !! p) as [l|]; [|done]. simpl.
  destruct (sl_rescue l); [done|]. case_match; [done|]. intros [= <-]. data_tac e.
Qed.
Lemma writeAttempt_data e p now e' : writeAttempt e p now = Some e' -> data_step false e e'.
Proof.
  unfold writeAttempt. destruct (se_heap e !! p) as [l|]; [|done]. simpl.
  destruct (sl_hand l) as [|a hand]; [done|]. case_bool_decide; [done|].
  case_match; intros [= <-]; [|data_tac e].
  apply data_intro; [by destruct e|apply same_heap_alter; done|].
  by apply (tx_call_op _ (op_write (sa_record a) (sl_id l) (sa_rescue a) now)).
Qed.
Lemma write_return_data e p ok e' : write_return e p ok = Some e' -> data_step false e e'.
Proof.
  unfold write_return. destruct (se_heap e !! p) as [l|]; [|done]. simpl.
  case_bool_decide; [done|]. intros [= <-]. data_tac e.
Qed.

(** A commit is a data step, then the failure of the leg if the write failed. *)
Lemma write_commit_data e p now err e' :
  write_commit e p now err = Some e' ->
  exists e1, data_step false e e1 /\ (e' = e1 \/ e' = handleLegFailure e1 p err).
Proof.
  unfold write_commit. destruct (se_heap e !! p) as [l|]; [|done]. simpl.
  destruct (sl_writer l) as [| |ok]; [done..|]. destruct (sl_hand l) as [|a hand]; [done|].
  destruct ok; intros [= <-]; eexists.
  - split; [|left; reflexivity]. apply data_intro; [by destruct e|apply same_heap_alter; done|].
    by apply (tx_call_op _ (op_sent (Some (sa_record a)) (sl_id l) (sa_rescue a) now)).
  - split; [|right; reflexivity].
    apply data_intro; [by destruct e|apply same_heap_alter; done|apply clear_call].
Qed.

(** ** The RTT cache of the engine *)

Definition waters (c : streamRTTProbeCache) : list Z := map rl_highWater (rc_legs c).

Lemma waters_at c id : rl_highWater (leg_at c id) = default 0 (slice_get (waters c) id).
Proof.
  unfold leg_at, waters, slice_get. case_bool_decide; [|done].
  rewrite list_lookup_fmap. by destruct (rc_legs c !! Z.to_nat id).
Qed.

Lemma waters_set c id g :
  0 <= id -> rl_highWater g = rl_highWater (leg_at c id) -> waters (set_leg id g c) = waters c.
Proof.
  intros Hid Hg. unfold waters, set_leg. simpl. rewrite list_fmap_insert.
  apply list_eq. intros i. destruct (decide (i = Z.to_nat id)) as [->|Hne]; [|by rewrite list_lookup_insert_ne].
  rewrite list_lookup_fmap. destruct (rc_legs c !! Z.to_nat id) as [x|] eqn:E; simpl.
  - rewrite list_lookup_insert_eq by (rewrite length_fmap; by apply lookup_lt_Some in E).
    rewrite Hg. unfold leg_at, slice_get. rewrite bool_decide_eq_true_2 by lia. by rewrite E.
  - rewrite list_insert_ge; [by rewrite list_lookup_fmap, E|].
    rewrite length_fmap. by apply lookup_ge_None.
Qed.

Lemma waters_withdraw c id : 0 <= id < slen (rc_legs c) -> waters (withdrawLeg c id) = waters c.
Proof.
  intros Hid. unfold withdrawLeg, clearLegLocked.
  rewrite waters_set; [|lia|].
  - change (waters (_ <| rc_pending ::= _ |>)) with (waters (set_leg id ((leg_at c id) <| rl_activeView := None |>) c)).
    by apply waters_set; [lia|].
  - simpl. change (leg_at (_ <| rc_pending ::= _ |>) id)
      with (leg_at (set_leg id ((leg_at c id) <| rl_activeView := None |>) c) id). done.
Qed.

Lemma waters_invalidate c b : cache_inv c -> is_u8 (bd_LegID b) -> waters (invalidateLeg c b).2 = waters c.
Proof.
  intros HI [H0 _]. unfold invalidateLeg. case_bool_decide; [done|].
  destruct (_ || _); [done|]. apply waters_withdraw. rewrite (ci_len _ HI). lia.
Qed.

Lemma waters_sample i rtt now c : is_u8 (id_LegID i) -> waters (recordSampleLocked i rtt now c) = waters c.
Proof. intros [H0 _]. unfold recordSampleLocked. case_bool_decide; [done|]. by apply waters_set. Qed.

Lemma waters_handshake c b i auth clock :
  is_u8 (bd_LegID b) -> waters (recordHandshakeSample c b i auth clock).2 = waters c.
Proof.
  intros Hb. unfold recordHandshakeSample, carrierHandshakeSample.
  split_if E; [done|]. split_if E2; [done|]. split_if E3; [done|]. apply waters_sample.
  rewrite !orb_false_iff, !bool_decide_eq_false in E. destruct E as (_ & Hi%dec_stable).
  by rewrite <- Hi in Hb.
Qed.

Lemma waters_close c : waters (RttCache.close c) = waters c.
Proof.
  unfold close. destruct (rc_closed c); [done|]. rewrite withdraw_closed.
  change (slen (rc_legs (c <| rc_closed := true |>))) with (slen (rc_legs c)).
  assert (forall ids c, (forall id, id ∈ ids -> 0 <= id < slen (rc_legs c)) ->
    waters (fold_left withdrawLeg ids c) = waters c) as HF.
  { intros ids. induction ids as [|j ids IH]; intros c' Hids; simpl; [done|].
    rewrite IH; [apply waters_withdraw, Hids, list_elem_of_here|].
    intros id Hin. rewrite withdrawLeg_len. apply Hids. by right. }
  apply HF. intros id Hin%elem_of_seqZ. lia.
Qed.

Lemma waters_exec c op :
  cache_inv c -> rop_wf op -> rtt_outside op = true -> waters (rtt_exec c op) = waters c.
Proof.
  intros HI Hwf Hout. destruct op; try done; simpl in *.
  - by apply waters_handshake.
  - unfold startProbeAt. repeat (case_match; [done|]). by destruct (encodeStreamRTTMessage _ _).
  - unfold cancelProbe. case_match; [done|]. case_match; [|done]. by case_match.
  - unfold acceptProbe_commit. destruct Hwf as [[H0 _] _]. repeat (case_match; [done|]).
    destruct (encodeStreamRTTMessage _ _); [|done]. by apply waters_set.
  - unfold acceptEcho_commit. destruct Hwf as [H0 _]. case_match; [done|]. case_match; [|done].
    repeat (case_match; [done|]). etransitivity; [by apply waters_sample|done].
  - apply waters_close.
Qed.

(** The generation the cache has seen for an identifier never runs ahead of the
    next one the registry will give out. *)
Definition cache_fits (e : StreamEngine) (c : streamRTTProbeCache) : Prop :=
  cache_inv c /\ rc_maxLegs c = se_maxActiveLegs e /\
  forall id, rl_highWater (leg_at c id) <= gen_of e id + 1.

Lemma cache_fits_same e c c' : cache_fits e c -> good c c' -> waters c' = waters c -> cache_fits e c'.
Proof.
  intros (H1 & H2 & H3) [HI' HE] HW. split_and!; [done|by rewrite (ev_max _ _ HE)|].
  intros id. by rewrite waters_at, HW, <- waters_at.
Qed.

(** ** Steps of the registry *)

Lemma inv_mono n m e : engine_inv n e -> n <= m -> engine_inv m e.
Proof. intros [] H. constructor; try done; lia. Qed.

(** An update of one leg that leaves its identity and its place alone. *)
Definition leg_moves (reg : bool) (l l' : streamLeg) : Prop :=
  sl_id l' = sl_id l /\ sl_generation l' = sl_generation l /\ sl_retired l' = sl_retired l /\
  sl_pathRTTEnabled l' = sl_pathRTTEnabled l /\ sl_pathBinding l' = sl_pathBinding l /\
  0 <= sl_workers l' <= sl_workers l /\ (sl_closed l = true -> sl_closed l' = true) /\
  (reg = false -> open_leg l = false -> open_leg l' = false).

Lemma leg_upd_inv n e p f :
  engine_inv n e ->
  (forall l, se_heap e !! p = Some l ->
     leg_moves (bool_decide (se_legs e !! sl_id l = Some p)) l (f l)) ->
  engine_inv n (upd_leg p f e).
Proof.
  intros HI Hf. destruct HI. unfold upd_leg.
  assert (forall q l', alter f p (se_heap e) !! q = Some l' -> exists l, se_heap e !! q = Some l /\
    leg_moves (bool_decide (se_legs e !! sl_id l = Some q)) l l') as HR.
  { intros q l' H. destruct (decide (p = q)) as [<-|Hne].
    - rewrite lookup_alter_eq in H. destruct (se_heap e !! p) as [l|] eqn:E; [|done].
      injection H as <-. exists l. split; [done|]. by apply Hf.
    - rewrite lookup_alter_ne in H by done. destruct (ei_placed0 _ _ H).
      exists l'. split; [done|]. by repeat split. }
  assert (forall q l, se_heap e !! q = Some l -> exists l', alter f p (se_heap e) !! q = Some l' /\
    leg_moves (bool_decide (se_legs e !! sl_id l = Some q)) l l') as HL.
  { intros q l H. destruct (decide (p = q)) as [<-|Hne].
    - exists (f l). rewrite lookup_alter_eq, H. split; [done|]. by apply Hf.
    - exists l. rewrite lookup_alter_ne by done. destruct (ei_placed0 _ _ H).
      split; [done|]. by repeat split. }
  constructor; simpl; try done.
  - intros q l' H. destruct (HR _ _ H) as (l & Hl & M1 & M2 & M3 & M4 & M5 & M6 & M7 & M8).
    destruct (ei_placed0 _ _ Hl) as [A1 A2 A3 A4 A5 A6].
    constructor; simpl; rewrite ?M1, ?M2, ?M3, ?M4, ?M5; try done; [lia|].
    destruct A6 as [A6|[A6|(B1 & B2 & B3)]]; [by left|by right; left|].
    destruct (decide (se_legs e !! sl_id l = Some q)) as [D|D]; [by left|].
    right; right. split_and!; [done|lia|]. apply M8; [|done]. by apply bool_decide_eq_false.
  - intros q r l' m' Hl' Hm'. destruct (HR _ _ Hl') as (l & Hl & M1 & M2 & _).
    destruct (HR _ _ Hm') as (m & Hm & N1 & N2 & _). rewrite M1, M2, N1, N2. by eapply ei_unique0.
  - intros id q H. destruct (ei_legs0 _ _ H) as (? & l & Hl & ? & ? & ?).
    destruct (HL _ _ Hl) as (l' & Hl' & M1 & M2 & M3 & _). split; [done|].
    exists l'. by rewrite M1, M2, M3.
  - intros id q H. destruct (ei_retiring0 _ _ H) as (l & Hl & Hid & ? & ?).
    destruct (HL _ _ Hl) as (l' & Hl' & M1 & M2 & M3 & M4 & M5 & M6 & M7 & M8).
    exists l'. rewrite M1, M3. split_and!; try done. apply M8; [|done].
    apply bool_decide_eq_false. intros D. rewrite Hid in D. destruct (ei_legs0 _ _ D). congruence.
  - intros x Hx. destruct (ei_failing0 _ Hx) as (l & Hl & ? & ? & ?).
    destruct (HL _ _ Hl) as (l' & Hl' & M1 & M2 & M3 & M4 & M5 & M6 & M7 & M8).
    exists l'. rewrite M1. split_and!; try done. by apply M7.
  - intros q Hq. destruct (ei_down0 _ Hq) as (l & Hl & ?).
    destruct (HL _ _ Hl) as (l' & Hl' & M1 & _). exists l'. by rewrite M1.
  - intros id q l' Hd Hq Hl'. destruct (HR _ _ Hl') as (l & Hl & M1 & M2 & M3 & M4 & M5 & M6 & M7 & M8).
    destruct (ei_shutdown0 _ _ _ Hd Hq Hl); [left|by right]. by apply M7.
Qed.

Lemma leg_close_moves reg err l : 0 <= sl_workers l -> leg_moves reg l (leg_close err l).
Proof.
  intros Hw. unfold leg_close. destruct (sl_closed l) eqn:E; repeat split; try done; simpl; try lia.
Qed.

Lemma close_inv n e p err : engine_inv n e -> engine_inv n (upd_leg p (leg_close err) e).
Proof.
  intros HI. apply leg_upd_inv; [done|]. intros l Hl. apply leg_close_moves, (ei_placed _ _ HI _ _ Hl).
Qed.

(** The place of the legs in a state that has the same registry. *)
Ltac keep_placed H :=
  let p := fresh in let l := fresh in let Hl := fresh in
  intros p l Hl; destruct (H p l Hl); constructor; try done.

Lemma cache_upd_inv n e c :
  engine_inv n e -> (forall x, c = Some x -> cache_fits e x) -> engine_inv n (e <| se_pathRTTCache := c |>).
Proof.
  intros [] Hc. constructor; try done; simpl.
  by keep_placed ei_placed0.
Qed.

(** The failing leg, closed. *)
Definition failure_close (e : StreamEngine) (p : lptr) (l : streamLeg) (err : eng_error) : StreamEngine :=
  upd_leg p (leg_close err)
    (if sl_pathRTTEnabled l
     then e <| se_pathRTTCache ::= fmap (fun c => (invalidateLeg c (sl_pathBinding l)).2) |> else e).

Lemma cache_drop_inv n e p l :
  engine_inv n e -> se_heap e !! p = Some l ->
  engine_inv n (if sl_pathRTTEnabled l
    then e <| se_pathRTTCache ::= fmap (fun c => (invalidateLeg c (sl_pathBinding l)).2) |> else e).
Proof.
  intros HI Hl. destruct (sl_pathRTTEnabled l) eqn:Hr; [|done].
  change (engine_inv n (e <| se_pathRTTCache := (fun c => (invalidateLeg c (sl_pathBinding l)).2) <$> se_pathRTTCache e |>)).
  apply cache_upd_inv; [done|]. intros x Hx. apply fmap_Some in Hx as (c & Hc & ->).
  pose proof (ei_cache _ _ HI _ Hc) as HF. pose proof HF as (HCI & _).
  destruct (ei_placed _ _ HI _ _ Hl). destruct (ei_max _ _ HI).
  assert (is_u8 (bd_LegID (sl_pathBinding l))) as Hu.
  { rewrite lp_path0 by done. unfold is_u8, MaxStreamLegIDCount in *. lia. }
  eapply cache_fits_same; [exact HF|by apply invalidateLeg_good|by apply waters_invalidate].
Qed.

Lemma failure_close_inv n e p l err :
  engine_inv n e -> se_heap e !! p = Some l -> engine_inv n (failure_close e p l err).
Proof. intros HI Hl. unfold failure_close. by apply close_inv, (cache_drop_inv _ _ p). Qed.

Lemma handleLegFailure_unfold e p l err :
  se_heap e !! p = Some l ->
  handleLegFailure e p err
  = let e := failure_close e p l err in
    if bool_decide (se_legs e !! sl_id l = Some p)
    then let e := e <| se_legs ::= delete (sl_id l) |> <| se_retiring ::= <[sl_id l := p]> |> in
         e <| se_failing ::= fun fs => fs ++ [MkFailure p err (legCount e) MustInvalidate] |>
    else e.
Proof. intros Hl. unfold handleLegFailure. by rewrite Hl. Qed.

Lemma failure_close_leg e p l err :
  se_heap e !! p = Some l ->
  se_heap (failure_close e p l err) !! p = Some (leg_close err l) /\
  se_legs (failure_close e p l err) = se_legs e.
Proof. intros Hl. unfold failure_close. destruct (sl_pathRTTEnabled l); simpl; by rewrite lookup_alter_eq, Hl. Qed.

Lemma closed_leg err l : sl_closed (leg_close err l) = true.
Proof. unfold leg_close. by destruct (sl_closed l) eqn:E. Qed.
Lemma leg_close_id err l :
  sl_id (leg_close err l) = sl_id l /\ sl_generation (leg_close err l) = sl_generation l /\
  sl_retired (leg_close err l) = sl_retired l /\ sl_workers (leg_close err l) = sl_workers l.
Proof. unfold leg_close. by destruct (sl_closed l). Qed.

(** Take a closed, registered leg out of the registry; [fs] is the failure that is
    handled, if any (a drained leg has none). *)
Definition unregister (e : StreamEngine) (p : lptr) (id : Z) (fs : list failure) : StreamEngine :=
  e <| se_legs ::= delete id |> <| se_retiring ::= <[id := p]> |>
    <| se_failing ::= fun x => x ++ fs |>.

Lemma unregister_inv n e p l fs :
  engine_inv n e -> se_heap e !! p = Some l -> se_legs e !! sl_id l = Some p ->
  open_leg l = false -> (forall f, f ∈ fs -> fl_leg f = p /\ sl_closed l = true) ->
  (length fs <= 1)%nat -> engine_inv n (unregister e p (sl_id l) fs).
Proof.
  intros HI Hl Hreg Hopen Hfs Hlen. pose proof HI as [].
  destruct (ei_legs0 _ _ Hreg) as (Hnr & l2 & Hl2 & _ & _ & Hret). simplify_eq.
  constructor; simpl; try done.
  - intros q m Hm. destruct (ei_placed0 _ _ Hm) as [A1 A2 A3 A4 A5 A6]. constructor; try done. simpl.
    destruct (decide (sl_id m = sl_id l)) as [Eid|Nid].
    + rewrite Eid, lookup_delete_eq, lookup_insert_eq. rewrite Eid in A6.
      destruct A6 as [A6|[A6|A6]]; [right; left; congruence|congruence|by right; right].
    + rewrite lookup_delete_ne, lookup_insert_ne by done. done.
  - intros id q Hq. apply lookup_delete_Some in Hq as [Hne Hq].
    rewrite lookup_insert_ne by done. by apply ei_legs0.
  - intros id q Hq. apply lookup_insert_Some in Hq as [[<- <-]|[Hne Hq]]; [by exists l|].
    by apply ei_retiring0.
  - intros f [Hf|Hf]%elem_of_app.
    + destruct (ei_failing0 _ Hf) as (m & Hm & F1 & F2 & F3). exists m. split_and!; try done.
      * intros [_ Hx]%lookup_delete_Some. done.
      * intros Hst. specialize (F3 Hst). rewrite lookup_insert_ne; [done|]. intros E.
        rewrite <- E in F3. congruence.
    + destruct (Hfs _ Hf) as [Hp Hcl]. exists l. rewrite Hp. split_and!; try done.
      * by rewrite lookup_delete_eq.
      * intros _. by rewrite lookup_insert_eq.
  - intros q Hq. destruct (ei_down0 _ Hq) as (m & Hm & F1). exists m. split; [done|].
    intros [_ Hx]%lookup_delete_Some. done.
  - rewrite map_app, app_assoc. destruct fs as [|f [|]]; [by rewrite app_nil_r| |simpl in Hlen; lia].
    simpl. destruct (Hfs f (list_elem_of_here _ _)) as [-> _].
    apply NoDup_app. split_and!; [done| |apply NoDup_singleton].
    intros q Hq ->%list_elem_of_singleton. apply elem_of_app in Hq as [Hq|Hq].
    + destruct (ei_down0 _ Hq) as (m & Hm & F1). simplify_eq.
    + apply list_elem_of_In, in_map_iff in Hq as (x & <- & Hx%list_elem_of_In).
      destruct (ei_failing0 _ Hx) as (m & Hm & F1 & _). simplify_eq.
  - intros id q m Hd Hq Hm. apply lookup_delete_Some in Hq as [_ Hq]. by eapply ei_shutdown0.
Qed.

Lemma leg_failure_inv n e p err : engine_inv n e -> engine_inv n (handleLegFailure e p err).
Proof.
  intros HI. destruct (se_heap e !! p) as [l|] eqn:Hl; [|unfold handleLegFailure; by rewrite Hl].
  rewrite (handleLegFailure_unfold _ _ _ _ Hl). cbv zeta.
  pose proof (failure_close_inv _ _ _ _ err HI Hl) as HI2.
  destruct (failure_close_leg e p l err Hl) as [Hl2 _].
  destruct (leg_close_id err l) as (Eid & _). pose proof (closed_leg err l) as Hc.
  case_bool_decide as Hreg; [|done].
  rewrite <- Eid in Hreg |- *. refine (unregister_inv _ _ _ _ _ HI2 Hl2 Hreg _ _ _).
  - unfold open_leg. by rewrite Hc.
  - by intros f ->%list_elem_of_singleton.
  - done.
Qed.

Lemma failure_invalidate_inv n e k f :
  engine_inv n e -> n < max_u64 -> se_failing e !! k = Some f ->
  engine_inv (n + 1) (failure_invalidate f (e <| se_failing ::=
    <[k := MkFailure (fl_leg f) (fl_err f) (fl_remaining f) MustNotify]> |>)).
Proof.
  intros HI Hn Hk.
  assert (engine_inv n (e <| se_failing ::=
    <[k := MkFailure (fl_leg f) (fl_err f) (fl_remaining f) MustNotify]> |>)) as HI2.
  { destruct HI. constructor; simpl; try done.
    - by keep_placed ei_placed0.
    - intros x Hx. apply list_elem_of_lookup in Hx as [i Hi].
      destruct (decide (i = k)) as [->|Hne].
      + rewrite list_lookup_insert_eq in Hi by (by apply lookup_lt_Some in Hk). injection Hi as <-. simpl.
        destruct (ei_failing0 f) as (l & Hl & F1 & F2 & F3); [by eapply list_elem_of_lookup_2|].
        by exists l.
      + rewrite list_lookup_insert_ne in Hi by done. apply ei_failing0. by eapply list_elem_of_lookup_2.
    - replace (map fl_leg (<[k:=_]> (se_failing e))) with (map fl_leg (se_failing e)); [done|].
      rewrite (list_fmap_insert fl_leg). simpl. symmetry. apply list_insert_id.
      by rewrite list_lookup_fmap, Hk. }
  unfold failure_invalidate. destruct (ei_failing _ _ HI f) as (l & Hl & _); [by eapply list_elem_of_lookup_2|].
  simpl. rewrite Hl. eapply data_step_inv; [exact HI2|done|done|].
  apply data_intro; [by destruct e|done|]. by apply (tx_call_op _ (op_invalidate (sl_id l))).
Qed.

Lemma epoch_step n e : engine_inv n e -> n < max_u64 ->
  u64 (se_recoveryEpoch e + 1) = se_recoveryEpoch e + 1.
Proof. intros HI Hn. apply u64_small. pose proof (ei_epoch _ _ HI). unfold is_u64, max_u64 in *. lia. Qed.

Lemma failure_notify_inv n e k f :
  engine_inv n e -> n < max_u64 -> se_failing e !! k = Some f ->
  engine_inv (n + 1) (failure_notify f (e <| se_failing ::= delete k |>)).
Proof.
  intros HI Hn Hk. pose proof (epoch_step _ _ HI Hn) as Hep.
  destruct (ei_failing _ _ HI f) as (l & Hl & F1 & F2 & F3); [by eapply list_elem_of_lookup_2|].
  assert (fl_leg f :: map fl_leg (delete k (se_failing e)) ≡ₚ map fl_leg (se_failing e)) as HP.
  { change (fl_leg <$> f :: delete k (se_failing e) ≡ₚ fl_leg <$> se_failing e).
    by rewrite <- (delete_Permutation _ _ _ Hk). }
  assert (forall x, x ∈ delete k (se_failing e) -> x ∈ se_failing e) as Hsub.
  { intros x Hx. rewrite (delete_Permutation _ _ _ Hk). by right. }
  assert (engine_inv (n + 1) (e <| se_failing ::= delete k |>)) as HI2.
  { destruct HI. constructor; simpl; try done; try lia.
    - by keep_placed ei_placed0.
    - intros x Hx. by apply ei_failing0, Hsub.
    - rewrite <- HP in ei_reports0. apply NoDup_app in ei_reports0 as (N1 & N2 & N3).
      apply NoDup_cons in N3 as [_ N3]. apply NoDup_app. split_and!; try done.
      intros q Hq Hx. apply (N2 q Hq). by right. }
  unfold failure_notify. destruct (se_done _ || se_finalizing _); [done|].
  destruct (se_closing _ && _); [done|]. simpl. rewrite Hl.
  assert (engine_inv (n + 1) ((e <| se_failing ::= delete k |>) <| se_legDown ::= fun d => d ++ [fl_leg f] |>)) as HI3.
  { destruct HI2. constructor; simpl; try done.
    - by keep_placed ei_placed0.
    - intros q [Hq| ->%list_elem_of_singleton]%elem_of_app; [by apply ei_down0|by exists l].
    - destruct HI. rewrite <- HP in ei_reports1. rewrite <- app_assoc. done. }
  set (e3 := _ <| se_legDown ::= _ |>) in HI3.
  assert (forall a, engine_inv (n + 1) (e3 <| se_active := a |>)) as HI4.
  { intros a. destruct HI3. constructor; try done. by keep_placed ei_placed0. }
  assert (forall a, engine_inv (n + 1) ((e3 <| se_active := a |>)
      <| se_recoveryEpoch ::= fun n => u64 (n + 1) |>
      <| se_timers ::= fun ts => ts ++ [u64 (se_recoveryEpoch e + 1)] |>)) as HI5.
  { intros a. specialize (HI4 a). destruct HI4. constructor; try done; simpl.
    - rewrite Hep. destruct (ei_epoch _ _ HI). lia.
    - by keep_placed ei_placed0.
    - destruct (ei_timers _ _ HI) as [T1 T2]. rewrite Hep. split.
      + apply NoDup_app. split_and!; [done| |apply NoDup_singleton].
        intros t Ht ->%list_elem_of_singleton. specialize (T2 _ Ht). lia.
      + pose proof (ei_epoch _ _ HI). intros t [Ht| ->%list_elem_of_singleton]%elem_of_app; [|lia].
        specialize (T2 _ Ht). lia. }
  destruct (bool_decide (sl_id l = 0) && negb (se_active e)), (bool_decide (fl_remaining f = 0)).
  - exact (HI5 true).
  - exact (HI4 true).
  - specialize (HI5 (se_active e)). by destruct e.
  - specialize (HI4 (se_active e)). by destruct e.
Qed.

Lemma gen_range e id : 0 <= id < slen (se_legGeneration e) -> slice_get (se_legGeneration e) id = Some (gen_of e id).
Proof. intros H. unfold gen_of. by destruct (slice_get_Some _ _ H) as [x ->]. Qed.

Lemma gen_insert e e' id g j :
  0 <= id < slen (se_legGeneration e) ->
  se_legGeneration e' = <[Z.to_nat id := g]> (se_legGeneration e) ->
  gen_of e' j = if bool_decide (id = j) then g else gen_of e j.
Proof.
  intros Hid He. unfold gen_of, slice_get, slen in *. rewrite He.
  destruct (bool_decide_reflect (id = j)) as [<-|Hne].
  - rewrite bool_decide_eq_true_2 by lia. by rewrite list_lookup_insert_eq by lia.
  - case_bool_decide; [|done]. by rewrite list_lookup_insert_ne by lia.
Qed.

(** Publish a new leg of the next generation. *)
Lemma attach_install_inv n e l :
  engine_inv n e -> se_finalizing e = false -> 0 <= sl_id l < se_maxActiveLegs e ->
  se_legs e !! sl_id l = None -> se_retiring e !! sl_id l = None ->
  gen_of e (sl_id l) < max_u64 -> sl_generation l = gen_of e (sl_id l) + 1 ->
  0 <= sl_workers l -> sl_retired l = false ->
  (sl_pathRTTEnabled l = true -> bd_LegID (sl_pathBinding l) = sl_id l) ->
  engine_inv n (attach_install e l).2.
Proof.
  intros HI Hfin Hid Hleg Hret Hmax Hgen Hw Hrt Hpath. pose proof HI as [].
  assert (forall j, gen_of (attach_install e l).2 j
    = if bool_decide (sl_id l = j) then gen_of e (sl_id l) + 1 else gen_of e j) as HG.
  { intros j. rewrite <- Hgen. apply gen_insert; [by rewrite ei_len0|done]. }
  assert (forall j, gen_of e j <= gen_of (attach_install e l).2 j) as HG'.
  { intros j. rewrite HG. case_bool_decide; subst; lia. }
  assert (forall q m, se_heap e !! q = Some m -> q <> se_fresh e) as Hfr.
  { intros q m Hm. destruct (ei_placed0 _ _ Hm). lia. }
  assert (forall q m, (attach_install e l).2.(se_heap) !! q = Some m ->
    q = se_fresh e /\ m = l \/ se_heap e !! q = Some m) as HH.
  { intros q m Hm. simpl in Hm. apply lookup_insert_Some in Hm as [[<- <-]|[_ Hm]]; auto. }
  assert (forall q m, se_heap e !! q = Some m -> (attach_install e l).2.(se_heap) !! q = Some m) as HH'.
  { intros q m Hm. simpl. rewrite lookup_insert_ne; [done|]. intros E. by apply (Hfr _ _ Hm). }
  constructor; try done.
  - simpl. unfold slen in *. by rewrite length_insert.
  - intros j. rewrite HG. case_bool_decide; [|done]. pose proof (ei_gens0 (sl_id l)). lia.
  - intros c Hc. destruct (ei_cache0 c Hc) as (C1 & C2 & C3). split_and!; [done..|].
    intros j. specialize (C3 j). specialize (HG' j). lia.
  - intros q m [[-> ->]|Hm]%HH.
    + constructor; try done; simpl.
      * rewrite HG, bool_decide_eq_true_2 by done. pose proof (ei_gens0 (sl_id l)). lia.
      * lia.
      * left. by rewrite lookup_insert_eq.
    + destruct (ei_placed0 _ _ Hm) as [A1 A2 A3 A4 A5 A6]. constructor; try done.
      * specialize (HG' (sl_id m)). lia.
      * simpl. lia.
      * simpl. destruct (decide (sl_id l = sl_id m)) as [E|N]; [|by rewrite lookup_insert_ne].
        rewrite <- E in A6. right. destruct A6 as [A6|[A6|A6]]; [congruence|congruence|by right].
  - intros p q m k [[-> ->]|Hm]%HH [[-> ->]|Hk]%HH Ei Eg; [done| | |by eapply ei_unique0].
    + destruct (ei_placed0 _ _ Hk) as [_ G _ _ _ _]. rewrite <- Ei in G. lia.
    + destruct (ei_placed0 _ _ Hm) as [_ G _ _ _ _]. rewrite Ei in G. lia.
  - intros id p Hp. simpl in Hp |- *. apply lookup_insert_Some in Hp as [[<- <-]|[Hne Hp]].
    + split; [done|]. exists l. rewrite lookup_insert_eq. split_and!; try done.
      etransitivity; [exact Hgen|]. pose proof (HG (sl_id l)) as E.
      rewrite bool_decide_eq_true_2 in E by done. exact (eq_sym E).
    + destruct (ei_legs0 _ _ Hp) as (? & m & Hm & ? & Hg & ?). split; [done|]. exists m.
      split_and!; [by apply HH'|done| |done]. etransitivity; [exact Hg|]. pose proof (HG id) as E.
      rewrite bool_decide_eq_false_2 in E by done. exact (eq_sym E).
  - intros id p Hp. destruct (ei_retiring0 _ _ Hp) as (m & Hm & ?). exists m. split; [by apply HH'|done].
  - intros f Hf. destruct (ei_failing0 _ Hf) as (m & Hm & F1 & F2 & F3). exists m.
    split_and!; [by apply HH'| |done|done]. simpl.
    intros [[E1 E2]|[_ Hx]]%lookup_insert_Some; [|done]. by apply (Hfr _ _ Hm).
  - intros p Hp. destruct (ei_down0 _ Hp) as (m & Hm & F1). exists m.
    split; [by apply HH'|]. simpl. intros [[E1 E2]|[_ Hx]]%lookup_insert_Some; [|done]. by apply (Hfr _ _ Hm).
  - intros id p m Hd. destruct (ei_done0 Hd). congruence.
Qed.

(** Binding the carrier of the next generation keeps the cache in step. *)
Lemma bindLeg_waters c b auth id :
  cache_inv c -> is_u8 (bd_LegID b) ->
  rl_highWater (leg_at (bindLeg c b auth).2 id) <= rl_highWater (leg_at c id) \/
  bd_LegID b = id /\ rl_highWater (leg_at (bindLeg c b auth).2 id) <= bd_Generation b.
Proof.
  intros HI [H0 _]. unfold bindLeg. destruct (validateStreamPathBinding b); [by left|].
  case_bool_decide as Hm; [by left|]. destruct (negb _); [by left|]. destruct (rc_closed c); [by left|].
  destruct (bool_decide_reflect (bd_Generation b < rl_highWater (leg_at c (bd_LegID b)))); [by left|].
  destruct (bool_decide_reflect (bd_Generation b = rl_highWater (leg_at c (bd_LegID b)))).
  { destruct (_ && _); by left. }
  assert (0 <= bd_LegID b < slen (rc_legs c)) as Hid by (rewrite (ci_len _ HI); lia).
  cbv zeta. cbn [snd]. set (g := _ <| rl_activeView := _ |>).
  assert (rl_highWater g = bd_Generation b) as Hg by done. clearbody g.
  unfold clearLegLocked. rewrite leg_at_set by (simpl; exact (eq_ind_r (fun n => 0 <= bd_LegID b < n) Hid (set_leg_len _ _ _))).
  case_bool_decide as E; [right; split; [done|lia]|left].
  change (leg_at (_ <| rc_stores ::= _ |>) id) with (leg_at (set_leg (bd_LegID b) (clear_leg (leg_at c (bd_LegID b)))
    (c <| rc_pending ::= filter (fun tp => id_LegID (pd_identity tp.2) <> bd_LegID b) |>)) id).
  rewrite leg_at_set by done. rewrite bool_decide_eq_false_2 by done. done.
Qed.

Lemma handshake_good c b i auth clock :
  cache_inv c -> is_u8 (bd_LegID b) ->
  good c (recordHandshakeSample c b i auth clock).2 /\
  waters (recordHandshakeSample c b i auth clock).2 = waters c.
Proof. intros HI Hb. split; [by apply recordHandshakeSample_good|by apply waters_handshake]. Qed.

Lemma attach_path_inv n e id auth clock b i e' :
  engine_inv n e -> 0 <= id < se_maxActiveLegs e ->
  attach_path e id (gen_of e id + 1) auth clock = Ok (b, i, e') ->
  engine_inv n e' /\ bd_LegID b = id /\
  exists c, e' = e <| se_pathRTTCache := c |> <| se_pathSession := se_pathSession e' |>.
Proof.
  intros HI Hid. unfold attach_path. destruct (se_pathRTTCache e) as [c|] eqn:Hc; [|done].
  destruct (negb _); [done|]. destruct (pathDirections e) as [[ld pd]|]; [|done].
  destruct (other_session _ _); [done|]. destruct (negb _); [done|].
  set (bd := MkBinding _ _ _ _). set (idn := MkIdentity _ _ _ _ _).
  pose proof (ei_cache _ _ HI _ Hc) as (C1 & C2 & C3).
  assert (is_u8 (bd_LegID bd)) as Hu.
  { destruct (ei_max _ _ HI). unfold is_u8, MaxStreamLegIDCount in *. simpl. lia. }
  pose proof (bindLeg_good c bd auth C1 Hu) as [HB1 HB2].
  pose proof (fun j => bindLeg_waters c bd auth j C1 Hu) as HW.
  destruct (bindLeg c bd auth) as [[err|] c2]; [done|]. simpl in HB1, HB2, HW.
  destruct (handshake_good c2 bd idn auth clock HB1 Hu) as [HH1 HH2].
  intros [= <- <- <-]. split_and!; [|done|by eexists].
  assert (cache_fits e (recordHandshakeSample c2 bd idn auth clock).2) as HF.
  { split_and!; [apply HH1|by rewrite (ev_max _ _ (proj2 HH1)), (ev_max _ _ HB2)|].
    intros j. rewrite waters_at, HH2, <- waters_at. specialize (C3 j).
    destruct (HW j) as [|[E G]]; [lia|]. simpl in E, G. subst j. lia. }
  pose proof (cache_upd_inv n e (Some (recordHandshakeSample c2 bd idn auth clock).2) HI) as HI2.
  destruct HI2; [by intros x [= <-]|]. constructor; try done. by keep_placed ei_placed0.
Qed.

Lemma attachLeg_inv n e id auth prior clock :
  engine_inv n e -> is_u8 id -> engine_inv n (attachLeg e id auth prior clock).2.
Proof.
  intros HI [H0 _]. unfold attachLeg. destruct (se_configError e); [done|].
  case_bool_decide as Hm; [done|]. destruct (se_finalizing e) eqn:Hf; [done|].
  destruct (se_done e); [done|]. simpl.
  destruct (se_legs e !! id) as [q|] eqn:Hl; [by destruct (se_retiring e !! id)|].
  destruct (se_retiring e !! id) as [q|] eqn:Hr; [done|].
  change (default 0 (slice_get (se_legGeneration e) id)) with (gen_of e id).
  case_bool_decide as Hg; [done|]. pose proof (ei_gens _ _ HI id).
  assert (gen_of e id < max_u64) by lia.
  destruct auth as [auth|].
  2:{ apply attach_install_inv; try done; simpl; lia. }
  destruct (negb (PathRTTEnabled auth) && negb (CoordinatedDrainEnabled auth)); [done|].
  assert (forall e1 b i,
    (if PathRTTEnabled auth then attach_path e id (gen_of e id + 1) auth clock
     else Ok (zero_binding, zero_identity, e)) = Ok (b, i, e1) ->
    engine_inv n e1 /\ (PathRTTEnabled auth = true -> bd_LegID b = id) /\
    se_legs e1 = se_legs e /\ se_retiring e1 = se_retiring e /\ se_finalizing e1 = se_finalizing e /\
    se_maxActiveLegs e1 = se_maxActiveLegs e /\ forall j, gen_of e1 j = gen_of e j) as HP.
  { intros e1 b i. destruct (PathRTTEnabled auth).
    - intros E. destruct (attach_path_inv n e id auth clock b i e1 HI) as (HI1 & Hb & c & E1); [lia|done|].
      split; [done|]. split; [done|]. rewrite E1. done.
    - intros [= <- <- <-]. done. }
  destruct (if PathRTTEnabled auth then _ else _) as [[[b i] e1]|err]; [|done].
  destruct (HP e1 b i eq_refl) as (HI1 & Hb & E1 & E2 & E3 & E4 & E5). clear HP.
  assert (forall e2, (if CoordinatedDrainEnabled auth then attach_drain e1 auth else Ok e1) = Ok e2 ->
    engine_inv n e2 /\ se_legs e2 = se_legs e /\ se_retiring e2 = se_retiring e /\
    se_finalizing e2 = se_finalizing e /\
    se_maxActiveLegs e2 = se_maxActiveLegs e /\ forall j, gen_of e2 j = gen_of e j) as HD.
  { intros e2. destruct (CoordinatedDrainEnabled auth); [|by intros [= <-]].
    unfold attach_drain. repeat (case_match; [done|]). intros [= <-]. split; [|done].
    destruct HI1. constructor; try done. by keep_placed ei_placed0. }
  destruct (if CoordinatedDrainEnabled auth then _ else _) as [e2|err]; [|done].
  destruct (HD e2 eq_refl) as (HI2 & F1 & F2 & F3 & F4 & F5).
  apply attach_install_inv; cbn [new_leg sl_id sl_generation sl_workers sl_retired sl_pathRTTEnabled sl_pathBinding];
    rewrite ?F1, ?F2, ?F3, ?F4, ?F5; try done; [lia|]. by destruct (PathRTTEnabled auth).
Qed.

Lemma retire_leg_inv n e p l :
  engine_inv n e -> se_heap e !! p = Some l -> se_retiring e !! sl_id l = Some p ->
  sl_workers l = 0 -> must_invalidate e p = false -> engine_inv n (retire_leg e p).
Proof.
  intros HI Hl Hr Hw Hmi. unfold retire_leg. rewrite Hl, bool_decide_eq_true_2 by done.
  pose proof HI as []. destruct (ei_retiring0 _ _ Hr) as (l2 & Hl2 & _ & Hopen & Hret). simplify_eq.
  assert (se_legs e !! sl_id l = None) as Hnl.
  { destruct (se_legs e !! sl_id l) as [q|] eqn:E; [|done]. destruct (ei_legs0 _ _ E). congruence. }
  set (f := fun l : streamLeg => l <| sl_retired := true |>).
  assert (forall q m', alter f p (se_heap e) !! q = Some m' -> exists m, se_heap e !! q = Some m /\
    (q = p /\ m = l /\ m' = f l \/ q <> p /\ m' = m)) as HR.
  { intros q m' H. destruct (decide (p = q)) as [<-|Hne].
    - rewrite lookup_alter_eq, Hl in H. injection H as <-. exists l. auto.
    - rewrite lookup_alter_ne in H by done. exists m'. auto. }
  assert (forall q m, se_heap e !! q = Some m -> alter f p (se_heap e) !! q
    = Some (if bool_decide (p = q) then f m else m)) as HL.
  { intros q m H. case_bool_decide as E; [subst; by rewrite lookup_alter_eq, H|by rewrite lookup_alter_ne]. }
  constructor; simpl; try done.
  - intros q m' H. destruct (HR _ _ H) as (m & Hm & [(-> & -> & ->)|(Hne & ->)]);
      destruct (ei_placed0 _ _ Hm) as [A1 A2 A3 A4 A5 A6]; constructor; try done; simpl.
    + right; right. by split_and!.
    + destruct A6 as [A6|[A6|A6]]; [by left|right; left|by right; right].
      rewrite lookup_delete_ne; [done|]. congruence.
  - intros q r m' k' Hm' Hk'. destruct (HR _ _ Hm') as (m & Hm & Em), (HR _ _ Hk') as (k & Hk & Ek).
    pose proof (ei_unique0 _ _ _ _ Hm Hk) as HU.
    destruct Em as [(-> & -> & ->)|(? & ->)], Ek as [(-> & -> & ->)|(? & ->)]; done.
  - intros id q Hq. destruct (ei_legs0 _ _ Hq) as (Hn & m & Hm & Hid & ? & ?).
    split; [by rewrite lookup_delete_None; right|]. exists m. rewrite (HL _ _ Hm).
    rewrite bool_decide_eq_false_2 by (intros ->; congruence). done.
  - intros id q [Hne Hq]%lookup_delete_Some. destruct (ei_retiring0 _ _ Hq) as (m & Hm & Hid & ? & ?).
    exists m. rewrite (HL _ _ Hm). rewrite bool_decide_eq_false_2 by (intros ->; congruence). done.
  - intros x Hx. destruct (ei_failing0 _ Hx) as (m & Hm & F1 & F2 & F3).
    exists (if bool_decide (p = fl_leg x) then f m else m). split; [by apply HL|].
    split; [by case_bool_decide|]. split; [by case_bool_decide|].
    intros Hst. specialize (F3 Hst).
    assert (p <> fl_leg x) as Hne.
    { intros ->. unfold must_invalidate in Hmi.
      assert (existsb (fun y => bool_decide (fl_leg y = fl_leg x) && bool_decide (fl_stage y = MustInvalidate))
        (se_failing e) = true) as E; [|congruence].
      apply existsb_exists. exists x. split; [by apply list_elem_of_In|].
      by rewrite !bool_decide_eq_true_2. }
    rewrite bool_decide_eq_false_2 by done. rewrite lookup_delete_ne; [done|]. congruence.
  - intros q Hq. destruct (ei_down0 _ Hq) as (m & Hm & F1).
    exists (if bool_decide (p = q) then f m else m). split; [by apply HL|]. by case_bool_decide.
  - intros id q m' Hd Hq Hm'. destruct (HR _ _ Hm') as (m & Hm & [(-> & -> & ->)|(? & ->)]);
      [|by eapply ei_shutdown0]. by eapply (ei_shutdown0 id p l).
Qed.

Lemma fail_inv n e err app :
  engine_inv n e ->
  (app = false -> err = ErrCarrier io_EOF /\ se_txStopped e = true /\ settled (se_txLedger e)) ->
  engine_inv n (failWithAppClose e err app).
Proof.
  intros HI Happ. unfold failWithAppClose.
  assert (engine_inv n (e <| se_pathRTTCache ::= fmap RttCache.close |>)) as HI2.
  { change (engine_inv n (e <| se_pathRTTCache := RttCache.close <$> se_pathRTTCache e |>)).
    apply cache_upd_inv; [done|]. intros x (c & Hc & ->)%fmap_Some.
    pose proof (ei_cache _ _ HI _ Hc) as HF. eapply cache_fits_same; [exact HF| |apply waters_close].
    apply close_good, HF. }
  simpl. destruct (se_done e); [done|]. clear HI. destruct HI2. constructor; try done.
  - by keep_placed ei_placed0.
  - simpl. intros id p l _ Hp _. right. apply list_elem_of_In, in_map_iff. exists (id, p).
    split; [done|]. by apply list_elem_of_In, elem_of_map_to_list.
  - intros err' Hc. by destruct (ei_closer0 _ Hc) as (? & ? & ?).
  - simpl. intros _ Ha. by destruct (Happ Ha) as (-> & ? & ?).
Qed.

(** Steps that only move the life-cycle flags. *)
Lemma closer_none_inv n e : engine_inv n e -> engine_inv n (e <| se_closer := None |>).
Proof. intros []. constructor; try done. by keep_placed ei_placed0. Qed.

Lemma Start_inv n e err : engine_inv n e -> engine_inv n (StartGracefulClose e err).
Proof.
  intros []. unfold StartGracefulClose. simpl.
  destruct (se_graceful e || se_done e); (constructor; try done; by keep_placed ei_placed0).
Qed.

Lemma drained_inv n e err :
  engine_inv n e -> se_txStopped e = true -> HasOutstanding (se_txLedger e) = false ->
  engine_inv n (closer_drained e err).
Proof.
  intros HI Ht Ho. unfold closer_drained, beginFinalizing. destruct (se_done e) eqn:Hd; simpl.
  { by apply closer_none_inv. }
  apply HasOutstanding_settled in Ho; [|apply HI]. destruct HI. constructor; try done.
  - by keep_placed ei_placed0.
  - simpl. rewrite Hd. done.
Qed.

Lemma shutdown_leg_inv n e p rest err :
  engine_inv n e -> se_shutdown e = p :: rest ->
  engine_inv n (upd_leg p (leg_close err) (e <| se_shutdown := rest |>)).
Proof.
  intros HI Hs. pose proof (close_inv n e p err HI) as HI2.
  change (upd_leg p (leg_close err) (e <| se_shutdown := rest |>))
    with ((upd_leg p (leg_close err) e) <| se_shutdown := rest |>).
  destruct HI2. constructor; try done.
  - by keep_placed ei_placed0.
  - simpl in *. intros id q l Hd Hq Hl. destruct (ei_shutdown0 _ _ _ Hd Hq Hl) as [|Hin]; [by left|].
    rewrite Hs in Hin. apply elem_of_cons in Hin as [->|Hin]; [left|by right].
    rewrite lookup_alter_eq in Hl. destruct (se_heap e !! p) as [m|]; [|done]. injection Hl as <-.
    apply closed_leg.
Qed.

Lemma step_inv n e op e' :
  engine_inv n e -> n < max_u64 -> lop_wf op -> leg_exec e op = Some e' -> engine_inv (n + 1) e'.
Proof.
  intros HI Hn Hwf.
  assert (forall x, engine_inv n x -> engine_inv (n + 1) x) as Hup by (intros; eapply inv_mono; [done|lia]).
  assert (forall x, data_step false e x -> engine_inv (n + 1) x) as HD.
  { intros x Hx. by eapply data_step_inv. }
  destruct op; cbn [leg_exec lop_wf] in *.
  - intros [= <-]. by apply Hup, attachLeg_inv.
  - case_bool_decide; [|done]. intros [= <-]. pose proof (epoch_step _ _ HI Hn) as Hep. destruct HI.
    constructor; try done; simpl; rewrite ?Hep; try lia.
    + by keep_placed ei_placed0.
    + destruct ei_timers0 as [T1 T2]. split; [done|]. intros t Ht. specialize (T2 _ Ht). lia.
  - destruct (se_heap e !! p); [|done]. intros [= <-]. by apply Hup, leg_failure_inv.
  - destruct (se_failing e !! k) as [f|] eqn:Hk; [|done]. simpl. case_bool_decide; [|done].
    intros [= <-]. by apply failure_invalidate_inv.
  - destruct (se_failing e !! k) as [f|] eqn:Hk; [|done]. simpl. case_bool_decide; [|done].
    intros [= <-]. by apply failure_notify_inv.
  - destruct (se_heap e !! p) as [l|] eqn:Hl; [|done]. simpl. case_bool_decide; [|done]. intros [= <-].
    apply Hup, leg_upd_inv; [done|]. intros m Hm. simplify_eq. repeat split; try done; simpl; lia.
  - destruct (se_heap e !! p) as [l|] eqn:Hl; [|done]. simpl.
    destruct (_ && negb _) eqn:E; [|done]. intros [= <-].
    rewrite !andb_true_iff, !bool_decide_eq_true, negb_true_iff in E. destruct E as [[E1 E2] E3].
    by eapply Hup, retire_leg_inv.
  - destruct (se_timers e !! k) as [t|] eqn:Hk; [|done]. simpl. intros [= <-].
    assert (engine_inv n (e <| se_timers ::= delete k |>)) as HI2.
    { destruct HI. constructor; try done; simpl.
      - by keep_placed ei_placed0.
      - destruct ei_timers0 as [T1 T2]. rewrite (delete_Permutation _ _ _ Hk) in T1.
        apply NoDup_cons in T1 as [_ T1]. split; [done|]. intros x Hx. apply T2.
        rewrite (delete_Permutation _ _ _ Hk). by right. }
    unfold failIfNoLegRecovers, fail. case_match; [|by apply Hup]. apply Hup. by apply fail_inv.
  - intros [= <-]. apply Hup. by apply fail_inv.
  - intros [= <-]. apply Hup. apply fail_inv; [|done]. destruct HI. constructor; try done.
    by keep_placed ei_placed0.
  - destruct (se_shutdown e) as [|p rest] eqn:Hs; [done|]. destruct (se_closeErr e); [|done].
    intros [= <-]. by apply Hup, shutdown_leg_inv.
  - intros [= <-]. by apply Hup, Start_inv.
  - intros [= <-]. destruct HI. constructor; try done; simpl; try lia.
    + by keep_placed ei_placed0.
    + intros err Hc. by destruct (ei_closer0 _ Hc) as (? & ? & ?).
    + intros Hd Ha. by destruct (ei_eof0 Hd Ha) as (? & ? & ?).
  - destruct (se_closer e) as [[err []]|]; [|done..].
    destruct (se_txStopped e && _) eqn:E; [|done]. intros [= <-].
    rewrite andb_true_iff, negb_true_iff in E. destruct E. by apply Hup, drained_inv.
  - destruct (se_closer e) as [[err []]|]; [|done..]. intros [= <-].
    apply Hup, closer_none_inv. by apply fail_inv.
  - destruct (se_closer e) as [[err []]|] eqn:Hc; [done| |done]. intros [= <-].
    destruct (ei_closer _ _ HI _ Hc) as (_ & Ht & Hs). unfold closer_sent, finishGracefulClose.
    apply Hup, closer_none_inv. destruct ok; [case_bool_decide|]; by apply fail_inv.
  - intros [= <-]. apply HD, data_intro; [by destruct e|done|apply tx_call_refl].
  - destruct (tx_outside e op) eqn:Ho; [|done].
    destruct (tx_step op (se_txLedger e)) as [tx|] eqn:Htx; [|done]. intros [= <-].
    eapply (data_step_inv n e _ (negb (se_txStopped e))); try done; [by intros ->|].
    apply data_intro; [by destruct e|done|]. apply (tx_call_op _ op); [done..|].
    by destruct op; simpl in Ho |- *.
  - destruct (rtt_outside op) eqn:Ho; [|done]. intros [= <-]. apply Hup.
    change (engine_inv n (e <| se_pathRTTCache := (fun c => rtt_exec c op) <$> se_pathRTTCache e |>)).
    apply cache_upd_inv; [done|]. intros x (c & Hc & ->)%fmap_Some.
    pose proof (ei_cache _ _ HI _ Hc) as HF. eapply cache_fits_same; [exact HF|apply exec_good; [apply HF|done]|].
    apply waters_exec; [apply HF|done..].
  - intros [= <-]. apply HD, tryQueue_data.
  - intros [= <-]. apply HD, tryQueueRescue_data.
  - intros [= <-]. apply HD, dispatch_claim_data.
  - intros E. by eapply HD, dispatch_select_data.
  - intros [= <-]. apply HD, dispatch_finish_data.
  - intros E. by apply HD, (take_send_data _ _ _ E).
  - intros E. by apply HD, (take_rescue_data _ _ _ E).
  - intros E. by apply HD, (writeAttempt_data _ _ _ _ E).
  - intros E. by apply HD, (write_return_data _ _ _ _ E).
  - intros E. destruct (write_commit_data _ _ _ _ _ E) as (e1 & H1%HD & [->| ->]); [done|].
    by apply leg_failure_inv.
Qed.

(** ** Runs *)

Lemma replicate_zero_get n j : default 0 (slice_get (replicate n 0) j) = 0.
Proof.
  unfold slice_get. case_bool_decide; [|done].
  destruct (replicate n 0 !! Z.to_nat j) eqn:E; [|done]. by apply lookup_replicate in E as [-> _].
Qed.

Lemma zero_waters n j : rl_highWater (leg_at (newStreamRTTProbeCacheForLegs n) j) = 0.
Proof.
  rewrite waters_at. unfold waters. simpl. rewrite (fmap_replicate rl_highWater). apply replicate_zero_get.
Qed.

Lemma NewStreamEngine_inv cfg : engine_inv 0 (NewStreamEngine cfg).
Proof.
  unfold NewStreamEngine. destruct (normalizeMaxActiveStreamLegs (cf_MaxActiveLegs cfg)) as [m ce] eqn:Hm.
  assert (1 <= m <= MaxStreamLegIDCount) as Hr.
  { unfold normalizeMaxActiveStreamLegs, DefaultMaxActiveStreamLegs, MaxStreamLegIDCount in *.
    repeat (case_match; simplify_eq); bool_prop; lia. }
  constructor; simpl; try done.
  - apply new_ledger_inv.
  - unfold slen. rewrite length_replicate. lia.
  - intros id. unfold gen_of. cbn [se_legGeneration]. rewrite replicate_zero_get. unfold max_u64. lia.
  - intros c. case_match; [|done]. intros [= <-]. split_and!; [apply new_cache_inv| |].
    + unfold newStreamRTTProbeCacheForLegs. simpl. by rewrite (proj2 (orb_false_iff _ _)) by (rewrite !bool_decide_eq_false; lia).
    + intros id. rewrite zero_waters. unfold gen_of. simpl. rewrite replicate_zero_get. lia.
  - by intros ? ?%not_elem_of_nil.
  - by intros ? ?%not_elem_of_nil.
  - apply NoDup_nil_2.
  - split; [apply NoDup_nil_2|]. by intros ? ?%not_elem_of_nil.
Qed.

Lemma run_inv ops n e e' :
  engine_inv n e -> Forall lop_wf ops -> n + Z.of_nat (length ops) <= max_u64 ->
  leg_run ops e = Some e' -> engine_inv (n + Z.of_nat (length ops)) e'.
Proof.
  revert n e. induction ops as [|op ops IH]; intros n e HI Hwf Hn; simpl in *.
  - intros [= <-]. by rewrite Z.add_0_r.
  - apply Forall_cons in Hwf as [H1 H2]. intros E. apply bind_Some in E as (e1 & Hop & E).
    assert (engine_inv (n + 1) e1) as HI1 by (eapply step_inv; [done|lia|done..]).
    specialize (IH _ _ HI1 H2). replace (n + Z.of_nat (S (length ops))) with (n + 1 + Z.of_nat (length ops)) by lia.
    apply IH; [lia|done].
Qed.
