(* ===== verification/LegPath.v ===== *)
(** * No record is stranded on a leg

    A record that the ledger shows in transit is not planned for a retry, so the
    engine must never leave that mark behind when the attempt it stands for is gone.
    The invariant here says that every such mark is backed by something: a
    [tryQueue] call that will take it back or hand it over, or an attempt queued at,
    or held by the writer of, a leg whose failure has not yet been reported to the
    ledger. *)

From S2P Require Import Prelude Bytes Wire Hello PathProtocol RxWindow TxLedger TxInv TxQueue TxLane Repair RttCache Legs LegsInv.
From stdpp Require Import options.
#[local] Open Scope Z_scope.

(** ** Invariant *)

Definition is_attempt (q : ptr) (b : bool) (t : time) (a : txSendAttempt) : Prop :=
  sa_record a = q /\ sa_rescue a = b /\ sa_started a = t.

Definition queued (l : streamLeg) (a : txSendAttempt) : Prop :=
  a ∈ sl_send l \/ a ∈ sl_rescue l \/ a ∈ sl_hand l.

Definition in_dispatch (l : streamLeg) (s : dispatch_stage) (q : ptr) (b : bool) (t : time) : Prop :=
  exists d, d ∈ sl_dispatch l /\ dp_stage d = s /\ is_attempt q b t (dp_attempt d).

(** The leg is registered, or its failure is still to be reported to the ledger. *)
Definition uninvalidated (e : StreamEngine) (p : lptr) (l : streamLeg) : Prop :=
  se_legs e !! sl_id l = Some p \/ must_invalidate e p = true.

Definition carried_by (e : StreamEngine) (p : lptr) (l : streamLeg) (q : ptr) (b : bool) (t : time)
  : Prop :=
  in_dispatch l Claimed q b t \/
  (exists a, queued l a /\ is_attempt q b t a) /\ (uninvalidated e p l \/ in_dispatch l Pushed q b t).

Record path_inv (e : StreamEngine) : Prop := {
  pv_carried : forall q b id t, lane (se_txLedger e) q b = Some (id, t) ->
    exists p l, se_heap e !! p = Some l /\ sl_id l = id /\ carried_by e p l q b t;
  pv_open : forall p l, se_heap e !! p = Some l -> sl_dispatch l <> [] -> sl_closed l = false ->
    se_legs e !! sl_id l = Some p
}.

(** ** Steps that leave the queues alone *)

Definition same_queues (l l' : streamLeg) : Prop :=
  sl_id l' = sl_id l /\ sl_dispatch l' = sl_dispatch l /\ sl_send l' = sl_send l /\
  sl_rescue l' = sl_rescue l /\ sl_hand l' = sl_hand l.

Lemma path_general e e' :
  path_inv e -> lanes_shrink (se_txLedger e) (se_txLedger e') ->
  (forall p l, se_heap e !! p = Some l -> exists l', se_heap e' !! p = Some l' /\ same_queues l l' /\
     ((exists q b t, lane (se_txLedger e') q b = Some (sl_id l, t)) ->
      uninvalidated e p l -> uninvalidated e' p l')) ->
  (forall p l, se_heap e' !! p = Some l -> sl_dispatch l <> [] -> sl_closed l = false ->
    se_legs e' !! sl_id l = Some p) ->
  path_inv e'.
Proof.
  intros HP HL HH HO. constructor; [|done]. intros q b id t Hl.
  destruct (pv_carried _ HP q b id t (HL _ _ _ Hl)) as (p & l & Hp & Hid & HC).
  destruct (HH _ _ Hp) as (l' & Hp' & (Q1 & Q2 & Q3 & Q4 & Q5) & HU). exists p, l'.
  split_and!; [done|by rewrite Q1|]. revert HC. unfold carried_by, in_dispatch, queued.
  rewrite Q2, Q3, Q4, Q5. intros [HC|[HC [HC2|HC2]]]; [by left| |by right; auto].
  right. split; [done|]. left. apply HU; [|done]. exists q, b, t. by rewrite Hid.
Qed.

(** The registry is the same too. *)
Lemma path_frame e e' :
  path_inv e -> lanes_shrink (se_txLedger e) (se_txLedger e') ->
  se_heap e' = se_heap e -> se_legs e' = se_legs e ->
  (forall p, must_invalidate e p = true -> must_invalidate e' p = true) -> path_inv e'.
Proof.
  intros HP HL EH EL HM. apply (path_general e); [done..| |].
  - intros p l Hp. exists l. rewrite EH. split_and!; [done|done|]. unfold uninvalidated. rewrite EL.
    intros _ [?|?]; auto.
  - rewrite EH, EL. apply HP.
Qed.

(** One leg changes outside its queues. *)
Lemma path_leg e e' p f :
  path_inv e -> se_txLedger e' = se_txLedger e -> se_heap e' = alter f p (se_heap e) ->
  (forall l, se_heap e !! p = Some l ->
    same_queues l (f l) /\ (sl_closed l = true -> sl_closed (f l) = true) /\
    (uninvalidated e p l -> uninvalidated e' p (f l)) /\
    (sl_closed (f l) = false -> se_legs e !! sl_id l = Some p -> se_legs e' !! sl_id l = Some p)) ->
  (forall q m, q <> p -> se_heap e !! q = Some m -> uninvalidated e q m -> uninvalidated e' q m) ->
  (forall q m, q <> p -> se_heap e !! q = Some m -> se_legs e !! sl_id m = Some q -> se_legs e' !! sl_id m = Some q) ->
  path_inv e'.
Proof.
  intros HP ET EH HF HU HR. apply (path_general e); [done|rewrite ET; apply shrink_refl| |].
  - intros q m Hm. rewrite EH. destruct (decide (p = q)) as [<-|Hne].
    + exists (f m). rewrite lookup_alter_eq, Hm. destruct (HF _ Hm) as (? & ? & ? & ?). auto.
    + exists m. rewrite lookup_alter_ne by done. split_and!; [done|done|]. intros _. by apply HU.
  - intros q m' Hm'. rewrite EH in Hm'. destruct (decide (p = q)) as [<-|Hne].
    + rewrite lookup_alter_eq in Hm'. destruct (se_heap e !! p) as [m|] eqn:Hm; [|done].
      injection Hm' as <-. destruct (HF _ eq_refl) as ((Q1 & Q2 & _) & HC & _ & HG). rewrite Q1, Q2.
      intros Hd Hc. apply HG; [done|]. apply (pv_open _ HP _ _ Hm Hd).
      destruct (sl_closed m); [|done]. rewrite HC in Hc; done.
    + rewrite lookup_alter_ne in Hm' by done. intros Hd Hc. apply HR; [done|done|].
      by apply (pv_open _ HP).
Qed.

Lemma must_app e p f :
  existsb (fun x => bool_decide (fl_leg x = p) && bool_decide (fl_stage x = MustInvalidate)) (se_failing e ++ [f])
  = must_invalidate e p || bool_decide (fl_leg f = p) && bool_decide (fl_stage f = MustInvalidate).
Proof. unfold must_invalidate. rewrite existsb_app. simpl. by rewrite orb_false_r. Qed.

Lemma path_fail e p err : path_inv e -> path_inv (handleLegFailure e p err).
Proof.
  intros HP. destruct (se_heap e !! p) as [l|] eqn:Hl; [|unfold handleLegFailure; by rewrite Hl].
  rewrite (handleLegFailure_unfold _ _ _ _ Hl). cbv zeta.
  assert (forall x, failure_close e p l err = x -> se_txLedger x = se_txLedger e /\
    se_heap x = alter (leg_close err) p (se_heap e) /\ se_legs x = se_legs e /\ se_failing x = se_failing e) as HX.
  { intros x <-. unfold failure_close. by destruct (sl_pathRTTEnabled l). }
  destruct (HX _ eq_refl) as (X1 & X2 & X3 & X4). set (e1 := failure_close e p l err) in *. clearbody e1. clear HX.
  assert (forall m, same_queues m (leg_close err m)) as HS.
  { intros m. unfold leg_close. by destruct (sl_closed m). }
  assert (forall q m, uninvalidated e q m -> uninvalidated e1 q (leg_close err m)) as HU1.
  { intros q m. unfold uninvalidated, must_invalidate. destruct (leg_close_id err m) as (-> & _). by rewrite X3, X4. }
  case_bool_decide as Hreg.
  - eapply (path_leg e _ p (leg_close err)); [done|done|done| | |].
    + intros m Hm. rewrite Hl in Hm. injection Hm as <-. split; [done|]. rewrite closed_leg.
      split_and!; [done| |done]. intros _. right. unfold must_invalidate. simpl. rewrite must_app. simpl.
      rewrite !(bool_decide_eq_true_2 _) by done. by rewrite orb_true_r.
    + intros q m Hne Hm [HU|HU].
      * left. simpl. rewrite lookup_delete_ne; [by rewrite X3|]. intros E. rewrite <- E in HU. rewrite X3 in Hreg. congruence.
      * right. unfold must_invalidate. simpl. rewrite must_app. unfold must_invalidate in *. rewrite X4, HU. done.
    + intros q m Hne Hm HU. simpl. rewrite lookup_delete_ne; [by rewrite X3|].
      intros E. rewrite <- E in HU. rewrite X3 in Hreg. congruence.
  - eapply (path_leg e _ p (leg_close err)); [done|done|done| | |].
    + intros m Hm. split; [done|]. rewrite closed_leg. split_and!; [done|by apply HU1|done].
    + intros q m Hne Hm. unfold uninvalidated, must_invalidate. by rewrite X3, X4.
    + intros q m _ _. by rewrite X3.
Qed.

(** ** Steps on the queues of one leg *)

(** The ledger and leg [p] change; the rest of the engine does not. *)
Lemma path_data e e' p l l' :
  path_inv e -> se_heap e !! p = Some l -> se_heap e' = <[p := l']> (se_heap e) ->
  se_legs e' = se_legs e -> se_failing e' = se_failing e ->
  sl_id l' = sl_id l -> sl_closed l' = sl_closed l ->
  (sl_dispatch l' <> [] -> sl_closed l = false -> se_legs e !! sl_id l = Some p) ->
  (forall q b id t, lane (se_txLedger e') q b = Some (id, t) ->
     lane (se_txLedger e) q b = Some (id, t) /\
       (id = sl_id l -> carried_by e p l q b t -> carried_by e p l' q b t) \/
     id = sl_id l /\ carried_by e p l' q b t) ->
  path_inv e'.
Proof.
  intros HP Hl EH EL EF Eid Ecl HO HC.
  assert (forall q m b x t, carried_by e q m b x t -> carried_by e' q m b x t) as HE.
  { intros q m b x t. unfold carried_by, uninvalidated, must_invalidate. by rewrite EL, EF. }
  constructor.
  - intros q b id t Hlane. rewrite EH. destruct (HC _ _ _ _ Hlane) as [[Hold Hkeep]|[Hid Hnew]].
    + destruct (pv_carried _ HP _ _ _ _ Hold) as (p2 & m & Hm & Hid & HCm).
      destruct (decide (p = p2)) as [<-|Hne].
      * exists p, l'. rewrite lookup_insert_eq. simplify_eq.
        split_and!; [done|done|]. by apply HE, Hkeep.
      * exists p2, m. rewrite lookup_insert_ne by done. split_and!; [done..|]. by apply HE.
    + exists p, l'. rewrite lookup_insert_eq. split_and!; [done|by rewrite Eid|]. by apply HE.
  - intros q m. rewrite EH, EL. intros [[<- <-]|[Hne Hm]]%lookup_insert_Some.
    + rewrite Eid, Ecl. done.
    + by apply (pv_open _ HP).
Qed.

Lemma alter_insert_leg (h : gmap lptr streamLeg) p f l : h !! p = Some l -> alter f p h = <[p := f l]> h.
Proof.
  intros Hl. apply map_eq. intros q. destruct (decide (p = q)) as [<-|Hne].
  - by rewrite lookup_alter_eq, lookup_insert_eq, Hl.
  - by rewrite lookup_alter_ne, lookup_insert_ne.
Qed.

Lemma elem_delete {A} (ds : list A) k x d : ds !! k = Some x -> d ∈ ds -> d = x \/ d ∈ delete k ds.
Proof. intros Hk Hd. rewrite (delete_Permutation _ _ _ Hk) in Hd. by apply elem_of_cons in Hd. Qed.

Lemma elem_insert {A} (ds : list A) k x y d : ds !! k = Some x -> d ∈ ds -> d = x \/ d ∈ <[k := y]> ds.
Proof.
  intros Hk Hd. apply list_elem_of_lookup in Hd as [i Hi]. destruct (decide (i = k)) as [->|Hne].
  - left. congruence.
  - right. apply (list_elem_of_lookup_2 _ i). by rewrite list_lookup_insert_ne.
Qed.

Lemma elem_inserted {A} (ds : list A) k x y : ds !! k = Some x -> y ∈ <[k := y]> ds.
Proof. intros Hk. apply (list_elem_of_lookup_2 _ k), list_lookup_insert_eq. by apply lookup_lt_Some in Hk. Qed.

(** An attempt that is taken off its lane needs no carrier any more. *)
Lemma dispatch_other l k d0 s q b t :
  sl_dispatch l !! k = Some d0 -> in_dispatch l s q b t ->
  (dp_stage d0 = s -> ~ is_attempt q b t (dp_attempt d0)) ->
  exists d, d ∈ delete k (sl_dispatch l) /\ dp_stage d = s /\ is_attempt q b t (dp_attempt d).
Proof.
  intros Hk (d & Hd & Hs & Ha) Hno. destruct (elem_delete _ _ _ _ Hk Hd) as [->|Hin]; [by exfalso; apply Hno|].
  by exists d.
Qed.

(** Give up the claim of dispatch [k]. *)
Lemma path_give_up e e' p l k d0 :
  path_inv e -> se_heap e !! p = Some l -> sl_dispatch l !! k = Some d0 ->
  se_heap e' = alter (fun l => l <| sl_dispatch ::= delete k |>) p (se_heap e) ->
  se_legs e' = se_legs e -> se_failing e' = se_failing e ->
  se_txLedger e' = clearAttemptAt (se_txLedger e) (Some (sa_record (dp_attempt d0))) (sl_id l)
    (sa_rescue (dp_attempt d0)) (sa_started (dp_attempt d0)) ->
  path_inv e'.
Proof.
  intros HP Hl Hk EH EL EF ET. rewrite (alter_insert_leg _ _ _ _ Hl) in EH.
  eapply path_data; [exact HP|exact Hl|exact EH|done..| |].
  - intros Hd. apply (pv_open _ HP _ _ Hl). intros E. by rewrite E in Hk.
  - intros q b id t. rewrite ET. intros [Hlane Hno]%clear_lane. left. split; [done|].
    intros -> [HC|[HC HU]].
    + left. destruct (dispatch_other _ _ _ _ _ _ _ Hk HC) as (d & H1 & H2 & H3).
      { intros _ (A1 & A2 & A3). by apply Hno. }
      by exists d.
    + right. split; [done|]. destruct HU as [HU|HU]; [by left|right].
      destruct (dispatch_other _ _ _ _ _ _ _ Hk HU) as (d & H1 & H2 & H3).
      { intros _ (A1 & A2 & A3). by apply Hno. }
      by exists d.
Qed.

(** A dispatch enters, or leaves without a claim. *)
Lemma path_dispatch e e' p l ds :
  path_inv e -> se_heap e !! p = Some l ->
  se_heap e' = alter (fun l => l <| sl_dispatch := ds |>) p (se_heap e) ->
  se_legs e' = se_legs e -> se_failing e' = se_failing e ->
  lanes_shrink (se_txLedger e) (se_txLedger e') ->
  (ds <> [] -> sl_closed l = false -> se_legs e !! sl_id l = Some p) ->
  (forall d, d ∈ sl_dispatch l -> dp_stage d <> Checked -> d ∈ ds) ->
  path_inv e'.
Proof.
  intros HP Hl EH EL EF HL HO HD. rewrite (alter_insert_leg _ _ _ _ Hl) in EH.
  eapply path_data; [exact HP|exact Hl|exact EH|done..| |]; [done|].
  intros q b id t Hlane. left. split; [by apply HL|]. intros _.
  assert (forall s, s <> Checked -> in_dispatch l s q b t -> in_dispatch (l <| sl_dispatch := ds |>) s q b t) as HS.
  { intros s Hs (d & Hd & E & Ha). exists d. split; [|done]. apply HD; [done|congruence]. }
  intros [HC|[HC [HU|HU]]]; [left|right|right]; auto.
Qed.

Lemma open_registered n e p l : engine_inv n e -> se_heap e !! p = Some l -> open_leg l = true ->
  se_legs e !! sl_id l = Some p.
Proof.
  intros HI Hl Ho. destruct (lp_where _ _ _ (ei_placed _ _ HI _ _ Hl)) as [H|[H|(_ & _ & H)]]; [done| |congruence].
  destruct (ei_retiring _ _ HI _ _ H) as (l2 & Hl2 & _ & Hc & _). simplify_eq. congruence.
Qed.

(** ** Every step *)

Lemma path_queue n e p a owner :
  engine_inv n e -> path_inv e ->
  path_inv (match se_heap e !! p with
            | Some l => if open_leg l
                        then upd_leg p (fun l => l <| sl_dispatch ::= fun ds => ds ++ [MkDispatch Checked a owner] |>) e
                        else e
            | None => e
            end).
Proof.
  intros HI HP. destruct (se_heap e !! p) as [l|] eqn:Hl; [|done]. destruct (open_leg l) eqn:Ho; [|done].
  eapply (path_dispatch e _ p l (sl_dispatch l ++ [MkDispatch Checked a owner])); [done|done| |done|done|apply shrink_refl| |].
  - simpl. rewrite !(alter_insert_leg _ _ _ _ Hl). done.
  - intros _ _. by eapply open_registered.
  - intros d Hd _. apply elem_of_app. by left.
Qed.

Lemma claim_lane tx a id owner now q b x :
  lane (claim_tx tx a id owner now).2 q b = Some x ->
  lane tx q b = Some x \/
  (claim_tx tx a id owner now).1 = true /\ q = sa_record a /\ b = sa_rescue a /\ x = (id, now).
Proof.
  unfold claim_tx. destruct (sa_rescue a).
  - case_bool_decide.
    + pose proof (restricted_lane tx (sa_record a) id owner now q b x) as H'.
      destruct (MarkRestrictedRescueTransit _ _ _ _ _) as [[? ?] ?]. exact H'.
    + pose proof (markRescue_lane tx (sa_record a) id now q b x) as H'.
      unfold MarkRescueTransit. destruct (markRescueTransitLocked _ _ _ _) as [[? ?] ?]. exact H'.
  - apply MarkTransit_lane.
Qed.

Lemma path_claim e p k now : path_inv e -> path_inv (dispatch_claim e p k now).
Proof.
  intros HP. unfold dispatch_claim. destruct (se_heap e !! p) as [l|] eqn:Hl; [|done]. simpl.
  destruct (sl_dispatch l !! k) as [[[] a owner]|] eqn:Hk; simpl; try done.
  fold (claim_tx (se_txLedger e) a (sl_id l) owner now).
  pose proof (fun q b x => claim_lane (se_txLedger e) a (sl_id l) owner now q b x) as HC.
  assert (sl_dispatch l <> []) as Hne by (intros E; by rewrite E in Hk).
  destruct (claim_tx _ _ _ _ _) as [ok tx]. simpl in HC. destruct ok.
  - set (a' := MkSend (sa_record a) (sa_rescue a) (sa_ordinary a) now).
    set (l' := l <| sl_dispatch ::= <[k := MkDispatch Claimed a' owner]> |>).
    eapply (path_data e _ p l l'); [done|done|simpl; by rewrite (alter_insert_leg _ _ _ _ Hl)|done..| |].
    + intros _. by apply (pv_open _ HP).
    + simpl. intros q b id t [Hold|(_ & -> & -> & [= -> ->])]%HC.
      * left. split; [done|]. intros _.
        assert (forall s, s <> Checked -> in_dispatch l s q b t -> in_dispatch l' s q b t) as HS.
        { intros s Hs (d & Hd & Es & Ha). exists d. split; [|done]. simpl.
          destruct (elem_insert _ _ _ (MkDispatch Claimed a' owner) _ Hk Hd) as [->|]; [|done]. simpl in Es. congruence. }
        intros [HX|[HX [HU|HU]]]; [left|right|right]; auto.
      * right. split; [done|]. left. exists (MkDispatch Claimed a' owner). simpl.
        split_and!; [by eapply elem_inserted|done|by repeat split].
  - eapply (path_dispatch e _ p l (delete k (sl_dispatch l))); [done|done| |done|done| | |].
    + simpl. rewrite !(alter_insert_leg _ _ _ _ Hl). done.
    + intros q b x Hx. by destruct (HC q b x Hx) as [|[? _]].
    + intros _. by apply (pv_open _ HP).
    + intros d Hd Hs. destruct (elem_delete _ _ _ _ Hk Hd) as [->|]; done.
Qed.

Lemma path_select e p k c e' : path_inv e -> dispatch_select e p k c = Some e' -> path_inv e'.
Proof.
  intros HP. unfold dispatch_select. destruct (se_heap e !! p) as [l|] eqn:Hl; [|done]. simpl.
  destruct (sl_dispatch l !! k) as [[stage a owner]|] eqn:Hk; [|done]. simpl.
  case_bool_decide as Hst; [done|]. subst stage.
  assert (sl_dispatch l <> []) as Hne by (intros E; by rewrite E in Hk).
  destruct c.
  - destruct (sl_closed l); intros [= <-]. by eapply path_give_up.
  - destruct (send_full e l (sa_rescue a)); [done|].
    set (l' := (push_attempt a l) <| sl_dispatch ::= <[k := MkDispatch Pushed a owner]> |>).
    assert (forall x, queued l x -> queued l' x) as HQ.
    { intros x. unfold l', push_attempt, queued. destruct (sa_rescue a); simpl; rewrite elem_of_app; tauto. }
    assert (queued l' a) as HQa.
    { unfold l', push_attempt, queued. destruct (sa_rescue a); simpl; rewrite elem_of_app; [right; left|left]; right; left. }
    assert (sl_dispatch l' = <[k := MkDispatch Pushed a owner]> (sl_dispatch l) /\ sl_id l' = sl_id l /\
      sl_closed l' = sl_closed l) as (ED & Eid & Ecl) by (unfold l', push_attempt; by destruct (sa_rescue a)).
    assert (forall x, x ∈ sl_dispatch l -> x = MkDispatch Claimed a owner \/ x ∈ sl_dispatch l') as HD.
    { intros x Hx. rewrite ED. by eapply elem_insert. }
    assert (forall e2 tx, se_heap e2 = <[p := l']> (se_heap e) -> se_legs e2 = se_legs e ->
      se_failing e2 = se_failing e -> se_txLedger e2 = tx -> lanes_shrink (se_txLedger e) tx -> path_inv e2) as HX.
    { intros e2 tx E1 E2 E3 E4 HS. eapply (path_data e e2 p l l'); [done..| |].
      - intros _. by apply (pv_open _ HP).
      - intros q b id t. rewrite E4. intros Hlane%HS. left. split; [done|]. intros _ [(d & Hd & Es & Ha)|[(x & Hx & Ha) HU]].
        + destruct (HD _ Hd) as [->|Hin]; [|left; by exists d]. right. split; [by exists a|]. right.
          exists (MkDispatch Pushed a owner). rewrite ED. split; [by eapply elem_inserted|done].
        + right. split; [exists x; by auto|]. destruct HU as [HU|(d & Hd & Es & Hd2)].
          * left. unfold uninvalidated in *. by rewrite Eid.
          * right. exists d. destruct (HD _ Hd) as [->|Hin]; done. }
    assert (se_heap (upd_leg p (fun l => (push_attempt a l) <| sl_dispatch ::= <[k := MkDispatch Pushed a owner]> |>) e)
      = <[p := l']> (se_heap e)) as EH by (simpl; by rewrite (alter_insert_leg _ _ _ _ Hl)).
    destruct (sa_rescue a).
    + intros [= <-]. by eapply HX; [exact EH|done..|apply MarkRescueQueued_shrink].
    + destruct (sa_ordinary a && cf_slowLegProtection (se_cfg e)).
      * intros E. apply bind_Some in E as (tx & Htx & [= <-]).
        eapply HX; [exact EH|done..|]. by eapply markOrdinaryAdmitted_shrink.
      * intros [= <-]. by eapply HX; [exact EH|done..|apply shrink_refl].
  - destruct (sl_closed l || negb (send_full e l (sa_rescue a))); intros [= <-].
    destruct (negb (sa_rescue a) && negb (se_active e) && bool_decide (legCount e = 1)); by eapply path_give_up.
Qed.

Lemma path_finish e p k : path_inv e -> path_inv (dispatch_finish e p k).
Proof.
  intros HP. unfold dispatch_finish. destruct (se_heap e !! p) as [l|] eqn:Hl; [|done]. simpl.
  destruct (sl_dispatch l !! k) as [[[] a owner]|] eqn:Hk; simpl; try done.
  assert (sl_dispatch l <> []) as Hne by (intros E; by rewrite E in Hk).
  destruct (sl_closed l) eqn:Hc; [by eapply path_give_up|].
  pose proof (pv_open _ HP _ _ Hl Hne Hc) as Hreg.
  set (l' := l <| sl_dispatch ::= delete k |>).
  eapply (path_data e _ p l l'); [done|done|simpl; by rewrite (alter_insert_leg _ _ _ _ Hl)|done..|done|].
  intros q b id t Hlane. left. split; [done|]. intros _ [HC|[HC _]].
  - left. destruct (dispatch_other _ _ _ _ _ _ _ Hk HC) as (d & H1 & H2 & H3); [done|]. by exists d.
  - right. split; [done|]. left. by left.
Qed.

(** The writer moves, or drops, attempts it holds. *)
Lemma path_writer e e' p l l' :
  path_inv e -> se_heap e !! p = Some l -> se_heap e' = <[p := l']> (se_heap e) ->
  se_legs e' = se_legs e -> se_failing e' = se_failing e ->
  sl_id l' = sl_id l -> sl_closed l' = sl_closed l -> sl_dispatch l' = sl_dispatch l ->
  (forall q b id t, lane (se_txLedger e') q b = Some (id, t) ->
     lane (se_txLedger e) q b = Some (id, t) /\
     forall a, id = sl_id l -> is_attempt q b t a -> queued l a -> queued l' a) ->
  path_inv e'.
Proof.
  intros HP Hl EH EL EF Eid Ecl ED HQ. eapply (path_data e e' p l l'); [done..| |].
  - rewrite ED. apply (pv_open _ HP _ _ Hl).
  - intros q b id t [Hlane HA]%HQ. left. split; [done|]. unfold carried_by, in_dispatch, uninvalidated.
    rewrite ED, Eid. intros E [HC|[(a & Ha & Hi) HU]]; [by left|]. right. split; [|done]. exists a. auto.
Qed.

Lemma path_take_send e p e' : path_inv e -> take_send e p = Some e' -> path_inv e'.
Proof.
  intros HP. unfold take_send. destruct (se_heap e !! p) as [l|] eqn:Hl; [|done]. simpl.
  destruct (sl_hand l) eqn:Hh; [|done]. destruct (sl_send l) as [|a send] eqn:Hs; [done|]. intros [= <-].
  eapply (path_writer e _ p l); [done|done|simpl; apply (alter_insert_leg _ _ _ _ Hl)|done..|].
  intros q b id t Hlane. split; [done|]. intros x _ _. unfold queued. simpl. rewrite Hs, Hh.
  rewrite elem_of_cons, list_elem_of_singleton. intros [[->|?]|[?|?%not_elem_of_nil]]; [by right; right|by left|by right; left|done].
Qed.

Lemma path_take_rescue e p e' : path_inv e -> take_rescue e p = Some e' -> path_inv e'.
Proof.
  intros HP. unfold take_rescue. destruct (se_heap e !! p) as [l|] eqn:Hl; [|done]. simpl.
  destruct (sl_rescue l) as [|a rescue] eqn:Hs; [done|]. case_match; [done|]. intros [= <-].
  eapply (path_writer e _ p l); [done|done|simpl; apply (alter_insert_leg _ _ _ _ Hl)|done..|].
  intros q b id t Hlane. split; [done|]. intros x _ _. unfold queued. simpl. rewrite Hs, !elem_of_cons.
  intros [?|[[->|?]|?]]; auto.
Qed.

Lemma path_write e p now e' : path_inv e -> writeAttempt e p now = Some e' -> path_inv e'.
Proof.
  intros HP. unfold writeAttempt. destruct (se_heap e !! p) as [l|] eqn:Hl; [|done]. simpl.
  destruct (sl_hand l) as [|a hand] eqn:Hh; [done|]. case_bool_decide; [done|].
  destruct (AttemptCurrent _ _ _ _) eqn:HA; intros [= <-].
  - eapply (path_writer e _ p l); [done|done|simpl; apply (alter_insert_leg _ _ _ _ Hl)|done..|].
    intros q b id t Hlane. split; [|done].
    exact (markWriteStarted_shrink _ _ _ _ _ _ _ _ Hlane).
  - eapply (path_writer e _ p l); [done|done|simpl; apply (alter_insert_leg _ _ _ _ Hl)|done..|].
    intros q b id t Hlane. split; [done|]. intros x -> Hx. unfold queued. simpl. rewrite Hh, elem_of_cons.
    intros [?|[?|[->|?]]]; auto. exfalso. destruct Hx as (E1 & E2 & E3). simpl in Hlane.
    assert (AttemptCurrent (se_txLedger e) (Some (sa_record a)) (sl_id l) (sa_rescue a) = true) as HT; [|congruence].
    apply AttemptCurrent_lane. exists t. by rewrite E1, E2.
Qed.

Lemma path_return e p ok e' : path_inv e -> write_return e p ok = Some e' -> path_inv e'.
Proof.
  intros HP. unfold write_return. destruct (se_heap e !! p) as [l|] eqn:Hl; [|done]. simpl.
  case_bool_decide; [done|]. intros [= <-].
  eapply (path_writer e _ p l); [done|done|simpl; apply (alter_insert_leg _ _ _ _ Hl)|done..|]. done.
Qed.

Lemma path_commit e p now err e' : path_inv e -> write_commit e p now err = Some e' -> path_inv e'.
Proof.
  intros HP. unfold write_commit. destruct (se_heap e !! p) as [l|] eqn:Hl; [|done]. simpl.
  destruct (sl_writer l) as [| |ok]; [done..|]. destruct (sl_hand l) as [|a hand] eqn:Hh; [done|].
  destruct ok; intros [= <-]; [|apply path_fail].
  - eapply (path_writer e _ p l); [done|done|simpl; apply (alter_insert_leg _ _ _ _ Hl)|done..|].
    intros q b id t [Hlane Hno]%sent_lane. split; [done|]. intros x -> Hx. unfold queued. simpl.
    rewrite Hh, elem_of_cons. intros [?|[?|[->|?]]]; auto. exfalso. destruct Hx as (E1 & E2 & E3). by apply Hno.
  - eapply (path_writer e _ p l); [done|done|simpl; apply (alter_insert_leg _ _ _ _ Hl)|done..|].
    intros q b id t [Hlane Hno]%clear_lane. split; [done|]. intros x -> Hx. unfold queued. simpl.
    rewrite Hh, elem_of_cons. intros [?|[?|[->|?]]]; auto. exfalso. destruct Hx as (E1 & E2 & E3). by apply Hno.
Qed.

Lemma outside_shrink e op l l' :
  ledger_inv l -> tx_outside e op = true -> tx_step op l = Some l' -> lanes_shrink l l'.
Proof.
  intros HI Ho. destruct op; try discriminate Ho; unfold tx_step.
  - intros <-%(inj Some). by apply add_shrink.
  - intros <-%(inj Some). apply finishLocal_shrink.
  - intros E. apply fmap_Some in E as ([ok x] & E & ->). by eapply assignOrdinary_shrink.
  - apply markOrdinaryAdmitted_shrink.
  - intros <-%(inj Some). apply setOrigin_shrink.
  - intros E. apply fmap_Some in E as ([ok x] & E & ->). by eapply ApplyACK_shrink.
  - intros <-%(inj Some). by apply same_shrink.
Qed.

Lemma attach_cases e id auth prior clock :
  let e' := (attachLeg e id auth prior clock).2 in
  se_txLedger e' = se_txLedger e /\ se_failing e' = se_failing e /\ se_retiring e' = se_retiring e /\
  (se_heap e' = se_heap e /\ se_legs e' = se_legs e \/
   exists l, se_heap e' = <[se_fresh e := l]> (se_heap e) /\ se_legs e' = <[sl_id l := se_fresh e]> (se_legs e) /\
     se_legs e !! sl_id l = None /\ sl_dispatch l = [] /\ sl_closed l = false /\ sl_draining l = false /\
     attachLeg e id auth prior clock = (Attached (se_fresh e), e')).
Proof.
  assert (forall e1 l, se_txLedger e1 = se_txLedger e -> se_failing e1 = se_failing e ->
    se_retiring e1 = se_retiring e -> se_heap e1 = se_heap e ->
    se_legs e1 = se_legs e -> se_fresh e1 = se_fresh e -> se_legs e !! sl_id l = None -> sl_dispatch l = [] ->
    sl_closed l = false -> sl_draining l = false ->
    let e' := (attach_install e1 l).2 in
    se_txLedger e' = se_txLedger e /\ se_failing e' = se_failing e /\ se_retiring e' = se_retiring e /\
    (se_heap e' = se_heap e /\ se_legs e' = se_legs e \/
     exists m, se_heap e' = <[se_fresh e := m]> (se_heap e) /\ se_legs e' = <[sl_id m := se_fresh e]> (se_legs e) /\
       se_legs e !! sl_id m = None /\ sl_dispatch m = [] /\ sl_closed m = false /\ sl_draining m = false /\
       attach_install e1 l = (Attached (se_fresh e), e'))) as HA.
  { intros e1 l E1 E2 E3 E4 E5 E6 HN HD HC HG. cbn. rewrite E1, E2, E3, E4, E5, E6. split_and!; [done..|]. right.
    exists l. split_and!; try done. unfold attach_install. by rewrite E6. }
  assert (forall id g au cl b i e1, attach_path e id g au cl = Ok (b, i, e1) ->
    se_txLedger e1 = se_txLedger e /\ se_failing e1 = se_failing e /\ se_retiring e1 = se_retiring e /\ se_heap e1 = se_heap e /\
    se_legs e1 = se_legs e /\ se_fresh e1 = se_fresh e) as HP.
  { intros *. unfold attach_path. repeat (case_match; try done). by intros [= <- <- <-]. }
  assert (forall x au e1, attach_drain x au = Ok e1 -> e1 = x <| se_drainSession := Some (au_sessionID au) |>) as HD.
  { intros *. unfold attach_drain. repeat (case_match; try done). by intros [= <-]. }
  cbv zeta. unfold attachLeg. destruct (se_configError e); [by auto 10|]. case_bool_decide; [by auto 10|].
  destruct (se_finalizing e || se_done e); [by auto 10|].
  destruct (se_legs e !! id) eqn:El; [by destruct (se_retiring e !! id); auto 10|].
  destruct (se_retiring e !! id); [by auto 10|]. case_bool_decide; [by auto 10|].
  destruct auth as [auth|].
  2:{ by apply HA. }
  destruct (_ && _); [by auto 10|].
  assert (exists r, (if PathRTTEnabled auth then attach_path e id (default 0 (slice_get (se_legGeneration e) id) + 1) auth clock
     else Ok (zero_binding, zero_identity, e)) = r /\ match r with Ok (b, i, e1) =>
       se_txLedger e1 = se_txLedger e /\ se_failing e1 = se_failing e /\ se_retiring e1 = se_retiring e /\ se_heap e1 = se_heap e /\
       se_legs e1 = se_legs e /\ se_fresh e1 = se_fresh e | Err _ => True end) as (r & -> & Hr).
  { eexists. split; [reflexivity|]. destruct (PathRTTEnabled auth); [|done].
    destruct (attach_path _ _ _ _ _) as [[[b i] e1]|] eqn:E; [by eapply HP|done]. }
  destruct r as [[[b i] e1]|err]; [|by auto 10]. destruct Hr as (R1 & R2 & R3 & R4 & R5 & R6).
  destruct (CoordinatedDrainEnabled auth).
  - destruct (attach_drain e1 auth) as [e2|err] eqn:Ed; [|by simpl; auto 10].
    apply HD in Ed. subst e2. by apply HA.
  - by apply HA.
Qed.

Lemma path_attach n e id auth prior clock :
  engine_inv n e -> path_inv e -> path_inv (attachLeg e id auth prior clock).2.
Proof.
  intros HI HP. destruct (attach_cases e id auth prior clock) as (ET & EF & _ & [[EH EL]|(l & EH & EL & HN & HD & _)]).
  - apply (path_frame e); [done|rewrite ET; apply shrink_refl|done|done|]. unfold must_invalidate. by rewrite EF.
  - assert (forall p m, se_heap e !! p = Some m -> p <> se_fresh e) as Hfr.
    { intros p m Hm. destruct (ei_placed _ _ HI _ _ Hm). lia. }
    assert (forall p m, se_heap e !! p = Some m -> se_legs e !! sl_id m = Some p ->
      se_legs (attachLeg e id auth prior clock).2 !! sl_id m = Some p) as HR.
    { intros p m Hm Hreg. rewrite EL, lookup_insert_ne; [done|]. intros E. rewrite <- E in Hreg. congruence. }
    apply (path_general e); [done|rewrite ET; apply shrink_refl| |].
    + intros p m Hm. exists m. rewrite EH, lookup_insert_ne by (intros E; by apply (Hfr _ _ Hm)).
      split_and!; [done|done|]. intros _ [HU|HU]; [left; by apply HR|right].
      unfold must_invalidate in *. by rewrite EF.
    + intros p m. rewrite EH. intros [[<- <-]|[Hne Hm]]%lookup_insert_Some; [by rewrite HD|].
      intros Hd Hc. apply HR; [done|]. by apply (pv_open _ HP).
Qed.

Lemma path_invalidate n e k f :
  engine_inv n e -> path_inv e -> se_failing e !! k = Some f ->
  path_inv (failure_invalidate f (e <| se_failing ::=
    <[k := MkFailure (fl_leg f) (fl_err f) (fl_remaining f) MustNotify]> |>)).
Proof.
  intros HI HP Hk. destruct (ei_failing _ _ HI f) as (l & Hl & F1 & F2 & F3); [by eapply list_elem_of_lookup_2|].
  unfold failure_invalidate. simpl. rewrite Hl. apply (path_general e); [done| | |].
  - simpl. by intros q b [id t] [? _]%invalidate_lane.
  - simpl. intros p m Hm. exists m. split_and!; [done|done|]. intros (q & b & t & [_ Hne]%invalidate_lane).
    intros [HU|HU]; [by left|right].
    unfold must_invalidate in *. simpl. apply existsb_exists in HU as (x & Hx & HU).
    rewrite andb_true_iff, !bool_decide_eq_true in HU. destruct HU as [Hp Hs].
    apply existsb_exists. exists x. split; [|by rewrite !bool_decide_eq_true_2].
    apply list_elem_of_In. apply list_elem_of_In in Hx.
    destruct (elem_insert _ _ _ (MkFailure (fl_leg f) (fl_err f) (fl_remaining f) MustNotify) _ Hk Hx) as [->|]; [|done].
    exfalso. apply Hne. rewrite Hp, Hm in Hl. by injection Hl as ->.
  - simpl. apply HP.
Qed.

Lemma must_delete e k f p :
  se_failing e !! k = Some f -> fl_stage f = MustNotify -> must_invalidate e p = true ->
  existsb (fun x => bool_decide (fl_leg x = p) && bool_decide (fl_stage x = MustInvalidate)) (delete k (se_failing e)) = true.
Proof.
  intros Hk Hs HU. unfold must_invalidate in HU. apply existsb_exists in HU as (x & Hx & HU).
  apply existsb_exists. exists x. split; [|done]. apply list_elem_of_In. apply list_elem_of_In in Hx.
  destruct (elem_delete _ _ _ _ Hk Hx) as [->|]; [|done].
  rewrite andb_true_iff, !bool_decide_eq_true in HU. destruct HU. congruence.
Qed.

Lemma path_notify e k f :
  path_inv e -> se_failing e !! k = Some f -> fl_stage f = MustNotify ->
  path_inv (failure_notify f (e <| se_failing ::= delete k |>)).
Proof.
  intros HP Hk Hs.
  assert (forall x, se_txLedger x = se_txLedger e -> se_heap x = se_heap e -> se_legs x = se_legs e ->
    se_failing x = delete k (se_failing e) -> path_inv x) as HX.
  { intros x E1 E2 E3 E4. apply (path_frame e); [done|rewrite E1; apply shrink_refl|done..|].
    intros p Hp. unfold must_invalidate at 1. rewrite E4. by eapply must_delete. }
  unfold failure_notify. simpl. repeat case_match; by apply HX.
Qed.

Lemma path_retire n e p l :
  engine_inv n e -> path_inv e -> se_heap e !! p = Some l -> se_retiring e !! sl_id l = Some p ->
  must_invalidate e p = false -> path_inv (retire_leg e p).
Proof.
  intros HI HP Hl Hr Hm. unfold retire_leg. rewrite Hl, bool_decide_eq_true_2 by done.
  eapply (path_leg e _ p (fun l => l <| sl_retired := true |>)); [done..| |done|done].
  intros m Hm2. by split_and!.
Qed.

Lemma path_shutdown e e' :
  path_inv e -> se_txLedger e' = se_txLedger e -> se_heap e' = se_heap e -> se_legs e' = se_legs e ->
  se_failing e' = se_failing e -> path_inv e'.
Proof.
  intros HP E1 E2 E3 E4. apply (path_frame e); [done|rewrite E1; apply shrink_refl|done..|].
  unfold must_invalidate. by rewrite E4.
Qed.

Lemma path_failWith e err app : path_inv e -> path_inv (failWithAppClose e err app).
Proof. intros HP. apply (path_shutdown e); unfold failWithAppClose; simpl; by destruct (se_done e). Qed.

Lemma path_step n e op e' :
  engine_inv n e -> path_inv e -> leg_exec e op = Some e' -> path_inv e'.
Proof.
  intros HI HP. pose proof (fun x => path_shutdown e x HP) as HS. destruct op; cbn [leg_exec].
  - intros [= <-]. by eapply path_attach.
  - case_bool_decide; [|done]. intros [= <-]. by apply HS.
  - destruct (se_heap e !! p); [|done]. intros [= <-]. by apply path_fail.
  - destruct (se_failing e !! k) as [f|] eqn:Hk; [|done]. simpl. case_bool_decide; [|done]. intros [= <-].
    by eapply path_invalidate.
  - destruct (se_failing e !! k) as [f|] eqn:Hk; [|done]. simpl. case_bool_decide; [|done]. intros [= <-].
    by apply path_notify.
  - destruct (se_heap e !! p) as [l|] eqn:Hl; [|done]. simpl. case_bool_decide; [|done]. intros [= <-].
    by eapply (path_leg e _ p (fun l => l <| sl_workers ::= Z.pred |>)).
  - destruct (se_heap e !! p) as [l|] eqn:Hl; [|done]. simpl. destruct (_ && negb _) eqn:E; [|done].
    intros [= <-]. rewrite !andb_true_iff, !bool_decide_eq_true, negb_true_iff in E.
    destruct E as [[E1 E2] E3]. by eapply path_retire.
  - destruct (se_timers e !! k); [|done]. simpl. intros [= <-]. unfold failIfNoLegRecovers, fail.
    case_match; [apply path_failWith|]; by apply HS.
  - intros [= <-]. by apply path_failWith.
  - intros [= <-]. apply path_failWith. by apply HS.
  - destruct (se_shutdown e) as [|p rest]; [done|]. destruct (se_closeErr e) as [err|]; [|done]. intros [= <-].
    eapply (path_leg e _ p (leg_close err)); [done..| |done|done].
    intros l Hl. unfold leg_close. destruct (sl_closed l) eqn:Hc; by split_and!.
  - intros [= <-]. unfold StartGracefulClose. simpl. destruct (se_graceful e || se_done e); by apply HS.
  - intros [= <-]. by apply HS.
  - destruct (se_closer e) as [[err []]|]; [|done..]. case_match; [|done]. intros [= <-].
    unfold closer_drained, beginFinalizing. destruct (se_done e); by apply HS.
  - destruct (se_closer e) as [[err []]|]; [|done..]. intros [= <-].
    by apply (path_shutdown (fail e errDrainStalled)); [apply path_failWith|..].
  - destruct (se_closer e) as [[err []]|]; [done| |done]. intros [= <-]. unfold closer_sent, finishGracefulClose, fail.
    destruct ok; [case_bool_decide|];
      (match goal with |- path_inv (update se_closer _ ?x) => apply (path_shutdown x) end; [by apply path_failWith|done..]).
  - intros [= <-]. by apply HS.
  - destruct (tx_outside e op) eqn:Ho; [|done]. intros E. apply bind_Some in E as (tx & Htx & [= <-]).
    apply (path_frame e); try done. eapply outside_shrink; [apply HI|done|exact Htx].
  - case_match; [|done]. intros [= <-]. by apply HS.
  - intros [= <-]. by eapply path_queue.
  - intros [= <-]. by eapply path_queue.
  - intros [= <-]. by apply path_claim.
  - by apply path_select.
  - intros [= <-]. by apply path_finish.
  - by apply path_take_send.
  - by apply path_take_rescue.
  - by apply path_write.
  - by apply path_return.
  - by apply path_commit.
Qed.

Lemma path_new cfg : path_inv (NewStreamEngine cfg).
Proof.
  unfold NewStreamEngine. destruct (normalizeMaxActiveStreamLegs _) as [m ce]. constructor; [|done].
  intros q b id t. unfold lane, current. simpl. by rewrite lookup_empty.
Qed.

(** ** The theorem *)

Lemma avail_fold e legs init id :
  0 <= id -> Has (fold_left (fun available p =>
    match se_heap e !! p with
    | Some l => <[Z.to_nat (sl_id l) := true]> available
    | None => available
    end) legs init) id = true ->
  Has init id = true \/ exists p l, p ∈ legs /\ se_heap e !! p = Some l /\ Z.to_nat (sl_id l) = Z.to_nat id.
Proof.
  intros Hid. revert init. induction legs as [|p legs IH]; intros init; simpl; [by left|].
  intros [H|(q & l & Hq & Hl)]%IH; [|right; exists q, l; split; [by right|done]].
  destruct (se_heap e !! p) as [l|] eqn:Hp; [|by left].
  destruct (decide (Z.to_nat (sl_id l) = Z.to_nat id)) as [E|N].
  - right. exists p, l. split; [by left|done].
  - left. revert H. unfold Has, slice_get, slen. rewrite (length_insert init).
    by rewrite (list_lookup_insert_ne init).
Qed.

Lemma elem_of_availableLegs n e p :
  engine_inv n e -> p ∈ availableLegs e ->
  exists id l, se_legs e !! id = Some p /\ se_heap e !! p = Some l /\ open_leg l = true.
Proof.
  intros HI Hp. unfold availableLegs in Hp. apply list_elem_of_fmap in Hp as ([k p'] & -> & Hk).
  rewrite merge_sort_Permutation in Hk. apply list_elem_of_In, filter_In in Hk as [Hk Ho].
  apply list_elem_of_In, elem_of_map_to_list in Hk. simpl in *.
  destruct (se_heap e !! p') as [l|] eqn:Hl; [|done]. by exists k, l.
Qed.

Lemma available_leg n e id :
  engine_inv n e -> 0 <= id -> Has (streamLegAvailability e (availableLegs e)) id = true ->
  exists p l, se_legs e !! id = Some p /\ se_heap e !! p = Some l /\ open_leg l = true.
Proof.
  intros HI Hid H. apply avail_fold in H as [H|(p & l & Hp & Hl & E)]; [| |done].
  - exfalso. unfold Has, slice_get in H. rewrite andb_true_iff in H. destruct H as [_ H].
    rewrite bool_decide_eq_true_2 in H by lia. destruct (replicate 256 false !! Z.to_nat id) eqn:E; [|done].
    apply lookup_replicate in E as [-> _]. done.
  - destruct (elem_of_availableLegs _ _ _ HI Hp) as (k & l2 & Hk & Hl2 & Ho). simplify_eq.
    destruct (ei_legs _ _ HI _ _ Hk) as (_ & l3 & Hl3 & Ek & _). simplify_eq.
    destruct (lp_range _ _ _ (ei_placed _ _ HI _ _ Hl)) as [H0 _].
    eexists _, _. split_and!; [|done..]. assert (sl_id l = id) as <- by lia. done.
Qed.

(** An outstanding record that its producer has let go of, [q], is taken care of. *)
Definition taken_care (e : StreamEngine) (q : ptr) (r : StreamTXRecord) : Prop :=
  (forall b id t, lane_of r b = Some (id, t) ->
     exists p l, se_heap e !! p = Some l /\ sl_id l = id /\ carried_by e p l q b t) /\
  (lane_of r false = None -> lane_of r true = None ->
     (exists p l, se_legs e !! u8 (tr_lastSentLeg r) = Some p /\ se_heap e !! p = Some l /\ open_leg l = true) \/
     exists avoid, MkRetry q avoid ∈ PlanRetries (se_txLedger e) (streamLegAvailability e (availableLegs e))).

Lemma path_taken_care n e q r :
  engine_inv n e -> path_inv e -> current (se_txLedger e) (Some q) = Some (q, r) ->
  tr_localEnqueue r = false -> taken_care e q r.
Proof.
  intros HI HP Hc Hloc. split.
  - intros b id t Hb. apply (pv_carried _ HP). by rewrite (lane_current _ _ _ _ Hc).
  - intros H1 H2. assert (tr_inTransit r = false /\ tr_rescueInTransit r = false) as [T1 T2].
    { simpl in H1, H2. by destruct (tr_inTransit r), (tr_rescueInTransit r). }
    set (lv := streamLegAvailability e (availableLegs e)).
    destruct (Has lv (u8 (tr_lastSentLeg r))) eqn:Hh.
    + left. eapply available_leg; [done| |exact Hh]. unfold u8. apply Z.mod_pos_bound. lia.
    + right. destruct (decide (tr_lastSentLeg r < 0)).
      * exists (-1). apply PlanRetries_planned; [apply HI|]. exists r. split_and!; try done. by left.
      * exists (tr_lastSentLeg r). apply PlanRetries_planned; [apply HI|]. exists r. split_and!; try done.
        right. split_and!; [lia|done|done].
Qed.
