(* ===== verification/Drain.v ===== *)
(** * Coordinated drain of a leg

    [core/stream_coordinated_drain.go]: one end withdraws a leg from use, both ends
    stop queueing on it, report when nothing is outstanding on it, and retire it
    after COMMIT and COMMIT-ACK.

    A [*streamDrainOperation] is a key of [dn_ops].  The goroutine that runs an
    operation ([coordinatedDrainLeg], [runRemoteDrain], or the one that answers a
    conflicting intent) is its program counter in [dn_pcs], with the local variables
    it has read; one step is one critical section of [drainMu], one
    [sendDrainMessage], or one look at the leg.  The reads a section makes of the leg
    registry belong to its step, and so do the loads of [drainReady].
    [dispatchMu.Lock] waits for the [tryQueue] calls in progress: the step is enabled
    when there are none.  [dn_sent] records every message handed to a carrier.  The
    depths of the decoupled feeders' queues are set from outside.  The channel
    [changed], which carries no data, and the event observer are left out. *)

From S2P Require Import Prelude Bytes Wire Hello PathProtocol RxWindow TxLedger TxInv TxQueue Repair RttCache Legs.
From stdpp Require Import options.
#[local] Open Scope Z_scope.

(** ** Data *)

Definition streamDrainControlRetryInterval : duration := 200 * Millisecond.

Inductive drain_error :=
| ErrDrainLegNotFound
| ErrStreamLastLeg
| ErrStreamDrainUnsupported
| ErrStreamDrainConflict
| ErrStreamDrainCarrierChanged
| ErrStreamDrainCommitUncertain
| ErrDrainMessage        (* [ErrStreamDrainMessage] *)
| errPeerAborted
| errContext             (* the caller's context or the peer timer *)
| ErrDrainClosed         (* [ErrStreamClosed] *)
| errSendControl (kind : Z).
#[export] Instance drain_error_eq_dec : EqDecision drain_error.
Proof. solve_decision. Defined.

Notation optr := Z (only parsing).

Record streamDrainOperation := MkDrainOp {
  do_target : lptr;
  do_operationID : bytes;
  do_targetBinding : bytes;
  do_counter : Z;
  do_originRole : Z;
  do_peerGeneration : Z;
  do_peerAckedNext : Z;
  do_peerOutstandingFrames : Z;
  do_peerOutstandingBytes : Z;
  do_initiator : bool;
  do_peerQuiesced : bool;
  do_localReady : bool;
  do_readySent : bool;
  do_peerReady : bool;
  do_commitSent : bool;
  do_commitRequested : bool;
  do_commitAck : bool;
  do_terminalErr : option drain_error;
  do_finished : bool;
  do_lastControlSent : time
}.
#[export] Instance streamDrainOperation_fields : Fields streamDrainOperation := fun o =>
  MkDrainOp (do_target o) (do_operationID o) (do_targetBinding o) (do_counter o) (do_originRole o)
    (do_peerGeneration o) (do_peerAckedNext o) (do_peerOutstandingFrames o)
    (do_peerOutstandingBytes o) (do_initiator o) (do_peerQuiesced o) (do_localReady o)
    (do_readySent o) (do_peerReady o) (do_commitSent o) (do_commitRequested o) (do_commitAck o)
    (do_terminalErr o) (do_finished o) (do_lastControlSent o).

(** What a goroutine has read under the lock. *)
Record ready_view := MkReadyView {
  vw_ready : bool; vw_readySent : bool; vw_peerReady : bool; vw_commitSent : bool;
  vw_lastControlSent : time }.
Record responder_view := MkResponderView {
  rv_ready : bool; rv_commitRequested : bool; rv_peerReady : bool }.

(** The last control message a responder has sent. *)
Record last_sent := MkLast { ls_kind : Z; ls_at : time }.

Inductive drain_pc :=
(* [coordinatedDrainLeg] *)
| ISendIntent
| ITop
| IRead
| IComplete (again sent : bool)
| IComplete2 (again sent : bool)
| ICheck (ack sent : bool)
| IReady
| ISendReady (v : ready_view)
| IReadySent (v : ready_view)
| IMaybeCommit (v : ready_view)
| ISendCommit
| IRead2
| ISelect (ack sent : bool)
(* [runRemoteDrain] *)
| RTop (s : last_sent)
| RLeg (s : last_sent)
| RLock (s : last_sent)
| RSend (s : last_sent) (kind : Z) (v : responder_view)
| RRetire (s : last_sent) (v : responder_view)
| RSelect (s : last_sent)
| RTimeout
(* the answer to a conflicting intent, which came on this carrier *)
| CSend (carrier : lptr)
(* [abortDrain], [forceDrainRecovery], [retireDrainedLeg], [finishDrain]; [ret] is
   what the caller returns afterwards *)
| XAbort (err : drain_error) (restore : bool)
| XSendAbort (err : drain_error) (restore : bool)
| XAbort2 (err : drain_error) (restore : bool)
| XForce (err ret : drain_error)
| XReplace (err ret : drain_error)
| XClose
| XFinish (err : option drain_error) (ret : option drain_error)
| DrainDone (ret : option drain_error).

Record drain_engine := MkDrainEngine {
  dn_engine : StreamEngine;
  dn_ops : gmap optr streamDrainOperation;
  dn_fresh : optr;
  dn_pcs : gmap optr drain_pc;
  dn_drainOps : gmap Z optr;
  dn_remoteHighWater : gmap (Z * Z) Z;   (* streamDrainReplayKey: leg, role *)
  dn_operationCounter : Z;
  dn_pendingDepth : list Z;
  dn_feederHeld : list Z;
  dn_sent : list (StreamDrainMessage * bytes)
}.
#[export] Instance drain_engine_fields : Fields drain_engine := fun d =>
  MkDrainEngine (dn_engine d) (dn_ops d) (dn_fresh d) (dn_pcs d) (dn_drainOps d)
    (dn_remoteHighWater d) (dn_operationCounter d) (dn_pendingDepth d) (dn_feederHeld d) (dn_sent d).

Definition NewDrainEngine (cfg : StreamConfig) : drain_engine :=
  let e := NewStreamEngine cfg in
  let zeros := replicate (Z.to_nat (se_maxActiveLegs e)) 0 in
  MkDrainEngine e ∅ 0 ∅ ∅ ∅ 0 zeros zeros [].

Definition goto (o : optr) (pc : drain_pc) (d : drain_engine) : drain_engine :=
  d <| dn_pcs ::= <[o := pc]> |>.
Definition upd_op (o : optr) (f : streamDrainOperation -> streamDrainOperation) (d : drain_engine)
  : drain_engine := d <| dn_ops ::= alter f o |>.
Definition upd_target (p : lptr) (f : streamLeg -> streamLeg) (d : drain_engine) : drain_engine :=
  d <| dn_engine ::= upd_leg p f |>.

(** ** Looking at the legs *)

Definition is_current (e : StreamEngine) (p : lptr) (l : streamLeg) : bool :=
  bool_decide (getLeg e (sl_id l) = Some p).

(** The legs that can carry control messages about leg [excluding]. *)
Definition drain_carriers (e : StreamEngine) (excluding : Z) : list lptr :=
  (merge_sort leg_le (List.filter (fun kp =>
     bool_decide (kp.1 <> excluding) &&
     from_option (fun l => sl_drainEnabled l && open_leg l) false (se_heap e !! kp.2))
     (map_to_list (se_legs e)))).*2.

Definition hasDrainControlLeg (e : StreamEngine) (excluding : Z) : bool :=
  bool_decide (drain_carriers e excluding <> []).

(** Nothing is queued, being written or outstanding on the leg. *)
Definition leg_quiet (e : StreamEngine) (l : streamLeg) : bool :=
  bool_decide (sl_send l = []) && bool_decide (sl_rescue l = [])
  && bool_decide (sl_writer l <> WriterWriting)
  && bool_decide (outstandingForLeg (se_txLedger e) (sl_id l) = 0).

Definition in_use (depths : list Z) (id : Z) : bool :=
  match slice_get depths id with Some n => bool_decide (n <> 0) | None => false end.

Definition drainReady (d : drain_engine) (p : lptr) (l : streamLeg) : bool :=
  let e := dn_engine d in
  if sl_closed l || negb (is_current e p l) || negb (sl_draining l) then false else
  if negb (leg_quiet e l) then false else
  negb (in_use (dn_pendingDepth d) (sl_id l)) && negb (in_use (dn_feederHeld d) (sl_id l)).

(** ** Control messages *)

Definition makeDrainMessage (d : drain_engine) (op : streamDrainOperation) (l : streamLeg)
    (kind : Z) (now : time) : StreamDrainMessage :=
  let e := dn_engine d in
  let snapshot := Snapshot (se_txLedger e) now in
  let outstanding := outstandingForLeg (se_txLedger e) (sl_id l) in
  let outstanding := if bool_decide (outstanding < 0) then 0 else outstanding in
  MkDrain kind (cf_PathRole (se_cfg e)) (default (zero_bytes 16) (se_drainSession e)) (sl_id l)
    (sl_generation l) (do_targetBinding op) (do_operationID op) (do_counter op)
    (sn_AckedNext snapshot) (u32 outstanding) (outstandingBytesForLeg (se_txLedger e) (sl_id l)).

(** What happens to a message at one carrier: its queue is closed or full; or the
    message is queued, and then it is written, the write fails, the carrier closes,
    the context ends or the session ends. *)
Inductive control_outcome :=
| ControlClosed | ControlFull
| ControlWritten | ControlFailed | ControlCarrierDone | ControlContext | ControlSessionDone.

Fixpoint send_control (e : StreamEngine) (message : StreamDrainMessage)
    (out : lptr -> control_outcome) (causes : bool) (carriers : list lptr)
  : option drain_error * list (StreamDrainMessage * bytes) :=
  match carriers with
  | [] => (Some (if causes then errSendControl (dr_Kind message) else ErrStreamDrainUnsupported), [])
  | carrier :: carriers =>
    match EncodeDrainMessage (from_option sl_drainAuth zero_auth (se_heap e !! carrier)) message with
    | Err _ => send_control e message out true carriers
    | Ok wire =>
      match out carrier with
      | ControlClosed | ControlFull => send_control e message out true carriers
      | ControlWritten => (None, [(message, wire)])
      | ControlFailed | ControlCarrierDone =>
        let '(res, log) := send_control e message out true carriers in (res, (message, wire) :: log)
      | ControlContext => (Some errContext, [(message, wire)])
      | ControlSessionDone => (Some ErrDrainClosed, [(message, wire)])
      end
    end
  end.

Definition sendDrainMessage (d : drain_engine) (op : streamDrainOperation) (l : streamLeg) (kind : Z)
    (now : time) (out : lptr -> control_outcome) : option drain_error * drain_engine :=
  let message := makeDrainMessage d op l kind now in
  let '(res, log) := send_control (dn_engine d) message out false
                       (drain_carriers (dn_engine d) (sl_id l)) in
  (res, d <| dn_sent ::= fun s => s ++ log |>).

(** ** Opening an operation *)

(** [coordinatedDrainLeg] before the lock: [inl] is the returned value. *)
Definition drain_check (e : StreamEngine) (id : Z) : option drain_error + lptr :=
  if bool_decide (se_maxActiveLegs e <= id) then inl (Some ErrDrainLegNotFound) else
  match (let! p := getLeg e id in let! l := se_heap e !! p in Some (p, l)) with
  | None => inl None
  | Some (target, l) =>
    if sl_closed l then inl None else
    if bool_decide (legCount e <= 1) then inl (Some ErrStreamLastLeg) else
    if negb (sl_drainEnabled l) || negb (hasDrainControlLeg e (sl_id l))
    then inl (Some ErrStreamDrainUnsupported) else inr target
  end.

Definition new_operation (target : lptr) (operationID targetBinding : bytes) (counter originRole
    peerGeneration : Z) (initiator peerQuiesced : bool) (lastControlSent : time)
  : streamDrainOperation :=
  MkDrainOp target operationID targetBinding counter originRole peerGeneration 0 0 0 initiator
    peerQuiesced false false false false false false None false lastControlSent.

(** Allocate an operation with its goroutine. *)
Definition spawn (op : streamDrainOperation) (pc : drain_pc) (d : drain_engine) : drain_engine :=
  d <| dn_ops ::= <[dn_fresh d := op]> |> <| dn_pcs ::= <[dn_fresh d := pc]> |>
    <| dn_fresh ::= Z.succ |>.

(** Put the operation that is about to be allocated in charge of its leg, which stops
    accepting records. *)
Definition drain_open (p : lptr) (l : streamLeg) (d : drain_engine) : drain_engine :=
  (upd_target p (fun l => l <| sl_draining := true |>) d)
    <| dn_drainOps ::= <[sl_id l := dn_fresh d]> |>.

(** [coordinatedDrainLeg] under [drainMu]; [None]: it waits for [dispatchMu]. *)
Definition drain_admit (d : drain_engine) (target : lptr) (operationID : bytes) (now : time)
  : option (option drain_error * drain_engine) :=
  let e := dn_engine d in
  let! l := se_heap e !! target in
  if bool_decide (legCount e - Z.of_nat (size (dn_drainOps d)) <= 1)
  then Some (Some ErrStreamLastLeg, d) else
  if bool_decide (is_Some (dn_drainOps d !! sl_id l)) then Some (Some ErrStreamDrainConflict, d) else
  if bool_decide (sl_dispatch l <> []) then None else
  if sl_closed l || negb (is_current e target l)
  then Some (Some ErrStreamDrainCarrierChanged, d) else
  let counter := u64 (dn_operationCounter d + 1) in
  let op := new_operation target operationID (sl_drainBinding l) counter (cf_PathRole (se_cfg e)) 0
              true false now in
  Some (None, spawn op ISendIntent (drain_open target l (d <| dn_operationCounter := counter |>))).

(** ** Ending an operation *)

Definition drainOperationError (d : drain_engine) (o : optr) (op : streamDrainOperation) (l : streamLeg)
  : option drain_error :=
  if bool_decide (dn_drainOps d !! sl_id l <> Some o) then
    match do_terminalErr op with
    | Some err => Some err
    | None => if do_finished op then Some ErrStreamDrainCarrierChanged else None
    end
  else do_terminalErr op.

Definition committed (op : streamDrainOperation) : bool := do_commitSent op || do_commitRequested op.

(** The common end of [abortDrain] and [finishDrain]; [None]: waits for [dispatchMu]. *)
Definition drain_end (d : drain_engine) (o : optr) (p : lptr) (l : streamLeg)
    (err : option drain_error) (restore : bool) : option drain_engine :=
  let reopen := restore && is_current (dn_engine d) p l && negb (sl_closed l) in
  if reopen && bool_decide (sl_dispatch l <> []) then None else
  let d := if reopen then upd_target p (fun l => l <| sl_draining := false |>) d else d in
  let d := upd_op o (fun op => op <| do_terminalErr := err |> <| do_finished := true |>) d in
  Some (if bool_decide (dn_drainOps d !! sl_id l = Some o)
        then d <| dn_drainOps ::= delete (sl_id l) |> else d).

(** [retireDrainedLeg] up to the release of the locks; [None]: waits for [dispatchMu]. *)
Definition retireDrainedLeg (d : drain_engine) (p : lptr) (l : streamLeg)
  : option (bool * drain_engine) :=
  if negb (drainReady d p l) then Some (false, d) else
  if bool_decide (sl_dispatch l <> []) then None else
  Some (true, d <| dn_engine ::= fun e => e <| se_legs ::= delete (sl_id l) |>
                                            <| se_retiring ::= <[sl_id l := p]> |> |>).

(** [target.close(nil)] *)
Definition close_quietly (l : streamLeg) : streamLeg :=
  if sl_closed l then l else l <| sl_closed := true |>.

(** The rest of [retireDrainedLeg]. *)
Definition retire_close (p : lptr) (l : streamLeg) (e : StreamEngine) : StreamEngine :=
  let e := if sl_pathRTTEnabled l
           then e <| se_pathRTTCache ::= fmap (fun c => (invalidateLeg c (sl_pathBinding l)).2) |>
           else e in
  upd_leg p close_quietly e.

(** ** The goroutines *)

(** What a goroutine waiting in [select] is woken by. *)
Inductive wait_event := EvTick | EvContext | EvTargetDone | EvSessionDone.

(** [abortDrain]: its first section and its last one. *)
Definition abort_begin (op : streamDrainOperation) (err : drain_error) (restore : bool) : drain_pc :=
  if committed op then XForce err err else
  if do_initiator op && negb (do_finished op) then XSendAbort err restore else XAbort2 err restore.

Definition abort_end (d : drain_engine) (o : optr) (op : streamDrainOperation) (l : streamLeg)
    (err : drain_error) (restore : bool) : option drain_engine :=
  if committed op then Some (goto o (XForce err err) d) else
  let! d := drain_end d o (do_target op) l (Some err) restore in
  Some (goto o (DrainDone (Some err)) d).

(** [completeAcknowledgedDrain]: to the end of the operation, or on in the loop. *)
Definition complete_next (again sent : bool) : drain_pc :=
  if again then ISelect true sent else ICheck true sent.

Definition settled_leg (e : StreamEngine) (l : streamLeg) : bool :=
  bool_decide (outstandingForLeg (se_txLedger e) (sl_id l) = 0).

Definition complete_begin (d : drain_engine) (o : optr) (p : lptr) (l : streamLeg) (again sent : bool)
  : option drain_engine :=
  let e := dn_engine d in
  if is_current e p l && negb (sl_closed l) then
    match retireDrainedLeg d p l with
    | Some (ok, d) => Some (goto o (if ok then XClose else IComplete2 again sent) d)
    | None => None
    end
  else Some (goto o (if sl_closed l && negb (is_current e p l) && settled_leg e l
                     then XFinish None None else complete_next again sent) d).

Definition complete_retry (d : drain_engine) (o : optr) (p : lptr) (l : streamLeg) (again sent : bool)
  : drain_engine :=
  let e := dn_engine d in
  goto o (if sl_closed l
          then if negb (is_current e p l) && settled_leg e l then XFinish None None
               else complete_next again sent
          else XForce ErrStreamDrainCarrierChanged ErrStreamDrainCarrierChanged) d.

(** The section of the loop that marks the local end ready. *)
Definition initiator_ready (d : drain_engine) (o : optr) (op : streamDrainOperation) (l : streamLeg)
    (now : time) : drain_engine :=
  let became := bool_decide (dn_drainOps d !! sl_id l = Some o) && negb (do_localReady op) in
  let op := if became then op <| do_localReady := true |> else op in
  let v := MkReadyView (do_localReady op && do_peerQuiesced op) (do_readySent op) (do_peerReady op)
             (do_commitSent op) (do_lastControlSent op) in
  let resend := negb (vw_peerReady v)
    && bool_decide (streamDrainControlRetryInterval <= time_sub now (vw_lastControlSent v)) in
  goto o (if vw_ready v && (negb (vw_readySent v) || resend) then ISendReady v else IMaybeCommit v)
    (if became then upd_op o (fun op => op <| do_localReady := true |>) d else d).

(** The section that decides to commit. *)
Definition initiator_commit (d : drain_engine) (o : optr) (op : streamDrainOperation) (l : streamLeg)
    (v : ready_view) (now : time) : drain_engine :=
  if vw_ready v && vw_readySent v && vw_peerReady v && negb (vw_commitSent v) then
    let canCommit := bool_decide (dn_drainOps d !! sl_id l = Some o)
      && bool_decide (do_terminalErr op = None) && do_readySent op && do_localReady op
      && do_peerQuiesced op && do_peerReady op && negb (do_commitSent op) in
    if canCommit then
      goto o ISendCommit (upd_op o (fun op => op <| do_commitSent := true |>
                                                 <| do_lastControlSent := now |>) d)
    else goto o ITop d
  else goto o IRead2 d.

(** The [select] of the initiator. *)
Definition initiator_wait (e : StreamEngine) (op : streamDrainOperation) (l : streamLeg)
    (ack sent : bool) (ev : wait_event) : option drain_pc :=
  match ev with
  | EvTick => Some ITop
  | EvContext =>
    Some (if sent then XForce errContext ErrStreamDrainCommitUncertain else XAbort errContext true)
  | EvTargetDone =>
    if ack || sent || negb (sl_closed l) then None else
    Some (if do_commitSent op || do_commitAck op then ITop
          else XAbort ErrStreamDrainCarrierChanged false)
  | EvSessionDone => if se_done e then Some (XAbort ErrDrainClosed false) else None
  end.

(** The locked section of the responder's loop, and the message it leads to. *)
Definition responder_kind (v : responder_view) : Z :=
  if rv_commitRequested v && rv_ready v then StreamDrainCommitAck else
  if rv_ready v then StreamDrainReady else StreamDrainQuiesced.

Definition responder_ready (d : drain_engine) (o : optr) (op : streamDrainOperation) (l : streamLeg)
    (s : last_sent) (now : time) : drain_engine :=
  let ready := drainReady d (do_target op) l in
  let v := MkResponderView (do_localReady op || ready) (do_commitRequested op) (do_peerReady op) in
  let d := if ready then upd_op o (fun op => op <| do_localReady := true |>) d else d in
  let kind := responder_kind v in
  goto o (if bool_decide (kind <> ls_kind s)
             || bool_decide (streamDrainControlRetryInterval <= time_sub now (ls_at s))
          then RSend s kind v else RRetire s v) d.

Definition responder_retire (d : drain_engine) (o : optr) (op : streamDrainOperation) (l : streamLeg)
    (s : last_sent) (v : responder_view) : option drain_engine :=
  if rv_commitRequested v && rv_ready v && rv_peerReady v then
    match retireDrainedLeg d (do_target op) l with
    | Some (ok, d) =>
      Some (goto o (if ok then XClose
                    else XForce ErrStreamDrainCarrierChanged ErrStreamDrainCarrierChanged) d)
    | None => None
    end
  else Some (goto o (RSelect s) d).

Definition responder_wait (e : StreamEngine) (l : streamLeg) (s : last_sent) (ev : wait_event)
  : option drain_pc :=
  match ev with
  | EvTick => Some (RTop s)
  | EvContext => Some RTimeout
  | EvTargetDone =>
    if sl_closed l
    then Some (XFinish (Some ErrStreamDrainCarrierChanged) (Some ErrStreamDrainCarrierChanged))
    else None
  | EvSessionDone => if se_done e then Some (XFinish (Some ErrDrainClosed) (Some ErrDrainClosed)) else None
  end.

(** One step of the goroutine of operation [o].  The clock, the fate of a control
    message at each carrier and the event a [select] takes come from outside. *)
Definition thread_step (d : drain_engine) (o : optr) (now : time) (out : lptr -> control_outcome)
    (ev : wait_event) : option drain_engine :=
  let! op := dn_ops d !! o in
  let! pc := dn_pcs d !! o in
  let p := do_target op in
  let e := dn_engine d in
  let! l := se_heap e !! p in
  let send kind := sendDrainMessage d op l kind now out in
  match pc with
  | ISendIntent =>
    let '(res, d) := send StreamDrainIntent in
    Some (goto o (match res with Some err => XAbort err true | None => ITop end) d)
  | ITop =>
    Some (goto o (match drainOperationError d o op l with
                  | Some err => XAbort err true | None => IRead end) d)
  | IRead =>
    Some (goto o (if do_commitAck op then IComplete false (do_commitSent op)
                  else ICheck false (do_commitSent op)) d)
  | IComplete again sent => complete_begin d o p l again sent
  | IComplete2 again sent => Some (complete_retry d o p l again sent)
  | ICheck ack sent =>
    Some (goto o (if negb ack && negb sent && (sl_closed l || negb (is_current e p l))
                  then XAbort ErrStreamDrainCarrierChanged false
                  else if drainReady d p l then IReady else IRead2) d)
  | IReady => Some (initiator_ready d o op l now)
  | ISendReady v =>
    let '(res, d) := send StreamDrainReady in
    Some (goto o (match res with Some err => XAbort err true | None => IReadySent v end) d)
  | IReadySent v =>
    Some (goto o (IMaybeCommit v)
      (if bool_decide (dn_drainOps d !! sl_id l = Some o)
       then upd_op o (fun op => op <| do_readySent := true |> <| do_lastControlSent := now |>) d
       else d))
  | IMaybeCommit v => Some (initiator_commit d o op l v now)
  | ISendCommit =>
    let '(res, d) := send StreamDrainCommit in
    Some (goto o (match res with
                  | Some err => XForce err ErrStreamDrainCommitUncertain | None => IRead2 end) d)
  | IRead2 =>
    Some (goto o (if do_commitAck op then IComplete true (do_commitSent op)
                  else ISelect false (do_commitSent op)) d)
  | ISelect ack sent => let! pc := initiator_wait e op l ack sent ev in Some (goto o pc d)
  | RTop s =>
    Some (goto o (match drainOperationError d o op l with
                  | Some err => XAbort err true | None => RLeg s end) d)
  | RLeg s =>
    Some (goto o (if sl_closed l || negb (is_current e p l)
                  then XFinish (Some ErrStreamDrainCarrierChanged) (Some ErrStreamDrainCarrierChanged)
                  else RLock s) d)
  | RLock s => Some (responder_ready d o op l s now)
  | RSend s kind v =>
    let '(res, d) := send kind in
    Some (goto o (RRetire (match res with Some _ => s | None => MkLast kind now end) v) d)
  | RRetire s v => responder_retire d o op l s v
  | RSelect s => let! pc := responder_wait e l s ev in Some (goto o pc d)
  | RTimeout => let '(_, d) := send StreamDrainAbort in Some (goto o (XAbort errContext true) d)
  | CSend carrier =>
    let '(res, d) := send StreamDrainAbort in
    let d := match res with
             | Some _ => d <| dn_engine ::= fun e => handleLegFailure e carrier errDrainUncertain |>
             | None => d
             end in
    Some (goto o (DrainDone res) d)
  | XAbort err restore => Some (goto o (abort_begin op err restore) d)
  | XSendAbort err restore => let '(_, d) := send StreamDrainAbort in Some (goto o (XAbort2 err restore) d)
  | XAbort2 err restore => abort_end d o op l err restore
  | XForce err ret =>
    Some (goto o (if is_current e p l && negb (sl_closed l) then XReplace err ret
                  else XFinish (Some err) (Some ret)) d)
  | XReplace err ret =>
    Some (goto o (XFinish (Some err) (Some ret))
      (d <| dn_engine ::= fun e => (ReplaceLeg e (sl_id l) errDrainUncertain).2 |>))
  | XClose => Some (goto o (XFinish None None) (d <| dn_engine ::= retire_close p l |>))
  | XFinish err ret => let! d := drain_end d o p l err false in Some (goto o (DrainDone ret) d)
  | DrainDone _ => None
  end.

(** ** Receiving a control message *)

(** [acceptDrainIntent]; [None]: waits for [dispatchMu]. *)
Definition acceptDrainIntent (d : drain_engine) (carrier p : lptr) (l : streamLeg)
    (m : StreamDrainMessage) : option drain_engine :=
  let e := dn_engine d in
  let key := (sl_id l, dr_SenderRole m) in
  let high d := d <| dn_remoteHighWater ::= <[key := dr_Counter m]> |> in
  let op quiesced := new_operation p (dr_OperationID m) (dr_TargetBinding m) (dr_Counter m)
    (dr_SenderRole m) (dr_Generation m) false quiesced zero_time in
  match (let! o := dn_drainOps d !! sl_id l in let! active := dn_ops d !! o in Some (o, active)) with
  | Some (o, active) =>
    if bool_decide (do_operationID active = dr_OperationID m)
       && bool_decide (do_counter active = dr_Counter m)
       && bool_decide (do_targetBinding active = dr_TargetBinding m) then Some d else
    Some (spawn (op false) (CSend carrier)
            (high (upd_op o (fun op => op <| do_terminalErr := Some ErrStreamDrainConflict |>) d)))
  | None =>
    if bool_decide (dr_Counter m <= default 0 (dn_remoteHighWater d !! key)) then Some d else
    if sl_closed l || negb (is_current e p l)
       || bool_decide (legCount e - Z.of_nat (size (dn_drainOps d)) <= 1)
    then Some (spawn (op false) (CSend carrier) (high d)) else
    if bool_decide (sl_dispatch l <> []) then None else
    Some (spawn (op true) (RTop (MkLast 0 zero_time)) (high (drain_open p l d)))
  end.

(** The [switch] on the kind of a response; [None]: an unknown kind. *)
Definition drain_response (op : streamDrainOperation) (m : StreamDrainMessage)
  : option streamDrainOperation :=
  let settled := bool_decide (dr_OutstandingFrames m = 0) && bool_decide (dr_OutstandingBytes m = 0) in
  let bad := op <| do_terminalErr := Some ErrDrainMessage |> in
  if bool_decide (dr_Kind m = StreamDrainQuiesced) then Some (op <| do_peerQuiesced := true |>) else
  if bool_decide (dr_Kind m = StreamDrainReady) then
    Some (if settled then op <| do_peerQuiesced := true |> <| do_peerReady := true |> else bad) else
  if bool_decide (dr_Kind m = StreamDrainCommit) then
    Some (if settled && negb (do_initiator op) && do_localReady op && do_peerReady op
          then op <| do_commitRequested := true |> else bad) else
  if bool_decide (dr_Kind m = StreamDrainCommitAck) then
    Some (if do_initiator op && do_commitSent op && settled
          then op <| do_commitAck := true |> else bad) else
  if bool_decide (dr_Kind m = StreamDrainAbort) then
    Some (op <| do_terminalErr := Some errPeerAborted |>) else None.

(** Does the message belong to this operation, and to the leg as it is now? *)
Definition drain_matches (op : streamDrainOperation) (l : streamLeg) (m : StreamDrainMessage) : bool :=
  bool_decide (sl_id l = dr_TargetLeg m) && sl_drainEnabled l
  && bool_decide (do_operationID op = dr_OperationID m) && bool_decide (do_counter op = dr_Counter m)
  && bool_decide (do_targetBinding op = dr_TargetBinding m)
  && bool_decide (sl_drainBinding l = dr_TargetBinding m)
  && (bool_decide (do_peerGeneration op = 0)
      || bool_decide (do_peerGeneration op = dr_Generation m)).

(** The [drainMu] section of [handleDrainControlFrame] for a response. *)
Definition accept_response (d : drain_engine) (m : StreamDrainMessage)
  : option proto_error * drain_engine :=
  let e := dn_engine d in
  match (let! o := dn_drainOps d !! dr_TargetLeg m in let! op := dn_ops d !! o in
         let! l := se_heap e !! do_target op in Some (o, op, l)) with
  | None => (None, d)
  | Some (o, op, l) =>
    if negb (drain_matches op l m) then (None, d) else
    let current := getLeg e (dr_TargetLeg m) in
    if bool_decide (is_Some current) && bool_decide (current <> Some (do_target op)) then (None, d) else
    if bool_decide (current <> Some (do_target op))
       && (bool_decide (dr_Kind m <> StreamDrainCommitAck) || negb (sl_closed l)) then (None, d) else
    if bool_decide (do_peerGeneration op = 0)
       && (bool_decide (current <> Some (do_target op)) || sl_closed l
           || bool_decide (dr_Kind m = StreamDrainCommitAck)) then (None, d) else
    let op := op <| do_peerGeneration := dr_Generation m |> <| do_peerAckedNext := dr_AckedNext m |>
                 <| do_peerOutstandingFrames := dr_OutstandingFrames m |>
                 <| do_peerOutstandingBytes := dr_OutstandingBytes m |> in
    match drain_response op m with
    | Some op => (None, d <| dn_ops ::= <[o := op]> |>)
    | None => (Some ErrStreamDrainMessage, d <| dn_ops ::= <[o := op]> |>)
    end
  end.

(** The role a control message must come from. *)
Definition peer_role (e : StreamEngine) : option Z :=
  if bool_decide (cf_PathRole (se_cfg e) = StreamPathRoleClient) then Some StreamPathRoleServer else
  if bool_decide (cf_PathRole (se_cfg e) = StreamPathRoleServer) then Some StreamPathRoleClient
  else None.

Definition drain_decode (e : StreamEngine) (carrier : lptr) (wire : bytes)
  : result proto_error StreamDrainMessage :=
  match se_heap e !! carrier with
  | None => Err ErrStreamDrainNegotiation
  | Some c =>
    if negb (sl_drainEnabled c) then Err ErrStreamDrainNegotiation else
    match peer_role e with
    | None => Err ErrStreamPathRole
    | Some role => DecodeDrainMessage (sl_drainAuth c) wire role
    end
  end.

Definition handleDrainControlFrame (d : drain_engine) (carrier : lptr) (wire : bytes)
  : option (option proto_error * drain_engine) :=
  let e := dn_engine d in
  match drain_decode e carrier wire with
  | Err err => Some (Some err, d)
  | Ok m =>
    if bool_decide (sl_id <$> se_heap e !! carrier = Some (dr_TargetLeg m)) then Some (None, d) else
    if bool_decide (dr_Kind m = StreamDrainIntent) then
      match (let! p := getLeg e (dr_TargetLeg m) in let! l := se_heap e !! p in Some (p, l)) with
      | None => Some (None, d)
      | Some (p, l) =>
        if negb (sl_drainEnabled l) || bool_decide (sl_drainBinding l <> dr_TargetBinding m)
        then Some (None, d) else
        let! d := acceptDrainIntent d carrier p l m in Some (None, d)
      end
    else Some (accept_response d m)
  end.

(** ** Steps *)

Inductive drain_op :=
| dop_leg (op : leg_op)
| dop_admit (target : lptr) (operationID : bytes) (now : time)
| dop_thread (o : optr) (now : time) (out : lptr -> control_outcome) (ev : wait_event)
| dop_receive (carrier : lptr) (wire : bytes)
| dop_feeder (id depth held : Z).

(** [None]: the step is not enabled. *)
Definition drain_exec (d : drain_engine) (op : drain_op) : option drain_engine :=
  match op with
  | dop_leg op => let! e := leg_exec (dn_engine d) op in Some (d <| dn_engine := e |>)
  | dop_admit target operationID now =>
    let! l := se_heap (dn_engine d) !! target in
    if negb (sl_drainEnabled l) then None else
    snd <$> drain_admit d target operationID now
  | dop_thread o now out ev => thread_step d o now out ev
  | dop_receive carrier wire =>
    match handleDrainControlFrame d carrier wire with
    | Some (Some err, d) =>
      Some (d <| dn_engine ::= fun e => handleLegFailure e carrier (ErrProto err) |>)
    | Some (None, d) => Some d
    | None => None
    end
  | dop_feeder id depth held =>
    Some (d <| dn_pendingDepth ::= <[Z.to_nat id := depth]> |>
            <| dn_feederHeld ::= <[Z.to_nat id := held]> |>)
  end.

Fixpoint drain_run (ops : list drain_op) (d : drain_engine) : option drain_engine :=
  match ops with
  | [] => Some d
  | op :: ops => let! d := drain_exec d op in drain_run ops d
  end.

Definition dop_wf (op : drain_op) : Prop :=
  match op with
  | dop_leg op => lop_wf op
  | dop_admit _ id _ => length id = 16%nat
  | _ => True
  end.
