(* ===== verification/DrainInv.v ===== *)
(** * Coordinated drain: invariant

    What holds of one engine in every state it can reach while legs are drained: the
    invariants of the legs and of the records still hold, at most one operation is in
    charge of a leg, the leg of an operation past COMMIT is never used again, and
    every message sent says what its operation has done. *)

From S2P Require Import Prelude Bytes Wire Hello PathProtocol RxWindow TxLedger TxInv TxQueue TxLane Repair RttCache Legs LegsInv LegPath Drain.
From stdpp Require Import options.
#[local] Open Scope Z_scope.

(** ** Steps that do not touch the drain flags *)

Definition kept (l l' : streamLeg) : Prop :=
  sl_id l' = sl_id l /\ sl_draining l' = sl_draining l /\ sl_drainEnabled l' = sl_drainEnabled l /\
  sl_drainBinding l' = sl_drainBinding l /\ (sl_closed l = true -> sl_closed l' = true).

(** Legs keep their identity and their drain flag, do not open again, and do not come
    back into the registry; a finished session stays finished. *)
Record eng_kept (e e' : StreamEngine) : Prop := {
  ek_heap : forall p l, se_heap e !! p = Some l -> exists l', se_heap e' !! p = Some l' /\ kept l l' /\
    (se_legs e' !! sl_id l = Some p -> se_legs e !! sl_id l = Some p);
  ek_done : se_done e = true -> se_done e' = true;
  ek_cfg : se_cfg e' = se_cfg e
}.

Lemma kept_refl l : kept l l.
Proof. done. Qed.
Lemma kept_trans l1 l2 l3 : kept l1 l2 -> kept l2 l3 -> kept l1 l3.
Proof. unfold kept. naive_solver congruence. Qed.

Lemma eng_kept_refl e : eng_kept e e.
Proof. constructor; [|done|done]. intros p l Hl. by exists l. Qed.
Lemma eng_kept_trans e1 e2 e3 : eng_kept e1 e2 -> eng_kept e2 e3 -> eng_kept e1 e3.
Proof.
  intros [A1 A2 A3] [B1 B2 B3]. constructor; [|auto|congruence]. intros p l Hl.
  destruct (A1 _ _ Hl) as (l2 & Hl2 & K2 & R2). destruct (B1 _ _ Hl2) as (l3 & Hl3 & K3 & R3).
  exists l3. split_and!; [done|by eapply kept_trans|]. destruct K2 as (E & _). rewrite E in R3. auto.
Qed.

(** The registry only shrinks, and one leg changes. *)
Lemma kept_upd e e' p f :
  se_heap e' = alter f p (se_heap e) -> (forall l, se_heap e !! p = Some l -> kept l (f l)) ->
  (forall id q, se_legs e' !! id = Some q -> se_legs e !! id = Some q) ->
  (se_done e = true -> se_done e' = true) -> se_cfg e' = se_cfg e -> eng_kept e e'.
Proof.
  intros EH HF HR HD HC. constructor; [|done|done]. intros q m Hm. rewrite EH.
  destruct (decide (p = q)) as [<-|Hne].
  - exists (f m). rewrite lookup_alter_eq, Hm. auto.
  - exists m. rewrite lookup_alter_ne by done. by auto using kept_refl.
Qed.
Lemma kept_same e e' :
  se_heap e' = se_heap e -> (forall id q, se_legs e' !! id = Some q -> se_legs e !! id = Some q) ->
  (se_done e = true -> se_done e' = true) -> se_cfg e' = se_cfg e -> eng_kept e e'.
Proof.
  intros EH HR HD HC. constructor; [|done|done]. intros q m Hm. rewrite EH. exists m. by auto using kept_refl.
Qed.

Lemma core_kept l l' : core l' = core l -> kept l l'.
Proof. destruct l, l'. unfold core, kept. simpl. intros [=]. by subst. Qed.

Lemma data_kept b e e' : data_step b e e' -> eng_kept e e'.
Proof.
  intros (h & tx & a & -> & HS & _). constructor; [|done|done]. intros p l Hl. simpl.
  destruct (same_heap_l _ _ _ _ HS Hl) as (l' & Hl' & Hc%core_kept). by exists l'.
Qed.

Lemma leg_close_kept err l : kept l (leg_close err l).
Proof. unfold leg_close. by destruct (sl_closed l) eqn:E. Qed.

Lemma failure_kept e p err : eng_kept e (handleLegFailure e p err).
Proof.
  unfold handleLegFailure. destruct (se_heap e !! p) as [l|] eqn:Hl; [|apply eng_kept_refl].
  destruct (sl_pathRTTEnabled l); simpl; case_bool_decide;
    (eapply (kept_upd _ _ p (leg_close err)); [done|intros; apply leg_close_kept| |done|done]; simpl; try done);
    intros id q [_ ?]%lookup_delete_Some; done.
Qed.

Lemma failWith_kept e err app : eng_kept e (failWithAppClose e err app).
Proof. unfold failWithAppClose. simpl. destruct (se_done e) eqn:E; by apply kept_same. Qed.

Lemma attach_kept n e id auth prior clock :
  engine_inv n e -> eng_kept e (attachLeg e id auth prior clock).2.
Proof.
  intros HI. destruct (attach_cases e id auth prior clock) as (_ & _ & _ & HC).
  assert (se_done (attachLeg e id auth prior clock).2 = se_done e /\
          se_cfg (attachLeg e id auth prior clock).2 = se_cfg e) as [ED EC].
  { unfold attachLeg. repeat (case_match; try done); simplify_eq; cbn;
      unfold attach_path, attach_drain in *; repeat (case_match; simplify_eq; try done). }
  destruct HC as [[EH EL]|(l & EH & EL & HN & _)]; [apply kept_same; [done|by rewrite EL|by rewrite ED|done]|].
  constructor; [|by rewrite ED|done]. intros p m Hm. exists m. destruct (ei_placed _ _ HI _ _ Hm) as [_ _ Hf _ _ _].
  rewrite EH, EL, lookup_insert_ne by lia. split_and!; [done|done|].
  intros [[_ E]|[_ ?]]%lookup_insert_Some; [lia|done].
Qed.

Lemma retire_leg_kept e p : eng_kept e (retire_leg e p).
Proof.
  unfold retire_leg. destruct (se_heap e !! p) as [l|]; [|apply eng_kept_refl].
  by case_bool_decide; apply (kept_upd _ _ p (fun l => l <| sl_retired := true |>)).
Qed.

Lemma leg_step_kept n e op e' : engine_inv n e -> leg_exec e op = Some e' -> eng_kept e e'.
Proof.
  intros HI.
  assert (forall x, se_heap x = se_heap e -> se_legs x = se_legs e -> se_done x = se_done e -> se_cfg x = se_cfg e ->
    eng_kept e x) as HS by (intros x E1 E2 E3 E4; apply kept_same; [done|by rewrite E2|by rewrite E3|done]).
  destruct op; cbn [leg_exec].
  - intros [= <-]. by eapply attach_kept.
  - case_bool_decide; [|done]. intros [= <-]. by apply HS.
  - destruct (se_heap e !! p); [|done]. intros [= <-]. apply failure_kept.
  - destruct (se_failing e !! k) as [f|] eqn:Hk; [|done]. simpl. case_bool_decide; [|done]. intros [= <-].
    unfold failure_invalidate. simpl. case_match; by apply HS.
  - destruct (se_failing e !! k) as [f|] eqn:Hk; [|done]. simpl. case_bool_decide; [|done]. intros [= <-].
    unfold failure_notify. simpl. repeat case_match; by apply HS.
  - destruct (se_heap e !! p) as [l|] eqn:Hl; [|done]. simpl. case_bool_decide; [|done]. intros [= <-].
    by apply (kept_upd _ _ p (fun l => l <| sl_workers ::= Z.pred |>)).
  - destruct (se_heap e !! p) as [l|] eqn:Hl; [|done]. simpl. case_match; [|done].
    intros [= <-]. apply retire_leg_kept.
  - destruct (se_timers e !! k); [|done]. simpl. intros [= <-]. unfold failIfNoLegRecovers, fail.
    case_match; [|by apply HS]. eapply eng_kept_trans; [|apply failWith_kept]. by apply HS.
  - intros [= <-]. apply failWith_kept.
  - intros [= <-]. eapply eng_kept_trans; [|apply failWith_kept]. by apply HS.
  - destruct (se_shutdown e) as [|p rest]; [done|]. destruct (se_closeErr e) as [err|]; [|done]. intros [= <-].
    apply (kept_upd _ _ p (leg_close err)); try done. intros. apply leg_close_kept.
  - intros [= <-]. unfold StartGracefulClose. simpl. destruct (se_graceful e || se_done e); by apply HS.
  - intros [= <-]. by apply HS.
  - destruct (se_closer e) as [[err []]|]; [|done..]. case_match; [|done]. intros [= <-].
    unfold closer_drained, beginFinalizing. destruct (se_done e) eqn:E; apply HS; try done.
  - destruct (se_closer e) as [[err []]|]; [|done..]. intros [= <-].
    eapply eng_kept_trans; [apply (failWith_kept e errDrainStalled true)|]. by apply kept_same.
  - destruct (se_closer e) as [[err []]|]; [done| |done]. intros [= <-]. unfold closer_sent, finishGracefulClose, fail.
    destruct ok; [case_bool_decide|];
      (match goal with |- eng_kept _ (update se_closer _ ?x) => apply (eng_kept_trans _ x) end;
       [apply failWith_kept|by apply kept_same]).
  - intros [= <-]. by apply HS.
  - case_match; [|done]. intros E. apply bind_Some in E as (tx & _ & [= <-]). by apply HS.
  - case_match; [|done]. intros [= <-]. by apply HS.
  - intros [= <-]. eapply data_kept, tryQueue_data.
  - intros [= <-]. eapply data_kept, tryQueueRescue_data.
  - intros [= <-]. eapply data_kept, dispatch_claim_data.
  - intros E. by eapply data_kept, dispatch_select_data.
  - intros [= <-]. eapply data_kept, dispatch_finish_data.
  - intros E. by eapply data_kept, take_send_data.
  - intros E. by eapply data_kept, take_rescue_data.
  - intros E. by eapply data_kept, writeAttempt_data.
  - intros E. by eapply data_kept, write_return_data.
  - intros E. destruct (write_commit_data _ _ _ _ _ E) as (e1 & H1 & [->| ->]); [by eapply data_kept|].
    eapply eng_kept_trans; [by eapply data_kept|apply failure_kept].
Qed.

(** ** Invariant *)

(** The leg carries no new data any more, for a reason other than its drain flag. *)
Definition gone (e : StreamEngine) (p : lptr) (l : streamLeg) : Prop :=
  sl_closed l = true \/ se_legs e !! sl_id l <> Some p \/ se_done e = true.

(** The goroutine is still in charge of its leg. *)
Definition owns (pc : drain_pc) : bool := match pc with CSend _ | DrainDone _ => false | _ => true end.

(** The operation has gone through the handshake to its end. *)
Definition success (op : streamDrainOperation) : bool :=
  if do_initiator op then do_commitAck op else do_commitRequested op.

Definition flags_ok (op : streamDrainOperation) : Prop :=
  (do_commitAck op = true -> do_initiator op = true /\ do_commitSent op = true) /\
  (do_commitSent op = true -> do_initiator op = true) /\
  (do_commitRequested op = true -> do_initiator op = false).

Definition pc_ok (e : StreamEngine) (op : streamDrainOperation) (l : streamLeg) (pc : drain_pc) : Prop :=
  match pc with
  | ISendIntent | ITop | IRead | ICheck _ _ | IReady | ISendReady _ | IReadySent _ | IMaybeCommit _
  | IRead2 | ISelect _ _ => do_initiator op = true
  | IComplete _ _ | IComplete2 _ _ => do_initiator op = true /\ do_commitAck op = true
  | ISendCommit => do_initiator op = true /\ do_commitSent op = true
  | RTop _ | RLeg _ | RLock _ | RSelect _ | RTimeout => do_initiator op = false
  | RSend _ kind v => do_initiator op = false /\ kind = responder_kind v /\
      (rv_commitRequested v = true -> do_commitRequested op = true)
  | RRetire _ v => do_initiator op = false /\
      (rv_commitRequested v = true -> do_commitRequested op = true)
  | XClose => success op = true /\ gone e (do_target op) l
  | XFinish err _ => (err = None -> success op = true) /\ gone e (do_target op) l
  | _ => True
  end.

(** The identity an operation has on both ends. *)
Definition op_key (op : streamDrainOperation) : bytes * bytes * Z :=
  (do_operationID op, do_targetBinding op, do_counter op).
Definition msg_key (m : StreamDrainMessage) : bytes * bytes * Z :=
  (dr_OperationID m, dr_TargetBinding m, dr_Counter m).

(** What an operation has done when it has sent a message. *)
Definition sent_for (op : streamDrainOperation) (m : StreamDrainMessage) : Prop :=
  msg_key m = op_key op /\
  (dr_Kind m = StreamDrainIntent -> do_initiator op = true) /\
  (dr_Kind m = StreamDrainCommit -> do_commitSent op = true) /\
  (dr_Kind m = StreamDrainCommitAck -> do_commitRequested op = true).

Record op_inv (d : drain_engine) (o : optr) (op : streamDrainOperation) : Prop := {
  ov_fresh : o < dn_fresh d;
  ov_flags : flags_ok op;
  ov_thread : exists l pc, se_heap (dn_engine d) !! do_target op = Some l /\ dn_pcs d !! o = Some pc /\
    pc_ok (dn_engine d) op l pc /\
    (owns pc = true -> dn_drainOps d !! sl_id l = Some o /\ do_finished op = false) /\
    (committed op = true -> gone (dn_engine d) (do_target op) l \/ owns pc = true) /\
    (do_finished op = true -> do_terminalErr op = None -> success op = true)
}.

Record drain_rest (d : drain_engine) : Prop := {
  dv_ops : forall o op, dn_ops d !! o = Some op -> op_inv d o op;
  dv_active : forall id o, dn_drainOps d !! id = Some o ->
    exists op l pc, dn_ops d !! o = Some op /\ se_heap (dn_engine d) !! do_target op = Some l /\
      sl_id l = id /\ dn_pcs d !! o = Some pc /\ owns pc = true /\
      (sl_draining l = true \/ gone (dn_engine d) (do_target op) l);
  dv_log : forall m w, (m, w) ∈ dn_sent d -> exists o op, dn_ops d !! o = Some op /\ sent_for op m
}.

Record drain_inv (n : Z) (d : drain_engine) : Prop := {
  di_engine : engine_inv n (dn_engine d);
  di_path : path_inv (dn_engine d);
  di_rest : drain_rest d
}.

Lemma gone_kept e e' p l l' :
  kept l l' -> (se_legs e' !! sl_id l = Some p -> se_legs e !! sl_id l = Some p) ->
  (se_done e = true -> se_done e' = true) -> gone e p l -> gone e' p l'.
Proof. intros (K1 & _ & _ & _ & K5) HR HD. unfold gone. rewrite K1. naive_solver. Qed.

Lemma success_committed op : flags_ok op -> success op = true -> committed op = true.
Proof.
  intros (F1 & F2 & F3). unfold success, committed. destruct (do_initiator op) eqn:E.
  - intros H. destruct (F1 H) as [_ ->]. done.
  - intros ->. apply orb_true_r.
Qed.

(** The engine moves on, the operations stay. *)
Lemma rest_engine d e' :
  drain_rest d -> eng_kept (dn_engine d) e' -> drain_rest (d <| dn_engine := e' |>).
Proof.
  intros [A B C] [K1 K2 K3]. constructor; simpl; [| |done].
  - intros o op Ho. destruct (A _ _ Ho) as [F1 F2 (l & pc & Hl & Hpc & O1 & O2 & O3 & O4)].
    destruct (K1 _ _ Hl) as (l' & Hl' & HK & HR). pose proof HK as (E1 & _).
    pose proof (gone_kept _ _ _ _ _ HK HR K2) as HG.
    constructor; simpl; [done|done|]. exists l', pc. rewrite E1. split_and!; [done|done| |done| |done].
    + destruct pc; simpl in *; naive_solver.
    + intros Hc. destruct (O3 Hc); auto.
  - intros id o Ho. destruct (B _ _ Ho) as (op & l & pc & H1 & H2 & H3 & H4 & H5 & H6).
    destruct (K1 _ _ H2) as (l' & Hl' & HK & HR). pose proof (gone_kept _ _ _ _ _ HK HR K2) as HG.
    destruct HK as (E1 & E2 & _). exists op, l', pc. rewrite E1, E2. split_and!; try done. naive_solver.
Qed.

(** An operation that is still in charge changes, and its goroutine moves. *)
Definition op_moves (op op' : streamDrainOperation) : Prop :=
  do_target op' = do_target op /\ op_key op' = op_key op /\ do_initiator op' = do_initiator op /\
  (do_commitSent op = true -> do_commitSent op' = true) /\
  (do_commitRequested op = true -> do_commitRequested op' = true).

Lemma op_moves_refl op : op_moves op op.
Proof. done. Qed.

Lemma sent_moves op op' m : op_moves op op' -> sent_for op m -> sent_for op' m.
Proof.
  intros (M1 & M2 & M3 & M4 & M5) (S1 & S2 & S3 & S4). unfold sent_for. rewrite M2, M3. naive_solver.
Qed.

Lemma rest_thread d d' o op l pc op' pc' log :
  drain_rest d -> dn_ops d !! o = Some op -> se_heap (dn_engine d) !! do_target op = Some l ->
  dn_pcs d !! o = Some pc -> owns pc = true ->
  op_moves op op' -> flags_ok op' -> do_finished op' = do_finished op ->
  owns pc' = true -> pc_ok (dn_engine d) op' l pc' ->
  Forall (fun mw => sent_for op' mw.1) log ->
  dn_engine d' = dn_engine d -> dn_ops d' = <[o := op']> (dn_ops d) ->
  dn_pcs d' = <[o := pc']> (dn_pcs d) -> dn_fresh d' = dn_fresh d -> dn_drainOps d' = dn_drainOps d ->
  dn_sent d' = dn_sent d ++ log -> drain_rest d'.
Proof.
  intros [A B C] Ho Hl Hpc Hown HM HF Hfin Hown' Hok Hlog E1 E2 E3 E4 E5 E6.
  destruct (A _ _ Ho) as [F1 F2 (l0 & pc0 & G1 & G2 & O1 & O2 & O3 & O4)]. simplify_eq.
  destruct (O2 Hown) as [O2a O2b]. pose proof HM as (M1 & _). constructor.
  - intros o2 op2. rewrite E2. intros [[<- <-]|[Hne Ho2]]%lookup_insert_Some.
    + constructor; [by rewrite E4|done|]. exists l, pc'. rewrite E1, E3, E5, M1, lookup_insert_eq.
      split_and!; try done; [by rewrite Hfin|by right|]. by rewrite Hfin, O2b.
    + destruct (A _ _ Ho2) as [N1 N2 N3]. constructor; [by rewrite E4|done|].
      destruct N3 as (l2 & pc2 & ?). exists l2, pc2. by rewrite E1, E3, E5, lookup_insert_ne.
  - rewrite E5, E1. intros id o2 Hid. destruct (B _ _ Hid) as (op2 & l2 & pc2 & H1 & H2 & H3 & H4 & H5 & H6).
    destruct (decide (o = o2)) as [<-|Hne].
    + simplify_eq. exists op', l, pc'. rewrite E2, E3, !lookup_insert_eq, M1. done.
    + exists op2, l2, pc2. rewrite E2, E3, !lookup_insert_ne by done. done.
  - intros m w. rewrite E6, E2. intros [Hm|Hm]%elem_of_app.
    + destruct (C _ _ Hm) as (o2 & op2 & H1 & H2). destruct (decide (o = o2)) as [<-|Hne].
      * simplify_eq. exists o, op'. rewrite lookup_insert_eq. split; [done|]. by eapply sent_moves.
      * exists o2, op2. by rewrite lookup_insert_ne.
    + rewrite Forall_forall in Hlog. specialize (Hlog _ Hm). exists o, op'. by rewrite lookup_insert_eq.
Qed.

Lemma rest_goto d o op l pc pc' log :
  drain_rest d -> dn_ops d !! o = Some op -> se_heap (dn_engine d) !! do_target op = Some l ->
  dn_pcs d !! o = Some pc -> owns pc = true -> owns pc' = true -> pc_ok (dn_engine d) op l pc' ->
  Forall (fun mw => sent_for op mw.1) log ->
  drain_rest (goto o pc' (d <| dn_sent ::= fun s => s ++ log |>)).
Proof.
  intros HD Ho Hl Hpc Hown Hown' Hok Hlog.
  eapply (rest_thread d _ o op l pc op pc' log); try done; [|simpl; by rewrite insert_id].
  apply (ov_flags _ _ _ (dv_ops _ HD _ _ Ho)).
Qed.

Lemma rest_next d o op l pc pc' :
  drain_rest d -> dn_ops d !! o = Some op -> se_heap (dn_engine d) !! do_target op = Some l ->
  dn_pcs d !! o = Some pc -> owns pc = true -> owns pc' = true -> pc_ok (dn_engine d) op l pc' ->
  drain_rest (goto o pc' d).
Proof.
  intros HD Ho Hl Hpc Hown Hown' Hok.
  eapply (rest_thread d _ o op l pc op pc' []); try done; [|simpl; by rewrite insert_id|simpl; by rewrite app_nil_r].
  apply (ov_flags _ _ _ (dv_ops _ HD _ _ Ho)).
Qed.

(** Sending: everything that reaches a carrier is the one message. *)
Lemma send_control_log e m out causes ps :
  Forall (fun mw => mw.1 = m) (send_control e m out causes ps).2.
Proof.
  revert causes. induction ps as [|p ps IH]; intros causes; simpl; [constructor|].
  destruct (EncodeDrainMessage _ m); [|apply IH].
  destruct (out p); try apply IH; try (by repeat constructor);
    specialize (IH true); destruct (send_control _ _ _ _ _); by constructor.
Qed.

Lemma sendDrainMessage_log d op l kind now out res d' :
  sendDrainMessage d op l kind now out = (res, d') ->
  exists log, d' = d <| dn_sent ::= fun s => s ++ log |> /\
    Forall (fun mw => mw.1 = makeDrainMessage d op l kind now) log.
Proof.
  unfold sendDrainMessage.
  pose proof (send_control_log (dn_engine d) (makeDrainMessage d op l kind now) out false
    (drain_carriers (dn_engine d) (sl_id l))) as H.
  destruct (send_control _ _ _ _ _) as [r log]. intros [= <- <-]. by exists log.
Qed.

Lemma make_sent_for d op l kind now :
  (kind = StreamDrainIntent -> do_initiator op = true) ->
  (kind = StreamDrainCommit -> do_commitSent op = true) ->
  (kind = StreamDrainCommitAck -> do_commitRequested op = true) ->
  sent_for op (makeDrainMessage d op l kind now).
Proof. intros. by split_and!. Qed.

(** An operation ends: it gives up its leg, which may be opened again. *)
Lemma rest_end d o op l pc err restore d' ret :
  drain_rest d -> dn_ops d !! o = Some op -> se_heap (dn_engine d) !! do_target op = Some l ->
  dn_pcs d !! o = Some pc -> owns pc = true ->
  (restore = true -> committed op = false) ->
  (committed op = true -> gone (dn_engine d) (do_target op) l) ->
  (err = None -> success op = true) ->
  drain_end d o (do_target op) l err restore = Some d' -> drain_rest (goto o (DrainDone ret) d').
Proof.
  intros [A B C] Ho Hl Hpc Hown Hres Hcom Herr. unfold drain_end.
  set (reopen := restore && is_current (dn_engine d) (do_target op) l && negb (sl_closed l)).
  case_match; [done|].
  assert (exists e', dn_engine (if reopen then upd_target (do_target op) (fun l => l <| sl_draining := false |>) d else d) = e' /\
    se_legs e' = se_legs (dn_engine d) /\ se_done e' = se_done (dn_engine d) /\
    (forall q m, se_heap (dn_engine d) !! q = Some m -> exists m', se_heap e' !! q = Some m' /\
      sl_id m' = sl_id m /\ sl_closed m' = sl_closed m /\ (q <> do_target op -> m' = m))) as (e' & Ee & EL & ED & EH).
  { destruct reopen; eexists; (split; [reflexivity|]); [|by eauto 10].
    split_and!; [done..|]. intros q m Hm. simpl. destruct (decide (do_target op = q)) as [<-|Hne].
    - rewrite lookup_alter_eq, Hm. eexists. done.
    - rewrite lookup_alter_ne by done. by exists m. }
  set (d1 := if reopen then _ else d) in *.
  assert (dn_ops d1 = dn_ops d /\ dn_pcs d1 = dn_pcs d /\ dn_fresh d1 = dn_fresh d /\
    dn_drainOps d1 = dn_drainOps d /\ dn_sent d1 = dn_sent d) as (X1 & X2 & X3 & X4 & X5)
    by (unfold d1; by destruct reopen).
  clearbody d1. destruct (A _ _ Ho) as [F1 F2 (l0 & pc0 & G1 & G2 & O1 & O2 & O3 & O4)]. simplify_eq.
  destruct (O2 Hown) as [O2a O2b]. simpl. rewrite X4, (bool_decide_eq_true_2 _ O2a). intros [= <-].
  set (op' := op <| do_terminalErr := err |> <| do_finished := true |>).
  assert (forall q m m', se_heap (dn_engine d) !! q = Some m -> sl_id m' = sl_id m -> sl_closed m' = sl_closed m ->
    gone (dn_engine d) q m -> gone (dn_engine d1) q m') as HG.
  { intros q m m' Hm Hi Hc. unfold gone. by rewrite Hi, Hc, EL, ED. }
  constructor; simpl; rewrite ?X1, ?X2, ?X3, ?X4, ?X5.
  - intros o2 op2. destruct (decide (o = o2)) as [<-|Hne].
    + rewrite lookup_alter_eq, Ho. intros [= <-]. constructor; simpl; [by rewrite X3|done|].
      destruct (EH _ _ Hl) as (l' & Hl' & I1 & I2 & _). exists l', (DrainDone ret).
      rewrite X2, lookup_insert_eq, I1. split_and!; try done.
      intros Hc. left. eapply HG; [exact Hl|done..|]. by apply Hcom.
    + rewrite lookup_alter_ne by done. intros Ho2. destruct (A _ _ Ho2) as [N1 N2 (l2 & pc2 & N3 & N4 & N5 & N6 & N7 & N8)].
      constructor; simpl; [by rewrite X3|done|]. destruct (EH _ _ N3) as (l2' & Hl2' & I1 & I2 & _).
      exists l2', pc2. rewrite X2, X4, lookup_insert_ne, I1 by done. split_and!; try done.
      * destruct pc2; simpl in *; naive_solver.
      * intros Hw. destruct (N6 Hw) as [N6a N6b]. rewrite lookup_delete_ne; [done|]. intros E. rewrite <- E in N6a. congruence.
      * intros Hc. destruct (N7 Hc) as [N|N]; [left|by right]. by eapply HG.
  - intros id o2 [Hne Hid]%lookup_delete_Some. destruct (B _ _ Hid) as (op2 & l2 & pc2 & H1 & H2 & H3 & H4 & H5 & H6).
    assert (o <> o2) as Hoo by (intros <-; simplify_eq).
    assert (do_target op2 <> do_target op) as Htt by (intros E; rewrite E in H2; simplify_eq).
    exists op2, l2, pc2. rewrite lookup_alter_ne, lookup_insert_ne by done.
    destruct (EH _ _ H2) as (l2' & Hl2' & I1 & I2 & I3). rewrite (I3 Htt) in Hl2'.
    split_and!; try done. destruct H6 as [H6|H6]; [by left|right]. by eapply HG.
  - intros m w Hm. destruct (C _ _ Hm) as (o2 & op2 & H1 & H2). destruct (decide (o = o2)) as [<-|Hne].
    + exists o, op'. rewrite lookup_alter_eq, Ho. simplify_eq. done.
    + exists o2, op2. by rewrite lookup_alter_ne.
Qed.

(** ** New operations *)

Definition fresh_op (op : streamDrainOperation) : Prop :=
  do_commitSent op = false /\ do_commitRequested op = false /\ do_commitAck op = false /\
  do_finished op = false.

Lemma rest_spawn d op pc l (take : bool) :
  drain_rest d -> fresh_op op -> se_heap (dn_engine d) !! do_target op = Some l ->
  pc_ok (dn_engine d) op l pc -> owns pc = take ->
  (take = true -> dn_drainOps d !! sl_id l = None /\ sl_draining l = true) ->
  drain_rest (spawn op pc (if take then d <| dn_drainOps ::= <[sl_id l := dn_fresh d]> |> else d)).
Proof.
  intros [A B C] (N1 & N2 & N3 & N4) Hl Hok Hown Htake.
  assert (forall o op2, dn_ops d !! o = Some op2 -> o <> dn_fresh d) as Hfr.
  { intros o op2 Ho ->. destruct (A _ _ Ho). lia. }
  set (d1 := if take then _ else d).
  assert (dn_ops d1 = dn_ops d /\ dn_pcs d1 = dn_pcs d /\ dn_fresh d1 = dn_fresh d /\
    dn_engine d1 = dn_engine d /\ dn_sent d1 = dn_sent d /\
    dn_drainOps d1 = if take then <[sl_id l := dn_fresh d]> (dn_drainOps d) else dn_drainOps d)
    as (X1 & X2 & X3 & X4 & X5 & X6) by (unfold d1; by destruct take).
  clearbody d1.
  assert (forall id o, dn_drainOps d !! id = Some o -> dn_drainOps d1 !! id = Some o) as HK.
  { intros id o Hid. rewrite X6. destruct take; [|done]. destruct (Htake eq_refl).
    rewrite lookup_insert_ne; [done|]. intros <-. congruence. }
  constructor; simpl; rewrite ?X1, ?X2, ?X3, ?X4, ?X5.
  - intros o op2 [[<- <-]|[Hne Ho2]]%lookup_insert_Some.
    + constructor; simpl; [rewrite X3; lia|split_and!; congruence|].
      exists l, pc. rewrite X2, X3, X4, lookup_insert_eq. split_and!; try done.
      * intros E. rewrite X6. rewrite Hown in E. subst take. by rewrite E, lookup_insert_eq.
      * unfold committed. by rewrite N1, N2.
      * by rewrite N4.
    + destruct (A _ _ Ho2) as [F1 F2 (l2 & pc2 & G1 & G2 & G3 & G4 & G5 & G6)].
      constructor; simpl; [rewrite X3; lia|done|]. exists l2, pc2.
      rewrite X2, X3, X4, lookup_insert_ne by done. split_and!; try done. naive_solver.
  - intros id o Hid. destruct (decide (dn_drainOps d !! id = Some o)) as [Hold|Hnew].
    + destruct (B _ _ Hold) as (op2 & l2 & pc2 & H1 & H2 & H3 & H4 & H5 & H6).
      exists op2, l2, pc2. assert (o <> dn_fresh d) by (by eapply Hfr).
      by rewrite !lookup_insert_ne.
    + rewrite X6 in Hid. destruct take; [|done]. apply lookup_insert_Some in Hid as [[<- <-]|[_ Hid]]; [|done].
      exists op, l, pc. rewrite !lookup_insert_eq. destruct (Htake eq_refl). split_and!; try done. by left.
  - intros m w Hm. destruct (C _ _ Hm) as (o & op2 & H1 & H2). exists o, op2.
    rewrite lookup_insert_ne; [done|]. intros E. by apply (Hfr _ _ H1).
Qed.

(** The drain flag goes up. *)
Lemma rest_draining d p :
  drain_rest d -> drain_rest (upd_target p (fun l => l <| sl_draining := true |>) d).
Proof.
  intros [A B C].
  assert (forall q m, se_heap (dn_engine d) !! q = Some m -> exists m',
    alter (fun l => l <| sl_draining := true |>) p (se_heap (dn_engine d)) !! q = Some m' /\
    sl_id m' = sl_id m /\ sl_closed m' = sl_closed m /\ (sl_draining m = true -> sl_draining m' = true)) as HH.
  { intros q m Hm. destruct (decide (p = q)) as [<-|Hne].
    - rewrite lookup_alter_eq, Hm. eexists. by split_and!.
    - rewrite lookup_alter_ne by done. by exists m. }
  constructor; simpl; [| |done].
  - intros o op Ho. destruct (A _ _ Ho) as [F1 F2 (l & pc & G1 & G2 & G3 & G4 & G5 & G6)].
    destruct (HH _ _ G1) as (l' & Hl' & E1 & E2 & _). constructor; simpl; [done|done|]. exists l', pc.
    assert (gone (dn_engine d) (do_target op) l ->
      gone (dn_engine (upd_target p (fun l => l <| sl_draining := true |>) d)) (do_target op) l') as HG.
    { unfold gone. simpl. by rewrite E1, E2. }
    rewrite E1. split_and!; try done; [|naive_solver]. destruct pc; simpl in *; naive_solver.
  - intros id o Hid. destruct (B _ _ Hid) as (op & l & pc & H1 & H2 & H3 & H4 & H5 & H6).
    destruct (HH _ _ H2) as (l' & Hl' & E1 & E2 & E3). exists op, l', pc. unfold gone in *. simpl.
    rewrite E1, E2. split_and!; try done. naive_solver.
Qed.

Lemma rest_open d p l op pc :
  drain_rest d -> fresh_op op -> do_target op = p -> se_heap (dn_engine d) !! p = Some l ->
  dn_drainOps d !! sl_id l = None -> owns pc = true ->
  (forall e m, pc_ok e op m pc) ->
  drain_rest (spawn op pc (drain_open p l d)).
Proof.
  intros HD HF HT Hl HN Hown Hok. apply (rest_draining _ p) in HD.
  set (l' := l <| sl_draining := true |>).
  refine (rest_spawn _ op pc l' true HD HF _ (Hok _ _) Hown (fun _ => conj HN eq_refl)).
  simpl. by rewrite HT, lookup_alter_eq, Hl.
Qed.

Lemma rest_counters d hw c :
  drain_rest d -> drain_rest (d <| dn_remoteHighWater := hw |> <| dn_operationCounter := c |>).
Proof.
  intros [A B C]. constructor; simpl; [|done|done]. intros o op Ho. by destruct (A _ _ Ho).
Qed.

(** ** Responses *)

Lemma pc_ok_moves e op op' l pc :
  op_moves op op' -> (do_commitAck op = true -> do_commitAck op' = true) ->
  pc_ok e op l pc -> pc_ok e op' l pc.
Proof.
  intros (M1 & M2 & M3 & M4 & M5) M6.
  assert (success op = true -> success op' = true) as HS.
  { unfold success. rewrite M3. destruct (do_initiator op); auto. }
  destruct pc; simpl; rewrite ?M1, ?M3; naive_solver.
Qed.

(** What a message may change in an operation. *)
Definition answered (m : StreamDrainMessage) (op op' : streamDrainOperation) : Prop :=
  op_moves op op' /\ do_finished op' = do_finished op /\
  (do_commitAck op = true -> do_commitAck op' = true) /\ do_commitSent op' = do_commitSent op /\
  (do_commitAck op' = true -> do_commitAck op = true \/
     dr_Kind m = StreamDrainCommitAck /\ do_initiator op = true /\ do_commitSent op = true) /\
  (do_commitRequested op' = true -> do_commitRequested op = true \/
     dr_Kind m = StreamDrainCommit /\ do_initiator op = false /\ do_localReady op = true /\
     do_peerReady op = true).

Lemma drain_response_answered op m op' : drain_response op m = Some op' -> answered m op op'.
Proof.
  unfold drain_response. intros E.
  repeat match type of E with
  | (if bool_decide ?P then _ else _) = _ => destruct (bool_decide_reflect P)
  | Some (if ?c then _ else _) = _ => destruct c eqn:?
  end; try done; injection E as <-;
  repeat match goal with H : _ && _ = true |- _ => apply andb_true_iff in H as [? ?] end;
  repeat match goal with H : negb _ = true |- _ => apply negb_true_iff in H end;
  unfold answered, op_moves; simpl; split_and!; auto 10.
Qed.

Lemma answered_flags m op op' : answered m op op' -> flags_ok op -> flags_ok op'.
Proof.
  intros ((M1 & M2 & M3 & M4 & M5) & A1 & A2 & A3 & A4 & A5) (F1 & F2 & F3). unfold flags_ok.
  rewrite A3, M3. naive_solver.
Qed.

Lemma rest_answer d o op m op' :
  drain_rest d -> (exists id, dn_drainOps d !! id = Some o) -> dn_ops d !! o = Some op -> answered m op op' ->
  drain_rest (d <| dn_ops ::= <[o := op']> |>).
Proof.
  intros HD [id Hid] Ho HA. destruct (dv_active _ HD _ _ Hid) as (op1 & l & pc & H1 & H2 & H3 & H4 & H5 & H6).
  simplify_eq. destruct (dv_ops _ HD _ _ Ho) as [F1 F2 (l0 & pc0 & G1 & G2 & O1 & O2 & O3 & O4)]. simplify_eq.
  pose proof HA as (M & A1 & A2 & _).
  eapply (rest_thread d _ o op l pc op' pc []); try done.
  - by eapply answered_flags.
  - by eapply pc_ok_moves.
  - simpl. by rewrite insert_id.
  - simpl. by rewrite app_nil_r.
Qed.

Lemma answered_refl m op : answered m op op.
Proof. unfold answered, op_moves. split_and!; auto. Qed.

Lemma drain_matches_key op l m : drain_matches op l m = true -> op_key op = msg_key m.
Proof.
  unfold drain_matches. rewrite !andb_true_iff, !bool_decide_eq_true.
  intros ((((((_ & _) & E1) & E2) & E3) & _) & _). unfold op_key, msg_key. congruence.
Qed.

(** A response changes at most the operation in charge, and only one it names. *)
Lemma accept_response_cases d m res d' :
  accept_response d m = (res, d') ->
  d' = d \/ exists o op op', dn_drainOps d !! dr_TargetLeg m = Some o /\ dn_ops d !! o = Some op /\
    op_key op = msg_key m /\ answered m op op' /\ d' = d <| dn_ops ::= <[o := op']> |>.
Proof.
  unfold accept_response. destruct (dn_drainOps d !! dr_TargetLeg m) as [o|] eqn:Hid; [|intros [= _ <-]; by left].
  simpl. destruct (dn_ops d !! o) as [op|] eqn:Ho; [|intros [= _ <-]; by left]. simpl.
  destruct (se_heap (dn_engine d) !! do_target op) as [l|]; [|intros [= _ <-]; by left]. simpl.
  destruct (drain_matches op l m) eqn:Hm; simpl; [|intros [= _ <-]; by left].
  apply drain_matches_key in Hm. do 3 (case_match; [intros [= _ <-]; by left|]).
  destruct (drain_response _ m) as [op'|] eqn:Hr; intros [= _ <-]; right; exists o, op; eexists;
    split_and!; try done.
  - by apply drain_response_answered in Hr.
  - exact (answered_refl m op).
Qed.

(** ** The legs and the records during a drain *)

Lemma fold_count {A} (f : A -> bool) l n :
  fold_left (fun count x => if f x then count + 1 else count) l n = n + slen (List.filter f l).
Proof.
  revert n. induction l as [|x l IH]; intros n; simpl; [unfold slen; simpl; lia|]. rewrite IH.
  destruct (f x); unfold slen; simpl; lia.
Qed.

(** Nothing outstanding depends on the leg: no record is on a lane of it. *)
Lemma settled_no_lane tx id q b t :
  outstandingForLeg tx id = 0 -> lane tx q b <> Some (id, t).
Proof.
  unfold outstandingForLeg. rewrite fold_count. intros H0 Hl. unfold lane in Hl.
  destruct (current tx (Some q)) as [[p r]|] eqn:Hc; [|done].
  assert (r ∈ List.filter (depends_on id) (live_records tx)) as Hin.
  { apply list_elem_of_In, filter_In. split.
    - apply list_elem_of_In. unfold live_records. apply list_elem_of_fmap. exists (tr_sequence r, r).
      split; [done|]. apply elem_of_map_to_list. by eapply current_live.
    - unfold depends_on, lane_of in *. destruct b.
      + destruct (tr_rescueInTransit r); [|done]. injection Hl as -> _.
        rewrite (bool_decide_eq_true_2 (id = id)) by done. by rewrite !orb_true_r.
      + destruct (tr_inTransit r); [|done]. injection Hl as -> _.
        rewrite (bool_decide_eq_true_2 (id = id)) by done. by rewrite !orb_true_r. }
  destruct (List.filter _ _); [by apply not_elem_of_nil in Hin|]. unfold slen in H0. simpl in H0. lia.
Qed.

(** Raising or lowering the drain flag of a leg. *)
Lemma flag_inv n e p l b :
  engine_inv n e -> se_heap e !! p = Some l -> (b = false -> se_legs e !! sl_id l = Some p) ->
  engine_inv n (upd_leg p (fun l => l <| sl_draining := b |>) e).
Proof.
  intros HI Hl Hb. apply leg_upd_inv; [done|]. intros m Hm. simplify_eq.
  destruct (ei_placed _ _ HI _ _ Hl). repeat split; try done; simpl; try lia.
  unfold open_leg. simpl. intros Hreg%bool_decide_eq_false. destruct b; [by rewrite andb_false_r|].
  by destruct (Hreg (Hb eq_refl)).
Qed.
Lemma flag_path e p b :
  path_inv e -> path_inv (upd_leg p (fun l => l <| sl_draining := b |>) e).
Proof.
  intros HP. eapply (path_leg e _ p (fun l => l <| sl_draining := b |>)); [done..| |done|done].
  intros l Hl. by split_and!.
Qed.

(** A quiet leg leaves the registry. *)
Lemma unregister_nil e p id :
  unregister e p id [] = e <| se_legs ::= delete id |> <| se_retiring ::= <[id := p]> |>.
Proof. destruct e. unfold unregister, update. cbn. f_equal. apply app_nil_r. Qed.

Lemma retire_path n e p l :
  engine_inv n e -> path_inv e -> se_heap e !! p = Some l -> se_legs e !! sl_id l = Some p ->
  sl_dispatch l = [] -> outstandingForLeg (se_txLedger e) (sl_id l) = 0 ->
  path_inv (unregister e p (sl_id l) []).
Proof.
  intros HI HP Hl Hreg Hd Hz. rewrite unregister_nil.
  assert (forall q m, q <> p -> se_legs e !! sl_id m = Some q -> delete (sl_id l) (se_legs e) !! sl_id m = Some q) as HR.
  { intros q m Hne Hq. rewrite lookup_delete_ne; [done|]. intros E. rewrite <- E in Hq. congruence. }
  apply (path_general e); [done|apply shrink_refl| |].
  - intros q m Hm. exists m. split_and!; [done|done|]. intros (x & b & t & Hlane). simpl in Hlane.
    destruct (decide (q = p)) as [->|Hne].
    + simplify_eq. by apply settled_no_lane in Hlane.
    + intros [HU|HU]; [left; by apply HR|by right].
  - intros q m Hm Hdm Hc. simpl in *. destruct (decide (q = p)) as [->|Hne]; [simplify_eq|].
    apply HR; [done|]. by apply (pv_open _ HP).
Qed.

Lemma close_quietly_kept l : kept l (close_quietly l).
Proof. unfold close_quietly. by destruct (sl_closed l) eqn:E. Qed.

Lemma retire_close_ok n e p l :
  engine_inv n e -> path_inv e -> se_heap e !! p = Some l ->
  engine_inv n (retire_close p l e) /\ path_inv (retire_close p l e) /\ eng_kept e (retire_close p l e).
Proof.
  intros HI HP Hl. unfold retire_close. split_and!.
  - pose proof (cache_drop_inv _ _ _ _ HI Hl) as HI2. apply leg_upd_inv; [exact HI2|].
    intros m Hm. destruct (ei_placed _ _ HI2 _ _ Hm). unfold close_quietly.
    destruct (sl_closed m) eqn:E; repeat split; try done; simpl; lia.
  - assert (path_inv (if sl_pathRTTEnabled l
      then e <| se_pathRTTCache ::= fmap (fun c => (invalidateLeg c (sl_pathBinding l)).2) |> else e)) as HP2.
    { destruct (sl_pathRTTEnabled l); [|done]. by apply (path_shutdown e). }
    eapply (path_leg _ _ p close_quietly); [exact HP2|done..| |done|done].
    intros m Hm. unfold close_quietly. destruct (sl_closed m) eqn:E; by split_and!.
  - apply (kept_upd _ _ p close_quietly); try (by destruct (sl_pathRTTEnabled l)).
    intros. apply close_quietly_kept.
Qed.

(** ** The goroutines *)

Lemma upd_op_insert d o op f :
  dn_ops d !! o = Some op -> upd_op o f d = d <| dn_ops ::= <[o := f op]> |>.
Proof.
  intros Ho. destruct d as [x1 ops x3 x4 x5 x6 x7 x8 x9 x10]. unfold upd_op, update. simpl in *. f_equal.
  apply map_eq. intros i. destruct (decide (o = i)) as [<-|Hne].
  - by rewrite lookup_alter_eq, lookup_insert_eq, Ho.
  - by rewrite lookup_alter_ne, lookup_insert_ne.
Qed.

Lemma rest_sent d o op l pc pc' kind now out res d1 :
  drain_rest d -> dn_ops d !! o = Some op -> se_heap (dn_engine d) !! do_target op = Some l ->
  dn_pcs d !! o = Some pc -> owns pc = true ->
  sendDrainMessage d op l kind now out = (res, d1) ->
  (kind = StreamDrainIntent -> do_initiator op = true) ->
  (kind = StreamDrainCommit -> do_commitSent op = true) ->
  (kind = StreamDrainCommitAck -> do_commitRequested op = true) ->
  owns pc' = true -> pc_ok (dn_engine d) op l pc' ->
  drain_rest (goto o pc' d1) /\ dn_engine d1 = dn_engine d.
Proof.
  intros HD Ho Hl Hpc Hown (log & -> & Hlog)%sendDrainMessage_log K1 K2 K3 Hown' Hok. split; [|done].
  eapply rest_goto; try done. eapply Forall_impl; [exact Hlog|]. intros mw ->. by apply make_sent_for.
Qed.

(** The goroutine that answers a conflicting intent. *)
Lemma rest_conflict d o op l carrier kind now out res d1 ret :
  drain_rest d -> dn_ops d !! o = Some op -> dn_pcs d !! o = Some (CSend carrier) ->
  sendDrainMessage d op l kind now out = (res, d1) -> kind = StreamDrainAbort ->
  drain_rest (goto o (DrainDone ret) d1) /\ dn_engine d1 = dn_engine d.
Proof.
  intros [A B C] Ho Hpc (log & -> & Hlog)%sendDrainMessage_log ->. split; [|done]. constructor; simpl.
  - intros o2 op2 Ho2. destruct (A _ _ Ho2) as [F1 F2 (l2 & pc2 & G1 & G2 & G3 & G4 & G5 & G6)].
    constructor; simpl; [done|done|]. destruct (decide (o = o2)) as [<-|Hne].
    + exists l2, (DrainDone ret). rewrite lookup_insert_eq. simplify_eq. by split_and!.
    + exists l2, pc2. by rewrite lookup_insert_ne.
  - intros id o2 Hid. destruct (B _ _ Hid) as (op2 & l2 & pc2 & H1 & H2 & H3 & H4 & H5 & H6).
    exists op2, l2, pc2. rewrite lookup_insert_ne; [done|]. intros <-. simplify_eq.
  - intros m w [Hm|Hm]%elem_of_app; [by apply C in Hm|]. exists o, op. split; [done|].
    rewrite Forall_forall in Hlog. specialize (Hlog _ Hm). simpl in Hlog. subst m. by apply make_sent_for.
Qed.

Lemma retireDrainedLeg_ok n d op l ok d1 :
  drain_inv n d -> se_heap (dn_engine d) !! do_target op = Some l ->
  retireDrainedLeg d (do_target op) l = Some (ok, d1) ->
  ok = false /\ d1 = d \/
  ok = true /\ exists e1, d1 = d <| dn_engine := e1 |> /\ engine_inv n e1 /\ path_inv e1 /\
    eng_kept (dn_engine d) e1 /\ se_heap e1 = se_heap (dn_engine d) /\ gone e1 (do_target op) l.
Proof.
  intros [HI HP _] Hl. unfold retireDrainedLeg. destruct (drainReady d (do_target op) l) eqn:Hr; simpl.
  2:{ intros [= <- <-]. by left. }
  destruct (bool_decide_reflect (sl_dispatch l <> [])) as [|Hdi%dec_stable]; [done|]. intros [= <- <-]. right.
  split; [done|]. unfold drainReady in Hr. case_match eqn:E1; [done|]. case_match eqn:E2; [done|].
  rewrite !orb_false_iff, !negb_false_iff in E1. destruct E1 as [[Hcl Hcur] Hdr].
  unfold is_current, getLeg in Hcur. apply bool_decide_eq_true in Hcur. apply negb_false_iff in E2.
  unfold leg_quiet in E2. rewrite !andb_true_iff, !bool_decide_eq_true in E2. destruct E2 as (_ & Hz).
  eexists. split; [reflexivity|]. rewrite <- unregister_nil. split_and!.
  - apply unregister_inv; try done; [|by intros ? ?%not_elem_of_nil|simpl; lia].
    unfold open_leg. rewrite Hdr. by rewrite andb_false_r.
  - by eapply retire_path.
  - rewrite unregister_nil. apply kept_same; try done. simpl. by intros id q [_ ?]%lookup_delete_Some.
  - done.
  - right. left. simpl. by rewrite lookup_delete_eq.
Qed.

Lemma not_current_gone e p l : sl_closed l || negb (is_current e p l) = true -> gone e p l.
Proof.
  rewrite orb_true_iff, negb_true_iff. unfold is_current, getLeg. rewrite bool_decide_eq_false.
  intros [?|?]; [by left|by right; left].
Qed.

(** After [ReplaceLeg] no leg with this identifier is registered. *)
Lemma ReplaceLeg_ok n e id err :
  engine_inv n e -> path_inv e -> let e' := (ReplaceLeg e id err).2 in
  engine_inv n e' /\ path_inv e' /\ eng_kept e e' /\ se_legs e' !! id = None.
Proof.
  intros HI HP. unfold ReplaceLeg. destruct (getLeg e id) as [q|] eqn:Hg; simpl.
  - unfold getLeg in Hg. destruct (ei_legs _ _ HI _ _ Hg) as (_ & m & Hm & Hid & _).
    split_and!; [by apply leg_failure_inv|by apply path_fail|apply failure_kept|].
    rewrite (handleLegFailure_unfold _ _ _ _ Hm). cbv zeta.
    destruct (failure_close_leg e q m err Hm) as [_ E]. rewrite E, Hid, bool_decide_eq_true_2 by done.
    simpl. by rewrite lookup_delete_eq.
  - split_and!; [done|done|apply eng_kept_refl|done].
Qed.

Lemma drain_end_engine n d o p l err restore d' :
  drain_inv n d -> se_heap (dn_engine d) !! p = Some l -> drain_end d o p l err restore = Some d' ->
  engine_inv n (dn_engine d') /\ path_inv (dn_engine d').
Proof.
  intros [HI HP _] Hl. unfold drain_end. case_match eqn:E1; [done|]. intros [= <-].
  set (reopen := restore && is_current (dn_engine d) p l && negb (sl_closed l)) in *.
  assert (forall x, dn_engine x = dn_engine (if reopen then upd_target p (fun l => l <| sl_draining := false |>) d else d) ->
    engine_inv n (dn_engine x) /\ path_inv (dn_engine x)) as HX.
  { intros x ->. destruct reopen eqn:Hre; [|done]. simpl. split; [|by apply flag_path].
    apply (flag_inv _ _ _ l); [done|done|]. intros _. unfold reopen in Hre.
    rewrite !andb_true_iff in Hre. destruct Hre as [[_ H] _]. by apply bool_decide_eq_true in H. }
  apply HX. match goal with |- dn_engine (if ?c then _ else _) = _ => destruct c end; reflexivity.
Qed.

Section Thread.
  Context (n : Z) (d : drain_engine) (o : optr) (op : streamDrainOperation) (l : streamLeg) (pc : drain_pc).
  Context (HV : drain_inv n d) (Ho : dn_ops d !! o = Some op)
    (Hl : se_heap (dn_engine d) !! do_target op = Some l) (Hpc : dn_pcs d !! o = Some pc)
    (Hown : owns pc = true).

Lemma thread_next pc' :
  owns pc' = true -> pc_ok (dn_engine d) op l pc' -> drain_inv n (goto o pc' d).
Proof using All. intros H1 H2. destruct HV. constructor; [done|done|]. by eapply rest_next. Qed.

Lemma thread_send kind now out res d1 pc' :
  sendDrainMessage d op l kind now out = (res, d1) ->
  (kind = StreamDrainIntent -> do_initiator op = true) ->
  (kind = StreamDrainCommit -> do_commitSent op = true) ->
  (kind = StreamDrainCommitAck -> do_commitRequested op = true) ->
  owns pc' = true -> pc_ok (dn_engine d) op l pc' -> drain_inv n (goto o pc' d1).
Proof using All.
  intros Hs K1 K2 K3 H2 H3. destruct HV as [HI HP HD].
  destruct (rest_sent _ _ _ _ _ pc' _ _ _ _ _ HD Ho Hl Hpc Hown Hs K1 K2 K3 H2 H3) as [HR HE].
  constructor; [simpl; by rewrite HE|simpl; by rewrite HE|done].
Qed.

Lemma thread_update f pc' :
  owns pc' = true -> op_moves op (f op) -> flags_ok (f op) -> do_finished (f op) = do_finished op ->
  pc_ok (dn_engine d) (f op) l pc' -> drain_inv n (goto o pc' (upd_op o f d)).
Proof using All.
  intros H1 H2 H3 H4 H5. destruct HV as [HI HP HD]. constructor; [done|done|].
  rewrite (upd_op_insert _ _ _ _ Ho).
  eapply (rest_thread d _ o op l pc (f op) pc' []); try done. simpl. by rewrite app_nil_r.
Qed.

(** The engine changes, then the goroutine moves. *)
Lemma thread_engine e1 pc' l1 :
  engine_inv n e1 -> path_inv e1 -> eng_kept (dn_engine d) e1 -> se_heap e1 !! do_target op = Some l1 ->
  owns pc' = true -> pc_ok e1 op l1 pc' -> drain_inv n (goto o pc' (d <| dn_engine := e1 |>)).
Proof using All.
  intros HI HP HK Hl1 H1 H2. pose proof (rest_engine _ _ (di_rest _ _ HV) HK) as HR. constructor; [done|done|].
  by eapply (rest_next _ o op l1 pc).
Qed.

Lemma thread_retire ok d1 pc' :
  retireDrainedLeg d (do_target op) l = Some (ok, d1) -> success op = true ->
  owns pc' = true -> pc_ok (dn_engine d) op l pc' ->
  drain_inv n (goto o (if ok then XClose else pc') d1).
Proof using All.
  intros HR Hs H1 H2. destruct (retireDrainedLeg_ok _ _ _ _ _ _ HV Hl HR) as [[-> ->]|[-> (e1 & -> & A & B & C & D & E)]].
  - by apply thread_next.
  - apply (thread_engine e1 XClose l); try done. by rewrite D.
Qed.
End Thread.

Lemma initiator_ready_inv n d o op l pc now :
  drain_inv n d -> dn_ops d !! o = Some op -> se_heap (dn_engine d) !! do_target op = Some l ->
  dn_pcs d !! o = Some pc -> owns pc = true -> flags_ok op -> do_initiator op = true ->
  drain_inv n (initiator_ready d o op l now).
Proof.
  intros HV Ho Hl Hpc Hown HF Hi. unfold initiator_ready. cbv zeta.
  destruct (bool_decide _ && negb (do_localReady op)); [eapply thread_update|eapply thread_next]; try done;
    by case_match.
Qed.

Lemma initiator_commit_inv n d o op l pc v now :
  drain_inv n d -> dn_ops d !! o = Some op -> se_heap (dn_engine d) !! do_target op = Some l ->
  dn_pcs d !! o = Some pc -> owns pc = true -> flags_ok op -> do_initiator op = true ->
  drain_inv n (initiator_commit d o op l v now).
Proof.
  intros HV Ho Hl Hpc Hown HF Hi. unfold initiator_commit. cbv zeta.
  destruct (vw_ready v && _ && _ && _); [|by eapply thread_next].
  match goal with |- context [if ?c then _ else _] => destruct c end; [|by eapply thread_next].
  destruct HF as (G1 & G2 & G3). eapply thread_update; done.
Qed.

Lemma responder_ready_inv n d o op l pc s now :
  drain_inv n d -> dn_ops d !! o = Some op -> se_heap (dn_engine d) !! do_target op = Some l ->
  dn_pcs d !! o = Some pc -> owns pc = true -> flags_ok op -> do_initiator op = false ->
  drain_inv n (responder_ready d o op l s now).
Proof.
  intros HV Ho Hl Hpc Hown HF Hi. unfold responder_ready. cbv zeta.
  destruct (drainReady d (do_target op) l); [eapply thread_update|eapply thread_next]; try done;
    repeat case_match; simpl; auto.
Qed.

Lemma complete_inv n d o op l pc again sent d' :
  drain_inv n d -> dn_ops d !! o = Some op -> se_heap (dn_engine d) !! do_target op = Some l ->
  dn_pcs d !! o = Some pc -> owns pc = true -> do_initiator op = true -> do_commitAck op = true ->
  complete_begin d o (do_target op) l again sent = Some d' \/
  complete_retry d o (do_target op) l again sent = d' -> drain_inv n d'.
Proof.
  intros HV Ho Hl Hpc Hown Hi Ha.
  assert (success op = true) as Hs by (unfold success; by rewrite Hi).
  assert (forall pc', owns pc' = true -> pc_ok (dn_engine d) op l pc' -> drain_inv n (goto o pc' d)) as HN
    by (intros; by eapply thread_next).
  assert (drain_inv n (goto o (complete_next again sent) d)) as HC by (apply HN; by destruct again).
  assert (is_current (dn_engine d) (do_target op) l = false -> gone (dn_engine d) (do_target op) l) as HG.
  { intros E. apply not_current_gone. by rewrite E, orb_true_r. }
  intros [E|<-].
  - unfold complete_begin in E. destruct (is_current _ _ l && _) eqn:Ec.
    + destruct (retireDrainedLeg d (do_target op) l) as [[ok d1]|] eqn:Hr; [|done]. injection E as <-.
      by apply (thread_retire n d o op l pc HV Ho Hl Hpc Hown ok d1 (IComplete2 again sent) Hr Hs).
    + injection E as <-. destruct (sl_closed l && _ && _) eqn:Es; [|done]. apply HN; [done|]. simpl.
      split; [done|]. rewrite !andb_true_iff, negb_true_iff in Es. destruct Es as [[? ?] ?]. auto.
  - unfold complete_retry. destruct (sl_closed l) eqn:Ecl; [|by apply HN].
    destruct (negb _ && _) eqn:Es; [|done]. apply HN; [done|]. simpl. split; [done|]. by left.
Qed.

Lemma wait_inv n d o op l pc pc' :
  drain_inv n d -> dn_ops d !! o = Some op -> se_heap (dn_engine d) !! do_target op = Some l ->
  dn_pcs d !! o = Some pc -> owns pc = true ->
  (do_initiator op = true /\ exists ack sent ev, initiator_wait (dn_engine d) op l ack sent ev = Some pc') \/
  (do_initiator op = false /\ exists s ev, responder_wait (dn_engine d) l s ev = Some pc') ->
  drain_inv n (goto o pc' d).
Proof.
  intros HV Ho Hl Hpc Hown [[Hi (ack & sent & ev & E)]|[Hi (s & ev & E)]].
  - unfold initiator_wait in E. repeat case_match; simplify_eq; by eapply thread_next.
  - unfold responder_wait in E. repeat case_match; simplify_eq; eapply thread_next; try done; simpl;
      (split; [done|]); unfold gone; auto.
Qed.

(** The last section of an abort. *)
Lemma abort_end_inv n d o op l pc err restore d' :
  drain_inv n d -> dn_ops d !! o = Some op -> se_heap (dn_engine d) !! do_target op = Some l ->
  dn_pcs d !! o = Some pc -> owns pc = true -> abort_end d o op l err restore = Some d' -> drain_inv n d'.
Proof.
  intros HV Ho Hl Hpc Hown. unfold abort_end. destruct (committed op) eqn:Hc.
  { intros [= <-]. by eapply thread_next. }
  intros E. apply bind_Some in E as (d1 & E & [= <-]). destruct (drain_end_engine _ _ _ _ _ _ _ _ HV Hl E) as [A B].
  constructor; [done|done|]. eapply (rest_end d o op l pc (Some err) restore); try done; [apply HV|].
  by rewrite Hc.
Qed.

Lemma finish_inv n d o op l pc err ret d' :
  drain_inv n d -> dn_ops d !! o = Some op -> se_heap (dn_engine d) !! do_target op = Some l ->
  dn_pcs d !! o = Some pc -> owns pc = true ->
  (err = None -> success op = true) -> gone (dn_engine d) (do_target op) l ->
  drain_end d o (do_target op) l err false = Some d' -> drain_inv n (goto o (DrainDone ret) d').
Proof.
  intros HV Ho Hl Hpc Hown Hs Hg E. destruct (drain_end_engine _ _ _ _ _ _ _ _ HV Hl E) as [A B].
  constructor; [done|done|]. by eapply (rest_end d o op l pc err false); try done; [apply HV|..].
Qed.

Lemma conflict_inv n d o op l carrier now out res d1 :
  drain_inv n d -> dn_ops d !! o = Some op -> dn_pcs d !! o = Some (CSend carrier) ->
  sendDrainMessage d op l StreamDrainAbort now out = (res, d1) ->
  drain_inv n (goto o (DrainDone res) (match res with
    | Some _ => d1 <| dn_engine ::= fun e => handleLegFailure e carrier errDrainUncertain |>
    | None => d1 end)).
Proof.
  intros [HI HP HD] Ho Hpc Hs.
  destruct (rest_conflict _ _ _ _ _ _ _ _ _ _ res HD Ho Hpc Hs eq_refl) as [HR HE]. destruct res as [err|].
  - pose proof (rest_engine _ (handleLegFailure (dn_engine d1) carrier errDrainUncertain) HR (failure_kept _ _ _)) as HR2.
    constructor; simpl; rewrite ?HE; [by apply leg_failure_inv|by apply path_fail|]. by destruct HR2.
  - constructor; simpl; rewrite ?HE; done.
Qed.

Lemma responder_kind_cases v :
  responder_kind v <> StreamDrainIntent /\ responder_kind v <> StreamDrainCommit /\
  (responder_kind v = StreamDrainCommitAck -> rv_commitRequested v = true).
Proof. unfold responder_kind. by destruct (rv_commitRequested v), (rv_ready v). Qed.

Lemma thread_inv n d o now out ev d' :
  drain_inv n d -> thread_step d o now out ev = Some d' -> drain_inv n d'.
Proof.
  intros HV. pose proof HV as [HI HP HD]. unfold thread_step.
  destruct (dn_ops d !! o) as [op|] eqn:Ho; [|done]. simpl.
  destruct (dn_pcs d !! o) as [pc|] eqn:Hpc; [|done]. simpl.
  destruct (dv_ops _ HD _ _ Ho) as [_ HF (l & pc0 & Hl & G2 & Hok & _)].
  rewrite Hl. simpl. replace pc0 with pc in * by congruence. clear pc0 G2.
  pose proof (fun H => thread_next n d o op l pc HV Ho Hl Hpc H) as HN.
  pose proof (fun H kind => thread_send n d o op l pc HV Ho Hl Hpc H kind now out) as HS.
  destruct pc; simpl in Hok.
  - destruct (sendDrainMessage _ _ _ _ _ _) as [res d1] eqn:Hs. intros [= <-].
    eapply HS; try done; by destruct res.
  - intros [= <-]. by destruct (drainOperationError _ _ _ _); apply HN.
  - intros [= <-]. destruct (do_commitAck op) eqn:Ha; by apply HN.
  - intros E. destruct Hok. eapply (complete_inv n d o op l); try done. left. exact E.
  - intros [= E]. destruct Hok. eapply (complete_inv n d o op l); try done. right. exact E.
  - intros [= <-]. repeat case_match; by apply HN.
  - intros [= <-]. by eapply initiator_ready_inv.
  - destruct (sendDrainMessage _ _ _ _ _ _) as [res d1] eqn:Hs. intros [= <-].
    eapply HS; try done; by destruct res.
  - intros [= <-]. case_bool_decide; [by eapply thread_update|by apply HN].
  - intros [= <-]. by eapply initiator_commit_inv.
  - destruct Hok. destruct (sendDrainMessage _ _ _ _ _ _) as [res d1] eqn:Hs. intros [= <-].
    eapply HS; try done; by destruct res.
  - intros [= <-]. destruct (do_commitAck op) eqn:Ha; by apply HN.
  - intros E. apply bind_Some in E as (pc' & E & [= <-]). eapply (wait_inv n d o op l); try done. left. split; [done|]. by exists ack, sent, ev.
  - intros [= <-]. by destruct (drainOperationError _ _ _ _); apply HN.
  - intros [= <-]. destruct (sl_closed l || _) eqn:E; [|by apply HN]. apply HN; [done..|].
    simpl. split; [done|]. by apply not_current_gone.
  - intros [= <-]. by eapply responder_ready_inv.
  - destruct Hok as (Hi & -> & Hv). destruct (sendDrainMessage _ _ _ _ _ _) as [res d1] eqn:Hs. intros [= <-].
    destruct (responder_kind_cases v) as (K1 & K2 & K3). eapply HS; try done; auto.
  - destruct Hok as (Hi & Hv). unfold responder_retire. destruct (rv_commitRequested v && _ && _) eqn:E; [|intros [= <-]; by apply HN].
    destruct (retireDrainedLeg _ _ _) as [[ok d1]|] eqn:Hr; [|done]. intros [= <-].
    eapply thread_retire; try done. unfold success. rewrite Hi. apply Hv. by apply andb_true_iff in E as [[? ?]%andb_true_iff ?].
  - intros E. apply bind_Some in E as (pc' & E & [= <-]). eapply (wait_inv n d o op l); try done. right. split; [done|]. by exists s, ev.
  - destruct (sendDrainMessage _ _ _ _ _ _) as [res d1] eqn:Hs. intros [= <-]. by eapply HS.
  - destruct (sendDrainMessage _ _ _ _ _ _) as [res d1] eqn:Hs. intros [= <-]. by eapply conflict_inv.
  - intros [= <-]. unfold abort_begin. repeat case_match; by apply HN.
  - destruct (sendDrainMessage _ _ _ _ _ _) as [res d1] eqn:Hs. intros [= <-]. by eapply HS.
  - by eapply abort_end_inv.
  - intros [= <-]. destruct (is_current _ _ _ && _) eqn:E; [by apply HN|]. apply HN; [done..|]. simpl. split; [done|].
    apply not_current_gone. rewrite andb_false_iff, negb_false_iff in E. destruct E as [->| ->]; [apply orb_true_r|done].
  - intros [= <-]. destruct (ReplaceLeg_ok n _ (sl_id l) errDrainUncertain HI HP) as (A & B & C & D).
    destruct (ek_heap _ _ C _ _ Hl) as (l1 & Hl1 & (K & _) & _). eapply thread_engine; try done. simpl. split; [done|].
    right; left. rewrite K. congruence.
  - intros [= <-]. destruct Hok. destruct (retire_close_ok _ _ _ _ HI HP Hl) as (A & B & C).
    destruct (ek_heap _ _ C _ _ Hl) as (l1 & Hl1 & HK & HR). eapply thread_engine; try done. simpl. split; [done|].
    eapply gone_kept; [exact HK|exact HR|apply C|done].
  - destruct Hok. intros [= <-]. by eapply (finish_inv n d o op l (XFinish err ret) err ret).
  - done.
Qed.

(** ** Opening operations, and every step *)

Lemma open_inv n d p l op pc hw c :
  drain_inv n d -> se_heap (dn_engine d) !! p = Some l -> dn_drainOps d !! sl_id l = None ->
  fresh_op op -> do_target op = p -> owns pc = true -> (forall e m, pc_ok e op m pc) ->
  drain_inv n (spawn op pc (drain_open p l (d <| dn_remoteHighWater := hw |> <| dn_operationCounter := c |>))).
Proof.
  intros [HI HP HD] Hl HN HF HT Hown Hok. constructor; simpl.
  - apply (flag_inv _ _ _ l); [done..|]. done.
  - by apply flag_path.
  - apply rest_open; try done. by apply rest_counters.
Qed.

Lemma admit_inv n d target id now res d' :
  drain_inv n d -> drain_admit d target id now = Some (res, d') -> drain_inv n d'.
Proof.
  intros HV. unfold drain_admit. destruct (se_heap (dn_engine d) !! target) as [l|] eqn:Hl; [|done]. simpl.
  case_bool_decide; [by intros [= _ <-]|]. case_bool_decide as HN; [by intros [= _ <-]|].
  case_bool_decide; [done|]. case_match; [by intros [= _ <-]|]. intros [= _ <-].
  apply eq_None_not_Some in HN.
  by apply (open_inv n d target l _ ISendIntent (dn_remoteHighWater d) (u64 (dn_operationCounter d + 1))).
Qed.

(** A conflicting intent is answered; the operation in charge is told. *)
Lemma conflict_spawn n d p l op carrier hw :
  drain_inv n d -> se_heap (dn_engine d) !! p = Some l -> fresh_op op -> do_target op = p ->
  drain_inv n (spawn op (CSend carrier) (d <| dn_remoteHighWater := hw |>)).
Proof.
  intros [HI HP HD] Hl HF HT. constructor; [done|done|].
  eapply (rest_spawn (d <| dn_remoteHighWater := hw |>) op (CSend carrier) l false); try done; [|by rewrite HT].
  by apply (rest_counters d hw (dn_operationCounter d)).
Qed.

Lemma terminal_inv n d id o op err :
  drain_inv n d -> dn_drainOps d !! id = Some o -> dn_ops d !! o = Some op ->
  drain_inv n (upd_op o (fun op => op <| do_terminalErr := Some err |>) d).
Proof.
  intros [HI HP HD] Hid Ho. constructor; [done|done|].
  rewrite (upd_op_insert _ _ _ _ Ho).
  eapply (rest_answer d o op (MkDrain 0 0 [] 0 0 [] [] 0 0 0 0)); [done|by exists id|done|].
  exact (answered_refl _ op).
Qed.

Lemma intent_inv n d carrier p l m d' :
  drain_inv n d -> se_heap (dn_engine d) !! p = Some l -> acceptDrainIntent d carrier p l m = Some d' ->
  drain_inv n d'.
Proof.
  intros HV Hl. unfold acceptDrainIntent. destruct (dn_drainOps d !! sl_id l) as [o|] eqn:Hid; simpl.
  - destruct (dv_active _ (di_rest _ _ HV) _ _ Hid) as (op & _ & _ & Ho & _). rewrite Ho. simpl.
    case_match; [by intros [= <-]|]. intros [= <-].
    eapply (conflict_spawn n (upd_op o (fun op => op <| do_terminalErr := Some ErrStreamDrainConflict |>) d) p l);
      [by eapply terminal_inv|done..].
  - case_bool_decide; [by intros [= <-]|]. destruct (sl_closed l || _ || _).
    { intros [= <-]. by eapply (conflict_spawn n d p l). }
    destruct (bool_decide (sl_dispatch l <> [])); [done|]. intros [= <-].
    by apply (open_inv n d p l _ _ (<[(sl_id l, dr_SenderRole m) := dr_Counter m]> (dn_remoteHighWater d)) (dn_operationCounter d)).
Qed.

Lemma receive_inv n d carrier wire res d' :
  drain_inv n d -> handleDrainControlFrame d carrier wire = Some (res, d') -> drain_inv n d'.
Proof.
  intros HV. unfold handleDrainControlFrame. destruct (drain_decode _ _ _) as [m|]; [|by intros [= _ <-]].
  case_bool_decide; [by intros [= _ <-]|]. case_bool_decide.
  - destruct (getLeg _ _) as [p|]; [|by intros [= _ <-]]. simpl.
    destruct (se_heap _ !! p) as [l|] eqn:Hl; [|by intros [= _ <-]]. simpl. case_match; [by intros [= _ <-]|].
    intros E. apply bind_Some in E as (d1 & E & [= _ <-]). by eapply intent_inv.
  - intros [= E]. destruct (accept_response_cases _ _ _ _ E) as [->|(o & op & op' & H1 & H2 & H3 & H4 & ->)]; [done|].
    destruct HV as [HI HP HD]. constructor; [done|done|]. eapply rest_answer; eauto.
Qed.

Lemma failure_drain_inv n d p err :
  drain_inv n d -> drain_inv n (d <| dn_engine ::= fun e => handleLegFailure e p err |>).
Proof.
  intros [HI HP HD]. constructor; simpl; [by apply leg_failure_inv|by apply path_fail|].
  apply (rest_engine _ _ HD), failure_kept.
Qed.

Lemma drain_step_inv n d op d' :
  drain_inv n d -> n < max_u64 -> dop_wf op -> drain_exec d op = Some d' -> drain_inv (n + 1) d'.
Proof.
  intros HV Hn Hwf.
  assert (forall x, drain_inv n x -> drain_inv (n + 1) x) as Hup.
  { intros x [HI HP HD]. constructor; [|done|done]. eapply inv_mono; [done|lia]. }
  destruct op; cbn [drain_exec dop_wf] in *.
  - intros E. apply bind_Some in E as (e & E & [= <-]). destruct HV as [HI HP HD].
    constructor; simpl; [by eapply step_inv|by eapply path_step|]. by eapply rest_engine, leg_step_kept.
  - destruct (se_heap _ !! target); [|done]. simpl. case_match; [done|]. intros E.
    apply fmap_Some in E as ([res x] & E & ->). by eapply Hup, admit_inv.
  - intros E. by eapply Hup, thread_inv.
  - destruct (handleDrainControlFrame d carrier wire) as [[[err|] d1]|] eqn:E; [| |done]; intros [= <-]; apply Hup;
      [apply failure_drain_inv|]; by eapply receive_inv.
  - intros [= <-]. apply Hup. destruct HV as [HI HP [A B C]]. constructor; [done|done|]. constructor; [|done|done].
    intros o op Ho. by destruct (A _ _ Ho).
Qed.

Lemma new_drain_inv cfg : drain_inv 0 (NewDrainEngine cfg).
Proof.
  constructor; [apply NewStreamEngine_inv|apply path_new|]. constructor; simpl; try done.
  by intros m w ?%not_elem_of_nil.
Qed.

Lemma drain_run_inv ops n d d' :
  drain_inv n d -> Forall dop_wf ops -> n + Z.of_nat (length ops) <= max_u64 -> drain_run ops d = Some d' ->
  drain_inv (n + Z.of_nat (length ops)) d'.
Proof.
  revert n d. induction ops as [|op ops IH]; intros n d HV Hwf Hn; simpl in *.
  - intros [= <-]. by rewrite Z.add_0_r.
  - apply Forall_cons in Hwf as [H1 H2]. intros E. apply bind_Some in E as (d1 & Hop & E).
    replace (n + Z.of_nat (S (length ops))) with (n + 1 + Z.of_nat (length ops)) by lia.
    apply (IH _ d1); [eapply drain_step_inv; [done|lia|done..]|done|lia|done].
Qed.

(** ** What a goroutine may do in one step *)

(** The changes of the engine that drains make. *)
Inductive eng_effect (e : StreamEngine) : StreamEngine -> Prop :=
| ef_none : eng_effect e e
| ef_flag p b : eng_effect e (upd_leg p (fun l => l <| sl_draining := b |>) e)
| ef_fail p err : eng_effect e (handleLegFailure e p err)
| ef_retire p id : eng_effect e (e <| se_legs ::= delete id |> <| se_retiring ::= <[id := p]> |>)
| ef_close p l : eng_effect e (retire_close p l e).
#[local] Hint Constructors eng_effect : core.

(** The operation moves, without an answer from the peer. *)
Definition op_runs (op op' : streamDrainOperation) : Prop :=
  op_moves op op' /\ do_commitAck op' = do_commitAck op /\
  do_commitRequested op' = do_commitRequested op.

Record step_effect (d : drain_engine) (o : optr) (op : streamDrainOperation) (d' : drain_engine) : Prop := {
  se_log : exists log, dn_sent d' = dn_sent d ++ log;
  se_ops : exists op', dn_ops d' = <[o := op']> (dn_ops d) /\ op_runs op op';
  se_eng : eng_effect (dn_engine d) (dn_engine d')
}.

Lemma op_runs_refl op : op_runs op op.
Proof. done. Qed.

Section Effects.
  Context (d : drain_engine) (o : optr) (op : streamDrainOperation) (Ho : dn_ops d !! o = Some op).

Lemma effect_same d' :
  dn_ops d' = dn_ops d -> dn_sent d' = dn_sent d -> eng_effect (dn_engine d) (dn_engine d') ->
  step_effect d o op d'.
Proof using All.
  intros E1 E2 E3. constructor; [exists []; by rewrite app_nil_r| |done].
  exists op. rewrite E1, insert_id by done. by split.
Qed.

Lemma effect_upd f pc : op_runs op (f op) -> step_effect d o op (goto o pc (upd_op o f d)).
Proof using All.
  intros H. rewrite (upd_op_insert _ _ _ _ Ho). constructor; [exists []; simpl; by rewrite app_nil_r| |constructor].
  by exists (f op).
Qed.

Lemma effect_send l kind now out res d1 d' :
  sendDrainMessage d op l kind now out = (res, d1) -> dn_ops d' = dn_ops d1 -> dn_sent d' = dn_sent d1 ->
  eng_effect (dn_engine d1) (dn_engine d') -> step_effect d o op d'.
Proof using All.
  intros (log & -> & _)%sendDrainMessage_log E1 E2 E3. constructor; [by exists log| |done].
  exists op. rewrite E1. simpl. rewrite insert_id by done. by split.
Qed.

Lemma effect_retire p l ok d1 pc :
  retireDrainedLeg d p l = Some (ok, d1) -> step_effect d o op (goto o pc d1).
Proof using All.
  unfold retireDrainedLeg. intros E.
  destruct (negb _); [|destruct (bool_decide _); [done|]]; injection E as <- <-; apply effect_same; try done; constructor.
Qed.

Lemma effect_end p l err restore d1 pc :
  drain_end d o p l err restore = Some d1 -> step_effect d o op (goto o pc d1).
Proof using All.
  unfold drain_end. destruct (_ && bool_decide (sl_dispatch l <> [])); [done|].
  set (d0 := if restore && _ && _ then upd_target p _ d else d).
  assert (dn_ops d0 = dn_ops d /\ dn_sent d0 = dn_sent d /\ eng_effect (dn_engine d) (dn_engine d0)) as (X1 & X2 & X3).
  { unfold d0. destruct (restore && _ && _); split_and!; try done; constructor. }
  clearbody d0. rewrite (upd_op_insert d0 o op) by (by rewrite X1).
  intros [= <-]. constructor.
  - exists []. rewrite app_nil_r. by destruct (bool_decide _).
  - eexists. split; [by destruct (bool_decide _); simpl; rewrite X1|]. done.
  - by destruct (bool_decide _).
Qed.
End Effects.

Lemma ReplaceLeg_effect e id err : eng_effect e (ReplaceLeg e id err).2.
Proof. unfold ReplaceLeg. destruct (getLeg e id); simpl; constructor. Qed.

Lemma thread_effect d o now out ev d' :
  thread_step d o now out ev = Some d' -> exists op, dn_ops d !! o = Some op /\ step_effect d o op d'.
Proof.
  unfold thread_step. destruct (dn_ops d !! o) as [op|] eqn:Ho; [|done]. simpl.
  destruct (dn_pcs d !! o) as [pc|]; [|done]. simpl.
  destruct (se_heap (dn_engine d) !! do_target op) as [l|]; [|done]. simpl. intros E. exists op. split; [done|].
  assert (forall pc', step_effect d o op (goto o pc' d)) as HN by (intros; by apply effect_same).
  revert E. destruct pc;
    try (destruct (sendDrainMessage _ _ _ _ _ _) as [res d1] eqn:Hs; intros [= <-];
         eapply effect_send; [done|exact Hs|by destruct res..| |]; destruct res; done);
    try (intros [= <-]; apply HN).
  - unfold complete_begin. destruct (_ && _); [|intros [= <-]; apply HN].
    destruct (retireDrainedLeg _ _ _) as [[ok d1]|] eqn:Hr; [|done]. intros [= <-]. by eapply effect_retire.
  - intros [= <-]. unfold initiator_ready. cbv zeta. destruct (bool_decide _ && _); [by apply effect_upd|apply HN].
  - intros [= <-]. case_bool_decide; [by apply effect_upd|apply HN].
  - intros [= <-]. unfold initiator_commit. repeat (case_match; try apply HN). by apply effect_upd.
  - intros E. apply bind_Some in E as (pc' & E & [= <-]). apply HN.
  - intros [= <-]. unfold responder_ready. cbv zeta. destruct (drainReady _ _ _); [by apply effect_upd|apply HN].
  - unfold responder_retire. destruct (_ && _ && _); [|intros [= <-]; apply HN].
    destruct (retireDrainedLeg _ _ _) as [[ok d1]|] eqn:Hr; [|done]. intros [= <-]. by eapply effect_retire.
  - intros E. apply bind_Some in E as (pc' & E & [= <-]). apply HN.
  - destruct (sendDrainMessage _ _ _ _ _ _) as [res d1] eqn:Hs. intros [= <-].
    eapply effect_send; [done|exact Hs|by destruct res..|]. destruct res; simpl; constructor.
  - unfold abort_end. destruct (committed op); [intros [= <-]; apply HN|].
    intros E. apply bind_Some in E as (d1 & E & [= <-]). by eapply effect_end.
  - intros [= <-]. apply effect_same; try done. apply ReplaceLeg_effect.
  - intros [= <-]. apply effect_same; try done. simpl. constructor.
  - intros [= <-]. by eapply (effect_end _ _ _ Ho (do_target op) l err false).
Qed.

(** Receiving changes the engine at most in a drain flag. *)
Lemma receive_effect d carrier wire res d' :
  handleDrainControlFrame d carrier wire = Some (res, d') -> eng_effect (dn_engine d) (dn_engine d').
Proof.
  unfold handleDrainControlFrame. destruct (drain_decode _ _ _) as [m|]; [|intros [= _ <-]; constructor].
  destruct (bool_decide _); [intros [= _ <-]; constructor|]. destruct (bool_decide (dr_Kind m = StreamDrainIntent)).
  - destruct (let! p := _ in _) as [[p l]|]; [|intros [= _ <-]; constructor].
    destruct (negb _ || _); [intros [= _ <-]; constructor|]. intros E. apply bind_Some in E as (d1 & E & [= _ <-]).
    unfold acceptDrainIntent in E. repeat (case_match; try done); injection E as <-; constructor.
  - intros [= E]. destruct (accept_response_cases _ _ _ _ E) as [->|(o & op & op' & _ & _ & _ & _ & ->)]; constructor.
Qed.
