(* ===== verification/LegLife.v ===== *)
(** * The leg registry and the session's life cycle: theorems

    For every sequence of steps of the engine's goroutines, from a new engine: what
    the registry guarantees to the leg workers and to the host, when the recovery
    timer may end the session, what a clean end of stream means, and when a
    graceful close gives up waiting. *)

From S2P Require Import Prelude Bytes Wire Hello PathProtocol RxWindow TxLedger TxInv TxQueue Repair RttCache Legs LegsInv LegPath Drain DrainInv.
From stdpp Require Import options.
#[local] Open Scope Z_scope.

(** ** One generation at a time *)

(** [d] is reached from a new engine: its [dn_engine] is the engine of the legs. *)
Definition drain_run_new (cfg : StreamConfig) (ops : list drain_op) (d : drain_engine) : Prop :=
  Forall dop_wf ops /\ Z.of_nat (length ops) <= max_u64 /\ drain_run ops (NewDrainEngine cfg) = Some d.

Lemma drain_run_new_inv cfg ops d : drain_run_new cfg ops d -> drain_inv (Z.of_nat (length ops)) d.
Proof. intros (H1 & H2 & H3). by apply (drain_run_inv ops 0 _ _ (new_drain_inv cfg)). Qed.

(** C20. Whatever the interleaving of attachments, failures, replacements, drains,
    worker exits and shutdown: two generations of one leg identifier never have
    workers at the same time; a registered leg has the newest generation and no
    generation number is used twice; a leg registers only after the ledger has been
    told of the failure of its predecessor; [OnLegDown] is called at most once per
    leg, and only for a leg that has left the registry; and once the session is done
    every registered leg is closed or about to be. *)
Theorem leg_generations_exclusive cfg ops d p q l m :
  drain_run_new cfg ops d -> let e := dn_engine d in
  se_heap e !! p = Some l -> se_heap e !! q = Some m -> sl_id l = sl_id m ->
  (0 < sl_workers l -> 0 < sl_workers m -> p = q) /\
  (sl_generation l = sl_generation m -> p = q) /\
  (se_legs e !! sl_id l = Some p -> sl_generation m <= sl_generation l) /\
  (se_legs e !! sl_id l = Some p ->
     forall f, f ∈ se_failing e -> fl_leg f = q -> fl_stage f = MustNotify) /\
  NoDup (se_legDown e) /\
  (p ∈ se_legDown e -> se_legs e !! sl_id l <> Some p) /\
  (se_done e = true -> se_legs e !! sl_id l = Some p -> sl_closed l = true \/ p ∈ se_shutdown e).
Proof.
  intros [HI _ _]%drain_run_new_inv e Hl Hm Hid. fold e in HI. destruct (ei_placed _ _ HI _ _ Hl) as [_ Gl _ _ _ Pl].
  destruct (ei_placed _ _ HI _ _ Hm) as [_ Gm _ _ _ Pm]. split_and!.
  - intros Hwl Hwm. rewrite Hid in Pl.
    assert (forall x, se_legs e !! sl_id m = Some x -> se_retiring e !! sl_id m = None) as HX
      by (intros x Hx; apply (ei_legs _ _ HI _ _ Hx)).
    destruct Pl as [Pl|[Pl|(? & ? & ?)]]; [| |lia]; destruct Pm as [Pm|[Pm|(? & ? & ?)]]; try lia.
    + congruence.
    + specialize (HX _ Pl). congruence.
    + specialize (HX _ Pm). congruence.
    + congruence.
  - intros Hg. by eapply (ei_unique _ _ HI).
  - intros Hreg. destruct (ei_legs _ _ HI _ _ Hreg) as (_ & l2 & Hl2 & _ & Hg & _). simplify_eq.
    rewrite Hg, Hid. lia.
  - intros Hreg f Hf <-. destruct (fl_stage f) eqn:Hst; [|done].
    destruct (ei_failing _ _ HI _ Hf) as (l2 & Hl2 & _ & _ & F3). simplify_eq.
    specialize (F3 Hst). destruct (ei_legs _ _ HI _ _ Hreg). congruence.
  - pose proof (ei_reports _ _ HI) as HN. by apply NoDup_app in HN as [HN _].
  - intros Hp. destruct (ei_down _ _ HI _ Hp) as (l2 & Hl2 & HN). by simplify_eq.
  - intros Hd Hreg. by eapply (ei_shutdown _ _ HI).
Qed.

Definition example_cfg : StreamConfig := MkConfig 2 0 false StreamPathRoleClient 4 [10; 20] true false 0.
(** Leg 0 fails while a replacement is being attached. *)
Definition example_leg_ops : list leg_op :=
  [lo_attach 0 None 0 0; lo_join; lo_attach 1 None 0 0; lo_join; lo_fail 0 (ErrCarrier io_other);
   lo_attach 0 None 0 0; lo_worker_exit 0; lo_invalidate 0; lo_worker_exit 0; lo_retire 0;
   lo_attach 0 None 0 0; lo_notify 0].
(** A run of leg operations from a new engine. *)
Definition run_legs (ops : list leg_op) : drain_engine :=
  default (NewDrainEngine example_cfg) (drain_run (map dop_leg ops) (NewDrainEngine example_cfg)).
Definition example_drain : drain_engine := run_legs example_leg_ops.
Definition example_legs : StreamEngine := dn_engine example_drain.
Definition example_leg (e : StreamEngine) (p : lptr) : streamLeg :=
  default (new_leg e 0 0 zero_binding zero_identity false false zero_auth 0) (se_heap e !! p).

Lemma example_leg_run : drain_run_new example_cfg (map dop_leg example_leg_ops) example_drain.
Proof. split_and!; [repeat constructor; simpl; unfold is_u8; lia|done|by vm_compute]. Qed.
Lemma example_leg_facts :
  se_heap example_legs !! 2 = Some (example_leg example_legs 2) /\
  se_heap example_legs !! 0 = Some (example_leg example_legs 0) /\
  sl_id (example_leg example_legs 2) = 0 /\ sl_id (example_leg example_legs 0) = 0 /\
  se_legs example_legs !! 0 = Some 2 /\ sl_generation (example_leg example_legs 2) = 2 /\
  sl_generation (example_leg example_legs 0) = 1 /\ se_legDown example_legs = [0] /\
  sl_workers (example_leg example_legs 2) = 2.
Proof. by vm_compute. Qed.

Lemma leg_generations_exclusive_witness :
  NoDup (se_legDown example_legs) /\
  sl_generation (example_leg example_legs 0) <= sl_generation (example_leg example_legs 2).
Proof.
  destruct example_leg_facts as (A & B & C & D & E & _).
  destruct (leg_generations_exclusive example_cfg (map dop_leg example_leg_ops) example_drain 2 0 _ _ example_leg_run A B
    (eq_trans C (eq_sym D))) as (_ & _ & H3 & _ & H5 & _).
  split; [exact H5|]. apply H3. rewrite C. exact E.
Defined.

(** ** The recovery timer *)

Lemma handleLegFailure_epoch e p err :
  se_recoveryEpoch (handleLegFailure e p err) = se_recoveryEpoch e.
Proof.
  unfold handleLegFailure. destruct (se_heap e !! p) as [l|]; [|done].
  destruct (sl_pathRTTEnabled l); simpl; by case_bool_decide.
Qed.

Lemma fail_epoch e err app : se_recoveryEpoch (failWithAppClose e err app) = se_recoveryEpoch e.
Proof. unfold failWithAppClose. simpl. by destruct (se_done e). Qed.

Lemma data_epoch b e e' : data_step b e e' -> se_recoveryEpoch e' = se_recoveryEpoch e.
Proof. by intros (h & tx & a & -> & _). Qed.

(** The epoch never goes back, and a join moves it. *)
Lemma step_epoch n e op e' :
  engine_inv n e -> n < max_u64 -> leg_exec e op = Some e' ->
  se_recoveryEpoch e <= se_recoveryEpoch e' /\ (op = lo_join -> se_recoveryEpoch e < se_recoveryEpoch e').
Proof.
  intros HI Hn. pose proof (epoch_step _ _ HI Hn) as Hep.
  destruct op; cbn [leg_exec].
  - intros [= <-]. split; [|done]. unfold attachLeg.
    assert (forall x l, se_recoveryEpoch (attach_install x l).2 = se_recoveryEpoch x) as HA by done.
    repeat (case_match; try done); simplify_eq; rewrite ?HA;
      unfold attach_path, attach_drain in *; repeat (case_match; simplify_eq; try done).
  - case_bool_decide; [|done]. intros [= <-]. simpl. rewrite Hep. lia.
  - destruct (se_heap e !! p); [|done]. intros [= <-]. by rewrite handleLegFailure_epoch.
  - destruct (se_failing e !! k) as [f|]; [|done]. simpl. case_bool_decide; [|done]. intros [= <-].
    unfold failure_invalidate. simpl. by destruct (se_heap e !! fl_leg f).
  - destruct (se_failing e !! k) as [f|]; [|done]. simpl. case_bool_decide; [|done]. intros [= <-].
    split; [|done]. unfold failure_notify. simpl.
    repeat (case_match; try done); simpl; rewrite ?Hep; lia.
  - destruct (se_heap e !! p); [|done]. simpl. case_bool_decide; [|done]. by intros [= <-].
  - destruct (se_heap e !! p) as [l|] eqn:Hl; [|done]. simpl. case_match; [|done]. intros [= <-].
    unfold retire_leg. rewrite Hl. by case_bool_decide.
  - destruct (se_timers e !! k); [|done]. simpl. intros [= <-]. unfold failIfNoLegRecovers, fail.
    case_match; [|done]. by rewrite fail_epoch.
  - intros [= <-]. unfold fail. by rewrite fail_epoch.
  - intros [= <-]. unfold Close, fail. by rewrite fail_epoch.
  - destruct (se_shutdown e); [done|]. destruct (se_closeErr e); [|done]. by intros [= <-].
  - intros [= <-]. unfold StartGracefulClose. simpl. by destruct (se_graceful e || se_done e).
  - by intros [= <-].
  - destruct (se_closer e) as [[err []]|]; [|done..]. case_match; [|done]. intros [= <-].
    unfold closer_drained, beginFinalizing. by destruct (se_done e).
  - destruct (se_closer e) as [[err []]|]; [|done..]. intros [= <-]. unfold closer_stalled, fail. simpl.
    by rewrite fail_epoch.
  - destruct (se_closer e) as [[err []]|]; [done| |done]. intros [= <-].
    unfold closer_sent, finishGracefulClose, fail. simpl. repeat case_match; by rewrite fail_epoch.
  - by intros [= <-].
  - case_match; [|done]. intros E. by apply bind_Some in E as (tx & _ & [= <-]).
  - case_match; [|done]. by intros [= <-].
  - intros [= <-]. by rewrite (data_epoch _ _ _ (tryQueue_data e p record retry)).
  - intros [= <-]. by rewrite (data_epoch _ _ _ (tryQueueRescue_data e p record owner)).
  - intros [= <-]. by rewrite (data_epoch _ _ _ (dispatch_claim_data e p k now)).
  - intros E. by rewrite (data_epoch _ _ _ (dispatch_select_data _ _ _ _ _ _ HI E)).
  - intros [= <-]. by rewrite (data_epoch _ _ _ (dispatch_finish_data e p k)).
  - intros E. by rewrite (data_epoch _ _ _ (take_send_data _ _ _ E)).
  - intros E. by rewrite (data_epoch _ _ _ (take_rescue_data _ _ _ E)).
  - intros E. by rewrite (data_epoch _ _ _ (writeAttempt_data _ _ _ _ E)).
  - intros E. by rewrite (data_epoch _ _ _ (write_return_data _ _ _ _ E)).
  - intros E. destruct (write_commit_data _ _ _ _ _ E) as (e1 & H1 & [->| ->]);
      rewrite ?handleLegFailure_epoch; by rewrite (data_epoch _ _ _ H1).
Qed.

Lemma effect_epoch e e' : eng_effect e e' -> se_recoveryEpoch e' = se_recoveryEpoch e.
Proof.
  intros []; try done; [by rewrite handleLegFailure_epoch|]. unfold retire_close. by destruct (sl_pathRTTEnabled l).
Qed.

(** Drains do not move it. *)
Lemma drain_step_epoch n d op d' :
  drain_inv n d -> n < max_u64 -> drain_exec d op = Some d' ->
  se_recoveryEpoch (dn_engine d) <= se_recoveryEpoch (dn_engine d') /\
  (op = dop_leg lo_join -> se_recoveryEpoch (dn_engine d) < se_recoveryEpoch (dn_engine d')).
Proof.
  intros [HI _ _] Hn. destruct op; cbn [drain_exec].
  - intros E. apply bind_Some in E as (e & E & [= <-]). destruct (step_epoch _ _ _ _ HI Hn E) as [S1 S2].
    split; [done|]. intros [= ->]. by apply S2.
  - destruct (se_heap _ !! target) as [l|] eqn:Hl; [|done]. simpl. case_match; [done|]. intros E.
    apply fmap_Some in E as ([res x] & E & ->). unfold drain_admit in E. rewrite Hl in E. simpl in E.
    repeat (case_match; try done); by simplify_eq.
  - intros E. apply thread_effect in E as (op & _ & [_ _ E]). by rewrite (effect_epoch _ _ E).
  - destruct (handleDrainControlFrame d carrier wire) as [[err d1]|] eqn:E; [|done].
    apply receive_effect, effect_epoch in E.
    destruct err; intros [= <-]; simpl; rewrite ?handleLegFailure_epoch, E; done.
  - by intros [= <-].
Qed.

Lemma run_epoch ops n d d' :
  drain_inv n d -> Forall dop_wf ops -> n + Z.of_nat (length ops) <= max_u64 ->
  drain_run ops d = Some d' ->
  se_recoveryEpoch (dn_engine d) <= se_recoveryEpoch (dn_engine d') /\
  (dop_leg lo_join ∈ ops -> se_recoveryEpoch (dn_engine d) < se_recoveryEpoch (dn_engine d')).
Proof.
  revert n d. induction ops as [|op ops IH]; intros n d HV Hwf Hn; simpl in *.
  - intros [= <-]. split; [done|]. by intros ?%not_elem_of_nil.
  - apply Forall_cons in Hwf as [H1 H2]. intros E. apply bind_Some in E as (d1 & Hop & E).
    assert (drain_inv (n + 1) d1) as HV1 by (eapply drain_step_inv; [done|lia|done..]).
    destruct (drain_step_epoch n d op d1 HV ltac:(lia) Hop) as [S1 S2].
    destruct (IH _ _ HV1 H2 ltac:(lia) E) as [R1 R2]. split; [lia|].
    intros [Hj|Hj]%elem_of_cons; [specialize (S2 (eq_sym Hj))|specialize (R2 Hj)]; lia.
Qed.


(** One leg, which fails: the timer of epoch 2 is running. *)
Definition lost_ops : list leg_op :=
  [lo_attach 0 None 0 0; lo_join; lo_fail 0 (ErrCarrier io_other); lo_invalidate 0; lo_notify 0].
Definition lost_drain : drain_engine := run_legs lost_ops.
Definition lost_engine : StreamEngine := dn_engine lost_drain.
Lemma lost_run : drain_run_new example_cfg (map dop_leg lost_ops) lost_drain.
Proof. split_and!; [repeat constructor; simpl; unfold is_u8; lia|done|by vm_compute]. Qed.
Lemma lost_facts :
  se_timers lost_engine = [2] /\ drain_run [dop_leg lo_activate] lost_drain = Some lost_drain /\
  se_done lost_engine = false /\ se_done (failIfNoLegRecovers lost_engine 2) = true.
Proof. by vm_compute. Qed.


(** ** The end of the stream *)

(** C21. If the session has ended without closing the application's end of the pipe,
    so that the application reads a clean end of stream, then the reason is [io.EOF]
    and every byte the transmit loop had accepted has been acknowledged by the
    peer. *)
Theorem clean_eof_means_delivered cfg ops d :
  drain_run_new cfg ops d -> let e := dn_engine d in se_done e = true -> se_appClosed e = false ->
  se_closeErr e = Some (ErrCarrier io_EOF) /\ tq_items (queue_of (se_txLedger e)) = [] /\
  se_txStopped e = true /\ forall payload now local, leg_exec e (lo_tx (op_add payload now local)) = None.
Proof.
  intros [HI _ _]%drain_run_new_inv e. fold e in HI. clearbody e. intros Hd Ha. destruct (ei_eof _ _ HI Hd Ha) as (A & B & C).
  split_and!; [done| |done|].
  - unfold queue_of. simpl. unfold settled in C. rewrite C, Z.sub_diag. done.
  - intros. simpl. by rewrite B.
Qed.

Definition closing_ops : list leg_op :=
  [lo_attach 0 None 0 0; lo_join; lo_tx (op_add (str "tail") 1 true); lo_graceful (ErrCarrier io_EOF);
   lo_tx_stop; lo_tx (op_ack 1 2); lo_drained; lo_close_sent true].
Definition closed_drain : drain_engine := run_legs closing_ops.
Definition closed_engine : StreamEngine := dn_engine closed_drain.
Lemma closing_run : drain_run_new example_cfg (map dop_leg closing_ops) closed_drain.
Proof. split_and!; [repeat constructor; simpl; unfold is_u8; lia|done|by vm_compute]. Qed.
Lemma closed_facts : se_done closed_engine = true /\ se_appClosed closed_engine = false.
Proof. by vm_compute. Qed.

Lemma clean_eof_means_delivered_witness : se_closeErr closed_engine = Some (ErrCarrier io_EOF).
Proof.
  destruct closed_facts as [A B].
  exact (proj1 (clean_eof_means_delivered example_cfg (map dop_leg closing_ops) closed_drain closing_run A B)).
Defined.

(** ** Waiting for the tail: [drainOutstandingOnClose] *)

Definition stall_timeout (recovery : duration) : duration :=
  let t := if bool_decide (recovery <= 0) then 15 * Second else recovery in
  if bool_decide (t < 100 * Millisecond) then 100 * Millisecond else t.

Record drain_watch := MkWatch { dw_lastProgress : time; dw_lastRemaining : Z; dw_lastAck : Z }.

Definition progressed (w : drain_watch) (p : StreamTXProgress) : bool :=
  bool_decide (dw_lastRemaining w < 0) || bool_decide (pr_Outstanding p < dw_lastRemaining w)
  || bool_decide (dw_lastAck w < pr_AckedNext p).

(** One round of the loop on what [ProgressSnapshot] and the clock say; [inl] is the
    returned value. *)
Definition drain_poll (timeout : duration) (w : drain_watch) (p : StreamTXProgress) (now : time)
  : option eng_error + drain_watch :=
  if bool_decide (pr_Outstanding p = 0) then inl None else
  let lastProgress := if progressed w p then now else dw_lastProgress w in
  if bool_decide (timeout <= time_sub now lastProgress) then inl (Some errDrainStalled)
  else inr (MkWatch lastProgress (pr_Outstanding p) (pr_AckedNext p)).

(** The loop on the observations it makes; [None] while it is still waiting. *)
Fixpoint drainOutstandingOnClose (timeout : duration) (w : drain_watch)
    (obs : list (StreamTXProgress * time)) : option (option eng_error) :=
  match obs with
  | [] => None
  | (p, now) :: obs =>
    match drain_poll timeout w p now with
    | inl res => Some res
    | inr w => drainOutstandingOnClose timeout w obs
    end
  end.
Definition drain_start (start : time) : drain_watch := MkWatch start (-1) 0.

(** From observation [i] to observation [k] nothing was acknowledged. *)
Definition no_progress (obs : list (StreamTXProgress * time)) (i k : nat) : Prop :=
  forall j p q, (i <= j < k)%nat -> obs !! j = Some p -> obs !! S j = Some q ->
    pr_Outstanding p.1 <= pr_Outstanding q.1 /\ pr_AckedNext q.1 <= pr_AckedNext p.1.

Lemma drain_loop_spec timeout obs m w res :
  (m <= length obs)%nat ->
  Forall (fun o => 0 <= pr_Outstanding o.1) obs ->
  (m = 0%nat /\ dw_lastRemaining w < 0 \/
   exists i last pi, (i < m)%nat /\ obs !! i = Some pi /\ pi.2 = dw_lastProgress w /\
     obs !! (m - 1)%nat = Some last /\ dw_lastRemaining w = pr_Outstanding last.1 /\
     dw_lastAck w = pr_AckedNext last.1 /\ no_progress obs i (m - 1)) ->
  0 < timeout ->
  drainOutstandingOnClose timeout w (drop m obs) = Some res ->
  match res with
  | None => exists p, p ∈ obs /\ pr_Outstanding p.1 = 0
  | Some err => err = errDrainStalled /\
      exists i k p q, (i <= k)%nat /\ obs !! i = Some p /\ obs !! k = Some q /\
        no_progress obs i k /\ timeout <= time_sub q.2 p.2
  end.
Proof.
  intros Hm Hpos. remember (length obs - m)%nat as d eqn:Hd. revert m w Hm Hd.
  induction d as [|d IH]; intros m w Hm Hd Hw Ht.
  { rewrite drop_ge by lia. done. }
  destruct (obs !! m) as [[p now]|] eqn:Hob; [|apply lookup_ge_None in Hob; lia].
  rewrite (drop_S obs (p, now) m Hob). simpl. unfold drain_poll.
  case_bool_decide as H0.
  { intros [= <-]. exists (p, now). split; [by eapply list_elem_of_lookup_2|done]. }
  set (lastProgress := if progressed w p then now else dw_lastProgress w).
  assert (exists i pi, (i <= m)%nat /\ obs !! i = Some pi /\ pi.2 = lastProgress /\ no_progress obs i m)
    as (i & pi & Hi & Hpi & Hlp & Hnp).
  { unfold lastProgress. destruct (progressed w p) eqn:Hp.
    - exists m, (p, now). split_and!; [lia|done|done|]. intros j ? ? ?. lia.
    - unfold progressed in Hp. rewrite !orb_false_iff, !bool_decide_eq_false in Hp.
      destruct Hp as [[P1 P2] P3]. destruct Hw as [[_ Hneg]|(i & last & pi & H1 & H2 & H3 & H4 & H5 & H6 & H7)]; [lia|].
      exists i, pi. split_and!; [lia|done|done|]. intros j x y Hj Hx Hy.
      destruct (decide (S j = m)) as [E|N]; [|apply (H7 j); [lia|done..]].
      rewrite E, Hob in Hy. replace (m - 1)%nat with j in H4 by lia. simplify_eq. simpl. lia. }
  case_bool_decide as Hto.
  { intros [= <-]. split; [done|]. exists i, m, pi, (p, now). split_and!; [done..|by rewrite Hlp]. }
  apply IH; [lia|lia| |done]. right. exists i, (p, now), pi. split_and!; [lia|done|done| |done|done|].
  - by replace (S m - 1)%nat with m by lia.
  - by replace (S m - 1)%nat with m by lia.
Qed.


Definition example_obs : list (StreamTXProgress * time) :=
  [(MkProgress 3 0, 10 * Second); (MkProgress 3 0, 20 * Second); (MkProgress 1 2, 24 * Second);
   (MkProgress 1 2, 39 * Second)].
Lemma example_obs_stalls :
  drainOutstandingOnClose (stall_timeout 0) (drain_start 0) example_obs = Some (Some errDrainStalled).
Proof. by vm_compute. Qed.


(** ** A rejected carrier *)

Lemma bindLeg_no_drain c b auth e c' : bindLeg c b auth = (Some e, c') -> e <> ErrStreamDrainMessage.
Proof.
  unfold bindLeg. destruct (validateStreamPathBinding b) as [e'|] eqn:Hv.
  - unfold validateStreamPathBinding in Hv. case_match; simplify_eq. by intros [= <- _].
  - repeat (case_match; simplify_eq; try (by intros [= <- _])); try done.
Qed.

Lemma attach_path_session e id g auth clock b i e' :
  attach_path e id g auth clock = Ok (b, i, e') ->
  se_pathSession e' = Some (au_sessionID auth) /\ se_drainSession e' = se_drainSession e.
Proof.
  unfold attach_path. repeat (case_match; try done). by intros [= <- <- <-].
Qed.

Lemma attach_path_no_drain e id g auth clock :
  attach_path e id g auth clock <> Err (ErrProto ErrStreamDrainMessage).
Proof.
  unfold attach_path. repeat (case_match; try done). intros [= ->].
  by eapply bindLeg_no_drain.
Qed.

(** A carrier with both capabilities that is refused because its drain session is
    not the engine's has already set the session of the path cache: from then on no
    carrier with both capabilities is accepted, on any leg, of any session. *)
Theorem refused_carrier_blocks_others e id auth prior clock e' :
  PathRTTEnabled auth = true -> CoordinatedDrainEnabled auth = true ->
  other_session (se_drainSession e) (au_sessionID auth) = true ->
  attachLeg e id (Some auth) prior clock = (AttachErr (ErrProto ErrStreamDrainMessage), e') ->
  forall id' auth' prior' clock' p,
    PathRTTEnabled auth' = true -> CoordinatedDrainEnabled auth' = true ->
    (attachLeg e' id' (Some auth') prior' clock').1 <> Attached p.
Proof.
  intros Hr Hd Ho E.
  assert (se_pathSession e' = Some (au_sessionID auth) /\ se_drainSession e' = se_drainSession e) as [HP HD].
  { revert E. unfold attachLeg. rewrite Hr, Hd. simpl. repeat (case_match; try done).
    all: intros [= ? ?]; simplify_eq;
      first [by eapply attach_path_session | exfalso; by eapply attach_path_no_drain]. }
  intros id' auth' prior' clock' p Hr' Hd'. unfold attachLeg. rewrite Hr', Hd'. simpl.
  repeat (case_match; try done). simplify_eq.
  match goal with H : attach_path _ _ _ _ _ = Ok _ |- _ => rename H into HA end.
  match goal with H : attach_drain _ _ = Ok _ |- _ => rename H into HB end.
  exfalso. destruct (attach_path_session _ _ _ _ _ _ _ _ HA) as [_ HS2].
  assert (other_session (se_pathSession e') (au_sessionID auth') = false) as HO1.
  { revert HA. unfold attach_path. repeat (case_match; try done). }
  assert (other_session (se_drainSession e') (au_sessionID auth') = false) as HO2.
  { revert HB. unfold attach_drain. rewrite HS2. by case_match. }
  rewrite HP in HO1. rewrite HD in HO2. simpl in HO1. apply bool_decide_eq_false, dec_stable in HO1.
  rewrite HO1 in Ho. congruence.
Qed.

Definition both_caps : Z := Z.lor StreamCapabilityPathRTT StreamCapabilityCoordinatedDrain.
Definition carrier_auth (session : string) (leg caps : Z) : StreamPathAuth :=
  MkAuth (str session) leg caps (zero_bytes 32) (zero_bytes 32) (str "binding-16-bytes") true 0 zero_time.
Definition session_a : string := "session-a-16-byt".
Definition session_b : string := "session-b-16-byt".
Definition drained_engine : StreamEngine :=
  (attachLeg (NewStreamEngine (example_cfg <| cf_PathAware := true |>)) 0
     (Some (carrier_auth session_a 0 StreamCapabilityCoordinatedDrain)) 0 0).2.
Definition refused_engine : StreamEngine :=
  (attachLeg drained_engine 1 (Some (carrier_auth session_b 1 both_caps)) 0 0).2.

Lemma refused_facts :
  attachLeg drained_engine 1 (Some (carrier_auth session_b 1 both_caps)) 0 0
  = (AttachErr (ErrProto ErrStreamDrainMessage), refused_engine) /\
  (attachLeg drained_engine 1 (Some (carrier_auth session_a 1 both_caps)) 0 0).1 = Attached 1 /\
  (attachLeg refused_engine 1 (Some (carrier_auth session_a 1 both_caps)) 0 0).1
  = AttachErr (ErrProto ErrStreamPathMessage).
Proof. by vm_compute. Qed.

(** The carrier of the engine's own session would have been accepted before. *)
Lemma refused_carrier_blocks_others_witness :
  (attachLeg drained_engine 1 (Some (carrier_auth session_a 1 both_caps)) 0 0).1 = Attached 1 /\
  (attachLeg refused_engine 1 (Some (carrier_auth session_a 1 both_caps)) 0 0).1 <> Attached 1.
Proof.
  destruct refused_facts as (A & B & _). split; [exact B|].
  apply (refused_carrier_blocks_others drained_engine 1 (carrier_auth session_b 1 both_caps) 0 0 refused_engine);
    [by vm_compute|by vm_compute|by vm_compute|exact A|by vm_compute|by vm_compute].
Defined.
