(* ===== verification/DrainSafe.v ===== *)
(** * Coordinated drain: theorems

    Two engines and a network between them that loses, delays, duplicates and
    reorders control messages, but does not invent them: what authenticates at one
    end was sent by the other.  A leg that one end has drained is out of use at both;
    and a drain leaves no record behind. *)

From S2P Require Import Prelude Bytes Wire Hello PathProtocol RxWindow TxLedger TxInv TxQueue TxLane Repair RttCache Legs LegsInv LegPath Drain DrainInv LegLife.
From stdpp Require Import options.
#[local] Open Scope Z_scope.

(** ** Records during drains *)

(** C6. In every state the engine can reach, with legs attached, failing, replaced,
    drained and retired at any time, an outstanding record that its producer has let
    go of is taken care of.  If the ledger has it in transit, or in rescue, on a leg,
    then a [tryQueue] call in progress, a queue or the writer of that leg really holds
    the attempt, and a leg whose queues count has not been removed without telling the
    ledger.  If it is on neither lane, then it was last written to a leg that is
    available now, or the retry planner returns it. *)
Theorem no_record_stranded cfg ops d q r :
  drain_run_new cfg ops d -> let e := dn_engine d in
  current (se_txLedger e) (Some q) = Some (q, r) -> tr_localEnqueue r = false ->
  (forall b id t, lane_of r b = Some (id, t) ->
     exists p l, se_heap e !! p = Some l /\ sl_id l = id /\ carried_by e p l q b t) /\
  (lane_of r false = None -> lane_of r true = None ->
     (exists p l, se_legs e !! u8 (tr_lastSentLeg r) = Some p /\ se_heap e !! p = Some l /\ open_leg l = true) \/
     exists avoid, MkRetry q avoid ∈ PlanRetries (se_txLedger e) (streamLegAvailability e (availableLegs e))).
Proof. intros [HI HP _]%drain_run_new_inv e Hc Hl. by eapply path_taken_care. Qed.

(** A record is queued on leg 0, the leg fails and its replacement attaches; the
    record is waiting for the retry planner. *)
Definition stranded_ops : list leg_op :=
  [lo_attach 0 None 0 0; lo_join; lo_tx (op_add (str "data") 1 true); lo_queue 0 0 false; lo_claim 0 0 5;
   lo_select 0 0 TakeSend; lo_finish 0 0; lo_tx (op_finishLocal 0); lo_fail 0 (ErrCarrier io_other);
   lo_invalidate 0; lo_notify 0; lo_worker_exit 0; lo_worker_exit 0; lo_retire 0; lo_attach 0 None 0 0].
Definition stranded_drain : drain_engine := run_legs stranded_ops.
Definition stranded_engine : StreamEngine := dn_engine stranded_drain.
Definition stranded_record : StreamTXRecord :=
  from_option snd (new_record 0 [] 0 false) (current (se_txLedger stranded_engine) (Some 0)).
Lemma stranded_run : drain_run_new example_cfg (map dop_leg stranded_ops) stranded_drain.
Proof. split_and!; [repeat constructor; simpl; unfold is_u8; lia|done|by vm_compute]. Qed.
Lemma stranded_facts :
  current (se_txLedger stranded_engine) (Some 0) = Some (0, stranded_record) /\
  tr_localEnqueue stranded_record = false /\ lane_of stranded_record false = None /\
  lane_of stranded_record true = None /\ se_legs stranded_engine !! u8 (tr_lastSentLeg stranded_record) = None.
Proof. by vm_compute. Qed.

Lemma no_record_stranded_witness :
  exists avoid, MkRetry 0 avoid ∈ PlanRetries (se_txLedger stranded_engine)
    (streamLegAvailability stranded_engine (availableLegs stranded_engine)).
Proof.
  destruct stranded_facts as (A & B & C & D & E).
  destruct (no_record_stranded example_cfg (map dop_leg stranded_ops) stranded_drain 0 stranded_record stranded_run A B)
    as [_ H]. destruct (H C D) as [(p & l & F & _)|F]; [|exact F]. exfalso.
  change (se_legs stranded_engine !! u8 (tr_lastSentLeg stranded_record) = Some p) in F. rewrite E in F. discriminate F.
Defined.

(** ** What a step does to the operations *)

(** [rcv]: the messages received. *)
Record evolves (rcv : StreamDrainMessage -> Prop) (d d' : drain_engine) : Prop := {
  ev_old : forall o op, dn_ops d !! o = Some op -> exists op', dn_ops d' !! o = Some op' /\
    op_moves op op' /\
    (do_commitAck op' = true -> do_commitAck op = true \/
       exists m, rcv m /\ dr_Kind m = StreamDrainCommitAck /\ msg_key m = op_key op) /\
    (do_commitRequested op' = true -> do_commitRequested op = true \/
       exists m, rcv m /\ dr_Kind m = StreamDrainCommit /\ msg_key m = op_key op);
  ev_new : forall o op', dn_ops d' !! o = Some op' -> is_Some (dn_ops d !! o) \/ fresh_op op';
  ev_log : exists log, dn_sent d' = dn_sent d ++ log
}.

Lemma evolves_same rcv d d' : dn_ops d' = dn_ops d -> dn_sent d' = dn_sent d -> evolves rcv d d'.
Proof.
  intros E1 E2. constructor.
  - intros o op Ho. exists op. rewrite E1. split_and!; auto. apply op_moves_refl.
  - intros o op. rewrite E1. eauto.
  - exists []. by rewrite app_nil_r.
Qed.

Lemma evolves_upd (rcv : StreamDrainMessage -> Prop) d d' o op op' :
  dn_ops d !! o = Some op -> dn_ops d' = <[o := op']> (dn_ops d) ->
  op_runs op op' \/ (exists m, rcv m /\ op_key op = msg_key m /\ answered m op op') ->
  (exists log, dn_sent d' = dn_sent d ++ log) -> evolves rcv d d'.
Proof.
  intros Ho E1 HR E2. constructor; [| |done].
  - intros o2 op2 Ho2. destruct (decide (o = o2)) as [<-|Hne].
    + simplify_eq. exists op'. rewrite E1, lookup_insert_eq.
      destruct HR as [(M & R1 & R2)|(m & Hm & Hk & M & _ & _ & _ & A1 & A2)].
      * split_and!; [done|done|rewrite R1; auto|rewrite R2; auto].
      * split_and!; [done|done| |].
        -- intros H. destruct (A1 H) as [?|(? & ? & ?)]; [by left|]. right. by exists m.
        -- intros H. destruct (A2 H) as [?|(? & ?)]; [by left|]. right. by exists m.
    + exists op2. rewrite E1, lookup_insert_ne by done. split_and!; auto. apply op_moves_refl.
  - intros o2 op2. rewrite E1. intros [[<- _]|[_ H]]%lookup_insert_Some; left; eauto.
Qed.

(** A new operation appears beside the others. *)
Lemma evolves_spawn rcv d d1 op pc :
  (forall o op, dn_ops d !! o = Some op -> o < dn_fresh d) -> dn_fresh d1 = dn_fresh d ->
  evolves rcv d d1 -> fresh_op op -> evolves rcv d (spawn op pc d1).
Proof.
  intros Hfr EF [A B C] HF. constructor; simpl; [| |done].
  - intros o op2 Ho. destruct (A _ _ Ho) as (op' & Ho' & H). exists op'. rewrite EF, lookup_insert_ne; [done|].
    specialize (Hfr _ _ Ho). lia.
  - intros o op2 [[_ <-]|[_ Ho]]%lookup_insert_Some; [by right|by apply B in Ho].
Qed.

Lemma intent_evolves n rcv d carrier p l m d' :
  drain_inv n d -> acceptDrainIntent d carrier p l m = Some d' -> evolves rcv d d'.
Proof.
  intros HV.
  assert (forall o op, dn_ops d !! o = Some op -> o < dn_fresh d) as Hfr.
  { intros o op Ho. apply (dv_ops _ (di_rest _ _ HV) _ _ Ho). }
  unfold acceptDrainIntent. destruct (let! o := _ in _) as [[o active]|] eqn:Ea.
  - apply bind_Some in Ea as (o' & _ & Ea). apply bind_Some in Ea as (op & Ho & [= -> ->]).
    destruct (_ && _ && _); intros [= <-]; [by apply evolves_same|]. apply evolves_spawn; try done.
    rewrite (upd_op_insert _ _ _ _ Ho). eapply (evolves_upd _ _ _ o active); [done|done|left; done|].
    exists []. simpl. by rewrite app_nil_r.
  - destruct (bool_decide _); [intros [= <-]; by apply evolves_same|].
    destruct (sl_closed l || _ || _); [intros [= <-]; apply evolves_spawn; try done; by apply evolves_same|].
    destruct (bool_decide _); [done|]. intros [= <-]. apply evolves_spawn; try done. by apply evolves_same.
Qed.

(** The message a step receives. *)
Definition received (d : drain_engine) (op : drain_op) (m : StreamDrainMessage) : Prop :=
  match op with
  | dop_receive carrier wire => drain_decode (dn_engine d) carrier wire = Ok m
  | _ => False
  end.

Lemma receive_evolves n d carrier wire res d' :
  drain_inv n d -> handleDrainControlFrame d carrier wire = Some (res, d') ->
  evolves (received d (dop_receive carrier wire)) d d'.
Proof.
  intros HV. unfold handleDrainControlFrame, received.
  destruct (drain_decode _ _ _) as [m|] eqn:Hd; [|intros [= _ <-]; by apply evolves_same].
  destruct (bool_decide _); [intros [= _ <-]; by apply evolves_same|].
  destruct (bool_decide (dr_Kind m = StreamDrainIntent)).
  - destruct (let! p := _ in _) as [[p l]|]; [|intros [= _ <-]; by apply evolves_same].
    destruct (negb _ || _); [intros [= _ <-]; by apply evolves_same|].
    intros E. apply bind_Some in E as (d1 & E & [= _ <-]). by eapply intent_evolves.
  - intros [= E]. destruct (accept_response_cases _ _ _ _ E) as [->|(o & op & op' & _ & Ho & Hk & HA & ->)];
      [by apply evolves_same|].
    eapply (evolves_upd _ _ _ o op op'); [done|done|right; by exists m|]. exists []. simpl. by rewrite app_nil_r.
Qed.

Lemma step_evolves n d op d' :
  drain_inv n d -> drain_exec d op = Some d' -> evolves (received d op) d d'.
Proof.
  intros HV. destruct op; cbn [drain_exec].
  - intros E. apply bind_Some in E as (e & E & [= <-]). by apply evolves_same.
  - destruct (se_heap _ !! target) as [l|] eqn:Hl; [|done]. simpl. case_match; [done|]. intros E.
    apply fmap_Some in E as ([res x] & E & ->). unfold drain_admit in E. rewrite Hl in E. simpl in E.
    repeat (case_match; try done); simplify_eq; try (by apply evolves_same). apply evolves_spawn; try done.
    + intros o op Ho. apply (dv_ops _ (di_rest _ _ HV) _ _ Ho).
    + by apply evolves_same.
  - intros E. apply thread_effect in E as (op & Ho & [EL (op' & EO & HR) _]).
    eapply evolves_upd; eauto.
  - destruct (handleDrainControlFrame d carrier wire) as [[err d1]|] eqn:E; [|done].
    apply (receive_evolves n) in E; [|done]. destruct E as [A B C]. destruct err; intros [= <-]; by constructor.
  - intros [= <-]. by apply evolves_same.
Qed.

(** ** Two ends *)

(** A message that authenticates at [d] was sent by [peer]. *)
Definition genuine (peer d : drain_engine) (op : drain_op) : bool :=
  match op with
  | dop_receive carrier wire =>
    match drain_decode (dn_engine d) carrier wire with
    | Ok m => bool_decide (m ∈ (dn_sent peer).*1)
    | Err _ => true
    end
  | _ => true
  end.

(** A step of the left end ([true]) or of the right one. *)
Definition pair_exec (s : drain_engine * drain_engine) (x : bool * drain_op)
  : option (drain_engine * drain_engine) :=
  let '(a, b) := s in
  if x.1 then if genuine b a x.2 then (fun a => (a, b)) <$> drain_exec a x.2 else None
  else if genuine a b x.2 then (fun b => (a, b)) <$> drain_exec b x.2 else None.

Fixpoint pair_run (ops : list (bool * drain_op)) (s : drain_engine * drain_engine)
  : option (drain_engine * drain_engine) :=
  match ops with
  | [] => Some s
  | x :: ops => let! s := pair_exec s x in pair_run ops s
  end.

(** What the peer's messages vouch for. *)
Definition vouched (d peer : drain_engine) : Prop :=
  forall o op, dn_ops d !! o = Some op ->
    (do_commitAck op = true -> exists m w, (m, w) ∈ dn_sent peer /\
       dr_Kind m = StreamDrainCommitAck /\ msg_key m = op_key op) /\
    (do_commitRequested op = true -> exists m w, (m, w) ∈ dn_sent peer /\
       dr_Kind m = StreamDrainCommit /\ msg_key m = op_key op).

Lemma vouched_step n a b op a' :
  drain_inv n a -> vouched a b -> genuine b a op = true -> drain_exec a op = Some a' -> vouched a' b.
Proof.
  intros HV HB HG E. pose proof (step_evolves _ _ _ _ HV E) as [EO EN _].
  assert (forall m, received a op m -> exists w, (m, w) ∈ dn_sent b) as HR.
  { intros m Hm. destruct op; simpl in *; try done. rewrite Hm in HG. apply bool_decide_eq_true in HG.
    apply list_elem_of_fmap in HG as ([m2 w] & -> & H). by exists w. }
  intros o op' Ho'. destruct (EN _ _ Ho') as [[op0 Ho]|(F1 & F2 & F3 & _)].
  - destruct (EO _ _ Ho) as (op2 & Ho2 & (_ & EK & _) & A1 & A2). rewrite Ho' in Ho2. injection Ho2 as <-. rewrite EK.
    destruct (HB _ _ Ho) as [B1 B2]. split.
    + intros H. destruct (A1 H) as [H0|(m & Hm & K1 & K2)]; [auto|]. destruct (HR _ Hm) as [w Hw]. by exists m, w.
    + intros H. destruct (A2 H) as [H0|(m & Hm & K1 & K2)]; [auto|]. destruct (HR _ Hm) as [w Hw]. by exists m, w.
  - rewrite F2, F3. done.
Qed.

Lemma vouched_peer n a b op b' : drain_inv n b -> drain_exec b op = Some b' -> vouched a b -> vouched a b'.
Proof.
  intros HV E HB. destruct (step_evolves _ _ _ _ HV E) as [_ _ [log EL]].
  intros o op0 Ho. destruct (HB _ _ Ho) as [B1 B2]. rewrite EL. split.
  - intros H. destruct (B1 H) as (m & w & ? & ? & ?). exists m, w. split_and!; try done. apply elem_of_app. by left.
  - intros H. destruct (B2 H) as (m & w & ? & ? & ?). exists m, w. split_and!; try done. apply elem_of_app. by left.
Qed.

Record pair_inv (n : Z) (s : drain_engine * drain_engine) : Prop := {
  pi_left : drain_inv n s.1;
  pi_right : drain_inv n s.2;
  pi_vouched_left : vouched s.1 s.2;
  pi_vouched_right : vouched s.2 s.1
}.

Lemma drain_inv_mono n d : drain_inv n d -> drain_inv (n + 1) d.
Proof. intros [HI HP HD]. constructor; [|done|done]. eapply inv_mono; [done|lia]. Qed.

Lemma pair_step_inv n s x s' :
  pair_inv n s -> n < max_u64 -> dop_wf x.2 -> pair_exec s x = Some s' -> pair_inv (n + 1) s'.
Proof.
  intros [P1 P2 P3 P4] Hn Hwf. destruct s as [a b]. unfold pair_exec. destruct x as [[] op]; simpl in *;
    (destruct (genuine _ _ op) eqn:HG; [|done]); intros E; apply fmap_Some in E as (c & E & ->);
    constructor; simpl; eauto using drain_step_inv, drain_inv_mono, vouched_step, vouched_peer.
Qed.

Lemma pair_run_inv ops n s s' :
  pair_inv n s -> Forall (fun x => dop_wf x.2) ops -> n + Z.of_nat (length ops) <= max_u64 ->
  pair_run ops s = Some s' -> pair_inv (n + Z.of_nat (length ops)) s'.
Proof.
  revert n s. induction ops as [|x ops IH]; intros n s HV Hwf Hn; simpl in *.
  - intros [= <-]. by rewrite Z.add_0_r.
  - apply Forall_cons in Hwf as [H1 H2]. intros E. apply bind_Some in E as (s1 & Hop & E).
    replace (n + Z.of_nat (S (length ops))) with (n + 1 + Z.of_nat (length ops)) by lia.
    apply (IH _ s1); [eapply pair_step_inv; [done|lia|done..]|done|lia|done].
Qed.

Lemma new_pair_inv ca cb : pair_inv 0 (NewDrainEngine ca, NewDrainEngine cb).
Proof. constructor; simpl; [apply new_drain_inv..| |]; by intros o op Ho. Qed.

(** ** Agreement *)

(** The leg of the operation takes no new data: it is not in the registry, closed,
    draining, or the session is over. *)
Definition out_of_use (d : drain_engine) (op : streamDrainOperation) : Prop :=
  forall l, se_heap (dn_engine d) !! do_target op = Some l ->
    open_leg l = false \/ se_legs (dn_engine d) !! sl_id l <> Some (do_target op) \/
    se_done (dn_engine d) = true.

Lemma committed_out_of_use n d o op :
  drain_inv n d -> dn_ops d !! o = Some op -> committed op = true -> out_of_use d op.
Proof.
  intros [_ _ HD] Ho Hc l Hl. destruct (dv_ops _ HD _ _ Ho) as [_ _ (l2 & pc & Hl2 & Hpc & _ & Hown & Hcom & _)].
  simplify_eq. assert (gone (dn_engine d) (do_target op) l -> open_leg l = false \/
    se_legs (dn_engine d) !! sl_id l <> Some (do_target op) \/ se_done (dn_engine d) = true) as HG.
  { unfold gone, open_leg. intros [->|[?|?]]; auto. }
  destruct (Hcom Hc) as [H|H]; [auto|]. destruct (Hown H) as [Hid _].
  destruct (dv_active _ HD _ _ Hid) as (op2 & l3 & pc2 & H1 & H2 & _ & _ & _ & [H6|H6]); simplify_eq; [|auto].
  left. unfold open_leg. by rewrite H6, andb_false_r.
Qed.

(** Operations are never forgotten. *)
Definition ops_kept (d d' : drain_engine) : Prop :=
  forall o op, dn_ops d !! o = Some op -> exists op', dn_ops d' !! o = Some op' /\ op_moves op op'.

Lemma ops_kept_refl d : ops_kept d d.
Proof. intros o op Ho. exists op. split; [done|apply op_moves_refl]. Qed.
Lemma ops_kept_trans d1 d2 d3 : ops_kept d1 d2 -> ops_kept d2 d3 -> ops_kept d1 d3.
Proof.
  intros A B o op Ho. destruct (A _ _ Ho) as (op1 & Ho1 & X1 & X2 & X3 & X4 & X5).
  destruct (B _ _ Ho1) as (op2 & Ho2 & Y1 & Y2 & Y3 & Y4 & Y5). exists op2. unfold op_moves.
  rewrite Y1, Y2, Y3. split_and!; auto.
Qed.
Lemma step_kept n d x d' : drain_inv n d -> drain_exec d x = Some d' -> ops_kept d d'.
Proof.
  intros HV E o op Ho. destruct (step_evolves _ _ _ _ HV E) as [A _ _].
  destruct (A _ _ Ho) as (op' & ? & ? & _); eauto.
Qed.

Lemma pair_run_kept ops n s s' :
  pair_inv n s -> Forall (fun x => dop_wf x.2) ops -> n + Z.of_nat (length ops) <= max_u64 ->
  pair_run ops s = Some s' -> ops_kept s.1 s'.1 /\ ops_kept s.2 s'.2.
Proof.
  revert n s. induction ops as [|x ops IH]; intros n s HV Hwf Hn; simpl in *.
  - intros [= <-]. split; apply ops_kept_refl.
  - apply Forall_cons in Hwf as [H1 H2]. intros E. apply bind_Some in E as (s1 & Hop & E).
    assert (pair_inv (n + 1) s1) as HV1 by (eapply pair_step_inv; [done|lia|done..]).
    destruct (IH (n + 1) s1 HV1 H2 ltac:(lia) E) as [K1 K2].
    assert (ops_kept s.1 s1.1 /\ ops_kept s.2 s1.2) as [J1 J2]; [|by eauto using ops_kept_trans].
    destruct HV as [P1 P2 _ _], s as [a b]. unfold pair_exec in Hop. destruct x as [[] y]; simpl in *; (case_match; [|done]);
      apply fmap_Some in Hop as (c & Hop & ->); simpl; eauto using ops_kept_refl, step_kept.
Qed.

Lemma moves_committed op op' : op_moves op op' -> committed op = true -> committed op' = true.
Proof. intros (_ & _ & _ & M4 & M5). unfold committed. rewrite !orb_true_iff. intros [?|?]; auto. Qed.

(** The other end of an operation that has succeeded. *)
Lemma success_peer n a b o op :
  pair_inv n (a, b) -> dn_ops a !! o = Some op -> success op = true ->
  exists o' op', dn_ops b !! o' = Some op' /\ op_key op' = op_key op /\
    do_initiator op' = negb (do_initiator op) /\ committed op' = true.
Proof.
  intros [P1 P2 P3 P4] Ho Hs. destruct (P3 _ _ Ho) as [V1 V2]. simpl in *. unfold success in Hs.
  destruct (do_initiator op) eqn:Hi.
  - destruct (V1 Hs) as (m & w & Hm & Hk & Hy). destruct (dv_log _ (di_rest _ _ P2) _ _ Hm) as (o' & op' & Ho' & S1 & _ & _ & S4).
    destruct (ov_flags _ _ _ (dv_ops _ (di_rest _ _ P2) _ _ Ho')) as (_ & _ & F3). specialize (S4 Hk).
    exists o', op'. split_and!; [done|congruence|by apply F3|]. unfold committed. by rewrite S4, orb_true_r.
  - destruct (V2 Hs) as (m & w & Hm & Hk & Hy). destruct (dv_log _ (di_rest _ _ P2) _ _ Hm) as (o' & op' & Ho' & S1 & _ & S3 & _).
    destruct (ov_flags _ _ _ (dv_ops _ (di_rest _ _ P2) _ _ Ho')) as (_ & F2 & _). specialize (S3 Hk).
    exists o', op'. split_and!; [done|congruence|by apply F2|]. unfold committed. by rewrite S3.
Qed.

Lemma finished_success n d o op :
  drain_inv n d -> dn_ops d !! o = Some op -> do_finished op = true -> do_terminalErr op = None -> success op = true.
Proof.
  intros HV Ho Hf He. destruct (dv_ops _ (di_rest _ _ HV) _ _ Ho) as [_ _ (l & pc & _ & _ & _ & _ & _ & H)]. auto.
Qed.

(** C7. Agreement.  Suppose that, over any network that only loses, delays, repeats and
    reorders messages, one end has completed a drain: it has seen the proof of the
    peer's commit, or its operation is finished without an error.  Then from that
    moment on, whatever happens later, its leg takes no new data; and the other end has
    an operation with the same identity, in the opposite role, that has committed as
    well, and whose leg takes no new data either. *)
Theorem drain_agreement ca cb ops a b o op ops2 a2 b2 :
  Forall (fun x => dop_wf x.2) (ops ++ ops2) -> Z.of_nat (length (ops ++ ops2)) <= max_u64 ->
  pair_run ops (NewDrainEngine ca, NewDrainEngine cb) = Some (a, b) ->
  dn_ops a !! o = Some op ->
  (do_finished op = true /\ do_terminalErr op = None) \/ success op = true ->
  pair_run ops2 (a, b) = Some (a2, b2) ->
  exists op2 o' op', dn_ops a2 !! o = Some op2 /\ op_key op2 = op_key op /\ out_of_use a2 op2 /\
    dn_ops b2 !! o' = Some op' /\ op_key op' = op_key op /\
    do_initiator op' = negb (do_initiator op) /\ committed op' = true /\ out_of_use b2 op'.
Proof.
  rewrite Forall_app, length_app. intros [W1 W2] Hn E1 Ho Hs E2.
  pose proof (pair_run_inv ops 0 _ _ (new_pair_inv ca cb) W1 ltac:(lia) E1) as HP. rewrite Z.add_0_l in HP.
  assert (success op = true) as Hsucc.
  { destruct Hs as [[? ?]|?]; [|done]. eapply finished_success; [apply HP|done..]. }
  destruct (success_peer _ _ _ _ _ HP Ho Hsucc) as (o' & op' & Ho' & K1 & K2 & K3).
  pose proof (pair_run_inv ops2 _ _ _ HP W2 ltac:(lia) E2) as HP2.
  destruct (pair_run_kept ops2 _ _ _ HP W2 ltac:(lia) E2) as [KA KB]. simpl in *.
  destruct (KA _ _ Ho) as (op2 & Ho2 & MA). destruct (KB _ _ Ho') as (op2' & Ho2' & MB).
  pose proof (ov_flags _ _ _ (dv_ops _ (di_rest _ _ (pi_left _ _ HP)) _ _ Ho)) as HF.
  pose proof (moves_committed _ _ MA (success_committed _ HF Hsucc)) as C1.
  pose proof (moves_committed _ _ MB K3) as C2.
  destruct MA as (_ & KA2 & _), MB as (_ & KB2 & KB3 & _).
  exists op2, o', op2'. split_and!; try done; try congruence.
  - by eapply committed_out_of_use; [apply (pi_left _ _ HP2)|..].
  - by eapply committed_out_of_use; [apply (pi_right _ _ HP2)|..].
Qed.

(** ** Examples *)

(** A script: local steps of an end, and deliveries of the [k]-th message of the other. *)
Inductive play := PStep (side : bool) (op : drain_op) | PDeliver (side : bool) (carrier : lptr) (k : nat).

Definition play_op (s : drain_engine * drain_engine) (x : play) : bool * drain_op :=
  match x with
  | PStep side op => (side, op)
  | PDeliver side carrier k =>
    (side, dop_receive carrier (from_option snd [] (dn_sent (if side then s.2 else s.1) !! k)))
  end.

Fixpoint script (xs : list play) (s : drain_engine * drain_engine)
  : list (bool * drain_op) * (drain_engine * drain_engine) :=
  match xs with
  | [] => ([], s)
  | x :: xs =>
    let op := play_op s x in
    let '(ops, s) := script xs (default s (pair_exec s op)) in (op :: ops, s)
  end.

Definition drain_cfg (role : Z) : StreamConfig := MkConfig 3 0 false role 4 [10; 20] true false 0.
Definition drain_auth (leg : Z) (binding : string) : StreamPathAuth :=
  MkAuth (str session_a) leg StreamCapabilityCoordinatedDrain (zero_bytes 32) (zero_bytes 32)
    (str binding) true 0 zero_time.
Definition attach_both (leg : Z) (binding : string) : list play :=
  let op := dop_leg (lo_attach leg (Some (drain_auth leg binding)) 0 0) in
  [PStep true op; PStep false op].
Definition all_written : lptr -> control_outcome := fun _ => ControlWritten.
Definition run_thread (side : bool) (o : optr) (n : nat) : list play :=
  replicate n (PStep side (dop_thread o 1 all_written EvTick)).
Definition attach_legs : list play :=
  attach_both 0 "binding-0-16-byt" ++ attach_both 1 "binding-1-16-byt" ++ attach_both 2 "binding-2-16-byt".

(** The left end drains leg 1; up to the arrival of COMMIT at the right end. *)
Definition to_commit : list play :=
  attach_legs ++ [PStep true (dop_admit 1 (str "operation-1-16-b") 0)] ++ run_thread true 0 1 ++
  [PDeliver false 0 0] ++ run_thread false 0 5 ++      (* INTENT, READY of the responder *)
  [PDeliver true 0 0] ++ run_thread true 0 15 ++       (* READY of the initiator, COMMIT *)
  [PDeliver false 0 1; PDeliver false 0 2].

Definition new_pair : drain_engine * drain_engine :=
  (NewDrainEngine (drain_cfg StreamPathRoleClient), NewDrainEngine (drain_cfg StreamPathRoleServer)).

(** ... then the responder acknowledges and retires the leg, then the initiator. *)
Definition whole_drain : list play :=
  to_commit ++ run_thread false 0 8 ++ [PDeliver true 0 1] ++ run_thread true 0 4.
Definition whole_ops : list (bool * drain_op) := Eval vm_compute in (script whole_drain new_pair).1.

Definition done_well (d : drain_engine) (o : optr) (initiator : bool) : bool :=
  match dn_ops d !! o with
  | Some op => do_finished op && bool_decide (do_terminalErr op = None)
               && bool_decide (do_initiator op = initiator)
  | None => false
  end.

Lemma done_well_true d o i : done_well d o i = true ->
  exists op, dn_ops d !! o = Some op /\ do_finished op = true /\ do_terminalErr op = None /\ do_initiator op = i.
Proof.
  unfold done_well. destruct (dn_ops d !! o) as [op|]; [|done]. rewrite !andb_true_iff, !bool_decide_eq_true.
  intros [[? ?] ?]. by exists op.
Qed.

Lemma whole_run : match pair_run whole_ops new_pair with
  | Some (a, b) => done_well a 0 true && bool_decide (getLeg (dn_engine a) 1 = None)
                   && bool_decide (getLeg (dn_engine b) 1 = None)
  | None => false end = true.
Proof. by vm_compute. Qed.

(** A decidable version of [dop_wf] for the operations of the scripts. *)
Definition script_wf (x : bool * drain_op) : bool :=
  match x.2 with
  | dop_leg (lo_attach id _ _ _) => bool_decide (0 <= id < 256)
  | dop_leg _ => false
  | dop_admit _ id _ => bool_decide (length id = 16%nat)
  | _ => true
  end.
Lemma script_wf_ok ops : forallb script_wf ops = true -> Forall (fun x => dop_wf x.2) ops.
Proof.
  rewrite forallb_forall, Forall_forall. intros H x Hx%list_elem_of_In%H. destruct x as [sd [[]| | | |]]; simpl in *;
    try done; by apply bool_decide_eq_true in Hx.
Qed.
Lemma whole_wf : Forall (fun x => dop_wf x.2) (whole_ops ++ []) /\ Z.of_nat (length (whole_ops ++ [])) <= max_u64.
Proof. split; [apply script_wf_ok|]; by vm_compute. Qed.

Lemma drain_agreement_witness : exists a b op o' op',
  pair_run whole_ops new_pair = Some (a, b) /\ dn_ops a !! 0 = Some op /\ do_initiator op = true /\
  do_finished op = true /\ dn_ops b !! o' = Some op' /\ op_key op' = op_key op /\
  do_initiator op' = false /\ committed op' = true.
Proof.
  pose proof whole_run as HR. destruct (pair_run whole_ops new_pair) as [[a b]|] eqn:E; [|discriminate HR].
  rewrite !andb_true_iff in HR. destruct HR as [[HR _] _]. apply done_well_true in HR as (op & Ho & Hf & He & Hi).
  destruct whole_wf as [HW HL].
  destruct (drain_agreement (drain_cfg StreamPathRoleClient) (drain_cfg StreamPathRoleServer) whole_ops a b 0 op []
    a b HW HL E Ho (or_introl (conj Hf He)) eq_refl) as (op2 & o' & op' & _ & _ & _ & H1 & H2 & H3 & H4 & _).
  rewrite Hi in H3. exists a, b, op, o', op'.
  exact (conj eq_refl (conj Ho (conj Hi (conj Hf (conj H1 (conj H2 (conj H3 H4))))))).
Defined.

(** ** Two things the code does that its comments rule out *)

Definition acks (d : drain_engine) : bool :=
  existsb (fun mw => bool_decide (dr_Kind mw.1 = StreamDrainCommitAck)) (dn_sent d).

Lemma no_acks d : acks d = false -> forall m w, (m, w) ∈ dn_sent d -> dr_Kind m <> StreamDrainCommitAck.
Proof.
  unfold acks. intros HA m w Hm Hk. rewrite <- not_true_iff_false, existsb_exists in HA. apply HA. exists (m, w).
  rewrite <- list_elem_of_In, bool_decide_eq_true. done.
Qed.

(** The control queues are full when the responder wants to acknowledge. *)
Definition unacked_ops : list (bool * drain_op) := Eval vm_compute in
  (script (to_commit ++ run_thread false 0 4 ++
     [PStep false (dop_thread 0 1 (fun _ => ControlFull) EvTick)] ++ run_thread false 0 3) new_pair).1.
Lemma unacked_run : match pair_run unacked_ops new_pair with
  | Some (_, b) => done_well b 0 false && negb (acks b) && bool_decide (getLeg (dn_engine b) 1 = None)
  | None => false end = true.
Proof. by vm_compute. Qed.

(** A responder can retire its leg, and report success, although the COMMIT-ACK it
    tried to send was refused by every carrier. *)
Theorem retired_without_ack : exists ops a b op,
  pair_run ops new_pair = Some (a, b) /\ dn_ops b !! 0 = Some op /\ do_initiator op = false /\
  do_finished op = true /\ do_terminalErr op = None /\ getLeg (dn_engine b) 1 = None /\
  forall m w, (m, w) ∈ dn_sent b -> dr_Kind m <> StreamDrainCommitAck.
Proof.
  pose proof unacked_run as HR. destruct (pair_run unacked_ops new_pair) as [[a b]|] eqn:E; [|done].
  rewrite !andb_true_iff, negb_true_iff, bool_decide_eq_true in HR. destruct HR as [[HR HA] HL].
  apply done_well_true in HR as (op & Ho & Hf & He & Hi).
  exists unacked_ops, a, b, op. split; [exact E|]. exact (conj Ho (conj Hi (conj Hf (conj He (conj HL (no_acks _ HA)))))).
Qed.

(** The left end drains leg 1, gives up, and drains it again; then both of its intents
    arrive a second time. *)
Definition replay : list play :=
  attach_legs ++ [PStep true (dop_admit 1 (str "operation-1-16-b") 0)] ++ run_thread true 0 1 ++
  [PDeliver false 0 0] ++ run_thread true 0 6 ++ [PStep true (dop_thread 0 1 all_written EvContext)] ++
  run_thread true 0 3 ++ [PDeliver false 0 1] ++ run_thread false 0 3 ++
  [PStep true (dop_admit 1 (str "operation-2-16-b") 0)] ++ run_thread true 1 1 ++
  [PDeliver false 0 2; PDeliver false 0 0] ++ run_thread false 1 3 ++ [PDeliver false 0 2].
Definition replay_ops : list (bool * drain_op) := Eval vm_compute in (script replay new_pair).1.

Definition opened (d : drain_engine) (o : optr) : bool :=
  match dn_ops d !! o with Some op => negb (do_initiator op) && do_peerQuiesced op | None => false end.
Definition same_key (d : drain_engine) (o1 o2 : optr) : bool :=
  match dn_ops d !! o1, dn_ops d !! o2 with
  | Some op1, Some op2 => bool_decide (op_key op1 = op_key op2)
  | _, _ => false
  end.

Lemma replay_run : match pair_run replay_ops new_pair with
  | Some (_, b) => opened b 1 && opened b 3 && same_key b 1 3
  | None => false end = true.
Proof. by vm_compute. Qed.

Lemma opened_twice d o1 o2 :
  opened d o1 && opened d o2 && same_key d o1 o2 = true ->
  exists op1 op2, dn_ops d !! o1 = Some op1 /\ dn_ops d !! o2 = Some op2 /\ op_key op1 = op_key op2 /\
    do_initiator op1 = false /\ do_initiator op2 = false /\
    do_peerQuiesced op1 = true /\ do_peerQuiesced op2 = true.
Proof.
  rewrite !andb_true_iff. unfold opened, same_key. intros [[H1 H2] H3].
  destruct (dn_ops d !! o1) as [op1|]; [|done]. destruct (dn_ops d !! o2) as [op2|]; [|done].
  apply andb_true_iff in H1 as [H1%negb_true_iff ?], H2 as [H2%negb_true_iff ?].
  apply bool_decide_eq_true in H3. by exists op1, op2.
Qed.

(** A responder can open two operations for one and the same intent: an older intent
    that arrives while an operation is active lowers the replay high-water mark, and
    then the newer intent is accepted once more. *)
Theorem intent_accepted_twice : exists ops a b op1 op2,
  pair_run ops new_pair = Some (a, b) /\ dn_ops b !! 1 = Some op1 /\ dn_ops b !! 3 = Some op2 /\
  op_key op1 = op_key op2 /\ do_initiator op1 = false /\ do_initiator op2 = false /\
  do_peerQuiesced op1 = true /\ do_peerQuiesced op2 = true.
Proof.
  pose proof replay_run as HR. destruct (pair_run replay_ops new_pair) as [[a b]|] eqn:E; [|discriminate HR].
  apply opened_twice in HR as (op1 & op2 & H). exists replay_ops, a, b, op1, op2. exact (conj E H).
Qed.

(** ** The barrier *)

Lemma drain_run_kept ops n d d' :
  drain_inv n d -> Forall dop_wf ops -> n + Z.of_nat (length ops) <= max_u64 ->
  drain_run ops d = Some d' -> ops_kept d d'.
Proof.
  revert n d. induction ops as [|op ops IH]; intros n d HV Hwf Hn; simpl in *.
  - intros [= <-]. apply ops_kept_refl.
  - apply Forall_cons in Hwf as [H1 H2]. intros E. apply bind_Some in E as (d1 & Hop & E).
    eapply ops_kept_trans; [by eapply step_kept|].
    apply (IH (n + 1) d1); [eapply drain_step_inv; [done|lia|done..]|done|lia|done].
Qed.

(** C8. Once an end has sent COMMIT, or has accepted the peer's COMMIT, its leg is never
    used for new data again, whatever the peer, the network, the timers and the rest of
    the engine do afterwards, and even if the peer aborts. *)
Theorem commit_barrier cfg ops d o op ops2 d2 :
  drain_run_new cfg ops d -> dn_ops d !! o = Some op -> committed op = true ->
  Forall dop_wf ops2 -> Z.of_nat (length ops) + Z.of_nat (length ops2) <= max_u64 ->
  drain_run ops2 d = Some d2 ->
  exists op2, dn_ops d2 !! o = Some op2 /\ do_target op2 = do_target op /\ committed op2 = true /\
    forall l, se_heap (dn_engine d2) !! do_target op = Some l ->
      se_done (dn_engine d2) = true \/ ~ do_target op ∈ availableLegs (dn_engine d2).
Proof.
  intros HR Ho Hc Hwf Hn E. pose proof (drain_run_new_inv _ _ _ HR) as HV.
  pose proof (drain_run_inv ops2 _ _ _ HV Hwf Hn E) as HV2.
  destruct (drain_run_kept ops2 _ _ _ HV Hwf Hn E _ _ Ho) as (op2 & Ho2 & HM).
  pose proof (moves_committed _ _ HM Hc) as Hc2. destruct HM as (HT & _). exists op2. split_and!; try done.
  intros l Hl. rewrite <- HT in Hl |- *. destruct (committed_out_of_use _ _ _ _ HV2 Ho2 Hc2 l Hl) as [H|[H|H]]; [right..|by left].
  - intros (k & l2 & _ & Hl2 & Ho3)%(elem_of_availableLegs _ _ _ (di_engine _ _ HV2)). congruence.
  - intros (k & l2 & Hk & Hl2 & Ho3)%(elem_of_availableLegs _ _ _ (di_engine _ _ HV2)).
    destruct (ei_legs _ _ (di_engine _ _ HV2) _ _ Hk) as (_ & l3 & Hl3 & Hid & _). congruence.
Qed.

(** The steps of the left end, up to COMMIT. *)
Definition commit_ops : list drain_op := Eval vm_compute in
  map snd (List.filter fst (script to_commit new_pair).1).

Lemma commit_run : match drain_run commit_ops (NewDrainEngine (drain_cfg StreamPathRoleClient)) with
  | Some d => match dn_ops d !! 0 with Some op => committed op | None => false end
  | None => false end = true.
Proof. by vm_compute. Qed.
Lemma commit_wf : Forall dop_wf commit_ops /\ Z.of_nat (length commit_ops) <= max_u64.
Proof.
  split; [|by vm_compute].
  apply (Forall_fmap snd (fun op => dop_wf op) (map (pair true) commit_ops)), script_wf_ok. by vm_compute.
Qed.

Lemma commit_barrier_witness : exists d op,
  drain_run commit_ops (NewDrainEngine (drain_cfg StreamPathRoleClient)) = Some d /\
  dn_ops d !! 0 = Some op /\ committed op = true /\
  forall l, se_heap (dn_engine d) !! do_target op = Some l ->
      se_done (dn_engine d) = true \/ ~ do_target op ∈ availableLegs (dn_engine d).
Proof.
  pose proof commit_run as HR. destruct (drain_run commit_ops _) as [d|] eqn:E; [|discriminate HR].
  destruct (dn_ops d !! 0) as [op|] eqn:Ho; [|discriminate HR]. destruct commit_wf as [HW HL].
  assert (Z.of_nat (length commit_ops) + Z.of_nat (length (A := drain_op) []) <= max_u64) as HL2
    by (rewrite Z.add_0_r; exact HL).
  destruct (commit_barrier (drain_cfg StreamPathRoleClient) commit_ops d 0 op [] d (conj HW (conj HL E)) Ho HR
    (List.Forall_nil _) HL2 eq_refl) as (op2 & _ & _ & _ & H).
  exists d, op. exact (conj eq_refl (conj Ho (conj HR H))).
Defined.
