(* ===== verification/Rescue.v ===== *)
(** * Bounded rescue: the byte budget of healthy head-of-line rescues

    [core/stream_bounded_rescue.go], an opt-in policy: a copy of an overdue record
    may be sent on another leg only within a budget, a ratio of the application bytes
    of the last 60 seconds plus one lifetime burst.  A copy is reserved when it is
    decided on, committed at the first byte handed to the carrier, and settled with
    what the carrier accepted.

    Every method is one critical section of [b.mu] and so one function of the budget.
    The events for the observer are returned in the order they are emitted; their
    elapsed-time stamp is left out.  [AckThrough] walks a Go map: the events it emits
    come in an unspecified order.  [container/heap] is written out. *)

From S2P Require Import Prelude.
From stdpp Require Import options.
#[local] Open Scope Z_scope.

(** ** Classification *)

Inductive StreamRescueClass :=
| StreamRescueOriginalData
| StreamRescueHealthyHOL
| StreamRescueFailureRecovery
| StreamRescueOtherCoreRetry
| StreamRescueProbeData
| StreamRescueDuplicateOrRejected.
#[export] Instance StreamRescueClass_eq_dec : EqDecision StreamRescueClass.
Proof. solve_decision. Defined.

Inductive StreamRescueCause :=
| StreamRescueCauseNone
| StreamRescueCauseFrontier
| StreamRescueCauseRetryPlanner
| StreamRescueCauseProbe.
#[export] Instance StreamRescueCause_eq_dec : EqDecision StreamRescueCause.
Proof. solve_decision. Defined.

Record StreamRescueEvidence := MkEvidence {
  re_Sequence : Z;
  re_AckedNext : Z;
  re_OwnerLeg : Z;
  re_RecordOwnerLeg : Z;
  re_TargetLeg : Z;
  re_TargetGeneration : Z;
  re_OriginGeneration : Z;
  re_OwnerGeneration : Z;
  re_RecoveryEpoch : Z;
  re_RecoveryEpochCurrent : bool;
  re_Cause : StreamRescueCause;
  re_IsData : bool;
  re_IsRescue : bool;
  re_ProbeData : bool;
  re_Outstanding : bool;
  re_OriginalWriteInTransit : bool;
  re_OriginalWriteLeg : Z;
  re_FrontierOverdue : bool;
  re_OriginalWriteObserved : bool;
  re_OwnerLive : bool;
  re_TargetAvailable : bool;
  re_TargetGenerationMatches : bool;
  re_OwnerRestricted : bool;
  re_OwnerInvalidated : bool;
  re_GenerationMatchesOrigin : bool
}.
#[export] Instance StreamRescueEvidence_eq_dec : EqDecision StreamRescueEvidence.
Proof. solve_decision. Defined.
#[export] Instance StreamRescueEvidence_fields : Fields StreamRescueEvidence := fun e =>
  MkEvidence (re_Sequence e) (re_AckedNext e) (re_OwnerLeg e) (re_RecordOwnerLeg e) (re_TargetLeg e)
    (re_TargetGeneration e) (re_OriginGeneration e) (re_OwnerGeneration e) (re_RecoveryEpoch e)
    (re_RecoveryEpochCurrent e) (re_Cause e) (re_IsData e) (re_IsRescue e) (re_ProbeData e)
    (re_Outstanding e) (re_OriginalWriteInTransit e) (re_OriginalWriteLeg e) (re_FrontierOverdue e)
    (re_OriginalWriteObserved e) (re_OwnerLive e) (re_TargetAvailable e)
    (re_TargetGenerationMatches e) (re_OwnerRestricted e) (re_OwnerInvalidated e)
    (re_GenerationMatchesOrigin e).

Definition no_evidence : StreamRescueEvidence :=
  MkEvidence 0 0 0 0 0 0 0 0 0 false StreamRescueCauseNone false false false false false 0 false
    false false false false false false false.

Definition ClassifyStreamRescue (e : StreamRescueEvidence) : StreamRescueClass :=
  let owned := bool_decide (0 <= re_OwnerLeg e) && bool_decide (re_OwnerLeg e = re_RecordOwnerLeg e) in
  let known := bool_decide (re_OriginGeneration e <> 0) in
  if negb (re_IsData e) then StreamRescueOtherCoreRetry else
  if negb (re_IsRescue e) then StreamRescueOriginalData else
  if negb (re_Outstanding e) then StreamRescueDuplicateOrRejected else
  if re_OwnerInvalidated e && (owned && known) then StreamRescueFailureRecovery else
  let probeCandidate := re_ProbeData e || bool_decide (re_Cause e = StreamRescueCauseProbe) in
  if probeCandidate && owned && re_OwnerLive e && re_GenerationMatchesOrigin e
     && re_RecoveryEpochCurrent e && known then StreamRescueProbeData else
  if probeCandidate then StreamRescueOtherCoreRetry else
  if bool_decide (re_Cause e = StreamRescueCauseFrontier) && re_FrontierOverdue e && owned
     && re_OwnerLive e && re_GenerationMatchesOrigin e && re_RecoveryEpochCurrent e && known
     && bool_decide (re_RecoveryEpoch e <> 0) && re_OriginalWriteObserved e
  then StreamRescueHealthyHOL else StreamRescueOtherCoreRetry.

(** ** Events for the observer *)

Record StreamRescueEvent := MkRescueEvent {
  ev_At : time;
  ev_SessionID : list byte;
  ev_CandidateID : Z;
  ev_AttemptID : Z;
  ev_PerRecordAttempt : Z;
  ev_PreviousResult : string;
  ev_AckedAtAttempt : bool;
  ev_Kind : string;
  ev_Evidence : StreamRescueEvidence;
  ev_Class : StreamRescueClass;
  ev_ReservationID : Z;
  ev_PayloadBytes : Z;
  ev_AcceptedBytes : Z;
  ev_Reason : string;
  ev_RecoveryExempted : bool;
  ev_PolicyVariant : string;
  ev_EligibilitySnapshot : bool;
  ev_ClassificationEnabled : bool;
  ev_ClassificationEligible : bool;
  ev_PerRecordEligible : bool;
  ev_PerRecordEnabled : bool;
  ev_RollingBudgetEligible : bool;
  ev_RollingBudgetEnabled : bool;
  ev_TargetLegAvailable : bool;
  ev_AckedAtDecision : bool;
  ev_AckOutcome : string;
  ev_FinalDecision : string;
  ev_FinalDecisionReason : string
}.
#[export] Instance StreamRescueEvent_fields : Fields StreamRescueEvent := fun e =>
  MkRescueEvent (ev_At e) (ev_SessionID e) (ev_CandidateID e) (ev_AttemptID e)
    (ev_PerRecordAttempt e) (ev_PreviousResult e) (ev_AckedAtAttempt e) (ev_Kind e) (ev_Evidence e)
    (ev_Class e) (ev_ReservationID e) (ev_PayloadBytes e) (ev_AcceptedBytes e) (ev_Reason e)
    (ev_RecoveryExempted e) (ev_PolicyVariant e) (ev_EligibilitySnapshot e)
    (ev_ClassificationEnabled e) (ev_ClassificationEligible e) (ev_PerRecordEligible e)
    (ev_PerRecordEnabled e) (ev_RollingBudgetEligible e) (ev_RollingBudgetEnabled e)
    (ev_TargetLegAvailable e) (ev_AckedAtDecision e) (ev_AckOutcome e) (ev_FinalDecision e)
    (ev_FinalDecisionReason e).

(** An event as the composite literals make it: the fields not named are zero. *)
Definition rescue_event (at_ : time) (session : list byte) (kind : string)
    (e : StreamRescueEvidence) (class : StreamRescueClass) (reservation payload : Z)
    (previous reason : string) : StreamRescueEvent :=
  MkRescueEvent at_ session 0 0 0 previous false kind e class reservation payload 0 reason false ""
    false false false false false false false false false "" "" "".

(** ** Configuration and state *)

(** A [boundedRescueFactorMode], a [uint8]. *)
Definition boundedRescueFactorFull : Z := 0.
Definition boundedRescueFactorCOnly : Z := 1.
Definition boundedRescueFactorCR : Z := 2.

Definition mode_String (m : Z) : string :=
  if bool_decide (m = boundedRescueFactorCOnly) then "B1-C" else
  if bool_decide (m = boundedRescueFactorCR) then "B1-CR" else "B1-F".

Record StreamBoundedRescueConfig := MkRescueConfig {
  rf_Enabled : bool;
  rf_BudgetBasisPoints : Z;
  rf_BurstBytes : Z;
  rf_factorMode : Z
}.

Record StreamBoundedRescueStats := MkRescueStats {
  bs_Enabled : bool;
  bs_Closed : bool;
  bs_BudgetBasisPoints : Z;
  bs_Window : duration;
  bs_WindowOriginalBytes : Z;
  bs_WindowCarrierAcceptedBytes : Z;
  bs_WindowBaseQuotaBytes : Z;
  bs_WindowBudgetDebtBytes : Z;
  bs_ReservedBytes : Z;
  bs_ReservedBaseBytes : Z;
  bs_ReservedBurstBytes : Z;
  bs_BurstBytes : Z;
  bs_BurstCommittedBytes : Z;
  bs_PolicyVariant : string;
  bs_CandidateAckLinkDropped : Z;
  bs_CandidateCount : Z;
  bs_EligibleCount : Z;
  bs_AdmittedCount : Z;
  bs_PerRecordRejected : Z;
  bs_BudgetRejected : Z;
  bs_StaleOrAckedRejected : Z;
  bs_UnclassifiedRejected : Z;
  bs_FailureRecoveryExempted : Z;
  bs_ProbeDataExempted : Z;
  bs_CarrierAttemptBytes : Z;
  bs_CarrierAcceptedBytes : Z;
  bs_PartialAcceptedBytes : Z;
  bs_ReleasedBytes : Z;
  bs_DuplicateOriginalRecords : Z;
  bs_ClosedOriginalRecords : Z;
  bs_OverAcceptedBytes : Z;
  bs_CommittedAttemptCount : Z;
  bs_LifetimeRescueAttempts : Z;
  bs_LifetimeMaxPerRecord : Z;
  bs_CrossEpochRecordCount : Z;
  bs_OutstandingReservations : Z;
  bs_AcceptedByTargetLeg : Z * Z;
  bs_AttemptedByTargetLeg : Z * Z;
  bs_RejectedReasons : gmap string Z
}.
#[export] Instance StreamBoundedRescueStats_fields : Fields StreamBoundedRescueStats := fun s =>
  MkRescueStats (bs_Enabled s) (bs_Closed s) (bs_BudgetBasisPoints s) (bs_Window s)
    (bs_WindowOriginalBytes s) (bs_WindowCarrierAcceptedBytes s) (bs_WindowBaseQuotaBytes s)
    (bs_WindowBudgetDebtBytes s) (bs_ReservedBytes s) (bs_ReservedBaseBytes s)
    (bs_ReservedBurstBytes s) (bs_BurstBytes s) (bs_BurstCommittedBytes s) (bs_PolicyVariant s)
    (bs_CandidateAckLinkDropped s) (bs_CandidateCount s) (bs_EligibleCount s) (bs_AdmittedCount s)
    (bs_PerRecordRejected s) (bs_BudgetRejected s) (bs_StaleOrAckedRejected s)
    (bs_UnclassifiedRejected s) (bs_FailureRecoveryExempted s) (bs_ProbeDataExempted s)
    (bs_CarrierAttemptBytes s) (bs_CarrierAcceptedBytes s) (bs_PartialAcceptedBytes s)
    (bs_ReleasedBytes s) (bs_DuplicateOriginalRecords s) (bs_ClosedOriginalRecords s)
    (bs_OverAcceptedBytes s) (bs_CommittedAttemptCount s) (bs_LifetimeRescueAttempts s)
    (bs_LifetimeMaxPerRecord s) (bs_CrossEpochRecordCount s) (bs_OutstandingReservations s)
    (bs_AcceptedByTargetLeg s) (bs_AttemptedByTargetLeg s) (bs_RejectedReasons s).

Definition zero_stats : StreamBoundedRescueStats :=
  MkRescueStats false false 0 0 0 0 0 0 0 0 0 0 0 "" 0 0 0 0 0 0 0 0 0 0 0 0 0 0 0 0 0 0 0 0 0 0
    (0, 0) (0, 0) ∅.

Definition streamBoundedRescueWindow : duration := 60 * Second.
Definition streamBoundedRescueCandidateAckLinks : Z := 64.

Record rescueByteEvent := MkByteEvent { be_at : time; be_bytes : Z; be_target : Z }.

(** A [rescueEpochKey]: the generation of the record's leg and the recovery epoch. *)
Notation rescueEpochKey := (Z * Z)%type (only parsing).

Record boundedRescueRecordState := MkRecordState {
  rr_acked : bool;
  rr_candidateIDs : list Z;
  rr_pendingByEpoch : gmap rescueEpochKey Z;
  rr_usedByEpoch : gset rescueEpochKey;
  rr_lifetimeAttempt : Z;
  rr_lastResult : string
}.
#[export] Instance boundedRescueRecordState_fields : Fields boundedRescueRecordState := fun r =>
  MkRecordState (rr_acked r) (rr_candidateIDs r) (rr_pendingByEpoch r) (rr_usedByEpoch r)
    (rr_lifetimeAttempt r) (rr_lastResult r).

Record boundedRescueReservation := MkReservation {
  rs_id : Z;
  rs_candidateID : Z;
  rs_seq : Z;
  rs_key : rescueEpochKey;
  rs_target : Z;
  rs_bytes : Z;
  rs_baseBytes : Z;
  rs_burstBytes : Z;
  rs_started : bool;
  rs_evidence : StreamRescueEvidence;
  rs_attemptID : Z;
  rs_previousResult : string;
  rs_perRecordAttempt : Z;
  rs_classificationEligible : bool;
  rs_perRecordEligible : bool;
  rs_rollingBudgetEligible : bool;
  rs_targetLegAvailable : bool;
  rs_ackedAtDecision : bool
}.
#[export] Instance boundedRescueReservation_eq_dec : EqDecision boundedRescueReservation.
Proof. solve_decision. Defined.
#[export] Instance boundedRescueReservation_fields : Fields boundedRescueReservation := fun r =>
  MkReservation (rs_id r) (rs_candidateID r) (rs_seq r) (rs_key r) (rs_target r) (rs_bytes r)
    (rs_baseBytes r) (rs_burstBytes r) (rs_started r) (rs_evidence r) (rs_attemptID r)
    (rs_previousResult r) (rs_perRecordAttempt r) (rs_classificationEligible r)
    (rs_perRecordEligible r) (rs_rollingBudgetEligible r) (rs_targetLegAvailable r)
    (rs_ackedAtDecision r).

Record streamBoundedRescueBudget := MkBudget {
  rb_config : StreamBoundedRescueConfig;
  rb_chunkBytes : Z;
  rb_eventHook : bool;       (* an observer is installed *)
  rb_closed : bool;
  rb_sessionID : list byte;
  rb_ackedNext : Z;
  rb_lastOriginal : Z;
  rb_hasOriginal : bool;
  rb_nextReservation : Z;
  rb_nextAttempt : Z;
  rb_nextCandidate : Z;
  rb_originalEvents : list rescueByteEvent;
  rb_acceptedEvents : list rescueByteEvent;
  rb_windowOriginal : Z;
  rb_windowAccepted : Z;
  rb_acceptedByLeg : Z * Z;
  rb_baseReserved : Z;
  rb_burstReserved : Z;
  rb_burstCommitted : Z;
  rb_reservations : gmap Z boundedRescueReservation;
  rb_records : gmap Z boundedRescueRecordState;
  rb_stats : StreamBoundedRescueStats
}.
#[export] Instance streamBoundedRescueBudget_fields : Fields streamBoundedRescueBudget := fun b =>
  MkBudget (rb_config b) (rb_chunkBytes b) (rb_eventHook b) (rb_closed b) (rb_sessionID b)
    (rb_ackedNext b) (rb_lastOriginal b) (rb_hasOriginal b) (rb_nextReservation b)
    (rb_nextAttempt b) (rb_nextCandidate b) (rb_originalEvents b) (rb_acceptedEvents b)
    (rb_windowOriginal b) (rb_windowAccepted b) (rb_acceptedByLeg b) (rb_baseReserved b)
    (rb_burstReserved b) (rb_burstCommitted b) (rb_reservations b) (rb_records b) (rb_stats b).

(** ** [container/heap] on the accepted events, ordered by time *)

Definition event_less (x y : rescueByteEvent) : bool := before (be_at x) (be_at y).

(** [h.Less(i, j)] *)
Definition heap_less (h : list rescueByteEvent) (i j : nat) : bool :=
  match h !! i, h !! j with Some x, Some y => event_less x y | _, _ => false end.
(** [h.Swap(i, j)] *)
Definition heap_swap (h : list rescueByteEvent) (i j : nat) : list rescueByteEvent :=
  match h !! i, h !! j with Some x, Some y => <[j := x]> (<[i := y]> h) | _, _ => h end.

(** [up]: the index gets smaller in every iteration. *)
Fixpoint heap_up (fuel : nat) (h : list rescueByteEvent) (j : nat) : list rescueByteEvent :=
  match fuel with
  | O => h
  | S fuel =>
    let i := ((j - 1) / 2)%nat in
    if bool_decide (i = j) || negb (heap_less h j i) then h else heap_up fuel (heap_swap h i j) i
  end.

(** [down] on the first [n] elements: the index grows in every iteration. *)
Fixpoint heap_down (fuel : nat) (h : list rescueByteEvent) (i n : nat) : list rescueByteEvent :=
  match fuel with
  | O => h
  | S fuel =>
    let j1 := (2 * i + 1)%nat in
    if bool_decide (n <= j1)%nat then h else
    let j := if bool_decide (j1 + 1 < n)%nat && heap_less h (j1 + 1) j1 then (j1 + 1)%nat else j1 in
    if negb (heap_less h j i) then h else heap_down fuel (heap_swap h i j) j n
  end.

Definition heap_Push (x : rescueByteEvent) (h : list rescueByteEvent) : list rescueByteEvent :=
  heap_up (length h) (h ++ [x]) (length h).

Definition heap_Pop (h : list rescueByteEvent) : list rescueByteEvent :=
  let n := (length h - 1)%nat in take n (heap_down n (heap_swap h 0 n) 0 n).

(** ** Arithmetic *)

Definition boundedRescueRatio (bytes basisPoints : Z) : Z :=
  u64 (u64 (bytes / 10000 * basisPoints) + u64 (bytes `mod` 10000 * basisPoints) / 10000).

Definition saturatingAdd (a b : Z) : Z := if bool_decide (max_u64 - a < b) then max_u64 else a + b.

(** A counter that falls, but not below zero. *)
Definition sub_floor (a b : Z) : Z := if bool_decide (b <= a) then a - b else 0.

(** An update of one element of a [[2]uint64]; other indices are skipped. *)
Definition upd_pair (target : Z) (f : Z -> Z) (p : Z * Z) : Z * Z :=
  if bool_decide (target = 0) then (f p.1, p.2) else
  if bool_decide (target = 1) then (p.1, f p.2) else p.

Definition succ64 (n : Z) : Z := u64 (n + 1).
Definition add64 (m n : Z) : Z := u64 (n + m).

(** ** The rolling window *)

Fixpoint prune_original (cutoff : time) (events : list rescueByteEvent) (window : Z)
  : list rescueByteEvent * Z :=
  match events with
  | [] => ([], window)
  | ev :: rest =>
    if after (be_at ev) cutoff then (events, window)
    else prune_original cutoff rest (sub_floor window (be_bytes ev))
  end.

Fixpoint prune_accepted (fuel : nat) (cutoff : time) (h : list rescueByteEvent) (window : Z)
    (byLeg : Z * Z) : list rescueByteEvent * Z * (Z * Z) :=
  match fuel, h with
  | S fuel, ev :: _ =>
    if after (be_at ev) cutoff then (h, window, byLeg)
    else prune_accepted fuel cutoff (heap_Pop h) (sub_floor window (be_bytes ev))
           (upd_pair (be_target ev) (fun n => sub_floor n (be_bytes ev)) byLeg)
  | _, _ => (h, window, byLeg)
  end.

Definition pruneLocked (now : time) (b : streamBoundedRescueBudget) : streamBoundedRescueBudget :=
  let cutoff := time_add now (- streamBoundedRescueWindow) in
  let '(originals, windowOriginal) := prune_original cutoff (rb_originalEvents b) (rb_windowOriginal b) in
  let '(accepted, windowAccepted, byLeg) :=
    prune_accepted (length (rb_acceptedEvents b)) cutoff (rb_acceptedEvents b) (rb_windowAccepted b)
      (rb_acceptedByLeg b) in
  b <| rb_originalEvents := originals |> <| rb_windowOriginal := windowOriginal |>
    <| rb_acceptedEvents := accepted |> <| rb_windowAccepted := windowAccepted |>
    <| rb_acceptedByLeg := byLeg |>.

(** What base quota and burst leave, given the bytes of the window. *)
Definition available_parts (b : streamBoundedRescueBudget) (windowOriginal windowAccepted : Z) : Z * Z :=
  let baseQuota := boundedRescueRatio windowOriginal (rf_BudgetBasisPoints (rb_config b)) in
  let baseUsed := saturatingAdd windowAccepted (rb_baseReserved b) in
  let baseAvailable := if bool_decide (baseUsed < baseQuota) then baseQuota - baseUsed else 0 in
  let baseDebt := if bool_decide (baseQuota < baseUsed) then baseUsed - baseQuota else 0 in
  let burstUsed := saturatingAdd (rb_burstCommitted b) (rb_burstReserved b) in
  let burst := rf_BurstBytes (rb_config b) in
  let burstAvailable := if bool_decide (burstUsed < burst) then burst - burstUsed else 0 in
  let burstAvailable := if bool_decide (burstAvailable <= baseDebt) then 0 else burstAvailable - baseDebt in
  (baseAvailable, burstAvailable).

Definition window_sum (cutoff : time) (events : list rescueByteEvent) : Z :=
  foldl (fun sum ev => if after (be_at ev) cutoff then saturatingAdd sum (be_bytes ev) else sum) 0 events.

Definition rollingBudgetEligibleLocked (b : streamBoundedRescueBudget) (payloadBytes : Z) (at_ : time)
  : bool :=
  if bool_decide (payloadBytes = 0) then false else
  let cutoff := time_add at_ (- streamBoundedRescueWindow) in
  let '(base, burst) := available_parts b (window_sum cutoff (rb_originalEvents b))
                          (window_sum cutoff (rb_acceptedEvents b)) in
  bool_decide (payloadBytes <= saturatingAdd base burst).

(** ** Eligibility, as the observer sees it *)

Record streamRescueEligibilitySnapshot := MkEligibility {
  el_classification : bool;
  el_perRecord : bool;
  el_rollingBudget : bool;
  el_target : bool;
  el_acked : bool;
  el_used : bool;
  el_pending : bool;
  el_recordPresent : bool
}.

Definition no_eligibility : streamRescueEligibilitySnapshot :=
  MkEligibility false false false false false false false false.

Definition evidence_key (e : StreamRescueEvidence) : rescueEpochKey :=
  (re_OriginGeneration e, re_RecoveryEpoch e).

Definition eligibilityLocked (b : streamBoundedRescueBudget) (e : StreamRescueEvidence)
    (payloadBytes : Z) (at_ : time) (class : StreamRescueClass) : streamRescueEligibilitySnapshot :=
  let record := rb_records b !! re_Sequence e in
  let acked := bool_decide (re_Sequence e < rb_ackedNext b) || from_option rr_acked false record in
  let key := evidence_key e in
  let used := from_option (fun r => bool_decide (key ∈ rr_usedByEpoch r)) false record in
  let pending := from_option (fun r => bool_decide (is_Some (rr_pendingByEpoch r !! key))) false record in
  let present := bool_decide (is_Some record) in
  MkEligibility
    (bool_decide (class = StreamRescueHealthyHOL) || bool_decide (class = StreamRescueFailureRecovery)
     || bool_decide (class = StreamRescueProbeData))
    (negb acked && present && negb (from_option rr_acked false record) && negb used && negb pending
     && bool_decide (0 < payloadBytes))
    (rollingBudgetEligibleLocked b payloadBytes at_) (re_TargetAvailable e) acked used pending present.

Definition mode_is (b : streamBoundedRescueBudget) (m : Z) : bool :=
  bool_decide (rf_factorMode (rb_config b) = m).
Definition variant (b : streamBoundedRescueBudget) : string := mode_String (rf_factorMode (rb_config b)).

Definition ack_outcome (acked : bool) : string :=
  if acked then "already_acked_at_decision" else "pending".

Definition annotateDecisionLocked (b : streamBoundedRescueBudget) (event : StreamRescueEvent)
    (candidateID : Z) (eligibility : streamRescueEligibilitySnapshot) (final reason : string)
  : StreamRescueEvent :=
  let event := event
    <| ev_CandidateID := candidateID |> <| ev_PolicyVariant := variant b |>
    <| ev_EligibilitySnapshot := true |> <| ev_ClassificationEnabled := true |>
    <| ev_ClassificationEligible := el_classification eligibility |>
    <| ev_PerRecordEligible := el_perRecord eligibility |>
    <| ev_PerRecordEnabled := negb (mode_is b boundedRescueFactorCOnly) |>
    <| ev_RollingBudgetEligible := el_rollingBudget eligibility |>
    <| ev_RollingBudgetEnabled := mode_is b boundedRescueFactorFull |>
    <| ev_TargetLegAvailable := el_target eligibility |>
    <| ev_AckedAtDecision := el_acked eligibility |> <| ev_AckedAtAttempt := el_acked eligibility |>
    <| ev_AckOutcome := ack_outcome (el_acked eligibility) |>
    <| ev_FinalDecision := final |> <| ev_FinalDecisionReason := reason |> in
  if bool_decide (reason <> "") then event <| ev_Reason := reason |> else event.

Definition annotateReservationEventLocked (b : streamBoundedRescueBudget) (event : StreamRescueEvent)
    (r : boundedRescueReservation) (final reason : string) : StreamRescueEvent :=
  event
    <| ev_CandidateID := rs_candidateID r |> <| ev_PolicyVariant := variant b |>
    <| ev_EligibilitySnapshot := true |> <| ev_ClassificationEnabled := true |>
    <| ev_ClassificationEligible := rs_classificationEligible r |>
    <| ev_PerRecordEligible := rs_perRecordEligible r |>
    <| ev_PerRecordEnabled := negb (mode_is b boundedRescueFactorCOnly) |>
    <| ev_RollingBudgetEligible := rs_rollingBudgetEligible r |>
    <| ev_RollingBudgetEnabled := mode_is b boundedRescueFactorFull |>
    <| ev_TargetLegAvailable := rs_targetLegAvailable r |>
    <| ev_AckedAtDecision := rs_ackedAtDecision r |>
    <| ev_AckOutcome := ack_outcome (rs_ackedAtDecision r) |>
    <| ev_FinalDecision := final |> <| ev_FinalDecisionReason := reason |>.

(** [b.emit]: what the observer gets. *)
Definition emit (b : streamBoundedRescueBudget) (events : list StreamRescueEvent)
  : list StreamRescueEvent := if rb_eventHook b then events else [].

(** ** Construction *)

Definition validBoundedRescueBasisPoints (bp : Z) : bool := bool_decide (bp ∈ [25; 50; 100; 300; 500; 909]).

(** [None]: the configuration is refused. *)
Definition newStreamBoundedRescueBudget (cfg : StreamBoundedRescueConfig) (chunkBytes : Z)
    (sessionID : list byte) (hook : bool) : option streamBoundedRescueBudget :=
  if negb (rf_Enabled cfg) then None else
  if negb (validBoundedRescueBasisPoints (rf_BudgetBasisPoints cfg)) then None else
  if bool_decide (boundedRescueFactorCR < rf_factorMode cfg) then None else
  if bool_decide (chunkBytes = 0) || bool_decide (chunkBytes < rf_BurstBytes cfg) then None else
  let stats := zero_stats <| bs_Enabled := true |>
    <| bs_BudgetBasisPoints := rf_BudgetBasisPoints cfg |> <| bs_Window := streamBoundedRescueWindow |>
    <| bs_BurstBytes := rf_BurstBytes cfg |> <| bs_PolicyVariant := mode_String (rf_factorMode cfg) |> in
  Some (MkBudget cfg chunkBytes hook false sessionID 0 0 false 0 0 0 [] [] 0 0 (0, 0) 0 0 0 ∅ ∅ stats).

(** ** Operations *)

Definition new_record_state : boundedRescueRecordState := MkRecordState false [] ∅ ∅ 0 "".

Definition RecordOriginal (sequence bytes : Z) (at_ : time) (b : streamBoundedRescueBudget)
  : bool * streamBoundedRescueBudget :=
  if bool_decide (bytes = 0) then (false, b) else
  if rb_closed b then (false, b <| rb_stats ::= update bs_ClosedOriginalRecords succ64 |>) else
  if rb_hasOriginal b && bool_decide (sequence <= rb_lastOriginal b)
  then (false, b <| rb_stats ::= update bs_DuplicateOriginalRecords succ64 |>) else
  let b := b <| rb_lastOriginal := sequence |> <| rb_hasOriginal := true |>
             <| rb_originalEvents ::= fun l => l ++ [MkByteEvent at_ bytes 0] |>
             <| rb_windowOriginal ::= add64 bytes |> in
  let b := if bool_decide (rb_ackedNext b <= sequence) && bool_decide (rb_records b !! sequence = None)
           then b <| rb_records ::= <[sequence := new_record_state]> |> else b in
  (true, pruneLocked at_ b).

Definition rejectReasonLocked (reason : string) (b : streamBoundedRescueBudget)
  : streamBoundedRescueBudget :=
  b <| rb_stats ::= update bs_RejectedReasons (partial_alter (fun n => Some (succ64 (default 0 n))) reason) |>.

Definition maybeDeleteRecordLocked (sequence : Z) (b : streamBoundedRescueBudget)
  : streamBoundedRescueBudget :=
  match rb_records b !! sequence with
  | Some state =>
    if rr_acked state && bool_decide (rr_pendingByEpoch state = ∅)
    then b <| rb_records ::= delete sequence |> else b
  | None => b
  end.

Definition releaseAccountingLocked (r : boundedRescueReservation) (b : streamBoundedRescueBudget)
  : streamBoundedRescueBudget :=
  b <| rb_baseReserved ::= fun n => sub_floor n (rs_baseBytes r) |>
    <| rb_burstReserved ::= fun n => sub_floor n (rs_burstBytes r) |>.

(** Forget that reservation [r] is pending for its record. *)
Definition clear_pending (r : boundedRescueReservation) (b : streamBoundedRescueBudget)
  : streamBoundedRescueBudget :=
  let clear state :=
    if bool_decide (rr_pendingByEpoch state !! rs_key r = Some (rs_id r))
    then state <| rr_pendingByEpoch ::= delete (rs_key r) |> else state in
  maybeDeleteRecordLocked (rs_seq r) (b <| rb_records ::= alter clear (rs_seq r) |>).

(** The end of a reservation in [releaseLocked], [RevalidateBeforeWrite] and [Settle]. *)
Definition end_reservation (r : boundedRescueReservation) (released : Z)
    (b : streamBoundedRescueBudget) : streamBoundedRescueBudget :=
  (clear_pending r ((releaseAccountingLocked r b) <| rb_reservations ::= delete (rs_id r) |>))
    <| rb_stats ::= update bs_ReleasedBytes (add64 released) |>.

Definition releaseLocked (r : boundedRescueReservation) (reason : string)
    (b : streamBoundedRescueBudget) : streamBoundedRescueBudget :=
  if bool_decide (rb_reservations b !! rs_id r <> Some r) then b else
  rejectReasonLocked ("released:" +:+ reason) (end_reservation r (rs_bytes r) b).

(** The event of a release before the carrier write. *)
Definition released_event (b : streamBoundedRescueBudget) (at_ : time) (r : boundedRescueReservation)
    (reason : string) : StreamRescueEvent :=
  annotateReservationEventLocked b
    (rescue_event at_ (rb_sessionID b) "reservation_released" (rs_evidence r) StreamRescueHealthyHOL
       (rs_id r) (rs_bytes r) (rs_previousResult r) reason) r "released" reason.

Definition Release (id : Z) (reason : string) (at_ : time) (b : streamBoundedRescueBudget)
  : bool * list StreamRescueEvent * streamBoundedRescueBudget :=
  if bool_decide (id = 0) then (true, [], b) else
  match rb_reservations b !! id with
  | None => (false, [], b)
  | Some r =>
    if rs_started r then (false, [], b) else
    (true, emit b [released_event b at_ r reason], releaseLocked r reason b)
  end.

Record boundedRescueAdmission := MkAdmission {
  ad_CandidateID : Z;
  ad_ReservationID : Z;
  ad_Class : StreamRescueClass;
  ad_Admitted : bool;
  ad_Exempt : bool;
  ad_Reason : string
}.

(** Split the payload into base and burst bytes; [None]: the budget is exhausted. *)
Definition split_payload (b : streamBoundedRescueBudget) (payloadBytes : Z) : option (Z * Z) :=
  if mode_is b boundedRescueFactorFull then
    let '(base, burst) := available_parts b (rb_windowOriginal b) (rb_windowAccepted b) in
    if bool_decide (saturatingAdd base burst < payloadBytes) then None else
    let basePart := if bool_decide (base < payloadBytes) then base else payloadBytes in
    Some (basePart, payloadBytes - basePart)
  else Some (payloadBytes, 0).

(** Link the candidate to its record, so that the observer learns of its ACK. *)
Definition link_candidate (sequence candidateID : Z) (b : streamBoundedRescueBudget)
  : streamBoundedRescueBudget :=
  match rb_records b !! sequence with
  | None => b
  | Some record =>
    if bool_decide (slen (rr_candidateIDs record) < streamBoundedRescueCandidateAckLinks)
    then b <| rb_records ::= <[sequence := record <| rr_candidateIDs ::= fun l => l ++ [candidateID] |>]> |>
    else b <| rb_stats ::= update bs_CandidateAckLinkDropped succ64 |>
  end.

(** The new reservation of an admitted candidate. *)
Definition open_reservation (e : StreamRescueEvidence) (payloadBytes basePart burstPart candidateID : Z)
    (eligibility : streamRescueEligibilitySnapshot) (record : boundedRescueRecordState)
    (b : streamBoundedRescueBudget) : streamBoundedRescueBudget :=
  let id := u64 (rb_nextReservation b + 1) in
  let key := evidence_key e in
  let reservation := MkReservation id candidateID (re_Sequence e) key (re_TargetLeg e) payloadBytes
    basePart burstPart false e 0 (rr_lastResult record) (succ64 (rr_lifetimeAttempt record))
    (el_classification eligibility) (el_perRecord eligibility) (el_rollingBudget eligibility)
    (el_target eligibility) (el_acked eligibility) in
  b <| rb_nextReservation := id |> <| rb_reservations ::= <[id := reservation]> |>
    <| rb_records ::= <[re_Sequence e := record <| rr_pendingByEpoch ::= <[key := id]> |>]> |>
    <| rb_baseReserved ::= add64 basePart |> <| rb_burstReserved ::= add64 burstPart |>
    <| rb_stats ::= fun s => s <| bs_AdmittedCount ::= succ64 |>
         <| bs_ReservedBytes ::= add64 payloadBytes |> <| bs_ReservedBaseBytes ::= add64 basePart |>
         <| bs_ReservedBurstBytes ::= add64 burstPart |> |>.

Definition Reserve (e : StreamRescueEvidence) (payloadBytes : Z) (at_ : time)
    (b : streamBoundedRescueBudget)
  : boundedRescueAdmission * list StreamRescueEvent * streamBoundedRescueBudget :=
  let class := ClassifyStreamRescue e in
  let candidateID := succ64 (rb_nextCandidate b) in
  let b := b <| rb_nextCandidate := candidateID |> <| rb_stats ::= update bs_CandidateCount succ64 |> in
  let eligibility := if rb_eventHook b then eligibilityLocked b e payloadBytes at_ class
                     else no_eligibility in
  let b := if rb_eventHook b then link_candidate (re_Sequence e) candidateID b else b in
  let event := (rescue_event at_ (rb_sessionID b) "" e class 0 payloadBytes "" "")
                 <| ev_CandidateID := candidateID |> in
  let finish b event kind final reason :=
    emit b [annotateDecisionLocked b (event <| ev_Kind := kind |>) candidateID eligibility final reason] in
  let rejected b event reason :=
    (MkAdmission candidateID 0 class false false reason,
     finish b event "rescue_rejected" "rejected" reason, rejectReasonLocked reason b) in
  let count f b := b <| rb_stats ::= f |> in
  if rb_closed b then rejected b event "session_closed" else
  if bool_decide (class = StreamRescueFailureRecovery) then
    let reason := "positive_owner_invalidation" in
    (MkAdmission candidateID 0 class true true reason,
     finish b (event <| ev_RecoveryExempted := true |>) "failure_recovery_exempt" "exempted" reason,
     count (update bs_FailureRecoveryExempted succ64) b) else
  if bool_decide (class = StreamRescueProbeData) then
    let reason := "recovery_probe_data" in
    (MkAdmission candidateID 0 class true true reason,
     finish b event "probe_data_exempt" "exempted" reason,
     count (update bs_ProbeDataExempted succ64) b) else
  if bool_decide (class <> StreamRescueHealthyHOL) then
    rejected (count (update bs_UnclassifiedRejected succ64) b) event "classification_not_healthy_hol" else
  let b := count (update bs_EligibleCount succ64) b in
  if bool_decide (re_Sequence e < rb_ackedNext b) then
    rejected (count (update bs_StaleOrAckedRejected succ64) b) event "already_acked" else
  match rb_records b !! re_Sequence e with
  | None => rejected (count (update bs_StaleOrAckedRejected succ64) b) event "missing_or_acked_original"
  | Some record =>
    if rr_acked record then
      rejected (count (update bs_StaleOrAckedRejected succ64) b) event "missing_or_acked_original" else
    let key := evidence_key e in
    let event := event <| ev_PreviousResult := rr_lastResult record |> in
    if negb (mode_is b boundedRescueFactorCOnly) && bool_decide (key ∈ rr_usedByEpoch record) then
      rejected (count (update bs_PerRecordRejected succ64) b)
        (event <| ev_PerRecordAttempt := rr_lifetimeAttempt record |>) "per_record_epoch_limit" else
    if bool_decide (is_Some (rr_pendingByEpoch record !! key)) then
      rejected (if mode_is b boundedRescueFactorCOnly then b
                else count (update bs_PerRecordRejected succ64) b)
        (event <| ev_PerRecordAttempt := succ64 (rr_lifetimeAttempt record) |>)
        "per_record_epoch_reservation_pending" else
    if bool_decide (payloadBytes = 0) then rejected b event "empty_payload" else
    let b := pruneLocked at_ b in
    match split_payload b payloadBytes with
    | None =>
      rejected (count (update bs_BudgetRejected succ64) b)
        (event <| ev_PerRecordAttempt := succ64 (rr_lifetimeAttempt record) |>) "rolling_budget_exhausted"
    | Some (basePart, burstPart) =>
      let b := open_reservation e payloadBytes basePart burstPart candidateID eligibility record b in
      let id := rb_nextReservation b in
      let reason := if mode_is b boundedRescueFactorFull then "budget_reserved"
                    else "experimental_variant_admitted_without_rolling_budget" in
      (MkAdmission candidateID id class true false reason,
       finish b (event <| ev_ReservationID := id |>) "rescue_reserved" "admitted" reason, b)
    end
  end.

(** The write boundary: commit the one attempt of this record and epoch.  The event is
    handed back, to be emitted when the ledger is unlocked. *)
Definition start_write (r : boundedRescueReservation) (record : boundedRescueRecordState)
    (b : streamBoundedRescueBudget) : boundedRescueReservation * streamBoundedRescueBudget :=
  let attempt := succ64 (rb_nextAttempt b) in
  let record := record <| rr_usedByEpoch ::= fun s => {[rs_key r]} ∪ s |>
                       <| rr_lifetimeAttempt ::= succ64 |> in
  let r := r <| rs_started := true |> <| rs_attemptID := attempt |>
             <| rs_perRecordAttempt := rr_lifetimeAttempt record |> in
  (r, b <| rb_nextAttempt := attempt |>
        <| rb_reservations ::= <[rs_id r := r]> |> <| rb_records ::= <[rs_seq r := record]> |>
        <| rb_stats ::= fun s =>
             let s := s <| bs_CommittedAttemptCount ::= succ64 |> <| bs_LifetimeRescueAttempts ::= succ64 |> in
             let s := if bool_decide (bs_LifetimeMaxPerRecord s < rr_lifetimeAttempt record)
                      then s <| bs_LifetimeMaxPerRecord := rr_lifetimeAttempt record |> else s in
             let s := if bool_decide (1 < size (rr_usedByEpoch record))%nat
                      then s <| bs_CrossEpochRecordCount ::= succ64 |> else s in
             s <| bs_CarrierAttemptBytes ::= add64 (rs_bytes r) |>
               <| bs_AttemptedByTargetLeg ::= upd_pair (rs_target r) (add64 (rs_bytes r)) |> |>).

Definition beginWriteDeferred (id : Z) (at_ : time) (b : streamBoundedRescueBudget)
  : bool * option StreamRescueEvent * streamBoundedRescueBudget :=
  if bool_decide (id = 0) then (false, None, b) else
  match rb_reservations b !! id with
  | None => (false, None, b)
  | Some r =>
    let released reason :=
      (false, Some (released_event b at_ r reason), releaseLocked r reason b) in
    if rb_closed b && negb (rs_started r) then released "session_closed_before_carrier_write" else
    if rs_started r then (false, None, b) else
    if bool_decide (rs_seq r < rb_ackedNext b) then released "acked_before_carrier_write" else
    match rb_records b !! rs_seq r with
    | None => released "acked_before_carrier_write"
    | Some record =>
      if rr_acked record then released "acked_before_carrier_write" else
      if bool_decide (rs_key r ∈ rr_usedByEpoch record) && negb (mode_is b boundedRescueFactorCOnly)
      then released "per_record_epoch_already_committed" else
      let '(r, b) := start_write r record b in
      let event := (rescue_event at_ (rb_sessionID b) "carrier_write_started" (rs_evidence r)
                      StreamRescueHealthyHOL id (rs_bytes r) (rs_previousResult r) "")
                     <| ev_AttemptID := rs_attemptID r |>
                     <| ev_PerRecordAttempt := rs_perRecordAttempt r |>
                     <| ev_AckedAtAttempt := rr_acked record |> in
      (true, Some (annotateReservationEventLocked b event r "write_started" "carrier_write_started"), b)
    end
  end.

Definition BeginWrite (id : Z) (at_ : time) (b : streamBoundedRescueBudget)
  : bool * list StreamRescueEvent * streamBoundedRescueBudget :=
  let '(started, event, b) := beginWriteDeferred id at_ b in
  (started, emit b (option_list event), b).

Definition reservationEvidence (id : Z) (b : streamBoundedRescueBudget) : option StreamRescueEvidence :=
  if bool_decide (id = 0) then None else
  match rb_reservations b !! id with
  | None => None
  | Some r => if rs_started r then None else Some (rs_evidence r)
  end.

(** Is the evidence still about the record, owner, target and epoch of the reservation? *)
Definition same_candidate (r : boundedRescueReservation) (current : StreamRescueEvidence) : bool :=
  bool_decide (re_Sequence current = re_Sequence (rs_evidence r))
  && bool_decide (re_OwnerLeg current = re_OwnerLeg (rs_evidence r))
  && bool_decide (re_RecordOwnerLeg current = re_RecordOwnerLeg (rs_evidence r))
  && bool_decide (re_TargetLeg current = rs_target r) && bool_decide (evidence_key current = rs_key r).

Definition RevalidateBeforeWrite (id : Z) (current : StreamRescueEvidence) (at_ : time)
    (b : streamBoundedRescueBudget)
  : StreamRescueClass * Z * bool * list StreamRescueEvent * streamBoundedRescueBudget :=
  if bool_decide (id = 0) then (StreamRescueOtherCoreRetry, 0, false, [], b) else
  match rb_reservations b !! id with
  | None => (StreamRescueDuplicateOrRejected, 0, false, [], b)
  | Some r =>
    if rs_started r || rb_closed b then
      (StreamRescueDuplicateOrRejected, 0, false, [],
       if rs_started r then b else releaseLocked r "invalid_before_carrier_write" b) else
    let class := ClassifyStreamRescue current in
    let recovery := bool_decide (class = StreamRescueFailureRecovery) in
    if recovery || bool_decide (class = StreamRescueProbeData) then
      let b := b <| rb_stats ::= if recovery then update bs_FailureRecoveryExempted succ64
                                 else update bs_ProbeDataExempted succ64 |> in
      let b := end_reservation r (rs_bytes r) b in
      let reason := if recovery then "reclassified_positive_owner_invalidation"
                    else "reclassified_current_recovery_probe" in
      let event := (rescue_event at_ (rb_sessionID b) "carrier_write_reclassified_exempt" current class
                      id (rs_bytes r) (rs_previousResult r) reason) <| ev_RecoveryExempted := recovery |> in
      (class, 0, true,
       emit b [annotateReservationEventLocked b event r "reclassified_exempt" reason], b) else
    if bool_decide (class = StreamRescueHealthyHOL) && same_candidate r current
    then (class, id, true, [], b) else
    let reason := "stale_or_reclassified_before_carrier_write" in
    let event := rescue_event at_ (rb_sessionID b) "rescue_rejected" current class id (rs_bytes r)
                   (rs_previousResult r) reason in
    (class, 0, false, emit b [annotateReservationEventLocked b event r "rejected" reason],
     releaseLocked r reason b)
  end.

(** Charge the bytes the carrier has accepted. *)
Definition charge (r : boundedRescueReservation) (accepted : Z) (at_ : time)
    (b : streamBoundedRescueBudget) : streamBoundedRescueBudget :=
  if bool_decide (accepted = 0) then b else
  let baseAccepted := if bool_decide (rs_baseBytes r < accepted) then rs_baseBytes r else accepted in
  let burstAccepted := if bool_decide (baseAccepted < accepted) then accepted - baseAccepted else 0 in
  b <| rb_acceptedEvents ::= heap_Push (MkByteEvent at_ accepted (rs_target r)) |>
    <| rb_windowAccepted ::= add64 accepted |>
    <| rb_acceptedByLeg ::= upd_pair (rs_target r) (add64 accepted) |>
    <| rb_stats ::= fun s =>
         let s := s <| bs_CarrierAcceptedBytes ::= add64 accepted |> in
         if bool_decide (accepted < rs_bytes r) then s <| bs_PartialAcceptedBytes ::= add64 accepted |>
         else s |>
    <| rb_burstCommitted ::= add64 burstAccepted |>.

Inductive settle_error := errReservationNotFound | errSettledBeforeWrite | errOverAccepted.

Definition Settle (id acceptedBytes : Z) (writeErr : bool) (at_ : time) (b : streamBoundedRescueBudget)
  : option settle_error * list StreamRescueEvent * streamBoundedRescueBudget :=
  if bool_decide (id = 0) then (None, [], b) else
  match rb_reservations b !! id with
  | None => (Some errReservationNotFound, [], b)
  | Some r =>
    if negb (rs_started r) then (Some errSettledBeforeWrite, [], b) else
    let overAccepted := bool_decide (rs_bytes r < acceptedBytes) in
    let b := if overAccepted
             then b <| rb_stats ::= update bs_OverAcceptedBytes
                         (fun n => saturatingAdd n (acceptedBytes - rs_bytes r)) |> else b in
    let acceptedBytes := if overAccepted then rs_bytes r else acceptedBytes in
    let b := charge r acceptedBytes at_ b in
    let partial := bool_decide (acceptedBytes < rs_bytes r) in
    let result := if writeErr then "carrier_write_error"
                  else if partial then "partial_carrier_acceptance" else "carrier_write_accepted" in
    let b := b <| rb_records ::= alter (fun record => record <| rr_lastResult := result |>) (rs_seq r) |> in
    let b := pruneLocked at_ (end_reservation r (rs_bytes r - acceptedBytes) b) in
    let reason := if overAccepted then "carrier_overaccepted_bytes_clamped"
                  else if writeErr then "carrier_write_error"
                  else if partial then "partial_carrier_acceptance" else "carrier_write_complete" in
    let event := (rescue_event at_ (rb_sessionID b) "carrier_write_settled" (rs_evidence r)
                    StreamRescueHealthyHOL id (rs_bytes r) (rs_previousResult r) reason)
                   <| ev_AttemptID := rs_attemptID r |> <| ev_PerRecordAttempt := rs_perRecordAttempt r |>
                   <| ev_AckedAtAttempt := bool_decide (rs_seq r < rb_ackedNext b) |>
                   <| ev_AcceptedBytes := acceptedBytes |> in
    let final := if writeErr || partial then "write_failed_or_partial" else "write_settled" in
    (if overAccepted then Some errOverAccepted else None,
     emit b [annotateReservationEventLocked b event r final reason], b)
  end.

(** The event that tells the observer that a candidate's record was acknowledged. *)
Definition ack_event (b : streamBoundedRescueBudget) (at_ : time) (seq candidateID : Z) : StreamRescueEvent :=
  (rescue_event at_ (rb_sessionID b) "candidate_ack_outcome"
     (no_evidence <| re_Sequence := seq |> <| re_AckedNext := rb_ackedNext b |>)
     StreamRescueDuplicateOrRejected 0 0 "" "")
    <| ev_CandidateID := candidateID |> <| ev_PolicyVariant := variant b |>
    <| ev_AckedAtAttempt := true |> <| ev_AckedAtDecision := true |>
    <| ev_AckOutcome := "acked_after_candidate" |> <| ev_FinalDecision := "data_acked" |>
    <| ev_FinalDecisionReason := "cumulative_ack_advanced_past_candidate_sequence" |>.

(** What [AckThrough] leaves of a record. *)
Definition ack_record (next seq : Z) (record : boundedRescueRecordState)
  : option boundedRescueRecordState :=
  if bool_decide (seq < next) then
    if bool_decide (rr_pendingByEpoch record = ∅) then None
    else Some (record <| rr_acked := true |> <| rr_candidateIDs := [] |>)
  else Some record.

Definition AckThrough (next : Z) (at_ : time) (b : streamBoundedRescueBudget)
  : list StreamRescueEvent * streamBoundedRescueBudget :=
  let b := if bool_decide (rb_ackedNext b < next) then b <| rb_ackedNext := next |> else b in
  let events := flat_map (fun '(seq, record) =>
      if bool_decide (seq < rb_ackedNext b)
      then map (ack_event b at_ seq) (rr_candidateIDs record) else []) (map_to_list (rb_records b)) in
  (emit b events, b <| rb_records ::= map_imap (ack_record (rb_ackedNext b)) |>).

Definition rescue_Close (b : streamBoundedRescueBudget) : streamBoundedRescueBudget :=
  b <| rb_closed := true |> <| rb_stats ::= fun s => s <| bs_Closed := true |> |>.

Definition rescue_Snapshot (at_ : time) (b : streamBoundedRescueBudget)
  : StreamBoundedRescueStats * streamBoundedRescueBudget :=
  let b := pruneLocked at_ b in
  let cfg := rb_config b in
  let quota := boundedRescueRatio (rb_windowOriginal b) (rf_BudgetBasisPoints cfg) in
  let baseUsed := saturatingAdd (rb_windowAccepted b) (rb_baseReserved b) in
  let out := (rb_stats b)
    <| bs_Enabled := true |> <| bs_Closed := rb_closed b |> <| bs_Window := streamBoundedRescueWindow |>
    <| bs_BudgetBasisPoints := rf_BudgetBasisPoints cfg |> <| bs_PolicyVariant := variant b |>
    <| bs_WindowOriginalBytes := rb_windowOriginal b |>
    <| bs_WindowCarrierAcceptedBytes := rb_windowAccepted b |> <| bs_WindowBaseQuotaBytes := quota |>
    <| bs_ReservedBaseBytes := rb_baseReserved b |> <| bs_ReservedBurstBytes := rb_burstReserved b |>
    <| bs_ReservedBytes := saturatingAdd (rb_baseReserved b) (rb_burstReserved b) |>
    <| bs_BurstBytes := rf_BurstBytes cfg |> <| bs_BurstCommittedBytes := rb_burstCommitted b |>
    <| bs_OutstandingReservations := Z.of_nat (size (rb_reservations b)) |>
    <| bs_AcceptedByTargetLeg := rb_acceptedByLeg b |> in
  (if bool_decide (quota < baseUsed) then out <| bs_WindowBudgetDebtBytes := baseUsed - quota |> else out, b).

(** ** Sequences of calls *)

Inductive rescue_op :=
| rop_original (sequence bytes : Z) (at_ : time)
| rop_reserve (e : StreamRescueEvidence) (payload : Z) (at_ : time)
| rop_begin (id : Z) (at_ : time)
| rop_revalidate (id : Z) (current : StreamRescueEvidence) (at_ : time)
| rop_settle (id accepted : Z) (writeErr : bool) (at_ : time)
| rop_release (id : Z) (reason : string) (at_ : time)
| rop_ack (next : Z) (at_ : time)
| rop_snapshot (at_ : time)
| rop_close.

Inductive rescue_result :=
| res_original (recorded : bool)
| res_reserve (d : boundedRescueAdmission)
| res_begin (started : bool)
| res_revalidate (class : StreamRescueClass) (id : Z) (valid : bool)
| res_settle (err : option settle_error)
| res_release (released : bool)
| res_none.

Definition rescue_exec (b : streamBoundedRescueBudget) (op : rescue_op)
  : rescue_result * streamBoundedRescueBudget :=
  match op with
  | rop_original s n at_ => let '(ok, b) := RecordOriginal s n at_ b in (res_original ok, b)
  | rop_reserve e n at_ => let '(d, _, b) := Reserve e n at_ b in (res_reserve d, b)
  | rop_begin id at_ => let '(ok, _, b) := BeginWrite id at_ b in (res_begin ok, b)
  | rop_revalidate id e at_ =>
    let '(class, id, ok, _, b) := RevalidateBeforeWrite id e at_ b in (res_revalidate class id ok, b)
  | rop_settle id n err at_ => let '(res, _, b) := Settle id n err at_ b in (res_settle res, b)
  | rop_release id reason at_ => let '(ok, _, b) := Release id reason at_ b in (res_release ok, b)
  | rop_ack next at_ => let '(_, b) := AckThrough next at_ b in (res_none, b)
  | rop_snapshot at_ => let '(_, b) := rescue_Snapshot at_ b in (res_none, b)
  | rop_close => (res_none, rescue_Close b)
  end.

(** The calls, with what each returned, and the final budget. *)
Fixpoint rescue_run (ops : list rescue_op) (b : streamBoundedRescueBudget)
  : list (rescue_op * rescue_result) * streamBoundedRescueBudget :=
  match ops with
  | [] => ([], b)
  | op :: ops =>
    let '(res, b) := rescue_exec b op in
    let '(log, b) := rescue_run ops b in ((op, res) :: log, b)
  end.
