(* ===== verification/RescueInv.v ===== *)
(** * Bounded rescue: the heap, the abstract account and the invariant

    The accepted events form a heap, so [pruneLocked] drops exactly the events that
    left the window.  An abstract account, driven by the calls and their results
    alone, lists what was recorded, what is reserved and what was charged; the
    invariant relates the budget to it. *)

From S2P Require Import Prelude Rescue.
From stdpp Require Import options.
#[local] Open Scope Z_scope.

(** ** The heap *)

Section heap.
Implicit Types h : list rescueByteEvent.

Definition parent (k : nat) : nat := ((k - 1) / 2)%nat.
Lemma parent_spec k : (0 < k)%nat -> (k = 2 * parent k + 1 \/ k = 2 * parent k + 2)%nat.
Proof.
  intros. unfold parent. pose proof (Nat.div_mod_eq (k - 1) 2).
  pose proof (Nat.mod_upper_bound (k - 1) 2). lia.
Qed.

(** The time of the event at an index. *)
Definition key h (k : nat) : Z := from_option be_at 0 (h !! k).
(** A heap, but for the edge above [j], or but for the edges below [i] among the first
    [n] elements; the edges that go around the index are in order. *)
Definition heap_above h (j : nat) : Prop :=
  forall k, (0 < k < length h)%nat ->
    (k <> j -> key h (parent k) <= key h k) /\
    (parent k = j -> (0 < j)%nat -> key h (parent j) <= key h k).
Definition heap_below h (i n : nat) : Prop :=
  forall k, (0 < k < n)%nat ->
    (parent k <> i -> key h (parent k) <= key h k) /\
    (parent k = i -> (0 < i)%nat -> key h (parent i) <= key h k).
Definition heap_n h n : Prop := forall k, (0 < k < n)%nat -> key h (parent k) <= key h k.
Definition heap_ok h : Prop := heap_n h (length h).

Lemma heap_swap_perm h i j : heap_swap h i j ≡ₚ h.
Proof.
  unfold heap_swap. destruct (h !! i) as [x|] eqn:Hi; [|done].
  destruct (h !! j) as [y|] eqn:Hj; [|done]. by apply Permutation_insert_swap.
Qed.
Lemma heap_swap_length h i j : length (heap_swap h i j) = length h.
Proof. by rewrite heap_swap_perm. Qed.

Lemma key_swap h i j k :
  (i < length h)%nat -> (j < length h)%nat ->
  key (heap_swap h i j) k =
    if decide (k = j) then key h i else if decide (k = i) then key h j else key h k.
Proof.
  intros [x Hi]%lookup_lt_is_Some [y Hj]%lookup_lt_is_Some. unfold key, heap_swap. rewrite Hi, Hj.
  pose proof (lookup_lt_Some _ _ _ Hi). pose proof (lookup_lt_Some _ _ _ Hj).
  destruct (decide (k = j)) as [->|].
  { rewrite list_lookup_insert_eq by (by rewrite length_insert). done. }
  rewrite list_lookup_insert_ne by done.
  destruct (decide (k = i)) as [->|]; [by rewrite list_lookup_insert_eq|].
  by rewrite list_lookup_insert_ne.
Qed.

Lemma heap_less_key h i j :
  (i < length h)%nat -> (j < length h)%nat -> heap_less h i j = bool_decide (key h i < key h j).
Proof.
  intros [x Hi]%lookup_lt_is_Some [y Hj]%lookup_lt_is_Some.
  unfold heap_less, key. by rewrite Hi, Hj.
Qed.

Lemma heap_up_perm fuel h j : heap_up fuel h j ≡ₚ h.
Proof.
  revert h j. induction fuel as [|fuel IH]; intros h j; simpl; [done|].
  case_match; [done|]. by rewrite IH, heap_swap_perm.
Qed.
Lemma heap_down_perm fuel h i n : heap_down fuel h i n ≡ₚ h.
Proof.
  revert h i. induction fuel as [|fuel IH]; intros h i; simpl; [done|].
  case_match; [done|]. case_match; [done|]. by rewrite IH, heap_swap_perm.
Qed.

(** Case analysis on the indices of a swap. *)
#[local] Ltac swap_cases :=
  rewrite ?key_swap by lia; repeat destruct (decide _); subst; try lia;
  match goal with e : parent _ = _ |- _ => rewrite e in *; lia end.

(** [up] repairs the one edge above its argument. *)
Lemma heap_up_ok fuel h j :
  (j <= fuel)%nat -> (j < length h)%nat -> heap_above h j -> heap_ok (heap_up fuel h j).
Proof.
  revert h j. induction fuel as [|fuel IH]; intros h j Hf Hj H; cbn [heap_up].
  { intros k Hk. apply H; lia. }
  fold (parent j). destruct (decide (j = 0)%nat) as [->|Hj0].
  { rewrite bool_decide_eq_true_2 by done. simpl. intros k Hk. apply H; lia. }
  pose proof (parent_spec j ltac:(lia)) as Hp.
  rewrite bool_decide_eq_false_2, heap_less_key by lia. simpl.
  case_bool_decide as Hlt; simpl.
  - apply IH; rewrite ?heap_swap_length; [lia|lia|]. intros k Hk.
    rewrite heap_swap_length in Hk. pose proof (parent_spec k ltac:(lia)).
    pose proof (H k Hk). split. { intros. swap_cases. }
    intros E ?. pose proof (parent_spec (parent j) ltac:(lia)).
    pose proof (H (parent j) ltac:(lia)). swap_cases.
  - intros k Hk. destruct (decide (k = j)) as [->|]; [lia|]. apply H; lia.
Qed.

(** [down] repairs the edges below its argument. *)
Lemma heap_down_ok fuel h i n :
  (n <= i + fuel)%nat -> (n <= length h)%nat -> heap_below h i n -> heap_n (heap_down fuel h i n) n.
Proof.
  revert h i. induction fuel as [|fuel IH]; intros h i Hf Hn H; cbn [heap_down].
  { intros k Hk. pose proof (parent_spec k ltac:(lia)). apply H; lia. }
  case_bool_decide as Hj1.
  { intros k Hk. pose proof (parent_spec k ltac:(lia)). apply H; lia. }
  match goal with |- context [negb (heap_less h ?j' i)] => set (j := j') end.
  assert (Hj : (j = 2 * i + 1 \/ j = 2 * i + 2)%nat /\ (j < n)%nat /\
    forall k, (0 < k < n)%nat -> parent k = i -> key h j <= key h k).
  { subst j. assert ((2 * i + 1 + 1 < n)%nat -> heap_less h (2 * i + 1 + 1) (2 * i + 1) =
      bool_decide (key h (2 * i + 2) < key h (2 * i + 1))) as E.
    { intros. replace (2 * i + 1 + 1)%nat with (2 * i + 2)%nat by lia. apply heap_less_key; lia. }
    destruct (bool_decide_reflect (2 * i + 1 + 1 < n)%nat) as [H2|H2]; cbn [andb];
      [rewrite (E H2); case_bool_decide|].
    all: split; [lia|]; split; [lia|].
    all: intros k Hk Hpk; pose proof (parent_spec k ltac:(lia)) as [Hk'|Hk'];
      rewrite Hpk in Hk'; rewrite Hk'; try lia.
    all: replace (2 * i + 1 + 1)%nat with (2 * i + 2)%nat by lia; lia. }
  clearbody j. destruct Hj as (Hj & Hjn & Hmin).
  rewrite heap_less_key by lia. case_bool_decide as Hlt; simpl.
  - apply IH; rewrite ?heap_swap_length; [lia|lia|]. intros k Hk.
    pose proof (parent_spec k ltac:(lia)). pose proof (H k Hk). pose proof (Hmin k Hk).
    pose proof (parent_spec j ltac:(lia)). pose proof (H j ltac:(lia)).
    split; [intros; swap_cases|]. intros E ?. swap_cases.
  - intros k Hk. destruct (decide (parent k = i)) as [E|]; [|by apply H].
    rewrite E. pose proof (Hmin k Hk E). lia.
Qed.

Lemma heap_Push_perm x h : heap_Push x h ≡ₚ x :: h.
Proof. unfold heap_Push. by rewrite heap_up_perm, Permutation_app_comm. Qed.

Lemma key_app h x k : (k < length h)%nat -> key (h ++ [x]) k = key h k.
Proof. intros. unfold key. by rewrite lookup_app_l. Qed.

Lemma heap_Push_ok x h : heap_ok h -> heap_ok (heap_Push x h).
Proof.
  intros H. apply heap_up_ok; [done|rewrite length_app; simpl; lia|].
  intros k Hk. rewrite length_app in Hk. simpl in Hk. pose proof (parent_spec k ltac:(lia)).
  split; intros; [|lia]. rewrite !key_app by lia. apply H. lia.
Qed.

Lemma heap_down_tail fuel h i n k :
  (i < n)%nat -> (n <= k)%nat -> heap_down fuel h i n !! k = h !! k.
Proof.
  revert h i. induction fuel as [|fuel IH]; intros h i Hi Hk; cbn [heap_down]; [done|].
  case_bool_decide as Hj1; [done|].
  destruct (bool_decide_reflect (2 * i + 1 + 1 < n)%nat) as [H2|H2]; cbn [andb].
  all: repeat case_match; try done; rewrite IH by lia; unfold heap_swap; repeat case_match; try done.
  all: by rewrite !list_lookup_insert_ne by lia.
Qed.

Lemma heap_Pop_perm x h : x :: heap_Pop (x :: h) ≡ₚ x :: h.
Proof.
  unfold heap_Pop. simpl length. rewrite Nat.sub_succ, Nat.sub_0_r.
  set (h' := heap_down _ _ _ _). assert (Hp : h' ≡ₚ x :: h) by (by subst h'; rewrite heap_down_perm, heap_swap_perm).
  assert (Hl : h' !! length h = Some x).
  { subst h'. destruct (decide (length h = 0)%nat) as [->%nil_length_inv|Hn]; [done|].
    rewrite heap_down_tail by lia. unfold heap_swap. cbn [lookup list_lookup].
    destruct (lookup_lt_is_Some_2 (x :: h) (length h)) as [y Hy]; [simpl; lia|]. rewrite Hy.
    apply list_lookup_insert_eq. rewrite length_insert. simpl. lia. }
  pose proof (Permutation_length Hp) as Hlen. simpl in Hlen.
  transitivity h'; [|done]. rewrite <- (take_drop (length h) h') at 2.
  rewrite (drop_S _ _ _ Hl), drop_ge by lia. by rewrite Permutation_app_comm.
Qed.

Lemma heap_Pop_ok h : heap_ok h -> heap_ok (heap_Pop h).
Proof.
  intros H. unfold heap_Pop. set (n := (length h - 1)%nat).
  assert (heap_n (heap_down n (heap_swap h 0 n) 0 n) n) as Hn.
  { apply heap_down_ok; [lia|rewrite heap_swap_length; lia|]. intros k Hk.
    pose proof (parent_spec k ltac:(lia)). split; [|lia]. intros Hk0.
    rewrite !key_swap by lia. repeat destruct (decide _); try lia. apply H. lia. }
  intros k Hk. rewrite length_take in Hk. pose proof (parent_spec k ltac:(lia)).
  specialize (Hn k ltac:(lia)). unfold key in *. by rewrite !lookup_take_lt by lia.
Qed.

(** The root of a heap is its earliest element. *)
Lemma heap_root x h : heap_ok (x :: h) -> forall y, y ∈ x :: h -> be_at x <= be_at y.
Proof.
  intros H y [k Hk]%list_elem_of_lookup. pose proof (lookup_lt_Some _ _ _ Hk).
  assert (be_at y = key (x :: h) k) as -> by (unfold key; by rewrite Hk).
  clear Hk y. induction k as [k IH] using lt_wf_ind.
  destruct (decide (k = 0)%nat) as [->|]; [done|]. pose proof (parent_spec k ltac:(lia)).
  pose proof (H k ltac:(lia)). specialize (IH (parent k)). lia.
Qed.
End heap.

(** ** Bringing the window up to date *)

Abbreviation total := (sum_with be_bytes).
Definition leg_total (t : Z) (l : list rescueByteEvent) : Z :=
  sum_with (fun ev => if bool_decide (be_target ev = t) then be_bytes ev else 0) l.
Definition leg_totals (l : list rescueByteEvent) : Z * Z := (leg_total 0 l, leg_total 1 l).
Definition sized (l : list rescueByteEvent) : Prop := forall ev, ev ∈ l -> 0 <= be_bytes ev.

Lemma total_nonneg l : sized l -> 0 <= total l.
Proof. intros H. apply sum_with_nonneg, H. Qed.
Lemma leg_total_nonneg t l : sized l -> 0 <= leg_total t l.
Proof. intros H. apply sum_with_nonneg. intros ev Hev. case_bool_decide; [by apply H|done]. Qed.
Lemma leg_total_cons t ev l :
  leg_total t (ev :: l) = (if bool_decide (be_target ev = t) then be_bytes ev else 0) + leg_total t l.
Proof. done. Qed.
Lemma leg_total_le t l : sized l -> leg_total t l <= total l.
Proof.
  induction l as [|ev l IH]; intros Hs; simpl; [done|]. unfold leg_total in *. simpl.
  pose proof (Hs ev ltac:(left)). specialize (IH ltac:(intros x Hx; apply Hs; by right)).
  case_bool_decide; lia.
Qed.
Lemma sub_floor_exact a b : 0 <= a -> sub_floor (b + a) b = a.
Proof. intros. unfold sub_floor. case_bool_decide; lia. Qed.
#[local] Instance leg_totals_perm : Proper (Permutation ==> eq) leg_totals.
Proof. intros l1 l2 H. unfold leg_totals, leg_total. by rewrite H. Qed.
#[local] Instance sized_perm : Proper (Permutation ==> iff) sized.
Proof. intros l1 l2 H. unfold sized. by setoid_rewrite H. Qed.

Lemma prune_original_spec cutoff l :
  sized l ->
  exists dropped kept, prune_original cutoff l (total l) = (kept, total kept) /\
    l = dropped ++ kept /\ (forall ev, ev ∈ dropped -> be_at ev <= cutoff) /\
    (forall ev, head kept = Some ev -> cutoff < be_at ev).
Proof.
  induction l as [|ev l IH]; intros Hs; simpl.
  { exists [], []. split_and!; try done. set_solver. }
  unfold after. destruct (bool_decide_reflect (cutoff < be_at ev)) as [Hc|Hc].
  - exists [], (ev :: l). split_and!; try done; [set_solver|]. by intros ? [= <-].
  - assert (sized l) as Hl by (intros x Hx; apply Hs; by right).
    rewrite sub_floor_exact by (by apply total_nonneg).
    destruct (IH Hl) as (dropped & kept & -> & -> & Hd & Hk).
    exists (ev :: dropped), kept. split_and!; try done.
    intros x [->|Hx]%elem_of_cons; [lia|by apply Hd].
Qed.

Lemma prune_accepted_spec fuel cutoff h :
  (length h <= fuel)%nat -> sized h -> heap_ok h ->
  exists dropped kept,
    prune_accepted fuel cutoff h (total h) (leg_totals h) = (kept, total kept, leg_totals kept) /\
    h ≡ₚ dropped ++ kept /\ heap_ok kept /\
    (forall ev, ev ∈ dropped -> be_at ev <= cutoff) /\ (forall ev, ev ∈ kept -> cutoff < be_at ev).
Proof.
  revert h. induction fuel as [|fuel IH]; intros [|ev h] Hl Hs Hok; simpl in Hl; try lia.
  1,2: exists [], []; split_and!; try done; set_solver.
  cbn [prune_accepted]. unfold after at 1.
  destruct (bool_decide_reflect (cutoff < be_at ev)) as [Hc|Hc].
  - exists [], (ev :: h). split_and!; try done; [set_solver|].
    intros x Hx. pose proof (heap_root _ _ Hok _ Hx). lia.
  - pose proof (heap_Pop_perm ev h) as Hp. set (h' := heap_Pop (ev :: h)) in *.
    assert (sized h') as Hs'. { intros x Hx. apply Hs. rewrite <- Hp. by right. }
    assert (sub_floor (total (ev :: h)) (be_bytes ev) = total h') as E1.
    { rewrite <- Hp. simpl. by apply sub_floor_exact, total_nonneg. }
    assert (upd_pair (be_target ev) (fun n => sub_floor n (be_bytes ev)) (leg_totals (ev :: h))
      = leg_totals h') as E2.
    { rewrite <- Hp. unfold leg_totals, upd_pair. rewrite !leg_total_cons. cbn [fst snd].
      pose proof (leg_total_nonneg 0 h' Hs'). pose proof (leg_total_nonneg 1 h' Hs'). repeat case_bool_decide; try lia.
      all: rewrite ?sub_floor_exact by done; f_equal; lia. }
    rewrite E1, E2. destruct (IH h') as (dropped & kept & -> & Hp' & Hok' & Hd & Hk).
    { apply Permutation_length in Hp. simpl in Hp. lia. }
    { done. } { by apply heap_Pop_ok. }
    exists (ev :: dropped), kept. split_and!; try done.
    + by rewrite <- Hp, Hp'.
    + intros x [->|Hx]%elem_of_cons; [lia|by apply Hd].
Qed.

(** ** The abstract account *)

Record open_rescue := MkOpen {
  or_seq : Z; or_key : Z * Z; or_target : Z; or_bytes : Z; or_started : bool }.
#[export] Instance open_rescue_fields : Fields open_rescue := fun o =>
  MkOpen (or_seq o) (or_key o) (or_target o) (or_bytes o) (or_started o).

Record rescue_account := MkAccount {
  ac_originals : list rescueByteEvent;      (* application bytes, by time *)
  ac_charged : list rescueByteEvent;        (* rescue bytes accepted by a carrier *)
  ac_open : gmap Z open_rescue;             (* reservations that have not ended *)
  ac_started : list (Z * (Z * Z));          (* rescues whose write has started *)
  ac_acked : Z;                             (* everything below is acknowledged *)
  ac_latest : time                          (* the latest time seen *)
}.
#[export] Instance rescue_account_fields : Fields rescue_account := fun a =>
  MkAccount (ac_originals a) (ac_charged a) (ac_open a) (ac_started a) (ac_acked a) (ac_latest a).

Definition new_account (start : time) : rescue_account := MkAccount [] [] ∅ [] 0 start.

Definition rop_time (op : rescue_op) : option time :=
  match op with
  | rop_original _ _ t | rop_reserve _ _ t | rop_begin _ t | rop_revalidate _ _ t
  | rop_settle _ _ _ t | rop_release _ _ t | rop_ack _ t | rop_snapshot t => Some t
  | rop_close => None
  end.

(** A reservation that has not reached the carrier ends. *)
Definition ac_drop (id : Z) (a : rescue_account) : rescue_account :=
  match ac_open a !! id with
  | Some o => if or_started o then a else a <| ac_open ::= delete id |>
  | None => a
  end.

(** Its write starts. *)
Definition ac_begin (id : Z) (a : rescue_account) : rescue_account :=
  match ac_open a !! id with
  | Some o => a <| ac_open ::= <[id := o <| or_started := true |>]> |>
                <| ac_started ::= fun l => l ++ [(or_seq o, or_key o)] |>
  | None => a
  end.

(** A started write ends, and what the carrier accepted is charged. *)
Definition ac_settle (id bytes : Z) (t : time) (a : rescue_account) : rescue_account :=
  match ac_open a !! id with
  | Some o =>
    if or_started o
    then let accepted := bytes `min` or_bytes o in
         let a := a <| ac_open ::= delete id |> in
         if bool_decide (accepted = 0) then a
         else a <| ac_charged ::= fun l => l ++ [MkByteEvent t accepted (or_target o)] |>
    else a
  | None => a
  end.

Definition account_step (a : rescue_account) (call : rescue_op * rescue_result) : rescue_account :=
  let a := a <| ac_latest ::= fun t => from_option (Z.max t) t (rop_time call.1) |> in
  match call with
  | (rop_original _ n t, res_original true) =>
    a <| ac_originals ::= fun l => l ++ [MkByteEvent t n 0] |>
  | (rop_reserve e n _, res_reserve d) =>
    if ad_Admitted d && negb (ad_Exempt d)
    then a <| ac_open ::= <[ad_ReservationID d :=
                             MkOpen (re_Sequence e) (evidence_key e) (re_TargetLeg e) n false]> |>
    else a
  | (rop_begin id _, res_begin ok) => if ok then ac_begin id a else ac_drop id a
  | (rop_revalidate id _ _, res_revalidate _ id' _) => if bool_decide (id' = id) then a else ac_drop id a
  | (rop_settle id n _ t, res_settle _) => ac_settle id n t a
  | (rop_release id _ _, res_release true) => ac_drop id a
  | (rop_ack next _, _) => a <| ac_acked ::= Z.max next |>
  | _ => a
  end.

Definition account (start : time) (log : list (rescue_op * rescue_result)) : rescue_account :=
  foldl account_step (new_account start) log.

(** The bytes of the events after a time, and the bytes reserved. *)
Definition bytes_since (cutoff : time) (l : list rescueByteEvent) : Z :=
  total (List.filter (fun ev => after (be_at ev) cutoff) l).
Definition reserved (a : rescue_account) : Z := map_sum or_bytes (ac_open a).

(** ** The invariant

    In three parts, each about the fields it depends on. *)

(** The window: the events that are kept, and their totals. *)
Record window_ok (originals accepted : list rescueByteEvent) (windowOriginal windowAccepted : Z)
    (byLeg : Z * Z) (all_originals charged : list rescueByteEvent) (latest : time) : Prop := {
  wo_original : windowOriginal = total originals;
  wo_accepted : windowAccepted = total accepted;
  wo_by_leg : byLeg = leg_totals accepted;
  wo_heap : heap_ok accepted;
  wo_sized : sized all_originals /\ sized charged;
  wo_originals : exists dropped, all_originals = dropped ++ originals /\
    forall ev, ev ∈ dropped -> be_at ev <= latest - streamBoundedRescueWindow;
  wo_charged : exists dropped, charged ≡ₚ dropped ++ accepted /\
    forall ev, ev ∈ dropped -> be_at ev <= latest - streamBoundedRescueWindow
}.

(** The totals of what is reserved. *)
Record sums_ok (base burst committed limit : Z) (reservations : gmap Z boundedRescueReservation)
  : Prop := {
  so_base : base = map_sum rs_baseBytes reservations;
  so_burst : burst = map_sum rs_burstBytes reservations;
  so_committed : 0 <= committed /\ committed + burst <= limit < 2 ^ 64;
  so_split : forall id r, reservations !! id = Some r ->
    0 <= rs_baseBytes r /\ 0 <= rs_burstBytes r /\ rs_baseBytes r + rs_burstBytes r = rs_bytes r
}.

Definition open_view (r : boundedRescueReservation) : open_rescue :=
  MkOpen (rs_seq r) (rs_key r) (rs_target r) (rs_bytes r) (rs_started r).

(** Reservations and records refer to each other, and a record knows the epochs in
    which it was rescued. *)
Record record_ok (acked last : Z) (reservations : gmap Z boundedRescueReservation)
    (started : list (Z * (Z * Z))) (seq : Z) (record : boundedRescueRecordState) : Prop := {
  rk_original : seq <= last;
  rk_acked : rr_acked record = bool_decide (seq < acked);
  rk_kept : rr_acked record = true -> rr_pendingByEpoch record <> ∅;
  rk_pending : forall key id, rr_pendingByEpoch record !! key = Some id ->
    exists r, reservations !! id = Some r /\ rs_seq r = seq /\ rs_key r = key;
  rk_used : forall key, key ∈ rr_usedByEpoch record <-> (seq, key) ∈ started
}.

Record book_ok (acked last : Z) (has : bool) (next : Z)
    (reservations : gmap Z boundedRescueReservation) (records : gmap Z boundedRescueRecordState)
    (started : list (Z * (Z * Z))) : Prop := {
  bk_res : forall id r, reservations !! id = Some r ->
    rs_id r = id /\ 0 < id <= next /\
    exists record, records !! rs_seq r = Some record /\ rr_pendingByEpoch record !! rs_key r = Some id;
  bk_rec : forall seq record, records !! seq = Some record ->
    has = true /\ record_ok acked last reservations started seq record;
  bk_started : forall seq key, (seq, key) ∈ started ->
    has = true /\ seq <= last /\ (is_Some (records !! seq) \/ seq < acked)
}.

Record rescue_inv (n volume : Z) (b : streamBoundedRescueBudget) (a : rescue_account) : Prop := {
  ri_window : window_ok (rb_originalEvents b) (rb_acceptedEvents b) (rb_windowOriginal b)
    (rb_windowAccepted b) (rb_acceptedByLeg b) (ac_originals a) (ac_charged a) (ac_latest a);
  ri_sums : sums_ok (rb_baseReserved b) (rb_burstReserved b) (rb_burstCommitted b)
    (rf_BurstBytes (rb_config b)) (rb_reservations b);
  ri_book : book_ok (rb_ackedNext b) (rb_lastOriginal b) (rb_hasOriginal b) (rb_nextReservation b)
    (rb_reservations b) (rb_records b) (ac_started a);
  ri_open : open_view <$> rb_reservations b = ac_open a;
  ri_acked : rb_ackedNext b = ac_acked a;
  ri_next : 0 <= rb_nextReservation b <= n;
  ri_volume : total (ac_originals a) + total (ac_charged a) + reserved a <= volume;
  ri_once : rf_factorMode (rb_config b) <> boundedRescueFactorCOnly -> NoDup (ac_started a)
}.

(** *** The window *)

Section window.
#[local] Set Default Proof Using "All".
Context (wO wA : Z) (legs : Z * Z) (os acc aos ch : list rescueByteEvent) (latest : time).
Hypothesis (W : window_ok os acc wO wA legs aos ch latest).

Lemma window_sized : sized os /\ sized acc.
Proof.
  destruct W as [_ _ _ _ [H1 H2] (d1 & -> & _) (d2 & Hp & _)]. split; intros ev Hev.
  - apply H1. set_solver.
  - apply H2. rewrite Hp. set_solver.
Qed.

Lemma window_later latest' : latest <= latest' -> window_ok os acc wO wA legs aos ch latest'.
Proof.
  intros Hl. destruct W as [? ? ? ? ? (d1 & ? & H1) (d2 & ? & H2)].
  constructor; try done; [exists d1|exists d2]; (split; [done|]); intros ev Hev.
  - specialize (H1 ev Hev). lia.
  - specialize (H2 ev Hev). lia.
Qed.

Lemma window_totals :
  0 <= wO <= total aos /\ 0 <= wA <= total ch.
Proof.
  destruct window_sized as [Ho Ha]. destruct W as [-> -> _ _ [H1 H2] (d1 & -> & _) (d2 & Hp & _)].
  rewrite Hp. rewrite !sum_with_app.
  assert (sized d1) by (intros ev Hev; apply H1; set_solver).
  assert (sized d2) by (intros ev Hev; apply H2; rewrite Hp; set_solver).
  pose proof (total_nonneg os Ho). pose proof (total_nonneg acc Ha).
  pose proof (total_nonneg d1). pose proof (total_nonneg d2). naive_solver lia.
Qed.

Lemma window_add_original t n :
  0 <= n -> total aos + n < 2 ^ 64 ->
  window_ok (os ++ [MkByteEvent t n 0]) acc (add64 n wO) wA legs (aos ++ [MkByteEvent t n 0]) ch latest.
Proof.
  intros Hn Ht. pose proof window_totals as [[? ?] _]. destruct W as [E1 ? ? ? [? ?] (d1 & ? & ?) ?].
  constructor; try done.
  - unfold add64. rewrite u64_small by (unfold is_u64; lia). rewrite sum_with_app. simpl. lia.
  - split; [|done]. intros ev [?| ->%list_elem_of_singleton]%elem_of_app; auto.
  - exists d1. by subst; rewrite app_assoc.
Qed.

Lemma window_add_charged t n target :
  0 <= n -> total ch + n < 2 ^ 64 ->
  window_ok os (heap_Push (MkByteEvent t n target) acc) wO (add64 n wA)
    (upd_pair target (add64 n) legs) aos (ch ++ [MkByteEvent t n target]) latest.
Proof.
  intros Hn Ht. pose proof window_totals as [_ [? ?]]. destruct window_sized as [_ Hs].
  destruct W as [? EA EL ? [? ?] ? (d2 & Hp & ?)].
  constructor; try done.
  - unfold add64. rewrite u64_small by (unfold is_u64; lia). rewrite heap_Push_perm. simpl. lia.
  - rewrite EL, heap_Push_perm. unfold leg_totals, upd_pair. rewrite !leg_total_cons. simpl.
    pose proof (leg_total_le 0 acc Hs). pose proof (leg_total_le 1 acc Hs).
    pose proof (leg_total_nonneg 0 acc Hs). pose proof (leg_total_nonneg 1 acc Hs).
    repeat case_bool_decide; try lia; unfold add64; rewrite ?u64_small by (unfold is_u64; lia).
    all: f_equal; lia.
  - by apply heap_Push_ok.
  - split; [done|]. intros ev [?| ->%list_elem_of_singleton]%elem_of_app; auto.
  - exists d2. split; [|done]. rewrite heap_Push_perm, Hp. rewrite <- app_assoc.
    apply Permutation_app_head. by rewrite Permutation_app_comm.
Qed.

Lemma window_prune t :
  t <= latest ->
  let cutoff := time_add t (- streamBoundedRescueWindow) in
  let '(os', wO') := prune_original cutoff os wO in
  let '(acc', wA', legs') := prune_accepted (length acc) cutoff acc wA legs in
  window_ok os' acc' wO' wA' legs' aos ch latest /\
  (exists dropped, os = dropped ++ os') /\ (forall ev, head os' = Some ev -> cutoff < be_at ev) /\
  (forall ev, ev ∈ acc' -> cutoff < be_at ev).
Proof.
  intros Ht cutoff. destruct window_sized as [Hso Hsa].
  destruct W as [-> -> -> Hh ? (d1 & E1 & H1) (d2 & Hp & H2)].
  destruct (prune_original_spec cutoff os Hso) as (da & ka & -> & -> & Hd & Hk).
  destruct (prune_accepted_spec (length acc) cutoff acc) as (db & kb & -> & Hpb & Hhb & Hdb & Hkb); try done.
  unfold time_add in cutoff. split; [|split; [by exists da|done]]. constructor; try done.
  - exists (d1 ++ da). rewrite <- app_assoc. split; [done|].
    intros ev [?|Hev]%elem_of_app; [auto|]. specialize (Hd ev Hev). subst cutoff. lia.
  - exists (d2 ++ db). rewrite Hp, Hpb, app_assoc. split; [done|].
    intros ev [?|Hev]%elem_of_app; [auto|]. specialize (Hdb ev Hev). subst cutoff. lia.
Qed.
End window.

(** *** The totals *)

Section sums.
#[local] Set Default Proof Using "All".
Context (base burst committed limit : Z) (res : gmap Z boundedRescueReservation).
Hypothesis (S : sums_ok base burst committed limit res).

Lemma sums_range : 0 <= base /\ 0 <= burst /\ base + burst = map_sum rs_bytes res.
Proof.
  destruct S as [-> -> _ Hs]. split_and!.
  - apply map_sum_nonneg. intros id r Hr. apply (Hs id r Hr).
  - apply map_sum_nonneg. intros id r Hr. apply (Hs id r Hr).
  - clear S. induction res as [|id r m Hid IH] using map_ind.
    { by rewrite !map_sum_empty. }
    rewrite !map_sum_insert by done.
    pose proof (Hs id r (lookup_insert_eq _ _ _)). enough (map_sum rs_baseBytes m + map_sum rs_burstBytes m = map_sum rs_bytes m) by lia.
    apply IH. intros j r' Hj. apply (Hs j). rewrite lookup_insert_ne; [done|]. by intros ->; simplify_eq.
Qed.

Lemma sums_open id r :
  res !! id = None -> 0 <= rs_baseBytes r -> 0 <= rs_burstBytes r ->
  rs_baseBytes r + rs_burstBytes r = rs_bytes r ->
  base + rs_baseBytes r < 2 ^ 64 -> committed + burst + rs_burstBytes r <= limit ->
  sums_ok (add64 (rs_baseBytes r) base) (add64 (rs_burstBytes r) burst) committed limit (<[id:=r]> res).
Proof.
  intros Hid H1 H2 H3 H4 H5. pose proof sums_range. destruct S as [E1 E2 E3 Hs].
  unfold add64. rewrite !u64_small by (unfold is_u64; lia).
  constructor; rewrite ?map_sum_insert by done; try lia.
  intros j r' [[<- <-]|[_ Hj]]%lookup_insert_Some; [lia|eauto].
Qed.

Lemma sums_end id r c :
  res !! id = Some r -> 0 <= c <= rs_burstBytes r ->
  sums_ok (sub_floor base (rs_baseBytes r)) (sub_floor burst (rs_burstBytes r)) (add64 c committed)
    limit (delete id res).
Proof.
  intros Hid Hc. pose proof sums_range. destruct S as [E1 E2 E3 Hs].
  pose proof (map_sum_delete rs_baseBytes res id r Hid) as D1.
  pose proof (map_sum_delete rs_burstBytes res id r Hid) as D2.
  assert (0 <= map_sum rs_baseBytes (delete id res) /\ 0 <= map_sum rs_burstBytes (delete id res)).
  { split; apply map_sum_nonneg; intros j r' [_ Hj]%lookup_delete_Some; apply (Hs j r' Hj). }
  unfold sub_floor, add64. rewrite u64_small by (unfold is_u64; lia).
  constructor; try (repeat case_bool_decide; lia).
  intros j r' [_ Hj]%lookup_delete_Some. eauto.
Qed.

Lemma sums_update id r r' :
  res !! id = Some r -> rs_baseBytes r' = rs_baseBytes r -> rs_burstBytes r' = rs_burstBytes r ->
  rs_bytes r' = rs_bytes r -> sums_ok base burst committed limit (<[id:=r']> res).
Proof.
  intros Hid E1 E2 E3. destruct S as [? ? ? Hs].
  constructor; rewrite ?(map_sum_update _ _ _ _ _ Hid); try lia.
  intros j r'' [[<- <-]|[_ Hj]]%lookup_insert_Some; [|eauto].
  specialize (Hs id r Hid). lia.
Qed.
End sums.

(** *** Reservations and records *)

Definition clear_record (r : boundedRescueReservation) (state : boundedRescueRecordState)
  : boundedRescueRecordState :=
  if bool_decide (rr_pendingByEpoch state !! rs_key r = Some (rs_id r))
  then state <| rr_pendingByEpoch ::= delete (rs_key r) |> else state.

(** The records after reservation [r] has ended. *)
Definition clear_records (r : boundedRescueReservation) (records : gmap Z boundedRescueRecordState)
  : gmap Z boundedRescueRecordState :=
  let records := alter (clear_record r) (rs_seq r) records in
  match records !! rs_seq r with
  | Some state => if rr_acked state && bool_decide (rr_pendingByEpoch state = ∅)
                  then delete (rs_seq r) records else records
  | None => records
  end.

Lemma clear_pending_eq r b :
  clear_pending r b = b <| rb_records := clear_records r (rb_records b) |>.
Proof.
  unfold clear_pending, maybeDeleteRecordLocked, clear_records, clear_record. destruct b. simpl.
  by repeat case_match.
Qed.

Lemma alter_insert_Some {A} (f : A -> A) i (m : gmap Z A) x :
  m !! i = Some x -> alter f i m = <[i := f x]> m.
Proof.
  intros H. apply map_eq. intros j. destruct (decide (i = j)) as [<-|].
  - by rewrite lookup_alter_eq, lookup_insert_eq, H.
  - by rewrite lookup_alter_ne, lookup_insert_ne.
Qed.

Lemma clear_records_eq r recs record :
  recs !! rs_seq r = Some record -> rr_pendingByEpoch record !! rs_key r = Some (rs_id r) ->
  clear_records r recs =
    let record' := record <| rr_pendingByEpoch ::= delete (rs_key r) |> in
    if rr_acked record && bool_decide (rr_pendingByEpoch record' = ∅)
    then delete (rs_seq r) recs else <[rs_seq r := record']> recs.
Proof.
  intros Hrec Hp. unfold clear_records. rewrite (alter_insert_Some _ _ _ _ Hrec), lookup_insert_eq.
  unfold clear_record. rewrite bool_decide_eq_true_2 by done. simpl. case_match; [|done].
  by rewrite delete_insert_eq.
Qed.

Section book.
#[local] Set Default Proof Using "All".
Context (acked last next : Z) (has : bool) (res : gmap Z boundedRescueReservation)
  (recs : gmap Z boundedRescueRecordState) (started : list (Z * (Z * Z))).
Hypothesis (B : book_ok acked last has next res recs started).

(** A change to a record that the book does not look at. *)
Lemma book_touch seq f :
  (forall record, rr_acked (f record) = rr_acked record /\
     rr_pendingByEpoch (f record) = rr_pendingByEpoch record /\
     rr_usedByEpoch (f record) = rr_usedByEpoch record) ->
  book_ok acked last has next res (alter f seq recs) started.
Proof.
  intros Hf. destruct B as [H1 H2 H3]. constructor.
  - intros id r Hr. destruct (H1 id r Hr) as (? & ? & record & Hrec & Hp). split; [done|].
    split; [done|]. destruct (decide (seq = rs_seq r)) as [->|].
    + exists (f record). rewrite lookup_alter_eq, Hrec. destruct (Hf record) as (_ & -> & _). done.
    + exists record. by rewrite lookup_alter_ne.
  - intros s record [(<- & old & Ho & ->)|[_ Ho]]%lookup_alter_Some; [|by apply H2].
    destruct (H2 _ _ Ho) as [? [R1 R2 R3 R4 R5]]. split; [done|].
    destruct (Hf old) as (E1 & E2 & E3). constructor; rewrite ?E1, ?E2, ?E3; done.
  - intros s k Hs. destruct (H3 s k Hs) as (? & ? & H). split; [done|]. split; [done|].
    destruct H as [H|H]; [left|by right]. by apply lookup_alter_is_Some.
Qed.

Lemma book_grow last' :
  (has = true -> last <= last') -> book_ok acked last' true next res recs started.
Proof.
  intros Hl. destruct B as [H1 H2 H3]. constructor; [done| |].
  - intros s record Hr. destruct (H2 _ _ Hr) as [? [R1 R2 R3 R4 R5]]. split; [done|].
    constructor; try done. specialize (Hl H). lia.
  - intros s k Hs. destruct (H3 s k Hs) as (? & ? & ?). split_and!; try done. specialize (Hl H). lia.
Qed.

Lemma book_original seq :
  (has = true -> last < seq) -> acked <= seq ->
  book_ok acked seq true next res (<[seq := new_record_state]> recs) started.
Proof.
  intros Hl Ha. destruct (book_grow seq) as [H1 H2 H3]; [intros; specialize (Hl H); lia|].
  assert (Hnone : recs !! seq = None).
  { destruct (recs !! seq) as [record|] eqn:E; [|done]. destruct (bk_rec _ _ _ _ _ _ _ B _ _ E) as [? R].
    pose proof (rk_original _ _ _ _ _ _ R). specialize (Hl H). lia. }
  constructor.
  - intros id r Hr. destruct (H1 id r Hr) as (? & ? & record & Hrec & Hp). split; [done|].
    split; [done|]. exists record. rewrite lookup_insert_ne; [done|]. by intros ->; simplify_eq.
  - intros s record [[<- <-]|[_ Hr]]%lookup_insert_Some; [|by apply H2]. split; [done|].
    constructor; simpl; try done.
    + symmetry. apply bool_decide_eq_false_2. lia.
    + intros key. split; [set_solver|]. intros Hs. exfalso.
      destruct (bk_started _ _ _ _ _ _ _ B _ _ Hs) as (? & ? & _). specialize (Hl H). lia.
  - intros s k Hs. destruct (H3 s k Hs) as (? & ? & H). split; [done|]. split; [done|].
    destruct H as [H|H]; [left|by right]. apply lookup_insert_is_Some'. by right.
Qed.

Lemma book_open r record :
  recs !! rs_seq r = Some record -> rr_pendingByEpoch record !! rs_key r = None ->
  0 <= next -> rs_id r = next + 1 ->
  book_ok acked last has (next + 1) (<[next + 1 := r]> res)
    (<[rs_seq r := record <| rr_pendingByEpoch ::= <[rs_key r := next + 1]> |>]> recs) started.
Proof.
  intros Hrec Hnone Hnext Hid. destruct B as [H1 H2 H3].
  assert (Hfresh : forall id r', res !! id = Some r' -> id <> next + 1).
  { intros id r' Hr. specialize (H1 _ _ Hr). lia. }
  constructor.
  - intros id r' [[<- <-]|[Hne Hr]]%lookup_insert_Some.
    { split; [done|]. split; [lia|]. eexists. rewrite lookup_insert_eq. split; [done|]. simpl.
      apply lookup_insert_eq. }
    destruct (H1 _ _ Hr) as (? & ? & record' & Hrec' & Hp). split; [done|]. split; [lia|].
    destruct (decide (rs_seq r = rs_seq r')) as [E|].
    + rewrite E in *. rewrite lookup_insert_eq. eexists. split; [done|]. simpl.
      simplify_eq. rewrite lookup_insert_ne; [done|]. by intros E'; rewrite E' in *; simplify_eq.
    + exists record'. by rewrite lookup_insert_ne.
  - intros s record' [[<- <-]|[_ Hr]]%lookup_insert_Some.
    + destruct (H2 _ _ Hrec) as [? [R1 R2 R3 R4 R5]]. split; [done|]. constructor; simpl; try done.
      * intros _. apply insert_non_empty.
      * intros key id [[<- <-]|[_ Hk]]%lookup_insert_Some; [exists r; by rewrite lookup_insert_eq|].
        destruct (R4 _ _ Hk) as (r' & ? & ? & ?). exists r'. rewrite lookup_insert_ne; [done|].
        symmetry. by eapply Hfresh.
    + destruct (H2 _ _ Hr) as [? [R1 R2 R3 R4 R5]]. split; [done|]. constructor; try done.
      intros key id Hk. destruct (R4 _ _ Hk) as (r' & ? & ? & ?). exists r'.
      rewrite lookup_insert_ne; [done|]. symmetry. by eapply Hfresh.
  - intros s k Hs. destruct (H3 s k Hs) as (? & ? & H). split; [done|]. split; [done|].
    destruct H as [H|H]; [left|by right]. apply lookup_insert_is_Some'. by right.
Qed.

Lemma book_start r r' record record' :
  res !! rs_id r = Some r -> recs !! rs_seq r = Some record -> acked <= rs_seq r ->
  rs_id r' = rs_id r -> rs_seq r' = rs_seq r -> rs_key r' = rs_key r ->
  rr_acked record' = rr_acked record -> rr_pendingByEpoch record' = rr_pendingByEpoch record ->
  rr_usedByEpoch record' = {[rs_key r]} ∪ rr_usedByEpoch record ->
  book_ok acked last has next (<[rs_id r := r']> res) (<[rs_seq r := record']> recs)
    (started ++ [(rs_seq r, rs_key r)]).
Proof.
  intros Hr Hrec Hack E1 E2 E3 F1 F2 F3. destruct B as [H1 H2 H3].
  assert (Hview : forall id q, res !! id = Some q ->
    exists q', (<[rs_id r := r']> res) !! id = Some q' /\ rs_seq q' = rs_seq q /\ rs_key q' = rs_key q).
  { intros id q Hq. destruct (decide (rs_id r = id)) as [<-|].
    - exists r'. rewrite lookup_insert_eq. by simplify_eq.
    - exists q. by rewrite lookup_insert_ne. }
  constructor.
  - intros id q [[<- <-]|[_ Hq]]%lookup_insert_Some.
    + destruct (H1 _ _ Hr) as (? & ? & old & Hold & Hp). split; [done|]. split; [done|].
      exists record'. rewrite E2, E3, lookup_insert_eq. by simplify_eq; rewrite F2.
    + destruct (H1 _ _ Hq) as (? & ? & old & Hold & Hp). split; [done|]. split; [done|].
      destruct (decide (rs_seq r = rs_seq q)) as [E|].
      * exists record'. rewrite E in *. rewrite lookup_insert_eq. by simplify_eq; rewrite F2.
      * exists old. by rewrite lookup_insert_ne.
  - intros s rec [[<- <-]|[Hne Hq]]%lookup_insert_Some.
    + destruct (H2 _ _ Hrec) as [? [R1 R2 R3 R4 R5]]. split; [done|].
      constructor; rewrite ?F1, ?F2, ?F3; try done.
      * intros key id Hk. destruct (R4 _ _ Hk) as (q & Hq & ? & ?).
        destruct (Hview _ _ Hq) as (q' & ? & ? & ?). exists q'. by split_and!; congruence.
      * intros key. rewrite elem_of_union, elem_of_singleton, elem_snoc, R5.
        split; [intros [->|]; auto|intros [|[= ->]]; auto].
    + destruct (H2 _ _ Hq) as [? [R1 R2 R3 R4 R5]]. split; [done|]. constructor; try done.
      * intros key id Hk. destruct (R4 _ _ Hk) as (q & Hq' & ? & ?).
        destruct (Hview _ _ Hq') as (q' & ? & ? & ?). exists q'. by split_and!; congruence.
      * intros key. rewrite elem_snoc, R5. split; [auto|]. intros [|[= -> _]]; done.
  - intros s k [Hs|[= -> ->]]%elem_snoc.
    + destruct (H3 s k Hs) as (? & ? & H). split; [done|]. split; [done|].
      destruct H as [H|H]; [left|by right]. apply lookup_insert_is_Some'. by right.
    + destruct (H2 _ _ Hrec) as [? R]. pose proof (rk_original _ _ _ _ _ _ R).
      split_and!; try done. left. apply lookup_insert_is_Some'. by left.
Qed.

Lemma book_end r :
  res !! rs_id r = Some r ->
  book_ok acked last has next (delete (rs_id r) res) (clear_records r recs) started.
Proof.
  intros Hr. destruct B as [H1 H2 H3].
  destruct (H1 _ _ Hr) as (_ & _ & record & Hrec & Hp).
  destruct (H2 _ _ Hrec) as [Hhas [R1 R2 R3 R4 R5]].
  rewrite (clear_records_eq _ _ _ Hrec Hp). simpl. set (p := delete (rs_key r) (rr_pendingByEpoch record)).
  assert (Hother : forall id q, res !! id = Some q -> id <> rs_id r -> rs_seq q = rs_seq r ->
    p !! rs_key q = Some id).
  { intros id q Hq Hne E. destruct (H1 _ _ Hq) as (_ & _ & rec & Hrec' & Hp'). rewrite E in Hrec'.
    simplify_eq. subst p. rewrite lookup_delete_ne; [done|]. intros E'. rewrite E' in Hp. congruence. }
  assert (Hkept : forall key id, p !! key = Some id ->
    exists q, delete (rs_id r) res !! id = Some q /\ rs_seq q = rs_seq r /\ rs_key q = key).
  { intros key id [Hne Hk]%lookup_delete_Some. destruct (R4 _ _ Hk) as (q & Hq & ? & ?). exists q.
    rewrite lookup_delete_ne; [done|]. intros <-. rewrite Hr in Hq. injection Hq as <-. done. }
  assert (Hrest : forall s rec, s <> rs_seq r -> recs !! s = Some rec ->
    has = true /\ record_ok acked last (delete (rs_id r) res) started s rec).
  { intros s rec Hne Hs. destruct (H2 _ _ Hs) as [? [Q1 Q2 Q3 Q4 Q5]]. split; [done|].
    constructor; try done. intros key id Hk. destruct (Q4 _ _ Hk) as (q & Hq & ? & ?). exists q.
    rewrite lookup_delete_ne; [done|]. intros <-. congruence. }
  destruct (rr_acked record && bool_decide (p = ∅)) eqn:Ed.
  - apply andb_prop in Ed as [Hack Hp0%bool_decide_eq_true]. rewrite R2 in Hack. bool_prop.
    constructor.
    + intros id q [Hne Hq]%lookup_delete_Some. destruct (H1 _ _ Hq) as (? & ? & rec & ? & ?).
      split; [done|]. split; [done|]. exists rec. rewrite lookup_delete_ne; [done|]. intros E.
      specialize (Hother _ _ Hq ltac:(congruence) (eq_sym E)). by rewrite Hp0 in Hother.
    + intros s rec [Hne Hs]%lookup_delete_Some. by apply Hrest.
    + intros s k Hs. destruct (H3 s k Hs) as (? & ? & H). split; [done|]. split; [done|].
      destruct (decide (s = rs_seq r)) as [->|]; [by right|]. by rewrite lookup_delete_ne.
  - constructor.
    + intros id q [Hne Hq]%lookup_delete_Some. destruct (H1 _ _ Hq) as (? & ? & rec & ? & ?).
      split; [done|]. split; [done|]. destruct (decide (rs_seq r = rs_seq q)) as [E|].
      * rewrite <- E, lookup_insert_eq. eexists. split; [done|]. simpl. by apply Hother; congruence.
      * exists rec. by rewrite lookup_insert_ne.
    + intros s rec [[<- <-]|[Hne Hs]]%lookup_insert_Some; [|by apply Hrest]. split; [done|].
      constructor; simpl; try done. intros Hack E. rewrite Hack in Ed. simpl in Ed. bool_prop. done.
    + intros s k Hs. destruct (H3 s k Hs) as (? & ? & H). split; [done|]. split; [done|].
      destruct H as [H|H]; [left|by right]. apply lookup_insert_is_Some'. by right.
Qed.

Lemma book_ack acked' :
  acked <= acked' -> book_ok acked' last has next res (map_imap (ack_record acked') recs) started.
Proof.
  intros Hle. destruct B as [H1 H2 H3].
  assert (Hlook : forall s rec', map_imap (ack_record acked') recs !! s = Some rec' ->
    exists rec, recs !! s = Some rec /\ ack_record acked' s rec = Some rec').
  { intros s rec'. rewrite map_lookup_imap. destruct (recs !! s); [eauto|done]. }
  constructor.
  - intros id r Hr. destruct (H1 _ _ Hr) as (? & ? & rec & Hrec & Hp). split; [done|]. split; [done|].
    rewrite map_lookup_imap, Hrec. simpl. unfold ack_record.
    assert (rr_pendingByEpoch rec <> ∅) by (intros E; rewrite E in Hp; done).
    rewrite (bool_decide_eq_false_2 (_ = ∅)) by done. case_bool_decide; eauto.
  - intros s rec' (rec & Hrec & Ha)%Hlook. destruct (H2 _ _ Hrec) as [? [R1 R2 R3 R4 R5]].
    split; [done|]. unfold ack_record in Ha.
    destruct (bool_decide_reflect (s < acked')) as [Hs|Hs].
    + destruct (bool_decide_reflect (rr_pendingByEpoch rec = ∅)); [done|]. injection Ha as <-. constructor; simpl; try done.
      symmetry. by apply bool_decide_eq_true_2.
    + injection Ha as <-. constructor; try done. rewrite R2. apply bool_decide_ext. lia.
  - intros s k Hs. destruct (H3 s k Hs) as (? & ? & H). split; [done|]. split; [done|].
    destruct H as [[rec Hrec]|H]; [|right; lia]. rewrite map_lookup_imap, Hrec. simpl.
    unfold ack_record. destruct (bool_decide_reflect (s < acked')); [by right|left; eauto].
Qed.
End book.

(** ** Every call keeps the invariant *)

Definition rop_wf (op : rescue_op) : Prop :=
  match op with
  | rop_original _ bytes _ => is_u64 bytes
  | rop_reserve _ payload _ => is_u64 payload
  | rop_settle _ accepted _ _ => is_u64 accepted
  | _ => True
  end.
(** The bytes a call can add to the account. *)
Definition rop_volume (op : rescue_op) : Z :=
  match op with rop_original _ bytes _ => bytes | rop_reserve _ payload _ => payload | _ => 0 end.

Lemma inv_stats n v b a f : rescue_inv n v b a -> rescue_inv n v (b <| rb_stats ::= f |>) a.
Proof. intros []. by constructor. Qed.

Lemma inv_later n v b a n' v' t :
  rescue_inv n v b a -> n <= n' -> v <= v' ->
  rescue_inv n' v' b (a <| ac_latest ::= fun l => from_option (Z.max l) l t |>).
Proof.
  intros [W S B O A N V U] Hn Hv. unfold reserved in V.
  constructor; unfold reserved; simpl; try done; try lia.
  eapply window_later; [done|]. destruct t; simpl; lia.
Qed.

Lemma inv_prune n v b a t :
  rescue_inv n v b a -> t <= ac_latest a -> rescue_inv n v (pruneLocked t b) a.
Proof.
  intros [W S B O A N V U] Ht. pose proof (window_prune _ _ _ _ _ _ _ _ W t Ht) as Hp.
  unfold pruneLocked. simpl in Hp.
  destruct (prune_original _ _ _) as [os wO]. destruct (prune_accepted _ _ _ _ _) as [[acc wA] legs].
  destruct Hp as [W' _]. by constructor.
Qed.

Lemma inv_touch n v b a seq f :
  (forall record, rr_acked (f record) = rr_acked record /\
     rr_pendingByEpoch (f record) = rr_pendingByEpoch record /\
     rr_usedByEpoch (f record) = rr_usedByEpoch record) ->
  rescue_inv n v b a -> rescue_inv n v (b <| rb_records ::= alter f seq |>) a.
Proof. intros Hf []. constructor; simpl; try done. by apply book_touch. Qed.

Lemma inv_link n v b a seq c :
  rescue_inv n v b a -> rescue_inv n v (link_candidate seq c b) a.
Proof.
  intros I. unfold link_candidate. destruct (rb_records b !! seq) as [record|] eqn:E; [|done].
  case_bool_decide; [|by apply inv_stats].
  pose proof (inv_touch _ _ _ _ seq (fun r => r <| rr_candidateIDs ::= fun l => l ++ [c] |>)
    ltac:(done) I) as I'. unfold update in I' at 1. by rewrite (alter_insert_Some _ _ _ _ E) in I'.
Qed.

Lemma inv_open_lookup n v b a id :
  rescue_inv n v b a -> ac_open a !! id = open_view <$> rb_reservations b !! id.
Proof. intros I. by rewrite <- (ri_open _ _ _ _ I), lookup_fmap. Qed.

Lemma inv_id n v b a id r :
  rescue_inv n v b a -> rb_reservations b !! id = Some r -> rs_id r = id /\ 0 < id <= n.
Proof.
  intros I Hr. pose proof (ri_next _ _ _ _ I).
  destruct (bk_res _ _ _ _ _ _ _ (ri_book _ _ _ _ I) _ _ Hr) as (? & ? & _). lia.
Qed.

Lemma inv_bytes n v b a id r :
  rescue_inv n v b a -> rb_reservations b !! id = Some r ->
  0 <= rs_baseBytes r /\ 0 <= rs_burstBytes r /\ rs_baseBytes r + rs_burstBytes r = rs_bytes r.
Proof. intros I Hr. exact (so_split _ _ _ _ _ (ri_sums _ _ _ _ I) _ _ Hr). Qed.

Lemma reserved_eq n v b a : rescue_inv n v b a -> reserved a = map_sum rs_bytes (rb_reservations b).
Proof.
  intros I. unfold reserved. rewrite <- (ri_open _ _ _ _ I). unfold map_sum.
  by rewrite map_to_list_fmap, sum_with_map.
Qed.

Lemma inv_totals n v b a :
  rescue_inv n v b a -> 0 <= total (ac_originals a) /\ 0 <= total (ac_charged a) /\
    0 <= reserved a /\ rb_baseReserved b + rb_burstReserved b = reserved a.
Proof.
  intros I. rewrite (reserved_eq _ _ _ _ I). pose proof (sums_range _ _ _ _ _ (ri_sums _ _ _ _ I)).
  destruct (wo_sized _ _ _ _ _ _ _ _ (ri_window _ _ _ _ I)).
  split_and!; try lia; by apply total_nonneg.
Qed.

(** The end of a reservation, of which [c] burst bytes and [x] bytes in all were used. *)
Lemma reserved_delete n v b a id r :
  rescue_inv n v b a -> rb_reservations b !! id = Some r ->
  reserved (a <| ac_open ::= delete id |>) = reserved a - rs_bytes r.
Proof.
  intros I Hr. unfold reserved. simpl. rewrite (map_sum_delete _ _ _ (open_view r)); [done|].
  rewrite (inv_open_lookup _ _ _ _ _ I). by rewrite Hr.
Qed.

Lemma inv_end n v b a id r x :
  rescue_inv n v b a -> rb_reservations b !! id = Some r ->
  rescue_inv n v (end_reservation r x b) (a <| ac_open ::= delete id |>).
Proof.
  intros I Hr. destruct (inv_id _ _ _ _ _ _ I Hr) as [E _]. pose proof (inv_bytes _ _ _ _ _ _ I Hr).
  pose proof (reserved_delete _ _ _ _ _ _ I Hr) as Ed.
  destruct I as [W S B O A N V U]. unfold end_reservation. rewrite clear_pending_eq. rewrite E.
  rewrite <- E in Hr. constructor; simpl; try done.
  - pose proof (sums_end _ _ _ _ _ S _ _ 0 Hr ltac:(lia)) as S'. rewrite E in S'.
    pose proof (sums_range _ _ _ _ _ S). destruct S as [_ _ [? ?] _].
    unfold add64 in S'. by rewrite Z.add_0_r, u64_small in S' by (unfold is_u64; lia).
  - pose proof (book_end _ _ _ _ _ _ _ B _ Hr). by rewrite E in *.
  - by rewrite <- O, fmap_delete.
  - unfold reserved in *. simpl in *. lia.
Qed.

Lemma saturatingAdd_exact x y : x + y < 2 ^ 64 -> saturatingAdd x y = x + y.
Proof. intros. unfold saturatingAdd, max_u64. case_bool_decide; lia. Qed.
Lemma saturatingAdd_le x y : saturatingAdd x y <= x + y.
Proof. unfold saturatingAdd. case_bool_decide; lia. Qed.

(** Dividing first loses nothing. *)
Lemma boundedRescueRatio_eq x bp :
  is_u64 x -> 0 <= bp <= 10000 -> boundedRescueRatio x bp = x * bp / 10000.
Proof.
  unfold is_u64. intros Hx Hb. unfold boundedRescueRatio.
  pose proof (Z.div_mod x 10000 ltac:(lia)) as E. pose proof (Z.mod_pos_bound x 10000 ltac:(lia)).
  assert (0 <= x / 10000) by (apply Z.div_pos; lia).
  set (q := x / 10000) in *. set (m := x `mod` 10000) in *.
  rewrite (u64_small (m * bp)) by (unfold is_u64; nia).
  rewrite (u64_small (q * bp)) by (unfold is_u64; nia).
  assert (0 <= m * bp / 10000 <= m).
  { split; [apply Z.div_pos; nia|]. apply Z.div_le_upper_bound; nia. }
  rewrite u64_small by (unfold is_u64; nia).
  replace (x * bp) with (q * bp * 10000 + m * bp) by nia. by rewrite Z.div_add_l by lia.
Qed.
Lemma boundedRescueRatio_range x bp : 0 <= boundedRescueRatio x bp < 2 ^ 64.
Proof. apply u64_range. Qed.

Lemma available_parts_spec n v b a base burst :
  rescue_inv n v b a -> v < 2 ^ 64 ->
  available_parts b (rb_windowOriginal b) (rb_windowAccepted b) = (base, burst) ->
  let quota := boundedRescueRatio (rb_windowOriginal b) (rf_BudgetBasisPoints (rb_config b)) in
  let limit := rf_BurstBytes (rb_config b) in
  0 <= base /\ 0 <= burst /\ rb_burstCommitted b + rb_burstReserved b + burst <= limit /\
  rb_windowAccepted b + rb_baseReserved b + rb_burstReserved b + (base + burst) <= 
    (quota + limit) `max` (rb_windowAccepted b + rb_baseReserved b + rb_burstReserved b).
Proof.
  intros I Hv. pose proof (inv_totals _ _ _ _ I). pose proof (window_totals _ _ _ _ _ _ _ _ (ri_window _ _ _ _ I)).
  pose proof (ri_volume _ _ _ _ I). pose proof (sums_range _ _ _ _ _ (ri_sums _ _ _ _ I)).
  pose proof (so_committed _ _ _ _ _ (ri_sums _ _ _ _ I)).
  unfold available_parts. cbv zeta.
  pose proof (boundedRescueRatio_range (rb_windowOriginal b) (rf_BudgetBasisPoints (rb_config b))).
  set (quota := boundedRescueRatio _ _) in *. set (limit := rf_BurstBytes _) in *.
  rewrite !saturatingAdd_exact by lia. intros [= <- <-]. repeat case_bool_decide; lia.
Qed.

Lemma split_payload_spec n v b a p base burst :
  rescue_inv n v b a -> v < 2 ^ 64 -> 0 < p -> split_payload b p = Some (base, burst) ->
  let quota := boundedRescueRatio (rb_windowOriginal b) (rf_BudgetBasisPoints (rb_config b)) in
  let limit := rf_BurstBytes (rb_config b) in
  0 <= base /\ 0 <= burst /\ base + burst = p /\
  rb_burstCommitted b + rb_burstReserved b + burst <= limit /\
  (rf_factorMode (rb_config b) = boundedRescueFactorFull ->
   rb_windowAccepted b + rb_baseReserved b + rb_burstReserved b + p <= quota + limit).
Proof.
  intros I Hv Hp. unfold split_payload, mode_is.
  destruct (bool_decide_reflect (rf_factorMode (rb_config b) = boundedRescueFactorFull)) as [Hm|Hm].
  - destruct (available_parts _ _ _) as [ba bu] eqn:E.
    pose proof (available_parts_spec _ _ _ _ _ _ I Hv E) as H. cbv zeta in H.
    pose proof (saturatingAdd_le ba bu).
    case_bool_decide as Hs; [done|]. intros [= <- <-]. case_bool_decide; lia.
  - intros [= <- <-]. pose proof (so_committed _ _ _ _ _ (ri_sums _ _ _ _ I)). lia.
Qed.

Lemma inv_release n v b a id r reason :
  rescue_inv n v b a -> rb_reservations b !! id = Some r ->
  rescue_inv n v (releaseLocked r reason b) (a <| ac_open ::= delete id |>).
Proof.
  intros I Hr. destruct (inv_id _ _ _ _ _ _ I Hr) as [E _]. unfold releaseLocked.
  rewrite E, bool_decide_eq_false_2 by (rewrite Hr; by intros []). by apply inv_stats, inv_end.
Qed.

Lemma inv_original n v b a seq bytes t ok b' :
  rescue_inv n v b a -> is_u64 bytes -> t <= ac_latest a -> v + bytes < 2 ^ 64 ->
  RecordOriginal seq bytes t b = (ok, b') ->
  rescue_inv n (v + bytes) b'
    (if ok then a <| ac_originals ::= fun l => l ++ [MkByteEvent t bytes 0] |> else a).
Proof.
  intros I Hb Ht Hv. pose proof (inv_totals _ _ _ _ I) as (? & ? & ? & _). unfold is_u64 in Hb.
  assert (rescue_inv n (v + bytes) b a) as Iw.
  { destruct I; constructor; try done. lia. }
  unfold RecordOriginal. case_bool_decide as Hb0; [by intros [= <- <-]|].
  destruct (rb_closed b); [intros [= <- <-]; by apply inv_stats|].
  destruct (rb_hasOriginal b && bool_decide (seq <= rb_lastOriginal b)) eqn:Ed.
  { intros [= <- <-]. by apply inv_stats. }
  assert (Hlast : rb_hasOriginal b = true -> rb_lastOriginal b < seq).
  { intros Hh. rewrite Hh in Ed. simpl in Ed. bool_prop. lia. }
  intros [= <- <-]. apply inv_prune; [|done].
  destruct I as [W S B O A N V U]. unfold reserved in *.
  case_match eqn:Ec; constructor; unfold reserved; simpl; try done.
  all: try (rewrite sum_with_app; simpl; lia).
  all: try (apply window_add_original; [done|lia|lia]).
  - clear Ed. bool_prop. by eapply book_original.
  - eapply book_grow; [done|]. intros Hh. specialize (Hlast Hh). lia.
Qed.

Lemma inv_candidate n v b a c : rescue_inv n v b a -> rescue_inv n v (b <| rb_nextCandidate := c |>) a.
Proof. intros []. by constructor. Qed.

Lemma inv_open n v b a e p base burst c el record :
  rescue_inv n v b a -> v + p < 2 ^ 64 -> n + 1 < 2 ^ 64 ->
  rb_records b !! re_Sequence e = Some record ->
  rr_pendingByEpoch record !! evidence_key e = None ->
  0 <= base -> 0 <= burst -> base + burst = p ->
  rb_burstCommitted b + rb_burstReserved b + burst <= rf_BurstBytes (rb_config b) ->
  let b' := open_reservation e p base burst c el record b in
  rescue_inv (n + 1) (v + p) b'
    (a <| ac_open ::= <[rb_nextReservation b' :=
       MkOpen (re_Sequence e) (evidence_key e) (re_TargetLeg e) p false]> |>).
Proof.
  intros I Hv Hn Hrec Hpend H1 H2 H3 H4. pose proof (inv_totals _ _ _ _ I).
  pose proof (inv_open_lookup _ _ _ _ (rb_nextReservation b + 1) I) as Ho.
  assert (rb_reservations b !! (rb_nextReservation b + 1) = None) as Hfresh.
  { destruct (rb_reservations b !! _) as [r|] eqn:E; [|done].
    destruct (bk_res _ _ _ _ _ _ _ (ri_book _ _ _ _ I) _ _ E) as (_ & ? & _). lia. }
  rewrite Hfresh in Ho. simpl in Ho.
  pose proof (sums_range _ _ _ _ _ (ri_sums _ _ _ _ I)).
  destruct I as [W S B O A N V U]. unfold reserved in *. cbv zeta. unfold open_reservation.
  rewrite (u64_small (rb_nextReservation b + 1)) by (unfold is_u64; lia).
  set (r := MkReservation _ _ _ _ _ _ _ _ _ _ _ _ _ _ _ _ _ _).
  constructor; unfold reserved; simpl; try done.
  - apply (sums_open _ _ _ _ _ S _ r); simpl; try done; lia.
  - apply (book_open _ _ _ _ _ _ _ B r); try done. lia.
  - by rewrite fmap_insert, O.
  - lia.
  - rewrite map_sum_insert by done. simpl. lia.
Qed.

Lemma prune_window_ext t b b' :
  rb_originalEvents b' = rb_originalEvents b -> rb_windowOriginal b' = rb_windowOriginal b ->
  rb_acceptedEvents b' = rb_acceptedEvents b -> rb_windowAccepted b' = rb_windowAccepted b ->
  rb_acceptedByLeg b' = rb_acceptedByLeg b ->
  rb_windowOriginal (pruneLocked t b') = rb_windowOriginal (pruneLocked t b) /\
  rb_windowAccepted (pruneLocked t b') = rb_windowAccepted (pruneLocked t b).
Proof.
  intros E1 E2 E3 E4 E5. unfold pruneLocked. rewrite E1, E2, E3, E4, E5.
  by destruct (prune_original _ _ _), (prune_accepted _ _ _ _ _) as [[? ?] ?].
Qed.
Lemma prune_other t b :
  rb_config (pruneLocked t b) = rb_config b /\
  rb_nextReservation (pruneLocked t b) = rb_nextReservation b /\
  rb_records (pruneLocked t b) = rb_records b.
Proof.
  unfold pruneLocked.
  by destruct (prune_original _ _ _), (prune_accepted _ _ _ _ _) as [[? ?] ?].
Qed.

(** [Reserve] either leaves the account alone, or opens a reservation for the payload
    it could split, in the window brought up to date. *)
Definition admitted (d : boundedRescueAdmission) : bool := ad_Admitted d && negb (ad_Exempt d).

#[local] Ltac quiet K := intros [= <- <- <-]; left; (split; [done|]); (split; [done|]); intros; repeat apply inv_stats; by apply K.
Lemma Reserve_spec e p t b d evs b' :
  Reserve e p t b = (d, evs, b') ->
  (admitted d = false /\ rb_config b' = rb_config b /\
   forall n v a, rescue_inv n v b a -> t <= ac_latest a -> rescue_inv n v b' a) \/
  (admitted d = true /\ p <> 0 /\
   exists b0 record base burst c el,
     (forall n v a, rescue_inv n v b a -> t <= ac_latest a -> rescue_inv n v b0 a) /\
     rb_config b0 = rb_config b /\ rb_nextReservation b0 = rb_nextReservation b /\
     rb_windowOriginal b0 = rb_windowOriginal (pruneLocked t b) /\
     rb_windowAccepted b0 = rb_windowAccepted (pruneLocked t b) /\
     rb_ackedNext b <= re_Sequence e /\
     rb_records b0 !! re_Sequence e = Some record /\
     rr_pendingByEpoch record !! evidence_key e = None /\
     split_payload b0 p = Some (base, burst) /\
     b' = open_reservation e p base burst c el record b0 /\
     ad_ReservationID d = rb_nextReservation b').
Proof.
  unfold Reserve. cbv zeta. set (c := succ64 (rb_nextCandidate b)).
  set (b1 := (b <| rb_nextCandidate := c |>) <| rb_stats ::= update bs_CandidateCount succ64 |>).
  set (b2 := if rb_eventHook b1 then link_candidate (re_Sequence e) c b1 else b1).
  generalize (if rb_eventHook b1 then eligibilityLocked b1 e p t (ClassifyStreamRescue e)
              else no_eligibility) as el. intros el.
  assert (K2 : forall n v a, rescue_inv n v b a -> rescue_inv n v b2 a).
  { intros n v a I. subst b2 b1. case_match; [apply inv_link|]; by apply inv_stats, inv_candidate. }
  assert (F2 : rb_config b2 = rb_config b /\ rb_nextReservation b2 = rb_nextReservation b /\
    rb_originalEvents b2 = rb_originalEvents b /\ rb_windowOriginal b2 = rb_windowOriginal b /\
    rb_acceptedEvents b2 = rb_acceptedEvents b /\ rb_windowAccepted b2 = rb_windowAccepted b /\
    rb_acceptedByLeg b2 = rb_acceptedByLeg b /\ rb_ackedNext b2 = rb_ackedNext b).
  { subst b2 b1. unfold link_candidate. by repeat case_match. }
  generalize (rescue_event t (rb_sessionID b2) "" e (ClassifyStreamRescue e) 0 p "" "") as ev0.
  clearbody b2. clear b1. intros ev0. destruct F2 as (C1 & C2 & C3 & C4 & C5 & C6 & C7 & C8).
  destruct (rb_closed b2); [quiet K2|].
  case_bool_decide; [quiet K2|]. case_bool_decide; [quiet K2|]. case_bool_decide; [quiet K2|].
  destruct (bool_decide_reflect (re_Sequence e < rb_ackedNext (b2 <| rb_stats ::= update bs_EligibleCount succ64 |>)))
    as [|Hack]; [quiet K2|]. simpl in Hack.
  destruct (rb_records (b2 <| rb_stats ::= update bs_EligibleCount succ64 |>) !! re_Sequence e)
    as [record|] eqn:Hrec; [|quiet K2]. simpl in Hrec.
  destruct (rr_acked record); [quiet K2|].
  match goal with |- context [negb ?x && ?y] => destruct (negb x && y) end; [quiet K2|].
  destruct (bool_decide_reflect (is_Some (rr_pendingByEpoch record !! evidence_key e))) as [|Hpend].
  { case_match; quiet K2. }
  case_bool_decide as Hp0; [quiet K2|].
  set (b3 := pruneLocked t _).
  assert (K3 : forall n v a, rescue_inv n v b2 a -> t <= ac_latest a -> rescue_inv n v b3 a).
  { intros. subst b3. apply inv_prune; [|done]. by apply inv_stats. }
  destruct (prune_other t (b2 <| rb_stats ::= update bs_EligibleCount succ64 |>)) as (E1 & E2 & E3).
  destruct (prune_window_ext t b (b2 <| rb_stats ::= update bs_EligibleCount succ64 |>)) as [E4 E5]; try done.
  fold b3 in E1, E2, E3, E4, E5. simpl in E1, E2, E3. clearbody b3.
  destruct (split_payload b3 p) as [[base burst]|] eqn:Hs.
  - intros [= <- <- <-]. right. split; [done|]. split; [done|].
    exists b3, record, base, burst, c, el. split; [auto|]. split; [congruence|]. split; [congruence|].
    split; [done|]. split; [done|]. split; [lia|]. split; [by rewrite E3|].
    split; [|done]. by apply eq_None_not_Some.
  - intros [= <- <- <-]. left. split; [done|]. split; [simpl; congruence|]. intros. repeat apply inv_stats. auto.
Qed.

Lemma inv_reserve n v b a e p t d evs b' :
  rescue_inv n v b a -> is_u64 p -> t <= ac_latest a -> v + p < 2 ^ 64 -> n + 1 < 2 ^ 64 ->
  Reserve e p t b = (d, evs, b') ->
  rescue_inv (n + 1) (v + p) b'
    (if admitted d then a <| ac_open ::= <[ad_ReservationID d :=
         MkOpen (re_Sequence e) (evidence_key e) (re_TargetLeg e) p false]> |> else a).
Proof.
  intros I Hp Ht Hv Hn [(-> & _ & H)|(-> & Hp0 & b0 & record & base & burst & c & el & K & _ & _ & _ & _ & _ & Hrec & Hpend & Hs & -> & ->)]%Reserve_spec.
  - unfold is_u64 in Hp. destruct (H _ _ _ I Ht). constructor; try done; lia.
  - unfold is_u64 in Hp. specialize (K _ _ _ I Ht).
    destruct (split_payload_spec _ _ _ _ p _ _ K ltac:(lia) ltac:(lia) Hs) as (? & ? & ? & ? & _).
    by apply inv_open.
Qed.

Lemma inv_drop n v b a id :
  rescue_inv n v b a ->
  ac_drop id a = match rb_reservations b !! id with
                 | Some r => if rs_started r then a else a <| ac_open ::= delete id |>
                 | None => a end.
Proof.
  intros I. unfold ac_drop. rewrite (inv_open_lookup _ _ _ _ _ I).
  by destruct (rb_reservations b !! id).
Qed.

#[local] Ltac released I Hr := intros [= <- <- <-]; (split; [|done]); by eapply inv_release.
Lemma inv_begin n v b a id t ok ev b' :
  rescue_inv n v b a -> beginWriteDeferred id t b = (ok, ev, b') ->
  rescue_inv n v b' (if ok then ac_begin id a else ac_drop id a) /\
  (ok = true -> exists o, ac_open a !! id = Some o /\ ac_acked a <= or_seq o).
Proof.
  intros I. unfold ac_begin. rewrite (inv_drop _ _ _ _ _ I), (inv_open_lookup _ _ _ _ _ I).
  unfold beginWriteDeferred. case_bool_decide as H0.
  { intros [= <- <- <-]. destruct (rb_reservations b !! id) as [r|] eqn:Hr; [|done].
    destruct (inv_id _ _ _ _ _ _ I Hr). lia. }
  destruct (rb_reservations b !! id) as [r|] eqn:Hr; [|by intros [= <- <- <-]].
  destruct (rs_started r) eqn:Hst.
  { rewrite andb_false_r. by intros [= <- <- <-]. }
  destruct (rb_closed b); [released I Hr|]. simpl.
  case_bool_decide as Hack; [released I Hr|].
  destruct (rb_records b !! rs_seq r) as [record|] eqn:Hrec; [|released I Hr].
  destruct (rr_acked record) eqn:Ha; [released I Hr|].
  match goal with |- context [bool_decide ?x && ?y] => destruct (bool_decide x && y) eqn:Hu end;
    [released I Hr|].
  intros [= <- <- <-]. destruct (inv_id _ _ _ _ _ _ I Hr) as [E _]. simpl.
  pose proof (inv_open_lookup _ _ _ _ id I) as Ho. rewrite Hr in Ho. simpl in Ho.
  split; [|intros _; eexists; split; [done|]; simpl; rewrite <- (ri_acked _ _ _ _ I); lia].
  pose proof (reserved_eq _ _ _ _ I) as Er.
  destruct I as [W S B O A N V U]. rewrite E. rewrite <- E in Hr.
  constructor; unfold reserved; simpl; try done.
  - rewrite <- E. by eapply sums_update.
  - rewrite <- E. eapply book_start; try done. lia.
  - by rewrite fmap_insert, O.
  - rewrite (map_sum_update _ _ _ _ _ Ho). simpl. unfold reserved in V. lia.
  - intros Hm. specialize (U Hm). apply NoDup_app. split; [done|].
    split; [|apply NoDup_singleton]. intros x Hx ->%list_elem_of_singleton.
    destruct (bk_rec _ _ _ _ _ _ _ B _ _ Hrec) as [_ [_ _ _ _ Hused]].
    apply Hused in Hx. rewrite bool_decide_eq_true_2 in Hu by done. simpl in Hu.
    unfold mode_is in Hu. bool_prop. done.
Qed.

Lemma inv_revalidate n v b a id e t class id' ok evs b' :
  rescue_inv n v b a -> RevalidateBeforeWrite id e t b = (class, id', ok, evs, b') ->
  rescue_inv n v b' (if bool_decide (id' = id) then a else ac_drop id a).
Proof.
  intros I. rewrite (inv_drop _ _ _ _ _ I). unfold RevalidateBeforeWrite. case_bool_decide as H0.
  { intros [= <- <- <- <- <-]. subst id. by rewrite bool_decide_eq_true_2. }
  destruct (rb_reservations b !! id) as [r|] eqn:Hr.
  2:{ intros [= <- <- <- <- <-]. by case_bool_decide. }
  destruct (rs_started r) eqn:Hst.
  { intros [= <- <- <- <- <-]. by case_bool_decide. }
  assert (D : bool_decide (0 = id) = false) by (by apply bool_decide_eq_false_2; intros <-).
  destruct (rb_closed b); simpl.
  { intros [= <- <- <- <- <-]. rewrite D. by eapply inv_release. }
  match goal with |- context [bool_decide ?x || bool_decide ?y] =>
    destruct (bool_decide x || bool_decide y) end.
  { intros [= <- <- <- <- <-]. rewrite D. eapply inv_end; [|done]. case_match; by apply inv_stats. }
  match goal with |- context [bool_decide ?x && same_candidate r e] =>
    destruct (bool_decide x && same_candidate r e) end; intros [= <- <- <- <- <-].
  - by rewrite bool_decide_eq_true_2.
  - rewrite D. by eapply inv_release.
Qed.

(** Charging the accepted bytes and ending the reservation. *)
Lemma inv_charge n v b a id r acc t f x :
  rescue_inv n v b a -> v < 2 ^ 64 -> rb_reservations b !! id = Some r -> 0 <= acc <= rs_bytes r ->
  (forall record, rr_acked (f record) = rr_acked record /\
     rr_pendingByEpoch (f record) = rr_pendingByEpoch record /\
     rr_usedByEpoch (f record) = rr_usedByEpoch record) ->
  rescue_inv n v
    (end_reservation r x ((charge r acc t b) <| rb_records ::= alter f (rs_seq r) |>))
    (let a := a <| ac_open ::= delete id |> in
     if bool_decide (acc = 0) then a
     else a <| ac_charged ::= fun l => l ++ [MkByteEvent t acc (rs_target r)] |>).
Proof.
  intros I Hv Hr Hacc Hf. unfold charge. case_bool_decide as H0.
  { eapply inv_end; [by apply inv_touch|done]. }
  destruct (inv_id _ _ _ _ _ _ I Hr) as [E _]. pose proof (inv_bytes _ _ _ _ _ _ I Hr).
  pose proof (reserved_delete _ _ _ _ _ _ I Hr) as Ed. pose proof (inv_totals _ _ _ _ I).
  assert (rs_bytes r <= reserved a).
  { rewrite (reserved_eq _ _ _ _ I). eapply (map_sum_ge rs_bytes); [|done].
    intros j r' Hj. pose proof (inv_bytes _ _ _ _ _ _ I Hj). lia. }
  destruct I as [W S B O A N V U]. unfold end_reservation. rewrite clear_pending_eq. rewrite E.
  rewrite <- E in Hr. unfold reserved in *. constructor; unfold reserved; simpl in *; try done.
  - apply window_add_charged; [done|lia|]. lia.
  - eapply sums_end in S; [|exact Hr|]; [by rewrite E in S|]. repeat case_bool_decide; lia.
  - eapply book_end in Hr; [by rewrite E in Hr|]. by apply book_touch.
  - by rewrite <- O, fmap_delete.
  - rewrite sum_with_app. simpl. lia.
Qed.

Lemma inv_settle n v b a id acc err t res evs b' :
  rescue_inv n v b a -> v < 2 ^ 64 -> is_u64 acc -> t <= ac_latest a ->
  Settle id acc err t b = (res, evs, b') ->
  rescue_inv n v b' (ac_settle id acc t a).
Proof.
  intros I Hv Hacc Ht. unfold ac_settle.
  rewrite (inv_open_lookup _ _ _ _ _ I). unfold Settle. case_bool_decide as H0.
  { intros [= <- <- <-]. destruct (rb_reservations b !! id) as [r|] eqn:Hr; [|done].
    destruct (inv_id _ _ _ _ _ _ I Hr). lia. }
  destruct (rb_reservations b !! id) as [r|] eqn:Hr; [|by intros [= <- <- <-]]. simpl.
  destruct (rs_started r); simpl; [|by intros [= <- <- <-]].
  intros [= <- <- <-]. unfold is_u64 in Hacc. pose proof (inv_bytes _ _ _ _ _ _ I Hr).
  match goal with |- context [charge r ?acc' t ?b0] => set (acc1 := acc'); set (b1 := b0) end.
  assert (acc1 = acc `min` rs_bytes r) as Ea by (subst acc1; case_bool_decide; lia).
  rewrite <- Ea. apply inv_prune; [|by case_bool_decide].
  apply inv_charge; [|done| |lia|done].
  - subst b1. case_bool_decide; [by apply inv_stats|done].
  - subst b1. by case_bool_decide.
Qed.

Lemma inv_ack n v b a next t evs b' :
  rescue_inv n v b a -> AckThrough next t b = (evs, b') ->
  rescue_inv n v b' (a <| ac_acked ::= Z.max next |>).
Proof.
  intros [W S B O A N V U] [= <- <-].
  case_bool_decide as Hn; constructor; simpl; try done.
  all: try (eapply book_ack; [done|lia]); try lia.
Qed.

Lemma rescue_step_inv n v b a op res b' :
  rescue_inv n v b a -> rop_wf op -> n + 1 < 2 ^ 64 -> v + rop_volume op < 2 ^ 64 ->
  rescue_exec b op = (res, b') ->
  rescue_inv (n + 1) (v + rop_volume op) b' (account_step a (op, res)).
Proof.
  intros I Hwf Hn Hv Hx.
  assert (It : forall v', v <= v' -> rescue_inv n v' b
    (a <| ac_latest ::= fun l => from_option (Z.max l) l (rop_time op) |>)).
  { intros v' Hv'. by eapply inv_later; [exact I|lia|]. }
  assert (Ht : forall t, rop_time op = Some t ->
    t <= ac_latest (a <| ac_latest ::= fun l => from_option (Z.max l) l (rop_time op) |>)).
  { intros t E. simpl. rewrite E. simpl. lia. }
  assert (Hup : forall v' b' a', rescue_inv n v' b' a' -> rescue_inv (n + 1) v' b' a').
  { intros v' b'' a' []. constructor; try done. lia. }
  unfold account_step. cbn [fst]. set (a1 := update ac_latest _ a) in *.
  destruct op as [s x t|e p t|id t|id e t|id x err t|id reason t|next t|t|]; cbn [rop_time] in *;
    simpl in Hwf, Hv; cbn [rop_volume]; rewrite ?Z.add_0_r in *; simpl in Hx.
  - destruct (RecordOriginal s x t b) as [ok b1] eqn:E. injection Hx as <- <-. apply Hup.
    pose proof (inv_original _ _ _ _ _ _ _ _ _ (It v ltac:(lia)) Hwf (Ht _ eq_refl) Hv E).
    by destruct ok.
  - destruct (Reserve e p t b) as [[d evs] b1] eqn:E. injection Hx as <- <-.
    exact (inv_reserve _ _ _ _ _ _ _ _ _ _ (It v ltac:(lia)) Hwf (Ht _ eq_refl) Hv Hn E).
  - unfold BeginWrite in Hx. destruct (beginWriteDeferred id t b) as [[ok ev] b1] eqn:E.
    injection Hx as <- <-. apply Hup. exact (proj1 (inv_begin _ _ _ _ _ _ _ _ _ (It v ltac:(lia)) E)).
  - destruct (RevalidateBeforeWrite id e t b) as [[[[class id'] ok] evs] b1] eqn:E.
    injection Hx as <- <-. apply Hup. exact (inv_revalidate _ _ _ _ _ _ _ _ _ _ _ _ (It v ltac:(lia)) E).
  - destruct (Settle id x err t b) as [[r evs] b1] eqn:E. injection Hx as <- <-. apply Hup.
    exact (inv_settle _ _ _ _ _ _ _ _ _ _ _ (It v ltac:(lia)) Hv Hwf (Ht _ eq_refl) E).
  - unfold Release in Hx. pose proof (It v ltac:(lia)) as I1. apply Hup.
    case_bool_decide as H0; [injection Hx as <- <-; rewrite (inv_drop _ _ _ _ _ I1)|].
    { destruct (rb_reservations b !! id) as [r|] eqn:Hr; [|done].
      destruct (inv_id _ _ _ _ _ _ I1 Hr). lia. }
    destruct (rb_reservations b !! id) as [r|] eqn:Hr; [|by injection Hx as <- <-].
    destruct (rs_started r) eqn:Hst; injection Hx as <- <-; [done|].
    rewrite (inv_drop _ _ _ _ _ I1), Hr, Hst. by eapply inv_release.
  - injection Hx as <- <-. apply Hup. by eapply (inv_ack _ _ _ _ next t); [apply It; lia|].
  - injection Hx as <- <-. apply Hup. apply inv_prune; [apply It; lia|by apply Ht].
  - injection Hx as <- <-. apply Hup. unfold rescue_Close. apply inv_stats.
    destruct (It v ltac:(lia)). by constructor.
Qed.

Definition run_volume (ops : list rescue_op) : Z := sum_with rop_volume ops.

Lemma rescue_run_inv ops n v b a log b' :
  rescue_inv n v b a -> Forall rop_wf ops -> n + Z.of_nat (length ops) < 2 ^ 64 ->
  v + run_volume ops < 2 ^ 64 -> rescue_run ops b = (log, b') ->
  rescue_inv (n + Z.of_nat (length ops)) (v + run_volume ops) b' (foldl account_step a log).
Proof.
  revert n v b a log. induction ops as [|op ops IH]; intros n v b a log I Hwf Hn Hv.
  { intros [= <- <-]. unfold run_volume. simpl. by rewrite !Z.add_0_r. }
  simpl. destruct (rescue_exec b op) as [res b1] eqn:Ex.
  destruct (rescue_run ops b1) as [log1 b2] eqn:Er. intros [= <- <-].
  apply Forall_cons in Hwf as [Hop Hwf]. unfold run_volume in *. simpl in *.
  assert (0 <= rop_volume op) by (destruct op; simpl in *; unfold is_u64 in *; lia).
  assert (0 <= sum_with rop_volume ops).
  { apply sum_with_nonneg. intros x Hx. rewrite Forall_forall in Hwf. specialize (Hwf x Hx).
    destruct x; simpl in *; unfold is_u64 in *; lia. }
  pose proof (rescue_step_inv _ _ _ _ _ _ _ I Hop ltac:(lia) ltac:(lia) Ex) as I1.
  pose proof (IH _ _ _ _ _ I1 Hwf ltac:(lia) ltac:(lia) Er) as I2.
  replace (n + Z.of_nat (S (length ops))) with (n + 1 + Z.of_nat (length ops)) by lia.
  rewrite (Z.add_assoc v). exact I2.
Qed.

Lemma new_budget_inv cfg chunk session hook b start :
  newStreamBoundedRescueBudget cfg chunk session hook = Some b ->
  0 <= rf_BurstBytes cfg < 2 ^ 64 ->
  rescue_inv 0 0 b (new_account start) /\ rb_config b = cfg /\
    validBoundedRescueBasisPoints (rf_BudgetBasisPoints cfg) = true.
Proof.
  intros Hb Hburst. unfold newStreamBoundedRescueBudget in Hb. repeat case_match; try done.
  apply (inj Some) in Hb as <-. bool_prop. split; [|done]. constructor; simpl; try done.
  - constructor; try done; try (by exists []; split; [|set_solver]).
    split; intros ev Hev; set_solver.
  - constructor; rewrite ?map_sum_empty; try done. set_solver.
  - intros _. constructor.
Qed.
