(* ===== verification/RescueSafe.v ===== *)
(** * Bounded rescue: the theorems

    Over any sequence of calls: the budget holds, a record is rescued once per epoch
    and never after its acknowledgement, the snapshot reports the abstract account,
    and the observer's view of the budget is the one [Reserve] applies. *)

From S2P Require Import Prelude Rescue RescueInv.
From stdpp Require Import options.
#[local] Open Scope Z_scope.

(** A run of a new budget, with the hypotheses every theorem shares: sizes are 64-bit,
    and neither the number of calls nor the bytes they name reach 2^64. *)
Record rescue_history (cfg : StreamBoundedRescueConfig) (start : time)
    (log : list (rescue_op * rescue_result)) (b : streamBoundedRescueBudget) : Prop := {
  rh_burst : is_u64 (rf_BurstBytes cfg);
  rh_run : exists chunk session hook b0 ops,
    newStreamBoundedRescueBudget cfg chunk session hook = Some b0 /\
    rescue_run ops b0 = (log, b);
  rh_wf : Forall (fun call => rop_wf call.1) log;
  rh_length : Z.of_nat (length log) + 1 < 2 ^ 64;
  rh_volume : run_volume log.*1 < 2 ^ 64
}.

(** The application's bytes are recorded in the order of their times: one loop records
    them. *)
Definition originals_in_order (a : rescue_account) : Prop :=
  StronglySorted (fun x y => be_at x <= be_at y) (ac_originals a).

Lemma rescue_run_ops ops b log b' : rescue_run ops b = (log, b') -> log.*1 = ops.
Proof.
  revert b log. induction ops as [|op ops IH]; intros b log; simpl; [by intros [= <- <-]|].
  destruct (rescue_exec b op) as [res b1]. destruct (rescue_run ops b1) as [l b2] eqn:E.
  intros [= <- <-]. simpl. f_equal. eauto.
Qed.

(** No call changes the configuration. *)
Lemma prune_config t b : rb_config (pruneLocked t b) = rb_config b.
Proof. apply prune_other. Qed.
Lemma end_config r x b : rb_config (end_reservation r x b) = rb_config b.
Proof. unfold end_reservation. by rewrite clear_pending_eq. Qed.
Lemma reject_config reason b : rb_config (rejectReasonLocked reason b) = rb_config b.
Proof. done. Qed.
Lemma release_config r reason b : rb_config (releaseLocked r reason b) = rb_config b.
Proof.
  unfold releaseLocked. case_match; [done|].
  by rewrite reject_config, end_config.
Qed.
Lemma reserve_config e p t b d evs b' : Reserve e p t b = (d, evs, b') -> rb_config b' = rb_config b.
Proof.
  intros [(_ & ? & _)|(_ & _ & b0 & rec & base & burst & c & el & _ & Hc & _ & _ & _ & _ & _ & _ & _ & -> & _)]%Reserve_spec;
    done.
Qed.
Lemma rescue_exec_config b op res b' : rescue_exec b op = (res, b') -> rb_config b' = rb_config b.
Proof.
  destruct op; simpl.
  - destruct (RecordOriginal _ _ _ _) as [ok b1] eqn:E. intros [= <- <-]. revert E. unfold RecordOriginal.
    repeat (case_match; try (by intros [= <- <-])); intros [= <- <-]; by rewrite prune_config.
  - destruct (Reserve _ _ _ _) as [[d evs] b1] eqn:E. intros [= <- <-]. by eapply reserve_config.
  - unfold BeginWrite, beginWriteDeferred.
    repeat (case_match; try (by intros [= <- <-])); intros [= <- <-]; simplify_eq; rewrite ?release_config; try done.
    match goal with H : start_write _ _ _ = _ |- _ => by injection H as <- <- end.
  - unfold RevalidateBeforeWrite.
    repeat case_match; intros [= <- <-]; simplify_eq; rewrite ?release_config, ?end_config; done.
  - unfold Settle, charge.
    repeat case_match; intros [= <- <-]; simplify_eq; rewrite ?prune_config, ?end_config; done.
  - unfold Release. repeat case_match; intros [= <- <-]; simplify_eq; rewrite ?release_config; done.
  - intros [= <- <-]. simpl. by case_match.
  - intros [= <- <-]. apply prune_config.
  - by intros [= <- <-].
Qed.
Lemma rescue_run_config ops b log b' : rescue_run ops b = (log, b') -> rb_config b' = rb_config b.
Proof.
  revert b log. induction ops as [|op ops IH]; intros b log; simpl; [by intros [= <- <-]|].
  destruct (rescue_exec b op) as [res b1] eqn:E. destruct (rescue_run ops b1) as [l b2] eqn:E'.
  intros [= <- <-]. rewrite (IH _ _ E'). by eapply rescue_exec_config.
Qed.

Lemma history_inv cfg start log b :
  rescue_history cfg start log b ->
  rescue_inv (Z.of_nat (length log)) (run_volume log.*1) b (account start log) /\
  rb_config b = cfg /\ 0 <= rf_BudgetBasisPoints cfg <= 10000.
Proof.
  intros [Hu (chunk & session & hook & b0 & ops & Hnew & Hrun) Hwf Hlen Hvol].
  pose proof (rescue_run_ops _ _ _ _ Hrun) as <-.
  destruct (new_budget_inv _ _ _ _ _ start Hnew Hu) as (I0 & Hcfg & Hbp).
  split_and!.
  - pose proof (rescue_run_inv log.*1 0 0 _ _ log b I0 (proj2 (Forall_fmap _ _ _) Hwf)) as H.
    rewrite length_fmap in H. by apply H; [lia|lia|].
  - by rewrite (rescue_run_config _ _ _ _ Hrun).
  - unfold validBoundedRescueBasisPoints in Hbp. bool_prop. set_unfold in Hbp. lia.
  - unfold validBoundedRescueBasisPoints in Hbp. bool_prop. set_unfold in Hbp. lia.
Qed.

(** *** Windows *)

Lemma bytes_since_app cutoff l1 l2 :
  bytes_since cutoff (l1 ++ l2) = bytes_since cutoff l1 + bytes_since cutoff l2.
Proof. unfold bytes_since. by rewrite List.filter_app, sum_with_app. Qed.
#[local] Instance bytes_since_perm cutoff : Proper (Permutation ==> eq) (bytes_since cutoff).
Proof.
  intros l1 l2 H. unfold bytes_since. rewrite !sum_with_filter. by rewrite H.
Qed.
Lemma bytes_since_old cutoff l : (forall ev, ev ∈ l -> be_at ev <= cutoff) -> bytes_since cutoff l = 0.
Proof.
  intros H. unfold bytes_since. rewrite sum_with_filter. rewrite (sum_with_ext _ (fun _ => 0)).
  - clear H. induction l; simpl; lia.
  - intros ev Hev. unfold after. rewrite bool_decide_eq_false_2; [done|]. specialize (H ev Hev). lia.
Qed.
Lemma bytes_since_new cutoff l : (forall ev, ev ∈ l -> cutoff < be_at ev) -> bytes_since cutoff l = total l.
Proof.
  intros H. unfold bytes_since. rewrite sum_with_filter. apply sum_with_ext.
  intros ev Hev. unfold after. rewrite bool_decide_eq_true_2; [done|]. by apply H.
Qed.
Lemma bytes_since_range cutoff l : sized l -> 0 <= bytes_since cutoff l <= total l.
Proof.
  intros Hs. unfold bytes_since. rewrite sum_with_filter. split.
  - apply sum_with_nonneg. intros ev Hev. case_match; [by apply Hs|done].
  - induction l as [|ev l IH]; simpl; [done|]. pose proof (Hs ev ltac:(left)).
    specialize (IH ltac:(intros x Hx; apply Hs; by right)). case_match; lia.
Qed.

Lemma sorted_app_r {A} (R : A -> A -> Prop) l1 l2 : StronglySorted R (l1 ++ l2) -> StronglySorted R l2.
Proof. induction l1; simpl; [done|]. by intros [? _]%StronglySorted_inv; auto. Qed.
Lemma sorted_head cutoff l :
  StronglySorted (fun x y => be_at x <= be_at y) l ->
  (forall ev, head l = Some ev -> cutoff < be_at ev) -> forall ev, ev ∈ l -> cutoff < be_at ev.
Proof.
  intros [|x l' Hl Hx] Hh ev Hev; [set_solver|]. specialize (Hh x eq_refl).
  apply elem_of_cons in Hev as [->|Hev]; [done|].
  rewrite Forall_forall in Hx. specialize (Hx ev Hev). lia.
Qed.

(** The window after it was brought up to date at [t]. *)
Lemma pruned_window n v b a t :
  rescue_inv n v b a -> t <= ac_latest a -> originals_in_order a ->
  let b' := pruneLocked t b in
  let cutoff := t - streamBoundedRescueWindow in
  rb_windowOriginal b' <= bytes_since cutoff (ac_originals a) /\
  bytes_since (ac_latest a - streamBoundedRescueWindow) (ac_charged a) <= rb_windowAccepted b' /\
  (forall ev, ev ∈ rb_originalEvents b' -> cutoff < be_at ev) /\
  (forall ev, ev ∈ rb_acceptedEvents b' -> cutoff < be_at ev).
Proof.
  intros I Ht Ho. unfold originals_in_order in Ho.
  pose proof (window_prune _ _ _ _ _ _ _ _ (ri_window _ _ _ _ I) t Ht) as Hp.
  cbv zeta. unfold pruneLocked. cbv zeta in Hp.
  destruct (prune_original _ _ _) as [os wO]. destruct (prune_accepted _ _ _ _ _) as [[acc wA] legs].
  destruct Hp as (W & _ & Hos & Hacc). simpl. unfold time_add in *.
  destruct W as [-> -> _ _ [Hs1 Hs2] (d1 & E1 & H1) (d2 & E2 & H2)].
  assert (forall ev, ev ∈ os -> t - streamBoundedRescueWindow < be_at ev) as Hnew.
  { apply sorted_head; [|done]. rewrite E1 in Ho. by eapply sorted_app_r. }
  split_and!.
  - rewrite E1, bytes_since_app, (bytes_since_new _ os) by done.
    pose proof (bytes_since_range (t - streamBoundedRescueWindow) d1
      ltac:(intros ev Hev; apply Hs1; rewrite E1; set_solver)). lia.
  - rewrite E2, bytes_since_app, (bytes_since_old _ d2) by done.
    pose proof (bytes_since_range (ac_latest a - streamBoundedRescueWindow) acc
      ltac:(intros ev Hev; apply Hs2; rewrite E2; set_solver)). lia.
  - done.
  - done.
Qed.

Lemma reserved_insert_le a id o :
  (forall j o', ac_open a !! j = Some o' -> 0 <= or_bytes o') ->
  reserved (a <| ac_open ::= <[id := o]> |>) <= reserved a + or_bytes o.
Proof.
  intros H. unfold reserved. simpl. destruct (ac_open a !! id) as [o'|] eqn:E.
  - rewrite (map_sum_update _ _ _ _ _ E). specialize (H _ _ E). lia.
  - rewrite map_sum_insert by done. lia.
Qed.

Lemma inv_open_nonneg n v b a : rescue_inv n v b a ->
  forall j o, ac_open a !! j = Some o -> 0 <= or_bytes o.
Proof.
  intros I j o. rewrite (inv_open_lookup _ _ _ _ _ I). destruct (rb_reservations b !! j) as [r|] eqn:E; [|done].
  intros [= <-]. pose proof (inv_bytes _ _ _ _ _ _ I E). simpl. lia.
Qed.

(** C9. The budget holds.  Whenever a rescue is admitted, the rescue bytes that carriers
    accepted in the last 60 seconds, together with everything that is reserved (the new
    rescue included), are at most the configured share of the application bytes of the
    last 60 seconds, plus the burst.  The calls may come with clock readings out of
    order: the accepted bytes are then those since 60 seconds before the latest. *)
Theorem rescue_budget_bound cfg start log b e p t d evs b' :
  rescue_history cfg start log b -> originals_in_order (account start log) ->
  rf_factorMode cfg = boundedRescueFactorFull ->
  is_u64 p -> run_volume log.*1 + p < 2 ^ 64 ->
  Reserve e p t b = (d, evs, b') -> ad_Admitted d = true -> ad_Exempt d = false ->
  let a := account start (log ++ [(rop_reserve e p t, res_reserve d)]) in
  bytes_since (ac_latest a - streamBoundedRescueWindow) (ac_charged a) + reserved a <=
  bytes_since (t - streamBoundedRescueWindow) (ac_originals a) * rf_BudgetBasisPoints cfg / 10000
    + rf_BurstBytes cfg.
Proof.
  intros Hh Ho Hmode Hp Hvol HR Had Hex. destruct (history_inv _ _ _ _ Hh) as (I & Hcfg & Hbp).
  cbv zeta. unfold account. rewrite foldl_app. fold (account start log). cbn [foldl].
  set (a0 := account start log) in *. unfold account_step. cbn [fst rop_time]. rewrite Had, Hex. simpl.
  set (a1 := update ac_latest _ a0).
  assert (I1 : rescue_inv (Z.of_nat (length log)) (run_volume log.*1) b a1).
  { apply (inv_later _ _ _ _ _ _ (Some t) I); lia. }
  assert (Ht : t <= ac_latest a1) by (subst a1; simpl; lia).
  apply Reserve_spec in HR as [(Ha & _)|(_ & Hp0 & b0 & rec & base & burst & c & el & K & Hc0 & _ & Ew & Eacc & _ & _ & _ & Hs & -> & Eid)].
  { unfold admitted in Ha. rewrite Had, Hex in Ha. done. }
  specialize (K _ _ _ I1 Ht). unfold is_u64 in Hp.
  destruct (split_payload_spec _ _ _ _ p _ _ K ltac:(lia) ltac:(lia) Hs) as (_ & _ & _ & _ & Hle).
  rewrite Hc0, Hcfg in Hle. specialize (Hle Hmode).
  destruct (pruned_window _ _ _ _ t I1 Ht Ho) as (Hw & Hacc & _). rewrite <- Ew in Hw. rewrite <- Eacc in Hacc.
  pose proof (inv_totals _ _ _ _ K) as (HO & HC & HR & Hsum). pose proof (ri_volume _ _ _ _ K).
  pose proof (window_totals _ _ _ _ _ _ _ _ (ri_window _ _ _ _ K)) as [[? ?] _].
  rewrite boundedRescueRatio_eq in Hle by (unfold is_u64; lia).
  pose proof (Z.div_le_mono (rb_windowOriginal b0 * rf_BudgetBasisPoints cfg)
    (bytes_since (t - streamBoundedRescueWindow) (ac_originals a1) * rf_BudgetBasisPoints cfg) 10000
    ltac:(lia) ltac:(nia)).
  pose proof (reserved_insert_le a1 (ad_ReservationID d)
    (MkOpen (re_Sequence e) (evidence_key e) (re_TargetLeg e) p false) (inv_open_nonneg _ _ _ _ I1)) as Hres.
  simpl in Hres. change (ac_originals a0) with (ac_originals a1). change (ac_charged a0) with (ac_charged a1).
  change (ac_latest a0 `max` t) with (ac_latest a1). lia.
Qed.

(** C10. A rescue is written at most once per record, generation and recovery epoch, over
    the whole life of the budget, and its write is never started once its record has
    been acknowledged.  (The mode without per-record limit keeps only the second.) *)
Theorem rescue_once_per_epoch cfg start log b id t evs b' :
  rescue_history cfg start log b -> BeginWrite id t b = (true, evs, b') ->
  let a := account start log in
  exists o, ac_open a !! id = Some o /\ or_started o = false /\ ac_acked a <= or_seq o /\
    (rf_factorMode cfg <> boundedRescueFactorCOnly ->
     NoDup (ac_started a) /\ (or_seq o, or_key o) ∉ ac_started a).
Proof.
  intros Hh HB. destruct (history_inv _ _ _ _ Hh) as (I & Hcfg & _). cbv zeta.
  unfold BeginWrite in HB. destruct (beginWriteDeferred id t b) as [[ok ev] b1] eqn:E.
  injection HB as -> <- ->. destruct (inv_begin _ _ _ _ _ _ _ _ _ I E) as [I' Ho].
  destruct (Ho eq_refl) as (o & Ho' & Hack). exists o. split; [done|].
  assert (or_started o = false) as Hst.
  { revert Ho' E. rewrite (inv_open_lookup _ _ _ _ _ I). unfold beginWriteDeferred.
    destruct (rb_reservations b !! id) as [r|]; [|done]. intros [= <-]. simpl.
    destruct (rs_started r); [|done]. rewrite andb_false_r. by case_bool_decide. }
  split; [done|]. split; [done|]. intros Hm. rewrite <- Hcfg in Hm.
  split; [exact (ri_once _ _ _ _ I Hm)|].
  assert (rb_config b' = rb_config b) as Ec.
  { apply (rescue_exec_config b (rop_begin id t) (res_begin true)). simpl. unfold BeginWrite.
    by rewrite E. }
  rewrite <- Ec in Hm. pose proof (ri_once _ _ _ _ I' Hm) as Hn. unfold ac_begin in Hn.
  rewrite Ho' in Hn. simpl in Hn. apply NoDup_app in Hn as (_ & Hn & _). intros Hin.
  apply (Hn _ Hin). by apply list_elem_of_singleton.
Qed.

(** The charged bytes of one target leg. *)
Definition leg_bytes_since (cutoff : time) (leg : Z) (l : list rescueByteEvent) : Z :=
  leg_total leg (List.filter (fun ev => after (be_at ev) cutoff) l).

Lemma filter_all cutoff l : (forall ev, ev ∈ l -> cutoff < be_at ev) ->
  List.filter (fun ev => after (be_at ev) cutoff) l = l.
Proof.
  induction l as [|ev l IH]; intros H; simpl; [done|]. unfold after at 1.
  rewrite bool_decide_eq_true_2 by (apply H; left). rewrite IH; [done|]. intros x Hx. apply H. by right.
Qed.
Lemma filter_none cutoff l : (forall ev, ev ∈ l -> be_at ev <= cutoff) ->
  List.filter (fun ev => after (be_at ev) cutoff) l = [].
Proof.
  induction l as [|ev l IH]; intros H; simpl; [done|]. unfold after at 1.
  rewrite bool_decide_eq_false_2 by (specialize (H ev ltac:(left)); lia).
  apply IH. intros x Hx. apply H. by right.
Qed.
Lemma filter_perm (P : rescueByteEvent -> bool) l1 l2 :
  l1 ≡ₚ l2 -> List.filter P l1 ≡ₚ List.filter P l2.
Proof.
  induction 1 as [|x l1 l2 _ IH|x y l|l1 l2 l3 _ IH1 _ IH2]; simpl; repeat case_match;
    rewrite ?IH; try done; [by constructor|by rewrite IH1, IH2].
Qed.

(** When the clock has not run backwards, a snapshot reports the abstract account:
    application and rescue bytes of the last 60 seconds, in total and per target, the
    bytes and the number of open reservations.  The burst is never exceeded, and a
    record is remembered only while it is unacknowledged or has an open reservation. *)
Theorem rescue_snapshot_exact cfg start log b t s b' :
  rescue_history cfg start log b -> originals_in_order (account start log) ->
  let a := account start log in
  let cutoff := t - streamBoundedRescueWindow in
  ac_latest a <= t -> rescue_Snapshot t b = (s, b') ->
  bs_WindowOriginalBytes s = bytes_since cutoff (ac_originals a) /\
  bs_WindowBaseQuotaBytes s =
    bytes_since cutoff (ac_originals a) * rf_BudgetBasisPoints cfg / 10000 /\
  bs_WindowCarrierAcceptedBytes s = bytes_since cutoff (ac_charged a) /\
  bs_AcceptedByTargetLeg s =
    (leg_bytes_since cutoff 0 (ac_charged a), leg_bytes_since cutoff 1 (ac_charged a)) /\
  bs_ReservedBytes s = reserved a /\
  bs_OutstandingReservations s = Z.of_nat (size (ac_open a)) /\
  bs_BurstCommittedBytes s + bs_ReservedBurstBytes s <= rf_BurstBytes cfg /\
  (forall seq record, rb_records b' !! seq = Some record ->
     ac_acked a <= seq \/ exists id o, ac_open a !! id = Some o /\ or_seq o = seq).
Proof.
  intros Hh Ho a cutoff Hlate HS. destruct (history_inv _ _ _ _ Hh) as (I & Hcfg & Hbp).
  fold a in I. pose proof (rh_volume _ _ _ _ Hh) as Hvol.
  assert (exists a1, rescue_inv (Z.of_nat (length log)) (run_volume log.*1) b a1 /\ ac_latest a1 = t /\
    ac_originals a1 = ac_originals a /\ ac_charged a1 = ac_charged a /\ ac_open a1 = ac_open a /\
    ac_acked a1 = ac_acked a) as (a1 & I1 & El & A1 & A2 & A3 & A4).
  { eexists. split; [by apply (inv_later _ _ _ _ _ _ (Some t) I)|]. simpl. split_and!; try done. lia. }
  pose proof (Z.eq_le_incl _ _ (eq_sym El)) as Hle.
  pose proof (inv_prune _ _ _ _ t I1 Hle) as I2.
  destruct (pruned_window _ _ _ _ t I1 Hle) as (_ & _ & Hno & Hna).
  { unfold originals_in_order. by rewrite A1. }
  unfold rescue_Snapshot in HS. destruct (prune_other t b) as (Ec & _ & _).
  set (b1 := pruneLocked t b) in *. clearbody b1. fold cutoff in Hno, Hna.
  destruct (ri_window _ _ _ _ I2) as [EO EA EL _ [Hs1 Hs2] (d1 & E1 & H1) (d2 & E2 & H2)].
  rewrite A1 in E1, Hs1. rewrite A2 in E2, Hs2. rewrite El in H1, H2. fold cutoff in H1, H2.
  assert (WO : rb_windowOriginal b1 = bytes_since cutoff (ac_originals a)).
  { by rewrite EO, E1, bytes_since_app, bytes_since_old, bytes_since_new. }
  assert (WF : List.filter (fun ev => after (be_at ev) cutoff) (ac_charged a) ≡ₚ rb_acceptedEvents b1).
  { rewrite (filter_perm _ _ _ E2), List.filter_app, filter_none, filter_all by done. done. }
  pose proof (inv_totals _ _ _ _ I2) as (? & ? & ? & Hsum). pose proof (ri_volume _ _ _ _ I2).
  pose proof (window_totals _ _ _ _ _ _ _ _ (ri_window _ _ _ _ I2)) as [[? ?] _].
  pose proof (so_committed _ _ _ _ _ (ri_sums _ _ _ _ I2)) as [_ Hburst].
  unfold reserved in *. rewrite A1, A2, A3 in *. rewrite Ec, Hcfg in *.
  assert (Hrec : forall seq record, rb_records b1 !! seq = Some record ->
    ac_acked a <= seq \/ exists id o, ac_open a !! id = Some o /\ or_seq o = seq).
  { intros seq record Hr. destruct (bk_rec _ _ _ _ _ _ _ (ri_book _ _ _ _ I2) _ _ Hr) as [_ R].
    rewrite <- A4, <- (ri_acked _ _ _ _ I2).
    destruct (decide (rb_ackedNext b1 <= seq)); [by left|right].
    assert (rr_acked record = true) as Hk.
    { rewrite (rk_acked _ _ _ _ _ _ R). apply bool_decide_eq_true_2. lia. }
    destruct (map_choose _ (rk_kept _ _ _ _ _ _ R Hk)) as (key & id & Hp).
    destruct (rk_pending _ _ _ _ _ _ R _ _ Hp) as (r & Hr' & Es & _).
    exists id, (open_view r). by rewrite <- A3, (inv_open_lookup _ _ _ _ id I2), Hr'. }
  assert (Hsize : Z.of_nat (size (rb_reservations b1)) = Z.of_nat (size (ac_open a))).
  { by rewrite <- A3, <- (ri_open _ _ _ _ I2), map_size_fmap. }
  injection HS as <- <-. case_match; simpl; split_and!; try done.
  all: try (rewrite boundedRescueRatio_eq by (unfold is_u64; lia); by rewrite WO).
  all: try (rewrite EA; unfold bytes_since; by rewrite WF).
  all: try (rewrite EL; unfold leg_bytes_since, leg_totals, leg_total; by rewrite WF).
  all: try (rewrite saturatingAdd_exact by lia; lia).
  all: lia.
Qed.

Lemma window_sum_eq cutoff l :
  sized l -> total l < 2 ^ 64 -> window_sum cutoff l = bytes_since cutoff l.
Proof.
  intros Hs Ht. unfold window_sum.
  enough (forall acc, 0 <= acc -> acc + total l < 2 ^ 64 ->
    foldl (fun sum ev => if after (be_at ev) cutoff then saturatingAdd sum (be_bytes ev) else sum) acc l
    = acc + bytes_since cutoff l) as H by (rewrite H; lia).
  clear Ht. induction l as [|ev l IH]; intros acc Ha Hv; unfold bytes_since in *; simpl in *; [lia|].
  pose proof (Hs ev ltac:(left)). assert (sized l) as Hl by (intros x Hx; apply Hs; by right).
  pose proof (total_nonneg l Hl). destruct (after (be_at ev) cutoff); simpl.
  - rewrite saturatingAdd_exact by lia. rewrite IH by (done || lia). lia.
  - rewrite IH by (done || lia). done.
Qed.

(** What is left of the window at [t] is what lies after the cutoff. *)
Lemma prune_totals n v b a t :
  rescue_inv n v b a -> originals_in_order a ->
  let cutoff := t - streamBoundedRescueWindow in
  rb_windowOriginal (pruneLocked t b) = bytes_since cutoff (rb_originalEvents b) /\
  rb_windowAccepted (pruneLocked t b) = bytes_since cutoff (rb_acceptedEvents b).
Proof.
  intros I Ho cutoff. pose proof (ri_window _ _ _ _ I) as W. destruct (window_sized _ _ _ _ _ _ _ _ W) as [Hs1 Hs2].
  unfold pruneLocked. fold cutoff. destruct W as [EO EA EL Hh _ (d & Ed & _) _].
  rewrite EO, EA, EL. change (time_add t (- streamBoundedRescueWindow)) with cutoff.
  destruct (prune_original_spec cutoff (rb_originalEvents b) Hs1) as (d1 & k1 & -> & E1 & H1 & H1').
  destruct (prune_accepted_spec (length (rb_acceptedEvents b)) cutoff (rb_acceptedEvents b))
    as (d2 & k2 & -> & E2 & _ & H2 & H2'); try done. simpl. split.
  - rewrite E1, bytes_since_app, bytes_since_old, bytes_since_new; try done.
    apply sorted_head; [|done]. unfold originals_in_order in Ho. rewrite Ed, E1 in Ho.
    by apply sorted_app_r, sorted_app_r in Ho.
  - by rewrite E2, bytes_since_app, bytes_since_old, bytes_since_new.
Qed.

(** C33. The observer's verdict on the budget, computed by walking over all events without
    touching the state, is the one [Reserve] applies to the window it has brought up to
    date: the payload can be split into base and burst exactly when the snapshot says
    that it is eligible. *)
Theorem rescue_eligibility_agrees cfg start log b p t :
  rescue_history cfg start log b -> originals_in_order (account start log) ->
  rf_factorMode cfg = boundedRescueFactorFull -> p <> 0 ->
  rollingBudgetEligibleLocked b p t = bool_decide (is_Some (split_payload (pruneLocked t b) p)).
Proof.
  intros Hh Ho Hm Hp. destruct (history_inv _ _ _ _ Hh) as (I & Hcfg & _).
  destruct (prune_totals _ _ _ _ t I Ho) as [Ew Ea]. pose proof (rh_volume _ _ _ _ Hh).
  pose proof (inv_totals _ _ _ _ I) as (? & ? & ? & _). pose proof (ri_volume _ _ _ _ I).
  pose proof (ri_window _ _ _ _ I) as W. destruct (window_sized _ _ _ _ _ _ _ _ W) as [Hs1 Hs2].
  pose proof (window_totals _ _ _ _ _ _ _ _ W) as [[? ?] [? ?]].
  destruct W as [EO EA _ _ _ _ _]. unfold rollingBudgetEligibleLocked, split_payload, mode_is.
  rewrite bool_decide_eq_false_2 by done. rewrite prune_config, Hcfg, (bool_decide_eq_true_2 (rf_factorMode cfg = _)) by done.
  rewrite !window_sum_eq by (done || lia). change (time_add t (- streamBoundedRescueWindow)) with (t - streamBoundedRescueWindow).
  rewrite Ew, Ea. assert (forall x y, available_parts (pruneLocked t b) x y = available_parts b x y) as ->.
  { intros x y. unfold available_parts, pruneLocked.
    by destruct (prune_original _ _ _), (prune_accepted _ _ _ _ _) as [[? ?] ?]. }
  destruct (available_parts b _ _) as [base burst].
  destruct (bool_decide_reflect (p <= saturatingAdd base burst)) as [Hle|Hle].
  - by rewrite (bool_decide_eq_false_2 (_ < p)) by lia.
  - by rewrite (bool_decide_eq_true_2 (_ < p)) by lia.
Qed.

(** ** Example: two rescues, one settled and one open *)

Definition ex_config : StreamBoundedRescueConfig := MkRescueConfig true 500 1000 boundedRescueFactorFull.
Definition ex_evidence (seq : Z) : StreamRescueEvidence :=
  MkEvidence seq 0 0 0 1 1 1 1 1 true StreamRescueCauseFrontier true true false true false 0 true
    true true true true false false true.
Definition ex_ops : list rescue_op := [
  rop_original 0 20000 (1 * Second); rop_reserve (ex_evidence 0) 900 (2 * Second);
  rop_begin 1 (2 * Second); rop_settle 1 800 false (3 * Second);
  rop_original 1 5000 (4 * Second)].
Definition ex_reserve : rescue_op := rop_reserve (ex_evidence 1) 1200 (5 * Second).
Definition ex_new : streamBoundedRescueBudget :=
  Eval vm_compute in default (MkBudget ex_config 0 false false [] 0 0 false 0 0 0 [] [] 0 0 (0, 0) 0 0 0 ∅ ∅ zero_stats)
    (newStreamBoundedRescueBudget ex_config 1000 [] false).
Definition ex_run (ops : list rescue_op) := rescue_run ops ex_new.
Definition ex_log : list (rescue_op * rescue_result) := Eval vm_compute in (ex_run ex_ops).1.
Definition ex_log2 : list (rescue_op * rescue_result) := Eval vm_compute in (ex_run (ex_ops ++ [ex_reserve])).1.

Lemma ex_history ops log :
  (ex_run ops).1 = log -> Forall rop_wf ops -> Z.of_nat (length log) + 1 < 2 ^ 64 ->
  run_volume log.*1 < 2 ^ 64 -> rescue_history ex_config 0 log (ex_run ops).2.
Proof.
  intros <- Hwf Hl Hv. constructor; try done.
  - exists 1000, [], false, ex_new, ops. split; [done|]. apply surjective_pairing.
  - assert (Forall rop_wf (ex_run ops).1.*1) as H by (by erewrite rescue_run_ops by apply surjective_pairing).
    exact (proj1 (Forall_fmap _ _ _) H).
Qed.
Lemma ex_wf : Forall rop_wf (ex_ops ++ [ex_reserve]).
Proof. repeat constructor; done. Qed.
Lemma ex_history1 : rescue_history ex_config 0 ex_log (ex_run ex_ops).2.
Proof.
  apply ex_history; [by vm_compute|exact (proj1 (proj1 (Forall_app _ _ _) ex_wf))|done|done].
Qed.
Lemma ex_history2 : rescue_history ex_config 0 ex_log2 (ex_run (ex_ops ++ [ex_reserve])).2.
Proof. apply ex_history; [by vm_compute|apply ex_wf|done|done]. Qed.
Lemma ex_ordered log : log = ex_log \/ log = ex_log2 -> originals_in_order (account 0 log).
Proof. intros [->| ->]; repeat constructor; done. Qed.

(** Witness: 800 bytes are charged and 1200 more are admitted, 750 of them from the burst. *)
Lemma rescue_budget_bound_witness : exists d evs b',
  Reserve (ex_evidence 1) 1200 (5 * Second) (ex_run ex_ops).2 = (d, evs, b') /\
  ad_Admitted d = true /\ rb_burstReserved b' = 750 /\
  let a := account 0 (ex_log ++ [(rop_reserve (ex_evidence 1) 1200 (5 * Second), res_reserve d)]) in
  bytes_since (ac_latest a - streamBoundedRescueWindow) (ac_charged a) + reserved a <= 
  bytes_since (5 * Second - streamBoundedRescueWindow) (ac_originals a) * rf_BudgetBasisPoints ex_config / 10000
    + rf_BurstBytes ex_config.
Proof.
  destruct (Reserve (ex_evidence 1) 1200 (5 * Second) (ex_run ex_ops).2) as [[d evs] b'] eqn:E.
  assert (ad_Admitted d = true /\ ad_Exempt d = false /\ rb_burstReserved b' = 750) as (H1 & H2 & H3).
  { replace d with (Reserve (ex_evidence 1) 1200 (5 * Second) (ex_run ex_ops).2).1.1 by (rewrite E; reflexivity).
    replace b' with (Reserve (ex_evidence 1) 1200 (5 * Second) (ex_run ex_ops).2).2 by (rewrite E; reflexivity).
    vm_compute. exact (conj eq_refl (conj eq_refl eq_refl)). }
  exists d, evs, b'. split; [reflexivity|]. split; [exact H1|]. split; [exact H3|].
  apply (rescue_budget_bound ex_config 0 ex_log (ex_run ex_ops).2 (ex_evidence 1) 1200 (5 * Second) d evs b').
  - exact ex_history1.
  - exact (ex_ordered _ (or_introl eq_refl)).
  - reflexivity.
  - split; [discriminate|reflexivity].
  - vm_compute. reflexivity.
  - exact E.
  - exact H1.
  - exact H2.
Defined.

(** Witness: the write of the second rescue starts. *)
Lemma rescue_once_per_epoch_witness : exists evs b',
  BeginWrite 2 (6 * Second) (ex_run (ex_ops ++ [ex_reserve])).2 = (true, evs, b') /\
  exists o, ac_open (account 0 ex_log2) !! 2 = Some o /\ (or_seq o, or_key o) ∉ ac_started (account 0 ex_log2).
Proof.
  destruct (BeginWrite 2 (6 * Second) (ex_run (ex_ops ++ [ex_reserve])).2) as [[ok evs] b'] eqn:E.
  assert (ok = true) as ->.
  { replace ok with (BeginWrite 2 (6 * Second) (ex_run (ex_ops ++ [ex_reserve])).2).1.1 by (rewrite E; reflexivity).
    vm_compute. reflexivity. }
  exists evs, b'. split; [reflexivity|].
  destruct (rescue_once_per_epoch ex_config 0 ex_log2 _ 2 (6 * Second) evs b' ex_history2 E)
    as (o & Ho & _ & _ & Hn). exists o. split; [exact Ho|]. apply Hn. vm_compute. discriminate.
Defined.

(** Witness: a snapshot of the state with one rescue charged and one open. *)
Lemma rescue_snapshot_exact_witness : exists s b',
  rescue_Snapshot (6 * Second) (ex_run (ex_ops ++ [ex_reserve])).2 = (s, b') /\
  bs_WindowOriginalBytes s = 25000 /\ bs_WindowCarrierAcceptedBytes s = 800 /\ bs_ReservedBytes s = 1200.
Proof.
  destruct (rescue_Snapshot (6 * Second) (ex_run (ex_ops ++ [ex_reserve])).2) as [s b'] eqn:E.
  exists s, b'. split; [reflexivity|].
  destruct (rescue_snapshot_exact ex_config 0 ex_log2 _ (6 * Second) s b' ex_history2
    (ex_ordered _ (or_intror eq_refl)) ltac:(vm_compute; discriminate) E) as (-> & _ & -> & _ & -> & _).
  clear E. vm_compute. exact (conj eq_refl (conj eq_refl eq_refl)).
Defined.

(** Witness: 1200 bytes are eligible; 450 of the share and 1000 of the burst are left, so
    1451 are not. *)
Lemma rescue_eligibility_agrees_witness :
  rollingBudgetEligibleLocked (ex_run ex_ops).2 1200 (5 * Second) = true /\
  rollingBudgetEligibleLocked (ex_run ex_ops).2 1451 (5 * Second) = false.
Proof.
  split.
  - rewrite (rescue_eligibility_agrees ex_config 0 ex_log _ 1200 _ ex_history1
      (ex_ordered _ (or_introl eq_refl)) eq_refl ltac:(discriminate)). vm_compute. reflexivity.
  - rewrite (rescue_eligibility_agrees ex_config 0 ex_log _ 1451 _ ex_history1
      (ex_ordered _ (or_introl eq_refl)) eq_refl ltac:(discriminate)). vm_compute. reflexivity.
Defined.
