(* ===== verification/Startup.v ===== *)
(** * The startup gate

    [core/stream_startup.go]: with the preferred-leg policy the first data of a session
    waits in [await] until the preferred leg is up, until it is known never to come, or
    until another leg has been up for a grace period.

    The gate runs beside the leg registry of [Legs]: [await] is a program counter with
    its local variables, one step per critical section or look at the registry.  An
    attaching goroutine calls [notify] after it has published its leg: [su_attaching]
    lists the legs whose call is still to come.  [wake] is the token of the channel of
    capacity one.  A timer is its deadline.  Telemetry is left out.  [su_looks] records
    what each iteration of [await] has seen. *)

From S2P Require Import Prelude PathProtocol TxLedger TxInv TxQueue RttCache Legs LegsInv.
From stdpp Require Import options.
#[local] Open Scope Z_scope.

(** ** The gate *)

Inductive StreamStartupPolicy := StreamStartupFirstReady | StreamStartupPreferred.
#[export] Instance StreamStartupPolicy_eq_dec : EqDecision StreamStartupPolicy.
Proof. solve_decision. Defined.

Definition MaxStreamStartupGrace : duration := 10 * Second.

Inductive streamStartupState :=
| streamStartupNoData | streamStartupDataWaitingNoLeg | streamStartupGrace | streamStartupReleased.
#[export] Instance streamStartupState_eq_dec : EqDecision streamStartupState.
Proof. solve_decision. Defined.

Inductive StreamStartupReleaseReason :=
| StartupReleaseNone
| StartupReleasePreferredAlreadyAttached
| StartupReleasePreferredAttachedBeforeNonPreferred
| StartupReleasePreferredArrivedWithinGrace
| StartupReleaseGraceExpired
| StartupReleasePreferredTerminalUnavailable.
#[export] Instance StreamStartupReleaseReason_eq_dec : EqDecision StreamStartupReleaseReason.
Proof. solve_decision. Defined.

Record streamStartupGate := MkGate {
  sg_preferred : Z;
  sg_grace : duration;
  sg_state : streamStartupState;
  sg_terminal : list bool;
  sg_attached : list bool;
  sg_preferredBeforeNonPreferred : bool;
  sg_released : bool;
  sg_wake : bool;
  sg_graceStarted : bool;
  sg_releaseReason : StreamStartupReleaseReason
}.
#[export] Instance streamStartupGate_fields : Fields streamStartupGate := fun g =>
  MkGate (sg_preferred g) (sg_grace g) (sg_state g) (sg_terminal g) (sg_attached g)
    (sg_preferredBeforeNonPreferred g) (sg_released g) (sg_wake g) (sg_graceStarted g)
    (sg_releaseReason g).

(** [None]: the policy needs no gate. *)
Definition newStreamStartupGate (policy : StreamStartupPolicy) (preferredLeg : Z) (grace : duration)
    (maxActiveLegs : Z) : option streamStartupGate :=
  if bool_decide (policy <> StreamStartupPreferred) then None else
  let preferred := if bool_decide (maxActiveLegs <= preferredLeg) then 0 else preferredLeg in
  let grace := if bool_decide (grace < 0) then 0 else grace in
  let grace := if bool_decide (MaxStreamStartupGrace < grace) then MaxStreamStartupGrace else grace in
  let none := replicate (Z.to_nat maxActiveLegs) false in
  Some (MkGate preferred grace streamStartupNoData none none false false false false StartupReleaseNone).

(** The legs other than the preferred one. *)
Definition others (g : streamStartupGate) : list Z :=
  List.filter (fun id => bool_decide (id <> sg_preferred g)) (seqZ 0 (slen (sg_attached g))).

Definition is_attached (g : streamStartupGate) (id : Z) : bool := default false (slice_get (sg_attached g) id).

Definition hasOtherAttachedLocked (g : streamStartupGate) : bool := existsb (is_attached g) (others g).
Definition hasOtherReady (g : streamStartupGate) (e : StreamEngine) : bool := existsb (hasLeg e) (others g).

(** [notify]; the argument is optional. *)
Definition notify (id : option Z) (g : streamStartupGate) : streamStartupGate :=
  if sg_released g then g else
  let g := match id with
    | Some id =>
      if bool_decide (slice_get (sg_attached g) id = Some false) then
        let g := if bool_decide (id = sg_preferred g) && negb (hasOtherAttachedLocked g)
                 then g <| sg_preferredBeforeNonPreferred := true |> else g in
        g <| sg_attached ::= <[Z.to_nat id := true]> |>
      else g
    | None => g
    end in
  g <| sg_wake := true |>.

Definition markTerminalUnavailable (id : Z) (g : streamStartupGate) : bool * streamStartupGate :=
  if bool_decide (slen (sg_terminal g) <= id) || sg_released g then (false, g) else
  if bool_decide (id <> sg_preferred g) then (false, g) else
  (true, notify None (g <| sg_terminal ::= <[Z.to_nat id := true]> |>)).

Definition release (reason : StreamStartupReleaseReason) (g : streamStartupGate) : streamStartupGate :=
  if sg_released g then g
  else g <| sg_state := streamStartupReleased |> <| sg_releaseReason := reason |> <| sg_released := true |>.

Definition preferredReleaseReason (g : streamStartupGate) : StreamStartupReleaseReason :=
  if sg_graceStarted g then StartupReleasePreferredArrivedWithinGrace else
  if sg_preferredBeforeNonPreferred g then StartupReleasePreferredAttachedBeforeNonPreferred
  else StartupReleasePreferredAlreadyAttached.

(** [None]: an index out of range. *)
Definition terminalPreferred (g : streamStartupGate) : option bool := slice_get (sg_terminal g) (sg_preferred g).

Definition setWaitingState (state : streamStartupState) (g : streamStartupGate) : streamStartupGate :=
  if sg_released g then g else
  let g := g <| sg_state := state |> in
  if bool_decide (state = streamStartupGrace) then g <| sg_graceStarted := true |> else g.

(** ** [await] *)

(** Where [await] is; [timer] is the deadline of its timer, [expired] is [graceExpired]. *)
Inductive await_pc :=
| AEntry
| ATop (timer : option time) (expired : bool)
| APreferred (timer : option time) (expired : bool)
| AOthers (preferredReady : bool) (timer : option time) (expired : bool)
| ADecide (preferredReady nonPreferredReady : bool) (timer : option time) (expired : bool)
| AArm (nonPreferredReady : bool) (timer : option time) (expired : bool)
| ASelect (timer : option time) (expired : bool)
| ARelease (reason : StreamStartupReleaseReason) (leg : Z)
| AReturned (leg : Z) (released : bool).

(** What one iteration has seen: when, the preferred leg, another leg. *)
Record look := MkLook { lk_at : time; lk_preferred : bool; lk_other : bool }.

Record startup := MkStartup {
  su_gate : streamStartupGate;
  su_await : await_pc;
  su_engine : StreamEngine;
  su_attaching : list Z;
  su_looks : list look
}.
#[export] Instance startup_fields : Fields startup := fun w =>
  MkStartup (su_gate w) (su_await w) (su_engine w) (su_attaching w) (su_looks w).

Inductive await_event := AwDone | AwGraceful | AwWake | AwTimer.

Definition await_step (now : time) (ev : await_event) (w : startup) : option startup :=
  let g := su_gate w in
  let e := su_engine w in
  let at_ (pc : await_pc) := w <| su_await := pc |> in
  match su_await w with
  | AEntry => Some (at_ (if sg_released g then AReturned (-1) true else ATop None false))
  | ATop timer expired =>
    Some (at_ (if sg_released g then AReturned (-1) true else APreferred timer expired))
  | APreferred timer expired => Some (at_ (AOthers (hasLeg e (sg_preferred g)) timer expired))
  | AOthers preferred timer expired =>
    let other := hasOtherReady g e in
    Some ((at_ (ADecide preferred other timer expired))
            <| su_looks ::= fun l => l ++ [MkLook now preferred other] |>)
  | ADecide preferred other timer expired =>
    if preferred then Some (at_ (ARelease (preferredReleaseReason g) (sg_preferred g))) else
    if negb other then Some (at_ (AArm other timer expired)) else
    let! terminal := terminalPreferred g in
    Some (at_ (if (terminal : bool) then ARelease StartupReleasePreferredTerminalUnavailable (-1) else
               if bool_decide (sg_grace g = 0) || expired then ARelease StartupReleaseGraceExpired (-1)
               else AArm other timer expired))
  | AArm other timer expired =>
    if negb other then
      Some ((at_ (ASelect None false)) <| su_gate ::= setWaitingState streamStartupDataWaitingNoLeg |>)
    else match timer with
    | None => Some ((at_ (ASelect (Some (now + sg_grace g)) expired))
                      <| su_gate ::= setWaitingState streamStartupGrace |>)
    | Some _ => Some (at_ (ASelect timer expired))
    end
  | ASelect timer expired =>
    match ev with
    | AwDone => if se_done e then Some (at_ (AReturned (-1) false)) else None
    | AwGraceful => if se_graceful e then Some (at_ (AReturned (-1) false)) else None
    | AwWake => if sg_wake g
                then Some ((at_ (ATop timer expired)) <| su_gate ::= fun g => g <| sg_wake := false |> |>)
                else None
    | AwTimer =>
      match timer with
      | Some deadline => if bool_decide (deadline <= now) then Some (at_ (ATop None true)) else None
      | None => None
      end
    end
  | ARelease reason leg => Some ((at_ (AReturned leg true)) <| su_gate ::= release reason |>)
  | AReturned _ _ => None
  end.

(** ** Steps *)

Inductive startup_op :=
| sop_leg (op : leg_op)
| sop_notify (k : nat)       (* an attaching goroutine *)
| sop_terminal (id : Z)
| sop_await (now : time) (ev : await_event).

(** [None]: the step is not enabled. *)
Definition startup_exec (w : startup) (op : startup_op) : option startup :=
  match op with
  | sop_leg (lo_attach id auth prior clock) =>
    let '(out, e) := attachLeg (su_engine w) id auth prior clock in
    let w := w <| su_engine := e |> in
    Some (match out with Attached _ => w <| su_attaching ::= cons id |> | _ => w end)
  | sop_leg op => let! e := leg_exec (su_engine w) op in Some (w <| su_engine := e |>)
  | sop_notify k =>
    let! id := su_attaching w !! k in
    Some (w <| su_gate ::= notify (Some id) |> <| su_attaching ::= delete k |>)
  | sop_terminal id => Some (w <| su_gate ::= fun g => (markTerminalUnavailable id g).2 |>)
  | sop_await now ev => await_step now ev w
  end.

Fixpoint startup_run (ops : list startup_op) (w : startup) : option startup :=
  match ops with
  | [] => Some w
  | op :: ops => let! w := startup_exec w op in startup_run ops w
  end.

Definition new_startup (cfg : StreamConfig) (grace : duration) : option startup :=
  let e := NewStreamEngine cfg in
  let! g := newStreamStartupGate StreamStartupPreferred (cf_StartupPreferredLeg cfg) grace
              (se_maxActiveLegs e) in
  Some (MkStartup g AEntry e [] []).

(** The readings of the clock do not go back. *)
Fixpoint clock_runs (now : time) (ops : list startup_op) : Prop :=
  match ops with
  | [] => True
  | sop_await t _ :: ops => now <= t /\ clock_runs t ops
  | _ :: ops => clock_runs now ops
  end.

(** The last reading. *)
Fixpoint clock_now (now : time) (ops : list startup_op) : time :=
  match ops with
  | [] => now
  | sop_await t _ :: ops => clock_now t ops
  | _ :: ops => clock_now now ops
  end.

(** ** Steps of the registry

    A leg comes up only by [attachLeg], and a session that has ended or is ending stays
    so. *)

Record older (e e' : StreamEngine) : Prop := {
  ol_legs : forall id, hasLeg e' id = true -> hasLeg e id = true;
  ol_done : se_done e = true -> se_done e' = true;
  ol_graceful : se_graceful e = true -> se_graceful e' = true
}.

Lemma older_same e e' :
  se_legs e' = se_legs e -> se_done e' = se_done e -> se_graceful e' = se_graceful e -> older e e'.
Proof.
  intros E1 E2 E3. constructor; [|by rewrite E2|by rewrite E3].
  intros id. unfold hasLeg, getLeg. by rewrite E1.
Qed.
Lemma older_refl e : older e e.
Proof. by apply older_same. Qed.
Lemma older_trans e1 e2 e3 : older e1 e2 -> older e2 e3 -> older e1 e3.
Proof. intros [] []. constructor; auto. Qed.

Lemma older_failure e p err : older e (handleLegFailure e p err).
Proof.
  unfold handleLegFailure. destruct (se_heap e !! p) as [l|]; [|apply older_refl].
  set (e1 := if sl_pathRTTEnabled l then _ else e).
  assert (se_legs e1 = se_legs e /\ se_done e1 = se_done e /\ se_graceful e1 = se_graceful e) as (E1 & E2 & E3).
  { subst e1. by case_match. }
  clearbody e1. case_bool_decide.
  - constructor; simpl; rewrite ?E2, ?E3; try done. intros id. unfold hasLeg, getLeg. simpl. rewrite E1.
    rewrite !bool_decide_eq_true. by intros [q [_ Hq]%lookup_delete_Some].
  - by apply older_same.
Qed.

Lemma older_fail e err app : older e (failWithAppClose e err app).
Proof. unfold failWithAppClose. simpl. destruct (se_done e) eqn:E; by constructor. Qed.

Lemma older_data new e e' : data_step new e e' -> older e e'.
Proof. intros (h & tx & a & -> & _). by apply older_same. Qed.

Lemma older_select e p k c e' : dispatch_select e p k c = Some e' -> older e e'.
Proof.
  unfold dispatch_select. destruct (se_heap e !! p) as [l|]; [|done]. simpl.
  destruct (sl_dispatch l !! k) as [[st a owner]|]; [|done]. simpl. case_bool_decide; [done|].
  destruct c.
  - case_match; [|done]. intros <-%(inj Some). by apply older_same.
  - case_match; [done|]. case_match; [intros <-%(inj Some); by apply older_same|].
    case_match; [|intros <-%(inj Some); by apply older_same].
    destruct (markOrdinaryAdmitted _ _ _) as [tx|]; [|done]. intros <-%(inj Some). by apply older_same.
  - case_match; [done|]. intros <-%(inj Some). case_match; by apply older_same.
Qed.

Lemma older_exec e op e' :
  (forall id auth prior clock, op <> lo_attach id auth prior clock) -> leg_exec e op = Some e' -> older e e'.
Proof.
  intros Hop. destruct op; cbn [leg_exec].
  - by destruct (Hop id auth prior clock).
  - case_bool_decide; [|done]. intros <-%(inj Some). by apply older_same.
  - destruct (se_heap e !! p); [|done]. intros <-%(inj Some). apply older_failure.
  - destruct (se_failing e !! k) as [f|]; [|done]. simpl. case_bool_decide; [|done].
    intros <-%(inj Some). unfold failure_invalidate. case_match; by apply older_same.
  - destruct (se_failing e !! k) as [f|]; [|done]. simpl. case_bool_decide; [|done].
    intros <-%(inj Some). unfold failure_notify, activate. repeat case_match; by apply older_same.
  - destruct (se_heap e !! p); [|done]. simpl. case_bool_decide; [|done].
    intros <-%(inj Some). by apply older_same.
  - destruct (se_heap e !! p); [|done]. simpl. case_match; [|done].
    intros <-%(inj Some). unfold retire_leg. repeat case_match; by apply older_same.
  - destruct (se_timers e !! k) as [ep|]; [|done]. intros <-%(inj Some). unfold failIfNoLegRecovers, fail.
    case_match; [|by apply older_same]. eapply older_trans; [|apply older_fail]. by apply older_same.
  - intros <-%(inj Some). apply older_fail.
  - intros <-%(inj Some). unfold Close, fail. eapply older_trans; [|apply older_fail]. by apply older_same.
  - destruct (se_shutdown e) as [|p rest]; [done|]. destruct (se_closeErr e); [|done].
    intros <-%(inj Some). by apply older_same.
  - intros <-%(inj Some). unfold StartGracefulClose. simpl.
    destruct (se_graceful e || se_done e); [by apply older_same|]. by constructor.
  - intros <-%(inj Some). by apply older_same.
  - destruct (se_closer e) as [[err []]|]; try done. case_match; [|done]. intros <-%(inj Some).
    unfold closer_drained, beginFinalizing. destruct (se_done e); by apply older_same.
  - destruct (se_closer e) as [[err []]|]; try done. intros <-%(inj Some).
    unfold closer_stalled, fail. eapply older_trans; [apply older_fail|]. by apply older_same.
  - destruct (se_closer e) as [[err []]|]; try done. intros <-%(inj Some).
    unfold closer_sent, finishGracefulClose, fail.
    repeat case_match; (eapply older_trans; [apply older_fail|]; by apply older_same).
  - intros <-%(inj Some). unfold activate. repeat case_match; by apply older_same.
  - case_match; [|done]. destruct (tx_step _ _); [|done]. intros <-%(inj Some). by apply older_same.
  - case_match; [|done]. intros <-%(inj Some). by apply older_same.
  - intros <-%(inj Some). eapply older_data, tryQueue_data.
  - intros <-%(inj Some). eapply older_data, tryQueueRescue_data.
  - intros <-%(inj Some). eapply older_data, dispatch_claim_data.
  - apply older_select.
  - intros <-%(inj Some). eapply older_data, dispatch_finish_data.
  - intros H. by eapply older_data, take_send_data.
  - intros H. by eapply older_data, take_rescue_data.
  - intros H. by eapply older_data, writeAttempt_data.
  - intros H. by eapply older_data, write_return_data.
  - unfold write_commit. destruct (se_heap e !! p) as [l|]; [|done]. simpl.
    destruct (sl_writer l), (sl_hand l); try done. case_match; intros <-%(inj Some); [by apply older_same|].
    eapply older_trans; [|apply older_failure]. by apply older_same.
Qed.

Definition attach_effect (id : Z) (e : StreamEngine) (r : attach_outcome * StreamEngine) : Prop :=
  (forall j, hasLeg r.2 j = true -> hasLeg e j = true \/ (exists p, r.1 = Attached p) /\ j = id) /\
  se_done r.2 = se_done e /\ se_graceful r.2 = se_graceful e.

Lemma attach_effect_err id e e' out :
  se_legs e' = se_legs e -> se_done e' = se_done e -> se_graceful e' = se_graceful e ->
  attach_effect id e (out, e').
Proof. intros E1 E2 E3. split; [|done]. intros j. unfold hasLeg, getLeg. simpl. rewrite E1. auto. Qed.

Lemma attach_effect_install id e e1 l :
  sl_id l = id -> se_legs e1 = se_legs e -> se_done e1 = se_done e -> se_graceful e1 = se_graceful e ->
  attach_effect id e (attach_install e1 l).
Proof.
  intros El E1 E2 E3. split; [|done]. intros j. unfold hasLeg, getLeg. simpl. rewrite El, E1.
  rewrite !bool_decide_eq_true. destruct (decide (id = j)) as [->|]; [by right; eauto|].
  rewrite lookup_insert_ne by done. auto.
Qed.

Lemma attachLeg_effect e id auth prior clock : attach_effect id e (attachLeg e id auth prior clock).
Proof.
  unfold attachLeg. do 3 (case_match; [by apply attach_effect_err|]).
  destruct (se_legs e !! id); [by apply attach_effect_err|].
  destruct (se_retiring e !! id); [by apply attach_effect_err|].
  match goal with |- context [if ?c then _ else _] => destruct c end; [by apply attach_effect_err|].
  destruct auth as [auth|]; [|by apply attach_effect_install]. case_match; [by apply attach_effect_err|].
  set (r1 := if PathRTTEnabled auth then _ else _).
  assert (match r1 with Ok (_, _, e1) => se_legs e1 = se_legs e /\ se_done e1 = se_done e /\
    se_graceful e1 = se_graceful e | Err _ => True end) as HE.
  { subst r1. destruct (PathRTTEnabled auth); [|done]. unfold attach_path. repeat case_match; simplify_eq/=; done. }
  clearbody r1. destruct r1 as [[[b i] e1]|err]; [|by apply attach_effect_err].
  destruct HE as (A1 & A2 & A3). unfold attach_drain.
  destruct (CoordinatedDrainEnabled auth); [|by apply attach_effect_install].
  repeat case_match; simplify_eq/=; first [by apply attach_effect_err|by apply attach_effect_install].
Qed.

(** ** The invariant *)

(** A look that saw another leg and not the preferred one. *)
Definition waiting (k : look) : Prop := lk_preferred k = false /\ lk_other k = true.

(** The last looks were all [waiting], from the first of them until [t] for [grace]. *)
Definition waited (looks : list look) (grace : duration) (t : time) : Prop :=
  exists before first since, looks = before ++ first :: since /\
    Forall waiting (first :: since) /\ lk_at first + grace <= t.

Definition ends_with (looks : list look) (k : look) : Prop := exists before, looks = before ++ [k].

(** Why the gate may open, and what [await] returns. *)
Definition justified (g : streamStartupGate) (looks : list look) (reason : StreamStartupReleaseReason)
    (leg : Z) : Prop :=
  exists last, ends_with looks last /\
  match reason with
  | StartupReleasePreferredAlreadyAttached => lk_preferred last = true /\ leg = sg_preferred g
  | StartupReleasePreferredAttachedBeforeNonPreferred =>
    lk_preferred last = true /\ leg = sg_preferred g /\ sg_preferredBeforeNonPreferred g = true
  | StartupReleasePreferredArrivedWithinGrace =>
    lk_preferred last = true /\ leg = sg_preferred g /\ exists k, k ∈ looks /\ waiting k
  | StartupReleaseGraceExpired =>
    waiting last /\ leg = -1 /\ (sg_grace g = 0 \/ waited looks (sg_grace g) (lk_at last))
  | StartupReleasePreferredTerminalUnavailable =>
    waiting last /\ leg = -1 /\ slice_get (sg_terminal g) (sg_preferred g) = Some true
  | StartupReleaseNone => False
  end.

(** The timer and the flag, relative to the looks made so far. *)
Definition timing (g : streamStartupGate) (looks : list look) (now : time) (timer : option time)
    (expired : bool) : Prop :=
  (forall deadline, timer = Some deadline -> waited looks (sg_grace g) deadline) /\
  (expired = true -> waited looks (sg_grace g) now).

Definition await_inv (now : time) (w : startup) : Prop :=
  let g := su_gate w in
  let looks := su_looks w in
  let closed := sg_released g = false in
  (* nothing was missed: an attached preferred leg has left its token *)
  let told := hasLeg (su_engine w) (sg_preferred g) = true -> sg_preferred g ∉ su_attaching w ->
              sg_wake g = true in
  match su_await w with
  | AEntry => closed
  | ATop timer expired | APreferred timer expired => closed /\ timing g looks now timer expired
  | AOthers preferred timer expired =>
    closed /\ timing g looks now timer expired /\ (preferred = false -> told)
  | ADecide preferred other timer expired =>
    closed /\ (preferred = false -> told) /\
    exists before at_, looks = before ++ [MkLook at_ preferred other] /\ at_ <= now /\
      timing g before at_ timer expired
  | AArm other timer expired =>
    closed /\ told /\
    exists before at_, looks = before ++ [MkLook at_ false other] /\ at_ <= now /\
      (other = true -> expired = false /\ sg_grace g <> 0) /\
      timing g before at_ timer expired
  | ASelect timer expired => closed /\ told /\ expired = false /\ timing g looks now timer expired
  | ARelease reason leg => closed /\ justified g looks reason leg
  | AReturned leg true => sg_released g = true /\ justified g looks (sg_releaseReason g) leg
  | AReturned leg false => closed /\ (se_done (su_engine w) = true \/ se_graceful (su_engine w) = true)
  end.

Record startup_inv (now : time) (w : startup) : Prop := {
  si_preferred : 0 <= sg_preferred (su_gate w) < slen (sg_terminal (su_gate w));
  si_grace : 0 <= sg_grace (su_gate w);
  si_started : sg_graceStarted (su_gate w) = true -> exists k, k ∈ su_looks w /\ waiting k;
  si_await : await_inv now w
}.

Lemma waited_later looks grace t t' : waited looks grace t -> t <= t' -> waited looks grace t'.
Proof. intros (b & f & s & ? & ? & ?) Ht. exists b, f, s. split_and!; try done. lia. Qed.

Lemma waited_look looks grace t k : waited looks grace t -> waiting k -> waited (looks ++ [k]) grace t.
Proof.
  intros (b & f & s & -> & Hw & Ht) Hk. exists b, f, (s ++ [k]). rewrite <- app_assoc. simpl.
  split_and!; try done. apply Forall_cons in Hw as [? ?]. apply Forall_cons. split; [done|].
  apply Forall_app. by split; [|constructor].
Qed.

Lemma waited_first before k grace t : waiting k -> lk_at k + grace <= t -> waited (before ++ [k]) grace t.
Proof. intros. exists before, k, []. split_and!; try done. by constructor. Qed.

Lemma timing_later g looks now now' timer expired :
  timing g looks now timer expired -> now <= now' -> timing g looks now' timer expired.
Proof. intros [H1 H2] Ht. split; [done|]. intros. eapply waited_later; eauto. Qed.

Lemma await_inv_later now now' w : await_inv now w -> now <= now' -> await_inv now' w.
Proof.
  unfold await_inv. intros H Ht. destruct (su_await w); try done.
  - destruct H as [? H]. eauto using timing_later.
  - destruct H as [? H]. eauto using timing_later.
  - destruct H as (? & H & ?). eauto using timing_later.
  - destruct H as (? & ? & b & t & ? & ? & ?). split; [done|]. split; [done|]. exists b, t.
    split; [done|]. split; [lia|done].
  - destruct H as (? & ? & b & t & ? & ? & ?). split; [done|]. split; [done|]. exists b, t.
    split; [done|]. split; [lia|done].
  - destruct H as (? & ? & ? & H). eauto using timing_later.
Qed.

(** What the other goroutines do keeps everything [await] relies on. *)
Lemma notify_gate id g :
  sg_preferred (notify id g) = sg_preferred g /\ sg_grace (notify id g) = sg_grace g /\
  sg_terminal (notify id g) = sg_terminal g /\ sg_released (notify id g) = sg_released g /\
  sg_releaseReason (notify id g) = sg_releaseReason g /\
  sg_graceStarted (notify id g) = sg_graceStarted g /\
  (sg_preferredBeforeNonPreferred g = true -> sg_preferredBeforeNonPreferred (notify id g) = true) /\
  (sg_released g = false -> sg_wake (notify id g) = true).
Proof. unfold notify. repeat case_match; split_and!; done. Qed.

Record gate_kept (g g' : streamStartupGate) : Prop := {
  gk_preferred : sg_preferred g' = sg_preferred g;
  gk_grace : sg_grace g' = sg_grace g;
  gk_terminal : slen (sg_terminal g') = slen (sg_terminal g) /\
    forall id, slice_get (sg_terminal g) id = Some true -> slice_get (sg_terminal g') id = Some true;
  gk_released : sg_released g' = sg_released g;
  gk_reason : sg_releaseReason g' = sg_releaseReason g;
  gk_started : sg_graceStarted g' = sg_graceStarted g;
  gk_before : sg_preferredBeforeNonPreferred g = true -> sg_preferredBeforeNonPreferred g' = true;
  gk_wake : sg_wake g = true -> sg_wake g' = true
}.

Lemma justified_kept g g' looks reason leg :
  gate_kept g g' -> justified g looks reason leg -> justified g' looks reason leg.
Proof.
  intros [K1 K2 [_ K3] _ _ _ K4 _] (last & Hl & H). exists last. split; [done|].
  destruct reason; rewrite ?K1, ?K2; try done; destruct H as (? & ? & ?); auto.
Qed.

Lemma await_inv_kept now w w' :
  await_inv now w -> gate_kept (su_gate w) (su_gate w') -> su_await w' = su_await w ->
  su_looks w' = su_looks w ->
  (se_done (su_engine w) = true -> se_done (su_engine w') = true) ->
  (se_graceful (su_engine w) = true -> se_graceful (su_engine w') = true) ->
  (sg_released (su_gate w) = false ->
   hasLeg (su_engine w') (sg_preferred (su_gate w)) = true -> sg_preferred (su_gate w) ∉ su_attaching w' ->
   sg_wake (su_gate w') = true \/
   hasLeg (su_engine w) (sg_preferred (su_gate w)) = true /\ sg_preferred (su_gate w) ∉ su_attaching w) ->
  await_inv now w'.
Proof.
  intros H K Ea El Hd Hg Ht. unfold await_inv in *. rewrite Ea, El.
  pose proof (fun reason leg => justified_kept _ _ (su_looks w) reason leg K) as HJ.
  destruct K as [K1 K2 _ K3 K4 _ _ K5]. unfold timing in *. rewrite K1, K2, K3, ?K4.
  assert (Htold : sg_released (su_gate w) = false ->
    (hasLeg (su_engine w) (sg_preferred (su_gate w)) = true -> sg_preferred (su_gate w) ∉ su_attaching w ->
     sg_wake (su_gate w) = true) ->
    hasLeg (su_engine w') (sg_preferred (su_gate w)) = true -> sg_preferred (su_gate w) ∉ su_attaching w' ->
    sg_wake (su_gate w') = true).
  { intros Hc Hw H1 H2. destruct (Ht Hc H1 H2) as [?|[? ?]]; auto. }
  clear Ht. destruct (su_await w) as [| | | | | | | |leg []]; try done.
  - destruct H as (? & ? & H). auto 6.
  - destruct H as (? & H & ?). auto 6.
  - destruct H as (? & H & ?). auto 6.
  - destruct H as (? & H & ?). auto 6.
  - destruct H as (? & H). auto.
  - destruct H as (? & H). auto.
  - destruct H as (? & [H|H]); auto.
Qed.

Lemma startup_inv_kept now w w' :
  startup_inv now w -> gate_kept (su_gate w) (su_gate w') -> su_looks w' = su_looks w ->
  await_inv now w' -> startup_inv now w'.
Proof.
  intros [H1 H2 H3 _] [K1 K2 [K3 _] _ _ K4 _ _] El Ha. constructor; rewrite ?K1, ?K2, ?K3, ?K4, ?El; done.
Qed.

Lemma gate_kept_refl g : gate_kept g g.
Proof. by constructor. Qed.
Lemma gate_kept_notify id g : gate_kept g (notify id g).
Proof.
  destruct (notify_gate id g) as (E1 & E2 & E3 & E4 & E5 & E6 & E7 & E8). constructor; try done.
  - by rewrite E3.
  - intros Hw. destruct (sg_released g) eqn:Hr; [|by apply E8]. unfold notify. by rewrite Hr.
Qed.

Lemma terminal_kept id g : gate_kept g (markTerminalUnavailable id g).2.
Proof.
  unfold markTerminalUnavailable. destruct (_ || sg_released g) ; [apply gate_kept_refl|].
  case_bool_decide; [apply gate_kept_refl|]. simpl.
  set (g1 := g <| sg_terminal ::= <[Z.to_nat id := true]> |>).
  destruct (gate_kept_notify None g1) as [K1 K2 [K3 K3'] K4 K5 K6 K7 K8].
  constructor; try done. rewrite K3. split; [unfold slen; simpl; by rewrite length_insert|].
  intros j Hj. apply K3'. simpl. unfold slice_get in *. case_bool_decide; [|done].
  destruct (decide (Z.to_nat id = Z.to_nat j)) as [E|]; [|by rewrite list_lookup_insert_ne].
  rewrite E. apply list_lookup_insert_eq. by eapply lookup_lt_Some.
Qed.

(** A step of the registry: a leg is up afterwards, with its [notify] done, only if it was
    so before. *)
Lemma registry_step w op w' :
  startup_exec w (sop_leg op) = Some w' ->
  exists e att, w' = w <| su_engine := e |> <| su_attaching := att |> /\
    (se_done (su_engine w) = true -> se_done e = true) /\
    (se_graceful (su_engine w) = true -> se_graceful e = true) /\
    (forall id, hasLeg e id = true -> id ∉ att -> hasLeg (su_engine w) id = true /\ id ∉ su_attaching w).
Proof.
  assert (Hother : (forall id auth prior clock, op <> lo_attach id auth prior clock) ->
    (let! e := leg_exec (su_engine w) op in Some (w <| su_engine := e |>)) = Some w' ->
    exists e att, w' = w <| su_engine := e |> <| su_attaching := att |> /\
      (se_done (su_engine w) = true -> se_done e = true) /\
      (se_graceful (su_engine w) = true -> se_graceful e = true) /\
      (forall id, hasLeg e id = true -> id ∉ att -> hasLeg (su_engine w) id = true /\ id ∉ su_attaching w)).
  { intros Hn Hx. destruct (leg_exec (su_engine w) op) as [e|] eqn:E; [|done].
    apply (inj Some) in Hx as <-. destruct (older_exec _ _ _ Hn E) as [H1 H2 H3].
    exists e, (su_attaching w). split_and!; auto. }
  destruct op; cbn [startup_exec]; try (apply Hother; done).
  destruct (attachLeg_effect (su_engine w) id auth prior clock) as (H1 & H2 & H3).
  destruct (attachLeg (su_engine w) id auth prior clock) as [out e]. simpl in H1, H2, H3.
  intros <-%(inj Some).
  exists e, (match out with Attached _ => id :: su_attaching w | _ => su_attaching w end).
  split_and!; [by destruct out|by rewrite H2|by rewrite H3|].
  intros j Hj Hatt. destruct (H1 j Hj) as [Hl|[[p ->] ->]]; [|set_solver].
  split; [done|]. destruct out; set_solver.
Qed.

Lemma other_inv now w op w' :
  startup_inv now w -> (forall t ev, op <> sop_await t ev) -> startup_exec w op = Some w' -> startup_inv now w'.
Proof.
  intros I Hop Hx. destruct op as [op|k|id|t ev]; [|..|by destruct (Hop t ev)].
  - apply registry_step in Hx as (e & att & -> & Hd & Hg & Hl).
    eapply startup_inv_kept; [done|apply gate_kept_refl|done|].
    eapply await_inv_kept; [apply I|apply gate_kept_refl|done|done|done|done|]. simpl. intros _ H1 H2. right. auto.
  - simpl in Hx. destruct (su_attaching w !! k) as [id|] eqn:Hk; [|done]. apply (inj Some) in Hx as <-.
    eapply startup_inv_kept; [done|apply gate_kept_notify|done|].
    eapply await_inv_kept; [apply I|apply gate_kept_notify|done|done|done|done|].
    simpl. intros Hc _ _. left. by apply notify_gate.
  - apply (inj Some) in Hx as <-.
    eapply startup_inv_kept; [done|apply terminal_kept|done|].
    eapply await_inv_kept; [apply I|apply terminal_kept|done|done|done|done|]. auto.
Qed.

(** A decision of [await] is justified. *)
Lemma decide_inv g before at_ pr ot timer ex :
  0 <= sg_preferred g < slen (sg_terminal g) ->
  (sg_graceStarted g = true -> exists k, k ∈ before ++ [MkLook at_ pr ot] /\ waiting k) ->
  timing g before at_ timer ex ->
  (pr = true -> justified g (before ++ [MkLook at_ pr ot]) (preferredReleaseReason g) (sg_preferred g)) /\
  (pr = false -> ot = true -> slice_get (sg_terminal g) (sg_preferred g) = Some true ->
   justified g (before ++ [MkLook at_ pr ot]) StartupReleasePreferredTerminalUnavailable (-1)) /\
  (pr = false -> ot = true -> bool_decide (sg_grace g = 0) || ex = true ->
   justified g (before ++ [MkLook at_ pr ot]) StartupReleaseGraceExpired (-1)).
Proof.
  intros Hp Hs [_ Hex]. assert (He : ends_with (before ++ [MkLook at_ pr ot]) (MkLook at_ pr ot)) by (by exists before).
  split_and!.
  - intros ->. exists (MkLook at_ true ot). split; [done|]. unfold preferredReleaseReason.
    destruct (sg_graceStarted g); [by auto|]. by destruct (sg_preferredBeforeNonPreferred g) eqn:E.
  - intros -> -> Ht. exists (MkLook at_ false true). split; [done|]. done.
  - intros -> -> Ht. exists (MkLook at_ false true). split; [done|]. split; [done|]. split; [done|].
    simpl. bool_prop; [by left|right]. by apply waited_look; [apply Hex|].
Qed.

Lemma await_step_inv now w t ev w' :
  startup_inv now w -> now <= t -> await_step t ev w = Some w' -> startup_inv t w'.
Proof.
  intros [H1 H2 H3 H4] Ht Hx. apply (await_inv_later _ t) in H4; [|done]. clear Ht now.
  destruct w as [g pc e att looks]. unfold await_step in Hx. unfold await_inv in H4. simpl in *.
  destruct pc as [|timer ex|timer ex|pr timer ex|pr ot timer ex|ot timer ex|timer ex|reason leg|leg r]; simpl in *.
  - rewrite H4 in Hx. apply (inj Some) in Hx as <-. by constructor.
  - destruct H4 as [Hc Ht]. rewrite Hc in Hx. apply (inj Some) in Hx as <-. by constructor.
  - destruct H4 as [Hc Ht]. apply (inj Some) in Hx as <-. constructor; try done. simpl.
    split; [done|]. split; [done|]. intros E E'.
    change (hasLeg e (sg_preferred g) = true) in E'. congruence.
  - destruct H4 as (Hc & Ht & Htold). apply (inj Some) in Hx as <-. constructor; try done; simpl.
    + intros Hs. destruct (H3 Hs) as (k & ? & ?). exists k. set_solver.
    + split; [done|]. split; [done|]. by exists looks, t.
  - destruct H4 as (Hc & Htold & before & at_ & -> & Hat & Ht).
    destruct (decide_inv _ _ _ _ _ _ _ H1 H3 Ht) as (J1 & J2 & J3).
    destruct pr; simpl in Hx.
    { apply (inj Some) in Hx as <-. constructor; [exact H1|exact H2|exact H3|]. exact (conj Hc (J1 eq_refl)). }
    destruct ot; simpl in Hx.
    + unfold terminalPreferred in Hx. destruct (slice_get _ _) as [[]|] eqn:Et; [| |done]; simpl in Hx;
        apply (inj Some) in Hx as <-; (constructor; [exact H1|exact H2|exact H3|]).
      { exact (conj Hc (J2 eq_refl eq_refl eq_refl)). }
      destruct (bool_decide (sg_grace g = 0) || ex) eqn:Eg.
      { exact (conj Hc (J3 eq_refl eq_refl eq_refl)). }
      split; [exact Hc|]. split; [exact (Htold eq_refl)|]. exists before, at_. bool_prop.
      split; [reflexivity|]. split; [exact Hat|]. split; [by intros _|exact Ht].
    + apply (inj Some) in Hx as <-. constructor; [exact H1|exact H2|exact H3|].
      split; [exact Hc|]. split; [exact (Htold eq_refl)|]. by exists before, at_.
  - destruct H4 as (Hc & Htold & before & at_ & -> & Hat & Hot & [Ht1 Ht2]).
    destruct ot; simpl in Hx; [destruct (Hot eq_refl) as [-> Hg0]; destruct timer as [dl|]|].
    + apply (inj Some) in Hx as <-. constructor; [exact H1|exact H2|exact H3|].
      split; [exact Hc|]. split; [exact Htold|]. split; [reflexivity|]. split; [|done].
      intros d [= ->]. apply waited_look; auto. done.
    + apply (inj Some) in Hx as <-.
      change (startup_inv t (MkStartup (setWaitingState streamStartupGrace g)
        (ASelect (Some (t + sg_grace g)) false) e att (before ++ [MkLook at_ false true]))).
      unfold setWaitingState. rewrite Hc. constructor; [exact H1|exact H2| |].
      * intros _. exists (MkLook at_ false true). split; [set_solver|done].
      * split; [exact Hc|]. split; [exact Htold|]. split; [reflexivity|]. split; [|done].
        intros d [= <-]. apply waited_first; [done|]. simpl. lia.
    + apply (inj Some) in Hx as <-.
      change (startup_inv t (MkStartup (setWaitingState streamStartupDataWaitingNoLeg g)
        (ASelect None false) e att (before ++ [MkLook at_ false false]))).
      unfold setWaitingState. rewrite Hc. constructor; [exact H1|exact H2|exact H3|].
      split; [exact Hc|]. split; [exact Htold|]. by split.
  - destruct H4 as (Hc & Htold & -> & [Ht1 Ht2]). destruct ev.
    + destruct (se_done e) eqn:E; [|done]. apply (inj Some) in Hx as <-.
      constructor; [exact H1|exact H2|exact H3|]. split; [exact Hc|by left].
    + destruct (se_graceful e) eqn:E; [|done]. apply (inj Some) in Hx as <-.
      constructor; [exact H1|exact H2|exact H3|]. split; [exact Hc|by right].
    + destruct (sg_wake g); [|done]. apply (inj Some) in Hx as <-.
      constructor; [exact H1|exact H2|exact H3|]. split; [exact Hc|by split].
    + destruct timer as [dl|]; [|done]. case_bool_decide; [|done]. apply (inj Some) in Hx as <-.
      constructor; [exact H1|exact H2|exact H3|]. split; [exact Hc|]. split; [done|]. intros _.
      eapply waited_later; [by apply Ht1|done].
  - destruct H4 as [Hc HJ]. apply (inj Some) in Hx as <-.
    change (startup_inv t (MkStartup (release reason g) (AReturned leg true) e att looks)).
    unfold release. rewrite Hc. constructor; [exact H1|exact H2|exact H3|].
    split; [reflexivity|]. exact HJ.
  - done.
Qed.

Lemma startup_run_inv ops now w w' :
  startup_inv now w -> clock_runs now ops -> startup_run ops w = Some w' -> startup_inv (clock_now now ops) w'.
Proof.
  revert now w. induction ops as [|op ops IH]; intros now w I Hc Hr; simpl in Hr.
  { apply (inj Some) in Hr as <-. exact I. }
  destruct (startup_exec w op) as [w1|] eqn:Hx; [|done]. simpl in Hr.
  destruct op as [op|k|id|t ev].
  4:{ destruct Hc as [Ht Hc]. exact (IH _ _ (await_step_inv _ _ _ _ _ I Ht Hx) Hc Hr). }
  all: (refine (IH _ _ (other_inv now _ _ _ I _ Hx) Hc Hr); discriminate).
Qed.

Lemma new_startup_inv cfg grace w now :
  0 <= cf_StartupPreferredLeg cfg -> new_startup cfg grace = Some w ->
  startup_inv now w /\ se_maxActiveLegs (su_engine w) = slen (sg_terminal (su_gate w)).
Proof.
  intros Hp. unfold new_startup, newStreamStartupGate. rewrite bool_decide_eq_false_2 by auto.
  cbn [mbind option_bind]. intros <-%(inj Some).
  assert (1 <= se_maxActiveLegs (NewStreamEngine cfg)).
  { unfold NewStreamEngine, normalizeMaxActiveStreamLegs.
    unfold DefaultMaxActiveStreamLegs.
    destruct (bool_decide_reflect (cf_MaxActiveLegs cfg = 0)); simpl; [lia|].
    destruct (bool_decide_reflect (cf_MaxActiveLegs cfg < 1)); simpl; [lia|].
    destruct (bool_decide_reflect (MaxStreamLegIDCount < cf_MaxActiveLegs cfg)); simpl; lia. }
  set (e := NewStreamEngine cfg) in *. clearbody e.
  assert (slen (replicate (Z.to_nat (se_maxActiveLegs e)) false) = se_maxActiveLegs e) as El.
  { unfold slen. rewrite length_replicate. lia. }
  split; [|by simpl; rewrite El]. constructor; simpl; try done.
  - rewrite El. case_bool_decide; lia.
  - unfold MaxStreamStartupGrace, Second. repeat case_bool_decide; lia.
Qed.

(** ** Progress *)

Definition returns (t : time) (n : nat) (w : startup) (leg : Z) : Prop :=
  exists w', startup_run (replicate n (sop_await t AwWake)) w = Some w' /\ su_await w' = AReturned leg true.

Lemma returns_step t n w w1 leg : await_step t AwWake w = Some w1 -> returns t n w1 leg -> returns t (S n) w leg.
Proof. intros E (w' & Hr & Ha). exists w'. split; [|exact Ha]. simpl. rewrite E. exact Hr. Qed.

Section Arrived.
  Context (t : time) (g : streamStartupGate) (e : StreamEngine) (att : list Z).
  Context (Hclosed : sg_released g = false) (Hup : hasLeg e (sg_preferred g) = true).
  #[local] Set Default Proof Using "All".

Lemma decide_returns ot timer ex looks :
  returns t 2 (MkStartup g (ADecide true ot timer ex) e att looks) (sg_preferred g).
Proof. eapply returns_step; [reflexivity|]. eapply returns_step; [reflexivity|]. by eexists. Qed.

Lemma top_returns timer ex looks : returns t 5 (MkStartup g (ATop timer ex) e att looks) (sg_preferred g).
Proof.
  eapply returns_step. { unfold await_step. simpl. rewrite Hclosed. reflexivity. }
  eapply returns_step. { unfold await_step. simpl. rewrite Hup. reflexivity. }
  eapply returns_step; [reflexivity|]. apply decide_returns.
Qed.
End Arrived.

Lemma select_returns t g e att timer ex looks :
  sg_released g = false -> hasLeg e (sg_preferred g) = true -> sg_wake g = true ->
  returns t 6 (MkStartup g (ASelect timer ex) e att looks) (sg_preferred g).
Proof.
  intros Hc Hu Hw. eapply returns_step. { unfold await_step. simpl. rewrite Hw. reflexivity. }
  pose proof (top_returns t (g <| sg_wake := false |>) e att) as H. exact (H Hc Hu timer ex looks).
Qed.

Lemma arm_returns t g e att ot timer ex looks :
  sg_released g = false -> hasLeg e (sg_preferred g) = true -> sg_wake g = true ->
  returns t 7 (MkStartup g (AArm ot timer ex) e att looks) (sg_preferred g).
Proof.
  intros Hc Hu Hw.
  assert (Hs : forall st, exists g', setWaitingState st g = g' /\ sg_released g' = false /\
    sg_preferred g' = sg_preferred g /\ sg_wake g' = true).
  { intros st. eexists. split; [reflexivity|]. unfold setWaitingState. rewrite Hc. by case_bool_decide. }
  destruct ot; [destruct timer as [d|]|]; (eapply returns_step; [reflexivity|]).
  - exact (select_returns t g e att (Some d) ex looks Hc Hu Hw).
  - destruct (Hs streamStartupGrace) as (g' & <- & Hc' & Ep & Hw'). rewrite <- Ep in *.
    exact (select_returns t _ e att (Some (t + sg_grace g)) ex looks Hc' Hu Hw').
  - destruct (Hs streamStartupDataWaitingNoLeg) as (g' & <- & Hc' & Ep & Hw'). rewrite <- Ep in *.
    exact (select_returns t _ e att None false looks Hc' Hu Hw').
Qed.

Lemma decide_down_returns t g e att ot timer ex looks :
  sg_released g = false -> 0 <= sg_preferred g < slen (sg_terminal g) ->
  hasLeg e (sg_preferred g) = true -> sg_wake g = true ->
  exists n leg, (n <= 8)%nat /\ returns t n (MkStartup g (ADecide false ot timer ex) e att looks) leg.
Proof.
  intros Hc Hp Hu Hw.
  assert (Harm : forall ot, exists n leg, (n <= 7)%nat /\
    returns t n (MkStartup g (AArm ot timer ex) e att looks) leg).
  { intros ot'. exists 7%nat, (sg_preferred g). split; [lia|]. by apply arm_returns. }
  assert (Hrel : forall reason, exists n leg, (n <= 7)%nat /\
    returns t n (MkStartup g (ARelease reason (-1)) e att looks) leg).
  { intros reason. exists 1%nat, (-1). split; [lia|]. eapply returns_step; [reflexivity|]. by eexists. }
  destruct (slice_get_Some _ _ Hp) as [term Ht].
  assert (exists pc, await_step t AwWake (MkStartup g (ADecide false ot timer ex) e att looks) =
      Some (MkStartup g pc e att looks) /\
      exists n leg, (n <= 7)%nat /\ returns t n (MkStartup g pc e att looks) leg) as (pc & E & n & leg & Hn & Hr).
  { unfold await_step. simpl. destruct ot; simpl; [|eexists; split; [reflexivity|apply Harm]].
    unfold terminalPreferred. rewrite Ht. simpl.
    eexists. split; [reflexivity|]. destruct term; [apply Hrel|]. case_match; [apply Hrel|apply Harm]. }
  exists (S n), leg. split; [lia|]. by eapply returns_step.
Qed.

Lemma await_returns now t w :
  startup_inv now w ->
  hasLeg (su_engine w) (sg_preferred (su_gate w)) = true -> sg_preferred (su_gate w) ∉ su_attaching w ->
  (forall leg r, su_await w <> AReturned leg r) ->
  exists n leg, (n <= 9)%nat /\ returns t n w leg /\
    (forall timer ex, su_await w = ASelect timer ex -> leg = sg_preferred (su_gate w)).
Proof.
  intros [Hp _ _ Ha] Hup Hatt Hnr. destruct w as [g pc e att looks]. unfold await_inv in Ha. simpl in *.
  destruct pc as [|timer ex|timer ex|pr timer ex|pr ot timer ex|ot timer ex|timer ex|reason leg|leg r].
  - exists 6%nat, (sg_preferred g). split; [lia|]. split; [|done].
    eapply returns_step. { unfold await_step. simpl. rewrite Ha. reflexivity. }
    exact (top_returns t g e att Ha Hup None false looks).
  - destruct Ha as [Hc _]. exists 5%nat, (sg_preferred g). split; [lia|]. split; [|done]. by apply top_returns.
  - destruct Ha as [Hc _]. exists 4%nat, (sg_preferred g). split; [lia|]. split; [|done].
    eapply returns_step. { unfold await_step. simpl. rewrite Hup. reflexivity. }
    eapply returns_step; [reflexivity|]. by apply decide_returns.
  - destruct Ha as (Hc & _ & Htold). destruct pr.
    + exists 3%nat, (sg_preferred g). split; [lia|]. split; [|done].
      eapply returns_step; [reflexivity|]. by apply decide_returns.
    + destruct (decide_down_returns t g e att (hasOtherReady g e) timer ex
        (looks ++ [MkLook t false (hasOtherReady g e)])) as (n & leg & Hn & Hr); auto.
      exists (S n), leg. split; [lia|]. split; [|done]. eapply returns_step; [reflexivity|]. exact Hr.
  - destruct Ha as (Hc & Htold & _). destruct pr.
    + exists 2%nat, (sg_preferred g). split; [lia|]. split; [|done]. by apply decide_returns.
    + destruct (decide_down_returns t g e att ot timer ex looks) as (n & leg & Hn & Hr); auto.
      exists n, leg. split; [lia|]. split; done.
  - destruct Ha as (Hc & Htold & _). exists 7%nat, (sg_preferred g). split; [lia|]. split; [|done].
    apply arm_returns; auto.
  - destruct Ha as (Hc & Htold & _). exists 6%nat, (sg_preferred g). split; [lia|]. split; [|done].
    apply select_returns; auto.
  - exists 1%nat, leg. split; [lia|]. split; [|done]. eapply returns_step; [reflexivity|]. by eexists.
  - by destruct (Hnr leg r).
Qed.

(** ** Claims *)

(** C16. The startup gate opens only for a reason: in every run of a session with the
    preferred-leg policy, once the gate is released [await] has returned, and its last
    look at the registry justifies the recorded reason and the leg it returned.  It saw
    the preferred leg, and returned it; or it saw another leg and not the preferred one,
    returned no preference, and either the preferred leg had been declared unavailable,
    or the grace is zero, or all its looks over a span of at least the grace were so.  A
    return that stops the sender happens only when the session has ended or is ending, and leaves
    the gate shut. *)
Theorem startup_release_justified cfg grace w0 now ops w :
  0 <= cf_StartupPreferredLeg cfg -> new_startup cfg grace = Some w0 ->
  clock_runs now ops -> startup_run ops w0 = Some w ->
  (sg_released (su_gate w) = true -> exists leg,
     su_await w = AReturned leg true /\
     justified (su_gate w) (su_looks w) (sg_releaseReason (su_gate w)) leg) /\
  (forall leg, su_await w = AReturned leg false ->
     sg_released (su_gate w) = false /\
     (se_done (su_engine w) = true \/ se_graceful (su_engine w) = true)).
Proof.
  intros Hp Hn Hc Hr. destruct (new_startup_inv _ _ _ now Hp Hn) as [I _].
  destruct (startup_run_inv _ _ _ _ I Hc Hr) as [_ _ _ Ha]. unfold await_inv in Ha. clear Hr Hn Hc I.
  split.
  - intros Hrel. rewrite Hrel in Ha.
    destruct (su_await w) as [| | | | | | |reason leg|leg []]; try discriminate; try (destruct Ha as [Ha0 _]; discriminate Ha0).
    exists leg. split; [done|apply Ha].
  - intros leg Hw. by rewrite Hw in Ha.
Qed.

Definition waiting_cfg : StreamConfig := MkConfig 2 0 false StreamPathRoleClient 4 [10; 20] true false 0.
(** One iteration of [await], up to its select. *)
Definition iterate (now : time) : list startup_op := replicate 5 (sop_await now AwWake).
(** [await] finds no leg; leg 1 comes up. *)
Definition waiting_ops : list startup_op :=
  [sop_await 0 AwWake] ++ iterate 0 ++
  [sop_leg (lo_attach 1 None 0 0); sop_notify 0; sop_await 5 AwWake] ++ iterate 5.
(** The grace passes. *)
Definition graced_ops : list startup_op :=
  waiting_ops ++ [sop_await (5 + Second) AwTimer] ++ iterate (5 + Second).
Definition startup_after (ops : list startup_op) : startup :=
  let w := default (MkStartup (MkGate 0 0 streamStartupNoData [] [] false false false false StartupReleaseNone)
    AEntry (NewStreamEngine waiting_cfg) [] []) (new_startup waiting_cfg Second) in
  default w (startup_run ops w).
Definition graced : startup := startup_after graced_ops.

Lemma graced_facts :
  new_startup waiting_cfg Second = Some (startup_after []) /\
  startup_run graced_ops (startup_after []) = Some graced /\
  sg_released (su_gate graced) = true /\ sg_releaseReason (su_gate graced) = StartupReleaseGraceExpired /\
  map lk_at (su_looks graced) = [0; 5; 5 + Second].
Proof. vm_compute. exact (conj eq_refl (conj eq_refl (conj eq_refl (conj eq_refl eq_refl)))). Qed.

Lemma startup_release_justified_witness :
  exists leg, su_await graced = AReturned leg true /\
  justified (su_gate graced) (su_looks graced) (sg_releaseReason (su_gate graced)) leg.
Proof.
  destruct graced_facts as (A & B & C & _).
  apply (startup_release_justified waiting_cfg Second (startup_after []) 0 graced_ops graced); [|exact A| |exact B|exact C].
  - simpl. lia.
  - vm_compute. repeat split; discriminate.
Defined.

(** C15. No wakeup of the startup gate is lost: in every run, whenever the preferred leg is
    up and the attaching goroutine has finished, an [await] that has not returned returns
    within nine of its own steps, without a timer and without any other goroutine; and if
    it was blocked in its select it returns the preferred leg. *)
Theorem startup_no_lost_wakeup cfg grace w0 now ops w t :
  0 <= cf_StartupPreferredLeg cfg -> new_startup cfg grace = Some w0 ->
  clock_runs now ops -> startup_run ops w0 = Some w ->
  hasLeg (su_engine w) (sg_preferred (su_gate w)) = true -> sg_preferred (su_gate w) ∉ su_attaching w ->
  (forall leg r, su_await w <> AReturned leg r) ->
  exists n w' leg, (n <= 9)%nat /\
    startup_run (replicate n (sop_await t AwWake)) w = Some w' /\ su_await w' = AReturned leg true /\
    (forall timer expired, su_await w = ASelect timer expired -> leg = sg_preferred (su_gate w)).
Proof.
  intros Hp Hn Hc Hr Hup Hatt Hnr. destruct (new_startup_inv _ _ _ now Hp Hn) as [I _].
  destruct (await_returns _ t _ (startup_run_inv _ _ _ _ I Hc Hr) Hup Hatt Hnr)
    as (n & leg & Hle & (w' & Hrun & Haw) & Hsel).
  exists n, w', leg. auto.
Qed.

(** The preferred leg comes up while [await] is blocked with its timer running. *)
Definition arrived_ops : list startup_op := waiting_ops ++ [sop_leg (lo_attach 0 None 0 0); sop_notify 0].
Definition arrived : startup := startup_after arrived_ops.

Lemma arrived_facts :
  new_startup waiting_cfg Second = Some (startup_after []) /\
  startup_run arrived_ops (startup_after []) = Some arrived /\
  hasLeg (su_engine arrived) (sg_preferred (su_gate arrived)) = true /\
  su_attaching arrived = [] /\ su_await arrived = ASelect (Some (5 + Second)) false /\
  sg_preferred (su_gate arrived) = 0.
Proof. vm_compute. exact (conj eq_refl (conj eq_refl (conj eq_refl (conj eq_refl (conj eq_refl eq_refl))))). Qed.

Lemma startup_no_lost_wakeup_witness :
  exists n w', (n <= 9)%nat /\ startup_run (replicate n (sop_await 6 AwWake)) arrived = Some w' /\
    su_await w' = AReturned 0 true.
Proof.
  destruct arrived_facts as (A & B & C & D & E & F).
  destruct (startup_no_lost_wakeup waiting_cfg Second (startup_after []) 0 arrived_ops arrived 6)
    as (n & w' & leg & Hn & Hr & Hw & Hl).
  - simpl. lia.
  - exact A.
  - vm_compute. repeat split; discriminate.
  - exact B.
  - exact C.
  - rewrite D. apply not_elem_of_nil.
  - intros leg r. rewrite E. discriminate.
  - exists n, w'. split; [exact Hn|]. split; [exact Hr|]. rewrite (Hl _ _ E), F in Hw. exact Hw.
Defined.
