(* ===== verification/Float64.v ===== *)
(** * Floating-point numbers

    Go's [float64] is IEEE 754 binary64 with rounding to nearest even.  The arithmetic is
    that of the Standard Library's [SpecFloat], which computes on integers and assumes
    nothing.  Every operation rounds by itself: a compiler that fuses a multiplication and
    an addition gives other last digits.  The conversion to an integer of a value outside
    its range is left open by the language: it is an instance of [FloatConversion]. *)

From Stdlib Require Import Floats.SpecFloat.
From S2P Require Import Prelude.
From stdpp Require Import options.
#[local] Open Scope Z_scope.

Definition float64 : Type := spec_float.
#[export] Instance float64_eq_dec : EqDecision float64.
Proof. solve_decision. Defined.

Definition f_zero : float64 := S754_zero false.
(** [float64(n)] of an integer *)
Definition f_of (n : Z) : float64 := binary_normalize 53 1024 n 0 false.
Definition f_add : float64 -> float64 -> float64 := SFadd 53 1024.
Definition f_sub : float64 -> float64 -> float64 := SFsub 53 1024.
Definition f_mul : float64 -> float64 -> float64 := SFmul 53 1024.
Definition f_div : float64 -> float64 -> float64 := SFdiv 53 1024.
Definition f_lt : float64 -> float64 -> bool := SFltb.
Definition f_le : float64 -> float64 -> bool := SFleb.
Definition f_eq : float64 -> float64 -> bool := SFeqb.
(** The literal [n/d]: the nearest number. *)
Definition f_lit (n d : Z) : float64 := f_div (f_of n) (f_of d).

Declare Scope float_scope.
Delimit Scope float_scope with float.
Infix "+" := f_add : float_scope.
Infix "-" := f_sub : float_scope.
Infix "*" := f_mul : float_scope.
Infix "/" := f_div : float_scope.

(** The integer part; [None] for an infinity and a NaN. *)
Definition f_trunc (f : float64) : option Z :=
  match f with
  | S754_zero _ => Some 0
  | S754_finite s m e => Some (cond_Zopp s (Z.shiftl (Zpos m) e))
  | _ => None
  end.

(** [math.Ceil] *)
Definition f_ceil (f : float64) : float64 :=
  match f with
  | S754_finite s m e => f_of (- Z.shiftl (- cond_Zopp s (Zpos m)) e)
  | _ => f
  end.

(** What the compiler makes of a value out of range. *)
Class FloatConversion := float_out_of_range : float64 -> Z.

Definition f_to_u64 `{FloatConversion} (f : float64) : Z :=
  match f_trunc f with
  | Some n => if bool_decide (0 <= n < 2 ^ 64) then n else u64 (float_out_of_range f)
  | None => u64 (float_out_of_range f)
  end.
Definition f_to_int `{FloatConversion} (f : float64) : Z :=
  match f_trunc f with
  | Some n => if bool_decide (- 2 ^ 63 <= n < 2 ^ 63) then n else i64 (float_out_of_range f)
  | None => i64 (float_out_of_range f)
  end.

(** The instruction of amd64 gives the smallest integer. *)
Definition amd64_conversion : FloatConversion := fun _ => 2 ^ 63.

(** [Duration.Seconds] *)
Definition seconds (d : duration) : float64 :=
  (f_of (Z.quot d Second) + f_of (Z.rem d Second) / f_of 1000000000)%float.

Example half_of_three : f_trunc (f_div (f_of 3) (f_of 2)) = Some 1 /\ f_ceil (f_lit 3 2) = f_of 2.
Proof. by vm_compute. Qed.
Example tenth : f_add (f_lit 1 10) (f_lit 2 10) <> f_lit 3 10.
Proof. by vm_compute. Qed.
