(* ===== verification/Admission.v ===== *)
(** * Slow-leg protection

    [core/stream_admission.go]: a leg that holds the acknowledgement frontier back is
    restricted; after a cooldown one record probes it; a probe that reaches the carrier
    puts it on probation, where confirmed bytes double its allowance until it is normal
    again.

    [admission.mu] protects the states of the legs: each function that takes it is one
    step, or as many steps as it has critical sections, and what it has read before under
    other locks is an argument of the step.  The capacity provider is an interface of the
    engine: its [Weight] method at the time of a call is an argument.  A call reads the
    clock once.  Traces, telemetry and wakeups are left out. *)

From S2P Require Import Prelude Float64 PathProtocol TxLedger Repair RttCache Legs.
From stdpp Require Import options.
#[local] Open Scope Z_scope.

(** ** Data *)

Definition streamRestrictionCooldown : duration := 5 * Second.
Definition streamOrdinaryMaxBytes : Z := Z.shiftl 16 20.

Record streamAdmissionLeg := MkAdmissionLeg {
  ad_restricted : bool;
  ad_recovering : bool;
  ad_probePending : bool;
  ad_probeSequence : Z;
  ad_probeSequenceSet : bool;
  ad_probeExpired : bool;
  ad_probeExpiredSequence : Z;
  ad_probePendingAt : time;
  ad_since : time;
  ad_nextProbe : time;
  ad_limit : Z;
  ad_proofs : Z;
  ad_proofAfter : Z;
  ad_byteLimit : Z;
  ad_proofBytes : Z;
  ad_feedback : duration;
  ad_feedbackAt : time;
  ad_feedbackMax : duration;
  ad_feedbackMaxAt : time;
  ad_probeWindow : time;
  ad_probeBytes : Z;
  ad_probeRate : float64;
  ad_serviceWindow : time;
  ad_serviceAt : time;
  ad_serviceBytes : Z;
  ad_serviceRate : float64;
  ad_openingRate : float64;
  ad_seedMbps : float64;
  ad_reason : string;
  ad_recoveryEpoch : Z;
  ad_suspectSince : time;
  ad_suspectAt : time
}.
#[export] Instance streamAdmissionLeg_fields : Fields streamAdmissionLeg := fun s =>
  MkAdmissionLeg (ad_restricted s) (ad_recovering s) (ad_probePending s) (ad_probeSequence s)
    (ad_probeSequenceSet s) (ad_probeExpired s) (ad_probeExpiredSequence s) (ad_probePendingAt s)
    (ad_since s) (ad_nextProbe s) (ad_limit s) (ad_proofs s) (ad_proofAfter s) (ad_byteLimit s)
    (ad_proofBytes s) (ad_feedback s) (ad_feedbackAt s) (ad_feedbackMax s) (ad_feedbackMaxAt s)
    (ad_probeWindow s) (ad_probeBytes s) (ad_probeRate s) (ad_serviceWindow s) (ad_serviceAt s)
    (ad_serviceBytes s) (ad_serviceRate s) (ad_openingRate s) (ad_seedMbps s) (ad_reason s)
    (ad_recoveryEpoch s) (ad_suspectSince s) (ad_suspectAt s).
Definition zero_admission : streamAdmissionLeg :=
  MkAdmissionLeg false false false 0 false false 0 zero_time zero_time zero_time 0 0 0 0 0 0 zero_time 0
    zero_time zero_time 0 f_zero zero_time zero_time 0 f_zero f_zero f_zero "" 0 zero_time zero_time.

(** The fields of the configuration that admission reads. *)
Record AdmissionConfig := MkAdmissionConfig {
  ac_ChunkSize : Z;
  ac_MaxInflightFrames : Z;
  ac_MaxReorderFrames : Z;
  ac_AckInterval : duration;
  ac_RetransmitTimeout : duration;
  ac_ActivationWindow : duration
}.

Record admission_engine := MkAdmission {
  ae_cfg : AdmissionConfig;
  ae_engine : StreamEngine;
  ae_legs : list streamAdmissionLeg
}.
#[export] Instance admission_engine_fields : Fields admission_engine := fun w =>
  MkAdmission (ae_cfg w) (ae_engine w) (ae_legs w).

(** [capacityProvider.Weight]; [None]: there is no provider. *)
Notation provider := (option (Z -> float64 -> float64)) (only parsing).

Definition slowLegProtection (w : admission_engine) : bool := cf_slowLegProtection (se_cfg (ae_engine w)).
Definition ledger (w : admission_engine) : StreamTXLedger := se_txLedger (ae_engine w).

Definition validAdmissionLeg (w : admission_engine) (id : Z) : bool :=
  bool_decide (id < slen (ae_legs w)) && bool_decide (id < slen (se_legGeneration (ae_engine w))).

(** [&c.admission.legs[id]] *)
Definition leg_at (w : admission_engine) (id : Z) : streamAdmissionLeg :=
  default zero_admission (slice_get (ae_legs w) id).
Definition set_leg (id : Z) (s : streamAdmissionLeg) (w : admission_engine) : admission_engine :=
  w <| ae_legs ::= <[Z.to_nat id := s]> |>.

Definition available_legs (w : admission_engine) : list streamLeg :=
  omap (fun p => se_heap (ae_engine w) !! p) (availableLegs (ae_engine w)).

Definition admissionLegIDs (w : admission_engine) : list Z :=
  List.filter (fun id => validAdmissionLeg w id)
    (sl_id <$> List.filter (fun l => negb (sl_closed l)) (available_legs w)).

Definition weightFor (e : StreamEngine) (id : Z) : Z :=
  let configured := match slice_get (cf_BandwidthMbps (se_cfg e)) id with
                    | Some m => if bool_decide (0 < m) then m else 1
                    | None => 1 end in
  match getLeg e id ≫= fun p => se_heap e !! p with
  | Some l => if bool_decide (0 < sl_priorMbps l) then sl_priorMbps l else configured
  | None => configured
  end.

(** The best companion so far, whether it is normal, and its rate. *)
Definition alternate_step (w : admission_engine) (legs : list streamAdmissionLeg) (id : Z)
    (best : option (Z * bool * float64)) (candidate : Z) : option (Z * bool * float64) :=
  if bool_decide (candidate = id) || negb (validAdmissionLeg w candidate) then best else
  let state := default zero_admission (slice_get legs candidate) in
  let healthy := negb (ad_restricted state) && negb (ad_recovering state) in
  let rate := ad_serviceRate state in
  let rate := if f_lt rate (ad_openingRate state) then ad_openingRate state else rate in
  let rate := if f_le rate f_zero
              then (f_of (weightFor (ae_engine w) candidate) * f_of 1000000 / f_of 8)%float else rate in
  match best with
  | None => Some (candidate, healthy, rate)
  | Some (b, bestHealthy, bestRate) =>
    if (healthy && negb bestHealthy) || (eqb healthy bestHealthy && f_lt bestRate rate)
       || (eqb healthy bestHealthy && f_eq rate bestRate && bool_decide (candidate < b))
    then Some (candidate, healthy, rate) else best
  end.

(** [legs] is the value of [admission.legs] at the time of the call. *)
Definition alternateIDLocked (w : admission_engine) (legs : list streamAdmissionLeg) (id : Z)
    (active : list Z) : option Z :=
  (fun best => best.1.1) <$> fold_left (alternate_step w legs id) active None.

(** ** Budgets *)

Definition base_weight (w : admission_engine) (capacityProvider : provider) (id : Z) : float64 :=
  let weight := f_of (weightFor (ae_engine w) id) in
  match capacityProvider with Some Weight => Weight id weight | None => weight end.

(** [effectiveSchedulerWeight] with slow-leg protection, that is in the aggregation mode
    with dynamic capacity. *)
Definition effectiveSchedulerWeight (w : admission_engine) (capacityProvider : provider) (id : Z) : float64 :=
  let state := leg_at w id in
  if ad_recovering state && f_lt f_zero (ad_seedMbps state) then ad_seedMbps state else
  if ad_recovering state then f_of (weightFor (ae_engine w) id)
  else base_weight w capacityProvider id.

Definition ordinaryHardBytes (cfg : AdmissionConfig) : Z :=
  fold_left (fun most frames =>
    if bool_decide (0 < frames) then
      let n := u64 (frames * ac_ChunkSize cfg) in
      if bool_decide (n < most) then n else most
    else most) [ac_MaxInflightFrames cfg; ac_MaxReorderFrames cfg] streamOrdinaryMaxBytes.

Definition feedbackHorizon (cfg : AdmissionConfig) (s : streamAdmissionLeg) (now : time) : duration :=
  if bool_decide (ad_feedback s <= 0) || bool_decide (30 * Second < time_sub now (ad_feedbackAt s)) then 0 else
  let margin := Z.quot (ad_feedback s) 4 in
  let queueMargin := ac_AckInterval cfg + Z.quot streamProbeBudget 4 in
  let margin := if bool_decide (margin < queueMargin) then queueMargin else margin in
  let horizon := ad_feedback s + margin in
  if bool_decide (2 * Second < horizon) then 2 * Second else horizon.

Section Budgets.
  Context `{FloatConversion}.
  Implicit Types (w : admission_engine) (cfg : AdmissionConfig).

Definition frameBudget cfg (weight : float64) : Z :=
  let chunk := if bool_decide (ac_ChunkSize cfg <= 0) then Z.shiftl 64 10 else ac_ChunkSize cfg in
  let n := f_to_int (f_ceil (weight * f_of 1000000 / f_of 8 * f_lit 1 4 / f_of chunk)%float) in
  let most := if bool_decide (ac_MaxInflightFrames cfg < 2) then 2 else ac_MaxInflightFrames cfg in
  let byteFrames := Z.quot streamOrdinaryMaxBytes chunk in
  let byteFrames := if bool_decide (byteFrames < 2) then 2 else byteFrames in
  let most := if bool_decide (byteFrames < most) then byteFrames else most in
  let n := if bool_decide (n < 2) then 2 else n in
  if bool_decide (most < n) then most else n.

Definition ordinaryBudget w (capacityProvider : provider) (id : Z) : Z :=
  frameBudget (ae_cfg w) (base_weight w capacityProvider id).

(** The service a leg is taken to have, when that was sampled, and the weight. *)
Definition service_of (self alternate : streamAdmissionLeg) (weight : float64) (now : time)
  : float64 * time * float64 :=
  let '(service, sampled) := if f_eq (ad_serviceRate self) f_zero then (ad_openingRate self, ad_since self)
                             else (ad_serviceRate self, ad_serviceAt self) in
  let sampled := if is_zero sampled then ad_since self else sampled in
  if ad_recovering alternate || ad_restricted alternate then
    let '(service, sampled) := if f_lt service (ad_openingRate alternate)
                               then (ad_openingRate alternate, now) else (service, sampled) in
    let mbps := (service * f_of 8 / f_of 1000000)%float in
    (service, sampled, if f_lt weight mbps then mbps else weight)
  else (service, sampled, weight).

(** The time, in seconds, that the outstanding bytes should cover. *)
Definition horizon_of cfg (self alternate : streamAdmissionLeg) (now : time) : float64 :=
  let horizon := (f_lit 1 4 + seconds (feedbackHorizon cfg self now))%float in
  let horizon :=
    if negb (ad_restricted self) && negb (ad_recovering self) && negb (ad_recovering alternate)
       && negb (ad_restricted alternate) && bool_decide (0 < ad_feedbackMax self)
       && bool_decide (time_sub now (ad_feedbackMaxAt self) < 30 * Second)
    then
      let observed := if bool_decide (2 * Second < ad_feedbackMax self) then 2 * Second else ad_feedbackMax self in
      let h := (f_lit 1 4 + seconds observed)%float in
      if f_lt horizon h then h else horizon
    else horizon in
  if ad_recovering alternate then
    let base := if bool_decide (30 * Second < time_sub now (ad_feedbackAt self)) then f_zero
                else seconds (ad_feedback self) in
    let smaller := (base + seconds (ac_AckInterval cfg) + f_lit 1 20)%float in
    if f_lt smaller horizon then smaller else horizon
  else horizon.

(** The bytes that [weight] Mbit/s fill in [horizon] seconds, within bounds. *)
Definition byte_budget cfg (weight horizon : float64) : float64 :=
  let budget := (weight * f_of 1000000 / f_of 8 * horizon)%float in
  let minimum := f_of (2 * ac_ChunkSize cfg) in
  let budget := if f_lt budget minimum then minimum else budget in
  let maxBytes := f_of (ordinaryHardBytes cfg) in
  if f_lt maxBytes budget then maxBytes else budget.

Definition ordinaryByteBudget w (capacityProvider : provider) (id : Z) (now : time) : Z :=
  let weight := base_weight w capacityProvider id in
  let self := leg_at w id in
  let alternate := match alternateIDLocked w (ae_legs w) id (admissionLegIDs w) with
                   | Some peer => leg_at w peer
                   | None => zero_admission end in
  let '(service, sampled, weight) := service_of self alternate weight now in
  let capped := (service * f_of 8 / f_of 1000000 * f_lit 5 4)%float in
  let weight := if f_lt f_zero service && bool_decide (time_sub now sampled < 30 * Second)
                   && f_lt capped weight then capped else weight in
  f_to_u64 (byte_budget (ae_cfg w) weight (horizon_of (ae_cfg w) self alternate now)).

(** [None]: an index out of range. *)
Definition ordinaryEligible w (capacityProvider : provider) (id count : Z) (now : time) : option bool :=
  if negb (slowLegProtection w) || negb (validAdmissionLeg w id) then Some true else
  let bytes := (OrdinaryAdmissionBytesByLeg (ledger w)).1 in
  let budget := ordinaryByteBudget w capacityProvider id now in
  let s := leg_at w id in
  if ad_restricted s then
    Some (negb (ad_probePending s) && bool_decide (count = 0) && negb (before now (ad_nextProbe s))) else
  if ad_recovering s then
    if bool_decide (count < ad_limit s) then
      if bool_decide (ad_byteLimit s = 0) then Some true else
      let! b := slice_get bytes id in Some (bool_decide (b < ad_byteLimit s))
    else Some false
  else
    Some (bool_decide (count < ac_MaxInflightFrames (ae_cfg w)) &&
          match slice_get bytes id with Some b => bool_decide (b < budget) | None => false end).

End Budgets.

(** ** Restriction and probes *)

Definition advanceRecoveryEpochLocked (s : streamAdmissionLeg) : streamAdmissionLeg :=
  if bool_decide (ad_recoveryEpoch s = max_u64) then s else s <| ad_recoveryEpoch ::= Z.succ |>.

(** [s.probePending, s.probeSequence, s.probeSequenceSet = false, 0, false]; [probePendingAt] too. *)
Definition end_pending (s : streamAdmissionLeg) : streamAdmissionLeg :=
  s <| ad_probePending := false |> <| ad_probeSequence := 0 |> <| ad_probeSequenceSet := false |>
    <| ad_probePendingAt := zero_time |>.

(** [s.restricted, s.recovering = true, false], for a cooldown from [now]. *)
Definition begin_restriction (now : time) (reason : string) (s : streamAdmissionLeg) : streamAdmissionLeg :=
  s <| ad_restricted := true |> <| ad_recovering := false |> <| ad_since := now |>
    <| ad_nextProbe := time_add now streamRestrictionCooldown |> <| ad_reason := reason |>
    <| ad_proofs := 0 |> <| ad_proofBytes := 0 |>.

Definition reset_probe_meter (s : streamAdmissionLeg) : streamAdmissionLeg :=
  s <| ad_probeWindow := zero_time |> <| ad_probeBytes := 0 |> <| ad_probeRate := f_zero |>.

Definition restrictOrdinaryLocked (now : time) (reason : string) (s : streamAdmissionLeg)
  : bool * streamAdmissionLeg :=
  if ad_restricted s then (false, s) else
  let s := begin_restriction now reason (end_pending (advanceRecoveryEpochLocked s)) in
  let s := s <| ad_probeExpired := false |> <| ad_probeExpiredSequence := 0 |> in
  (true, reset_probe_meter s <| ad_feedbackMax := 0 |> <| ad_feedback := 0 |> <| ad_feedbackAt := zero_time |>).

Definition restrictOrdinary (id : Z) (now : time) (reason : string) (w : admission_engine)
  : bool * admission_engine :=
  if negb (validAdmissionLeg w id) then (false, w) else
  let '(applied, s) := restrictOrdinaryLocked now reason (leg_at w id) in
  (applied, set_leg id s w).

(** The probe of [sequence] has not been written within its budget. *)
Definition expire_probe (sequence : Z) (at_ : time) (s : streamAdmissionLeg) : streamAdmissionLeg :=
  let s := end_pending s <| ad_probeExpired := true |> <| ad_probeExpiredSequence := sequence |> in
  begin_restriction at_ "probe_write_start_timeout" (advanceRecoveryEpochLocked s).

(** The pending probe is, or may be, this record. *)
Definition probe_is (sequence : Z) (s : streamAdmissionLeg) : bool :=
  ad_probePending s && (negb (ad_probeSequenceSet s) || bool_decide (ad_probeSequence s = sequence)).

Definition prewrite_timeout (now : time) (s : streamAdmissionLeg) : bool :=
  negb (is_zero (ad_probePendingAt s)) && bool_decide (streamProbeBudget <= time_sub now (ad_probePendingAt s)).

(** Whether the write may begin; whether the record is stamped as the probe. *)
Definition recoveryProbeWriteStartedLocked (sequence : Z) (at_ : time) (ackedNext : Z)
    (s : streamAdmissionLeg) : bool * bool * streamAdmissionLeg :=
  if ad_probeExpired s && bool_decide (ad_probeExpiredSequence s = sequence) then (false, false, s) else
  if negb (probe_is sequence s) then (true, false, s) else
  if prewrite_timeout at_ s then (false, false, expire_probe sequence at_ s) else
  let s := end_pending s <| ad_probeExpired := false |> <| ad_probeExpiredSequence := 0 |> in
  (true, true, s <| ad_restricted := false |> <| ad_recovering := true |> <| ad_since := at_ |>
                 <| ad_reason := "unique_probe" |> <| ad_proofAfter := ackedNext |>).

(** [record.recoveryProbeWriteStartedAt.Store] *)
Definition stamp (p : ptr) (started : option time) (w : admission_engine) : admission_engine :=
  w <| ae_engine ::= upd_ledger (fun l => match lg_heap l !! p with
    | Some r => store p (r <| tr_recoveryProbeWriteStartedAt := started |>) l
    | None => l end) |>.

(** The sequence of a record; it never changes. *)
Definition sequence_of (w : admission_engine) (p : ptr) : option Z := tr_sequence <$> lg_heap (ledger w) !! p.

(** [ackedNext] was read before the lock.  [None]: no such record. *)
Definition recoveryProbeWriteStarted (id : Z) (p : ptr) (at_ : time) (ackedNext : Z) (w : admission_engine)
  : option (bool * admission_engine) :=
  if negb (slowLegProtection w) || negb (validAdmissionLeg w id) then Some (true, w) else
  let! sequence := sequence_of w p in
  let '(may, stamped, s) := recoveryProbeWriteStartedLocked sequence at_ ackedNext (leg_at w id) in
  let w := set_leg id s w in
  Some (may, if (stamped : bool) then stamp p (Some at_) w else w).

Definition cancelPendingRecoveryProbe (id sequence : Z) (now : time) (w : admission_engine) : admission_engine :=
  if negb (validAdmissionLeg w id) then w else
  let s := leg_at w id in
  if probe_is sequence s then
    set_leg id (end_pending s <| ad_probeExpired := true |> <| ad_probeExpiredSequence := sequence |>
                  <| ad_reason := "probe_reassigned_before_write" |> <| ad_since := now |>) w
  else w.

Definition expirePendingRecoveryProbe (id sequence : Z) (now : time) (w : admission_engine)
  : bool * admission_engine :=
  if negb (validAdmissionLeg w id) then (false, w) else
  let s := leg_at w id in
  if probe_is sequence s && prewrite_timeout now s then (true, set_leg id (expire_probe sequence now s) w)
  else (false, w).

Definition ordinaryOwnerAllowed (id : Z) (w : admission_engine) : bool :=
  negb (slowLegProtection w) || (validAdmissionLeg w id && negb (ad_restricted (leg_at w id))).

Definition pendingRecoveryProbeOwner (id sequence : Z) (w : admission_engine) : bool :=
  slowLegProtection w && validAdmissionLeg w id &&
  let s := leg_at w id in
  ad_restricted s && ad_probePending s && ad_probeSequenceSet s && bool_decide (ad_probeSequence s = sequence)
  && (negb (ad_probeExpired s) || bool_decide (ad_probeExpiredSequence s <> sequence)).

(** [ordinaryAssignedRecord] under the lock: a restricted leg is given its probe.
    [frontier], [seed] and the service rate of the companion were read before. *)
Definition assign_probe (record : option Z) (now : time) (probeBytes frontier : Z) (seed : float64)
    (peerRate : option float64) (s : streamAdmissionLeg) : streamAdmissionLeg :=
  let s := s <| ad_probePending := true |> <| ad_probePendingAt := now |>
             <| ad_probeSequence := default 0 record |>
             <| ad_probeSequenceSet := bool_decide (is_Some record) |> in
  let s := if match record with
              | Some sequence => negb (ad_probeExpired s) || bool_decide (ad_probeExpiredSequence s <> sequence)
              | None => true end
           then s <| ad_probeExpired := false |> <| ad_probeExpiredSequence := 0 |> else s in
  let s := s <| ad_recovering := false |> <| ad_limit := 1 |> <| ad_proofs := 0 |>
             <| ad_since := now |> <| ad_reason := "probe_pending_write" |> <| ad_proofAfter := frontier |>
             <| ad_seedMbps := seed |> <| ad_openingRate := default f_zero peerRate |> in
  reset_probe_meter s <| ad_serviceRate := f_zero |> <| ad_serviceAt := zero_time |>
    <| ad_serviceWindow := zero_time |> <| ad_serviceBytes := 0 |>
    <| ad_byteLimit := probeBytes |> <| ad_proofBytes := 0 |>.

Definition assigned_locked (w : admission_engine) (id : Z) (record : option Z) (now : time)
    (probeBytes frontier : Z) (active : list Z) (seed : float64) (s : streamAdmissionLeg) : streamAdmissionLeg :=
  let peerRate := (fun peer => ad_serviceRate (leg_at w peer)) <$> alternateIDLocked w (ae_legs w) id active in
  let s := if ad_restricted s && negb (ad_probePending s)
           then assign_probe record now probeBytes frontier seed peerRate s else s in
  if ad_probePending s && bool_decide (ad_byteLimit s = 0) then s <| ad_byteLimit := probeBytes |> else s.

(** A probe starts: the stamp of an earlier one is removed. *)
Definition starts_probe (w : admission_engine) (id : Z) : bool :=
  ad_restricted (leg_at w id) && negb (ad_probePending (leg_at w id)).

Definition assigned_step (id : Z) (record : option ptr) (now : time) (probeBytes frontier : Z)
    (active : list Z) (seed : float64) (w : admission_engine) : admission_engine :=
  let s := assigned_locked w id (record ≫= sequence_of w) now probeBytes frontier active seed (leg_at w id) in
  match record with
  | Some p => if starts_probe w id then stamp p None (set_leg id s w) else set_leg id s w
  | None => set_leg id s w
  end.

(** The largest weight among the leg's own prior and the other active legs. *)
Definition seed_for (w : admission_engine) (capacityProvider : provider) (id : Z) (active : list Z) : float64 :=
  fold_left (fun seed candidate =>
    if bool_decide (candidate = id) || negb (hasLeg (ae_engine w) candidate) then seed else
    let weight := effectiveSchedulerWeight w capacityProvider candidate in
    if f_lt seed weight then weight else seed) active (f_of (weightFor (ae_engine w) id)).

Definition ordinaryAssignedRecord (capacityProvider : provider) (id : Z) (record : option ptr) (now : time)
    (actualBytes : option Z) (w : admission_engine) : admission_engine :=
  if negb (slowLegProtection w) || negb (validAdmissionLeg w id) then w else
  let probeBytes := match actualBytes with
                    | Some n => if bool_decide (0 < n) then n else ac_ChunkSize (ae_cfg w)
                    | None => ac_ChunkSize (ae_cfg w) end in
  let active := admissionLegIDs w in
  assigned_step id record now probeBytes (pr_AckedNext (ProgressSnapshot (ledger w))) active
    (seed_for w capacityProvider id active) w.

(** [admissionRejoined] for the leg, after the new generation has been stored. *)
Definition rejoin (now : time) (frontier : Z) (s : streamAdmissionLeg) : streamAdmissionLeg :=
  let s := end_pending s <| ad_probeExpired := false |> <| ad_probeExpiredSequence := 0 |> in
  let s := s <| ad_feedback := 0 |> <| ad_feedbackAt := zero_time |> <| ad_feedbackMax := 0 |>
             <| ad_feedbackMaxAt := zero_time |> in
  let s := reset_probe_meter s <| ad_serviceRate := f_zero |> <| ad_serviceWindow := zero_time |>
             <| ad_serviceBytes := 0 |> <| ad_openingRate := f_zero |> in
  if ad_recovering s then
    s <| ad_limit := 1 |> <| ad_proofs := 0 |> <| ad_since := now |> <| ad_proofAfter := frontier |>
      <| ad_reason := "generation_reprobe" |> <| ad_byteLimit := 0 |> <| ad_proofBytes := 0 |>
  else s.

Definition admissionRejoined (id : Z) (now : time) (w : admission_engine) : admission_engine :=
  if negb (validAdmissionLeg w id) || negb (slowLegProtection w) then w else
  set_leg id (rejoin now (pr_AckedNext (ProgressSnapshot (ledger w))) (leg_at w id)) w.

(** ** The recovery timeout *)

Definition probe_reference (budget : duration) (r : StreamTXRecord) (s : streamAdmissionLeg) : time * duration :=
  let reference := match tr_recoveryProbeWriteStartedAt r with
    | Some startedAt => startedAt
    | None => later (if is_zero (tr_frontierAt r) then tr_createdAt r else tr_frontierAt r) (tr_firstWriteAt r)
    end in
  if probe_is (tr_sequence r) s && negb (is_zero (ad_probePendingAt s))
  then (ad_probePendingAt s, streamProbeBudget) else (reference, budget).

(** Both locks are held: the result is [(eligible, applied)]. *)
Definition restrictOverdueRecoveryFrontier (id : Z) (record : ptr) (now : time) (budget : duration)
    (expectedSince : time) (expectedGeneration : Z) (w : admission_engine) : bool * bool * admission_engine :=
  if negb (validAdmissionLeg w id) then (false, false, w) else
  if bool_decide (lg_outstanding (ledger w) !! lg_ackedNext (ledger w) <> Some record) then (false, false, w) else
  match lg_heap (ledger w) !! record with
  | None => (false, false, w)
  | Some r =>
    let s := leg_at w id in
    let '(reference, limit) := probe_reference budget r s in
    let eligible := negb (is_zero reference) && negb (before now reference)
                    && bool_decide (limit <= time_sub now reference) in
    if eligible && ad_recovering s && negb (ad_restricted s) && time_equal (ad_since s) expectedSince
       && bool_decide (slice_get (se_legGeneration (ae_engine w)) id = Some expectedGeneration)
    then let '(applied, s) := restrictOrdinaryLocked now "probe_timeout" s in (eligible, applied, set_leg id s w)
    else (eligible, false, w)
  end.

(** ** Acknowledgements *)

(** The first loop of [admissionACK]: probes that were retired. *)
Definition ack_expire (result : StreamTXACKResult) (s : streamAdmissionLeg) : streamAdmissionLeg :=
  let s := if ad_probeExpired s && bool_decide (ad_probeExpiredSequence s < ak_AckedNext result)
           then s <| ad_probeExpired := false |> <| ad_probeExpiredSequence := 0 |> else s in
  if ad_probePending s && ad_probeSequenceSet s && bool_decide (ad_probeSequence s < ak_AckedNext result) then
    end_pending s <| ad_since := ak_LastACKProgress result |>
      <| ad_nextProbe := time_add (ak_LastACKProgress result) streamRestrictionCooldown |>
      <| ad_reason := "probe_retired_before_write" |>
  else s.

(** The sample belongs to the current phase of a normal leg. *)
Definition normal_sample (result : StreamTXACKResult) (leg : StreamTXACKLegResult) (s : streamAdmissionLeg) : bool :=
  negb (ad_recovering s) && negb (ad_restricted s)
  && (is_zero (al_SampleAssignedMin leg) || negb (before (al_SampleAssignedMin leg) (ad_since s)))
  && negb (before (ak_LastACKProgress result) (ad_since s)).

Definition ack_feedback (result : StreamTXACKResult) (leg : StreamTXACKLegResult) (s : streamAdmissionLeg)
  : streamAdmissionLeg :=
  let progress := ak_LastACKProgress result in
  let fresh := normal_sample result leg s in
  let sample := al_FeedbackMin leg in
  let s := if fresh && bool_decide (0 < sample) && bool_decide (sample <= 2 * Second)
              && (bool_decide (ad_feedback s = 0) || bool_decide (30 * Second < time_sub progress (ad_feedbackAt s))
                  || bool_decide (sample < ad_feedback s))
           then s <| ad_feedback := sample |> <| ad_feedbackAt := progress |> else s in
  let maximum := al_FeedbackMax leg in
  if fresh && bool_decide (0 < maximum) && bool_decide (maximum <= 2 * Second) then
    let envelope := if bool_decide (ad_feedbackMax s = 0)
                       || bool_decide (30 * Second < time_sub progress (ad_feedbackMaxAt s))
                    then maximum else Z.quot (ad_feedbackMax s + maximum) 2 in
    s <| ad_feedbackMax := envelope |> <| ad_feedbackMaxAt := progress |>
  else s.

Definition ack_service (result : StreamTXACKResult) (leg : StreamTXACKLegResult) (s : streamAdmissionLeg)
  : streamAdmissionLeg :=
  let progress := ak_LastACKProgress result in
  if normal_sample result leg s && bool_decide (0 < al_SampleBytes leg) then
    let s := if is_zero (ad_serviceWindow s) || bool_decide (2 * Second < time_sub progress (ad_serviceWindow s))
             then s <| ad_serviceWindow := progress |> <| ad_serviceBytes := 0 |> else s in
    let s := s <| ad_serviceBytes ::= fun n => u64 (n + al_SampleBytes leg) |> in
    let elapsed := time_sub progress (ad_serviceWindow s) in
    if bool_decide (250 * Millisecond <= elapsed) then
      let rate := (f_of (ad_serviceBytes s) / seconds elapsed)%float in
      let rate := if f_eq (ad_serviceRate s) f_zero then rate
                  else (f_lit 1 2 * ad_serviceRate s + f_lit 1 2 * rate)%float in
      s <| ad_serviceRate := rate |> <| ad_serviceAt := progress |> <| ad_openingRate := f_zero |>
        <| ad_serviceWindow := progress |> <| ad_serviceBytes := 0 |>
    else s
  else s.

(** The meter of the probation. *)
Definition ack_probe_meter (result : StreamTXACKResult) (leg : StreamTXACKLegResult) (s : streamAdmissionLeg)
  : streamAdmissionLeg :=
  let progress := ak_LastACKProgress result in
  if bool_decide (0 < al_UniqueBytes leg) then
    if is_zero (ad_probeWindow s) || bool_decide (2 * Second < time_sub progress (ad_probeWindow s))
    then s <| ad_probeWindow := progress |> <| ad_probeBytes := 0 |> <| ad_probeRate := f_zero |>
    else
      let s := s <| ad_probeBytes ::= fun n => u64 (n + al_UniqueBytes leg) |> in
      let elapsed := time_sub progress (ad_probeWindow s) in
      if bool_decide (250 * Millisecond <= elapsed)
      then s <| ad_probeRate := (f_of (ad_probeBytes s) / seconds elapsed)%float |> else s
  else s.

(** The service of the companion becomes the hypothesis for this leg. *)
Definition capture_opening (peer : option streamAdmissionLeg) (s : streamAdmissionLeg) : streamAdmissionLeg :=
  match peer with
  | Some p => if f_eq (ad_openingRate s) f_zero && f_lt f_zero (ad_serviceRate p)
              then s <| ad_openingRate := ad_serviceRate p |> else s
  | None => s
  end.

(** The ordering delay of the companion, within bounds. *)
Definition envelope_of (peer : streamAdmissionLeg) : duration :=
  let envelope := if bool_decide (0 < ad_feedbackMax peer) then ad_feedbackMax peer else 0 in
  let envelope := if bool_decide (envelope < ad_feedback peer) then ad_feedback peer else envelope in
  let envelope := if bool_decide (envelope < streamProbeBudget) then streamProbeBudget else envelope in
  if bool_decide (2 * Second < envelope) then 2 * Second else envelope.

(** Probation is over. *)
Definition graduate (result : StreamTXACKResult) (s : streamAdmissionLeg) : streamAdmissionLeg :=
  s <| ad_recovering := false |> <| ad_serviceRate := f_zero |> <| ad_serviceWindow := zero_time |>
    <| ad_serviceBytes := 0 |> <| ad_reason := "unique_ack_recovered" |>
    <| ad_since := ak_LastACKProgress result |>.

(** Twice, but not more than [bound]. *)
Definition double_to (bound n : Z) : Z :=
  if bool_decide (n < bound) then if bool_decide (bound < n * 2) then bound else n * 2 else n.

(** Count the proofs; when they fill a stage, double the allowance. *)
Definition ack_ramp (cfg : AdmissionConfig) (n : Z) (leg : StreamTXACKLegResult) (s : streamAdmissionLeg)
  : bool * streamAdmissionLeg :=
  let s := s <| ad_proofs ::= fun p => if bool_decide (3 < p + n) then 3 else p + n |> in
  let s := s <| ad_proofBytes ::= fun b => let b := u64 (b + al_UniqueBytes leg) in
                                     if bool_decide (ad_byteLimit s < b) then ad_byteLimit s else b |> in
  if bool_decide (3 <= ad_proofs s) && bool_decide (0 < ad_byteLimit s)
     && bool_decide (ad_byteLimit s <= ad_proofBytes s)
  then (true, reset_probe_meter (s <| ad_proofs := 0 |> <| ad_proofBytes := 0 |>
                <| ad_limit ::= double_to (ac_MaxInflightFrames cfg) |>
                <| ad_byteLimit ::= double_to (ordinaryHardBytes cfg) |>)
                <| ad_reason := "unique_ack_ramp" |>)
  else (false, s).

Section Acks.
  Context `{FloatConversion}.
  Implicit Types (w : admission_engine) (cfg : AdmissionConfig) (s : streamAdmissionLeg).

(** An ACK that proves a leg on probation; the second result: it is normal again. *)
Definition ack_proof cfg (result : StreamTXACKResult) (leg : StreamTXACKLegResult) (n budget : Z)
    (peer : option streamAdmissionLeg) s : streamAdmissionLeg * bool :=
  let s := s <| ad_proofAfter := ak_AckedNext result |> in
  let s := ack_probe_meter result leg (capture_opening peer s) in
  let target := (ad_openingRate s * f_lit 1 10)%float in
  let meaningful := f_to_u64 (target * seconds (envelope_of (default zero_admission peer)))%float in
  if bool_decide (is_Some peer) && f_lt f_zero target && f_lt f_zero (ad_probeRate s)
     && f_lt (ad_probeRate s) target && bool_decide (meaningful <= al_BeforeOrdinaryBytes leg)
     && bool_decide (ad_limit s <= al_BeforeOrdinaryFrames leg)
  then
    let s := if ad_restricted s then s else advanceRecoveryEpochLocked s in
    (begin_restriction (ak_LastACKProgress result) "probe_unique_service_low" s, false)
  else
    let serviceReady := f_eq target f_zero || f_le target (ad_probeRate s) in
    let ready s := (bool_decide (budget <= ad_byteLimit s) || bool_decide (ac_MaxInflightFrames cfg <= ad_limit s))
                   && serviceReady in
    if ready s then (graduate result s, true) else
    let '(ramped, s) := ack_ramp cfg n leg s in
    if (ramped : bool) && ready s then (graduate result s, true) else (s, false).

(** One leg of the second loop, from its result, its current generation and its companion. *)
Definition ack_state cfg (result : StreamTXACKResult) (leg : StreamTXACKLegResult) (generation : option Z)
    (budget : Z) (peer : option streamAdmissionLeg) s : streamAdmissionLeg * bool :=
  let gen := al_UniqueGeneration leg in
  if bool_decide (gen <> 0) && bool_decide (generation <> Some gen) then (s, false) else
  let s := ack_service result leg (ack_feedback result leg s) in
  let n := al_UniqueTimely leg + al_UniqueOrdered leg in
  if negb (ad_recovering s) || bool_decide (n = 0) || before (ak_LastACKProgress result) (ad_since s)
     || bool_decide (ak_AckedNext result <= ad_proofAfter s)
  then (s, false) else ack_proof cfg result leg n budget peer s.

Definition ack_leg w (result : StreamTXACKResult) (active budgets : list Z) (id : Z)
    (acc : list streamAdmissionLeg * list Z) : list streamAdmissionLeg * list Z :=
  let '(legs, recovered) := acc in
  let at_ p := default zero_admission (slice_get legs p) in
  let '(s, done_) := ack_state (ae_cfg w) result (legResult result id)
                       (slice_get (se_legGeneration (ae_engine w)) id) (default 0 (slice_get budgets id))
                       (at_ <$> alternateIDLocked w legs id active) (at_ id) in
  (<[Z.to_nat id := s]> legs, if (done_ : bool) then recovered ++ [id] else recovered).

(** A normal leg starts its measurements afresh when a companion has recovered. *)
Definition restart_cohort (result : StreamTXACKResult) (opening : float64) s : streamAdmissionLeg :=
  if negb (ad_restricted s) && negb (ad_recovering s) then
    let floor := if f_lt opening (ad_serviceRate s) then ad_serviceRate s else opening in
    s <| ad_serviceRate := f_zero |> <| ad_serviceWindow := zero_time |> <| ad_serviceBytes := 0 |>
      <| ad_serviceAt := zero_time |> <| ad_openingRate := floor |> <| ad_since := ak_LastACKProgress result |>
  else s.

Definition ack_recovered (result : StreamTXACKResult) (active : list Z) (legs : list streamAdmissionLeg) (id : Z)
  : list streamAdmissionLeg :=
  let legs := alter (fun s => s <| ad_serviceAt := zero_time |>) (Z.to_nat id) legs in
  fold_left (fun legs peer =>
    if bool_decide (peer = id) then legs else
    alter (restart_cohort result (ad_openingRate (default zero_admission (slice_get legs id)))) (Z.to_nat peer) legs)
    active legs.

(** The critical section of [admissionACK]; also the legs that have recovered. *)
Definition ack_locked (result : StreamTXACKResult) (active budgets : list Z) w : list Z * admission_engine :=
  let legs := ack_expire result <$> ae_legs w in
  let '(legs, recovered) := fold_left (fun acc id => ack_leg w result active budgets id acc)
                              (seqZ 0 (slen (ae_legs w))) (legs, []) in
  (recovered, w <| ae_legs := fold_left (ack_recovered result active) recovered legs |>).

Definition admissionACK (capacityProvider : provider) (result : StreamTXACKResult) (now : time) w
  : list Z * admission_engine :=
  if negb (slowLegProtection w) then ([], w) else
  let budgets := (fun id => ordinaryByteBudget w capacityProvider id now) <$> seqZ 0 (slen (ae_legs w)) in
  ack_locked result (admissionLegIDs w) budgets w.

End Acks.

(** ** Maintenance *)

Definition maintain_leg (now : time) (w : admission_engine) (id : Z) : admission_engine :=
  let state := leg_at w id in
  if ad_probePending state && prewrite_timeout now state
  then (expirePendingRecoveryProbe id (ad_probeSequence state) now w).2 else w.

Definition maintainAdmission (now : time) (w : admission_engine) : admission_engine :=
  if negb (slowLegProtection w) then w else fold_left (maintain_leg now) (seqZ 0 (slen (ae_legs w))) w.

(** What [protectFrontier] reads of a leg besides its state: the smoothed write latency,
    since when the writer is in a write, and the number of writes. *)
Record leg_perf := MkPerf { lp_latency : duration; lp_writeStarted : option time; lp_writeCount : Z }.

Definition write_blocked (now : time) (threshold : duration) (p : leg_perf) : bool :=
  match lp_writeStarted p with
  | Some started => bool_decide (threshold <= time_sub now started)
  | None => false
  end.

(** The frontier belongs to a restricted or recovering leg, whose state [s] was. *)
Definition timeout_budget (w : admission_engine) (id : Z) (now : time) : duration :=
  fold_left (fun budget other =>
    if bool_decide (other = id) then budget else Z.max budget (feedbackHorizon (ae_cfg w) (leg_at w other) now))
    (admissionLegIDs w) (feedbackHorizon (ae_cfg w) (leg_at w id) now) `max` streamProbeBudget.

Definition suspended_view (w : admission_engine) (s : streamAdmissionLeg) (sequence : Z) (budget : duration)
    (now : time) (c : StreamTXFrontierCandidate) : time * bool :=
  let pendingRecord := probe_is sequence s in
  let ref := probeReference (ledger w) (fc_record c) (ad_recovering s) in
  let reference := if is_zero ref then fc_reference c else
                   if pendingRecord && negb (is_zero (ad_probePendingAt s)) then ad_probePendingAt s else ref in
  let age := time_sub now reference in
  (reference, bool_decide ((if pendingRecord then streamProbeBudget else budget) <= age)).

Definition protect_suspended (w : admission_engine) (id : Z) (s : streamAdmissionLeg) (record : ptr)
    (sequence : Z) (now : time) (c : StreamTXFrontierCandidate) : StreamTXFrontierCandidate * admission_engine :=
  let budget := timeout_budget w id now in
  let '(reference, overdue) := suspended_view w s sequence budget now c in
  let view overdue := MkFrontierCandidate (fc_record c) (fc_owner c) reference overdue (fc_exists c)
                        (fc_rescueInTransit c) in
  let w := if ad_probePending s && prewrite_timeout now s
           then (expirePendingRecoveryProbe id (ad_probeSequence s) now w).2 else w in
  if overdue && ad_recovering s then
    let expectedGeneration := default 0 (slice_get (se_legGeneration (ae_engine w)) id) in
    let '(eligible, applied, w) := restrictOverdueRecoveryFrontier id record now budget (ad_since s)
                                     expectedGeneration w in
    (view (eligible && applied), w)
  else (view overdue, w).

(** The heaviest leg other than [id], the first of them. *)
Definition heaviest_other (w : admission_engine) (capacityProvider : provider) (id : Z) : option (Z * float64) :=
  fold_left (fun best l =>
    if bool_decide (sl_id l = id) then best else
    let weight := effectiveSchedulerWeight w capacityProvider (sl_id l) in
    match best with
    | None => Some (sl_id l, weight)
    | Some (_, otherWeight) => if f_lt otherWeight weight then Some (sl_id l, weight) else best
    end) (available_legs w) None.

(** A leg known to be slow is watched; the result: for at least [threshold]. *)
Definition suspect (knownSlow : bool) (now : time) (threshold : duration) (s : streamAdmissionLeg)
  : bool * streamAdmissionLeg :=
  if knownSlow then
    let s := if is_zero (ad_suspectSince s) || bool_decide (Second < time_sub now (ad_suspectAt s))
             then s <| ad_suspectSince := now |> else s in
    let s := s <| ad_suspectAt := now |> in
    (bool_decide (threshold <= time_sub now (ad_suspectSince s)), s)
  else (false, s).

Definition normal_leg (s : streamAdmissionLeg) : bool := negb (ad_restricted s) && negb (ad_recovering s).

Definition protect_normal (w : admission_engine) (capacityProvider : provider) (perf : Z -> leg_perf) (id : Z)
    (createdAt now : time) (c : StreamTXFrontierCandidate) : StreamTXFrontierCandidate * admission_engine :=
  let age := time_sub now createdAt in
  let threshold := 2 * Second `max` ac_RetransmitTimeout (ae_cfg w) in
  match heaviest_other w capacityProvider id with
  | Some (other, otherWeight) =>
    if bool_decide (age < streamProbeBudget) || negb (hasLeg (ae_engine w) id) then (c, w) else
    let latency := lp_latency (perf other) in
    let ownLatency := lp_latency (perf id) in
    let blocked := write_blocked now threshold (perf id) in
    let alternateBlocked := write_blocked now threshold (perf other) in
    let writeSlow := blocked || (bool_decide (50 * Millisecond <= ownLatency) && bool_decide (latency * 4 < ownLatency)) in
    let weight := effectiveSchedulerWeight w capacityProvider id in
    let knownSlow := f_lt f_zero weight && f_lt (weight * f_of 4)%float otherWeight in
    let alternateNormal := normal_leg (leg_at w other) in
    let '(persistentLow, s) := suspect (knownSlow && alternateNormal) now threshold (leg_at w id) in
    let w := set_leg id s w in
    let trigger := blocked || (writeSlow && bool_decide (threshold <= age)) || persistentLow in
    if trigger && negb alternateBlocked && alternateNormal && bool_decide (0 < latency)
       && bool_decide (latency < Z.quot threshold 8) && bool_decide (3 <= lp_writeCount (perf other))
    then
      let w := (restrictOrdinary id now "sustained_frontier" w).2 in
      (MkFrontierCandidate (fc_record c) (fc_owner c) (fc_reference c)
         (bool_decide (streamProbeBudget <= time_sub now (fc_reference c))) (fc_exists c) (fc_rescueInTransit c), w)
    else (c, w)
  | None => (c, w)
  end.

Definition protectFrontier (capacityProvider : provider) (perf : Z -> leg_perf) (c : StreamTXFrontierCandidate)
    (now : time) (w : admission_engine) : StreamTXFrontierCandidate * admission_engine :=
  let in_range id := bool_decide (0 <= id) && bool_decide (id < slen (ae_legs w)) in
  if negb (slowLegProtection w) || negb (fc_exists c) || negb (in_range (fc_owner c)) then (c, w) else
  match fc_record c ≫= fun p => pair p <$> lg_heap (ledger w) !! p with
  | None => (c, w)
  | Some (record, r) =>
    let owner := OrdinaryOwner (ledger w) (Some record) in
    let id := if in_range owner then owner else fc_owner c in
    let c := MkFrontierCandidate (fc_record c) id (fc_reference c) (fc_overdue c) (fc_exists c)
               (fc_rescueInTransit c) in
    let s := leg_at w id in
    if ad_restricted s || ad_recovering s then protect_suspended w id s record (tr_sequence r) now c
    else protect_normal w capacityProvider perf id (tr_createdAt r) now c
  end.

(** [inputBlocked] is read from its atomic. *)
Definition stalledActivationReady (inputBlocked : bool) (now : time) (w : admission_engine) : bool :=
  let cfg := ae_cfg w in
  if bool_decide (legCount (ae_engine w) <> 1) then false else
  let snap := Snapshot (ledger w) now in
  if bool_decide (sn_OutstandingFrames snap = 0) then false else
  let required := ac_ActivationWindow cfg `max` (500 * Millisecond) `max` ac_RetransmitTimeout cfg in
  if negb inputBlocked && negb (sentTailStalled (ledger w) now required (u64 (2 * ac_ChunkSize cfg))) then false else
  if negb (is_zero (sn_LastACKProgress snap))
  then bool_decide (required <= time_sub now (sn_LastACKProgress snap))
  else bool_decide (required <= sn_OldestOutstandingAge snap).

(** ** Construction *)

(** A row of [TelemetryByLeg]. *)
Record capacity_row := MkRow { cr_LegID : Z; cr_Valid : bool; cr_Confidence : float64; cr_EstimateBPS : float64 }.

Definition warm_start (e : StreamEngine) (now : time) (legs : list streamAdmissionLeg) (row : capacity_row)
  : list streamAdmissionLeg :=
  let prior := (f_of (weightFor e (cr_LegID row)) * f_of 1000000 / f_of 8)%float in
  alter (fun s =>
    if cr_Valid row && f_le (f_lit 1 2) (cr_Confidence row) && f_lt (cr_EstimateBPS row) (prior * f_lit 1 4)%float
    then zero_admission <| ad_restricted := true |> <| ad_since := now |>
           <| ad_nextProbe := time_add now streamRestrictionCooldown |> <| ad_reason := "warm_low_capacity" |>
           <| ad_recoveryEpoch := 1 |>
    else s <| ad_since := now |> <| ad_reason := "initial" |>) (Z.to_nat (cr_LegID row)) legs.

Definition new_admission (cfg : StreamConfig) (acfg : AdmissionConfig) (rows : list capacity_row) (now : time)
  : admission_engine :=
  let e := NewStreamEngine cfg in
  let legs := replicate (Z.to_nat (se_maxActiveLegs e)) zero_admission in
  MkAdmission acfg e (if cf_slowLegProtection cfg then fold_left (warm_start e now) rows legs else legs).

(** ** Steps *)

Section Steps.
  Context `{FloatConversion}.

Inductive admission_op :=
| mop_leg (op : leg_op) (now : time)
| mop_assigned (id : Z) (record : option ptr) (now : time) (probeBytes frontier : Z) (active : list Z) (seed : float64)
| mop_write_started (id : Z) (record : ptr) (at_ : time) (ackedNext : Z)
| mop_cancel (id sequence : Z) (now : time)
| mop_expire (id sequence : Z) (now : time)
| mop_restrict (id : Z) (now : time) (reason : string)
| mop_overdue (id : Z) (record : ptr) (now : time) (budget : duration) (expectedSince : time) (expectedGeneration : Z)
| mop_suspect (id : Z) (knownSlow : bool) (now : time) (threshold : duration)
| mop_ack (result : StreamTXACKResult) (active budgets : list Z).

(** A leg attaches: [admissionRejoined] is part of the critical section. *)
Definition leg_step (op : leg_op) (now : time) (w : admission_engine) : option admission_engine :=
  match op with
  | lo_attach id auth prior clock =>
    let '(out, e) := attachLeg (ae_engine w) id auth prior clock in
    let w := w <| ae_engine := e |> in
    Some (match out with Attached _ => admissionRejoined id now w | _ => w end)
  | _ => let! e := leg_exec (ae_engine w) op in Some (w <| ae_engine := e |>)
  end.

Definition admission_exec (w : admission_engine) (op : admission_op) : option admission_engine :=
  match op with
  | mop_leg op now => leg_step op now w
  | mop_assigned id record now probeBytes frontier active seed =>
    if validAdmissionLeg w id then Some (assigned_step id record now probeBytes frontier active seed w) else Some w
  | mop_write_started id p at_ ackedNext => snd <$> recoveryProbeWriteStarted id p at_ ackedNext w
  | mop_cancel id sequence now => Some (cancelPendingRecoveryProbe id sequence now w)
  | mop_expire id sequence now => Some (expirePendingRecoveryProbe id sequence now w).2
  | mop_restrict id now reason => Some (restrictOrdinary id now reason w).2
  | mop_overdue id record now budget since generation =>
    Some (restrictOverdueRecoveryFrontier id record now budget since generation w).2
  | mop_suspect id knownSlow now threshold => Some (set_leg id (suspect knownSlow now threshold (leg_at w id)).2 w)
  | mop_ack result active budgets => Some (ack_locked result active budgets w).2
  end.

Fixpoint admission_run (ops : list admission_op) (w : admission_engine) : option admission_engine :=
  match ops with
  | [] => Some w
  | op :: ops => let! w := admission_exec w op in admission_run ops w
  end.

End Steps.
