(* ===== verification/AdmissionInv.v ===== *)
(** * Slow-leg protection: phases and invariant

    What each critical section of [Admission] does to one leg, seen through its phase and
    its credits. *)

From S2P Require Import Prelude Float64 PathProtocol TxLedger Repair RttCache Legs LegsInv Admission.
From stdpp Require Import options.
#[local] Open Scope Z_scope.

(** ** Phases *)

Inductive phase := Normal | Cooldown | Pending | Probation.
#[export] Instance phase_eq_dec : EqDecision phase.
Proof. solve_decision. Defined.

Definition phase_of (s : streamAdmissionLeg) : phase :=
  if ad_restricted s then if ad_probePending s then Pending else Cooldown
  else if ad_recovering s then Probation else Normal.

(** The number of the next restricted cycle. *)
Definition next_epoch (n : Z) : Z := Z.min (n + 1) max_u64.

(** What control decisions depend on; the rest are measurements. *)
Record control := MkControl {
  ct_restricted : bool; ct_recovering : bool; ct_pending : bool; ct_sequenceSet : bool;
  ct_limit : Z; ct_proofs : Z; ct_proofAfter : Z; ct_byteLimit : Z; ct_proofBytes : Z; ct_epoch : Z }.
Definition control_of (s : streamAdmissionLeg) : control :=
  MkControl (ad_restricted s) (ad_recovering s) (ad_probePending s) (ad_probeSequenceSet s)
    (ad_limit s) (ad_proofs s) (ad_proofAfter s) (ad_byteLimit s) (ad_proofBytes s) (ad_recoveryEpoch s).

(** A state every leg is in: one phase at a time, bounded credits. *)
Record leg_ok (cfg : AdmissionConfig) (s : streamAdmissionLeg) : Prop := {
  lk_exclusive : ad_recovering s = true -> ad_restricted s = false;
  lk_pending : ad_probePending s = true -> ad_restricted s = true;
  lk_sequence : ad_probeSequenceSet s = true -> ad_probePending s = true;
  lk_limit : phase_of s = Pending \/ phase_of s = Probation ->
    1 <= ad_limit s <= 1 `max` ac_MaxInflightFrames cfg;
  lk_proofs : 0 <= ad_proofs s <= 3;
  lk_proofBytes : 0 <= ad_proofBytes s;
  lk_byteLimit : 0 <= ad_byteLimit s;
  lk_credit : phase_of s = Pending \/ phase_of s = Probation -> ad_proofBytes s <= ad_byteLimit s;
  lk_epoch : 0 <= ad_recoveryEpoch s <= max_u64;
  lk_cycle : phase_of s <> Normal -> 1 <= ad_recoveryEpoch s
}.

Lemma control_phase s s' : control_of s' = control_of s -> phase_of s' = phase_of s.
Proof. intros E. injection E as E1 E2 E3 _ _ _ _ _ _ _. unfold phase_of. by rewrite E1, E2, E3. Qed.

Lemma leg_ok_control cfg s s' : control_of s' = control_of s -> leg_ok cfg s -> leg_ok cfg s'.
Proof.
  intros E []. pose proof (control_phase _ _ E) as Ep. injection E as E1 E2 E3 E4 E6 E7 E8 E9 E10 E11.
  constructor; rewrite ?Ep, ?E1, ?E2, ?E3, ?E4, ?E6, ?E7, ?E9, ?E10, ?E11; done.
Qed.

Lemma zero_ok cfg : leg_ok cfg zero_admission.
Proof. constructor; simpl; try done; try lia. all: intros []; done. Qed.

(** ** Each section *)

Lemma epoch_range cfg s : leg_ok cfg s ->
  ad_recoveryEpoch (advanceRecoveryEpochLocked s) = next_epoch (ad_recoveryEpoch s) /\
  1 <= next_epoch (ad_recoveryEpoch s) <= max_u64.
Proof.
  intros [_ _ _ _ _ _ _ _ He _]. unfold advanceRecoveryEpochLocked, next_epoch, max_u64 in *.
  case_bool_decide; simpl; lia.
Qed.

(** Any state that agrees with [begin_restriction] on control. *)
Lemma restricted_ok cfg s s' :
  leg_ok cfg s -> ad_restricted s' = true -> ad_recovering s' = false -> ad_probePending s' = false ->
  ad_probeSequenceSet s' = false -> ad_proofs s' = 0 -> ad_proofBytes s' = 0 -> ad_byteLimit s' = ad_byteLimit s ->
  ad_recoveryEpoch s' = next_epoch (ad_recoveryEpoch s) -> leg_ok cfg s' /\ phase_of s' = Cooldown.
Proof.
  intros K E1 E2 E3 E4 E5 E6 E7 E8. destruct (epoch_range _ _ K) as [_ He].
  assert (phase_of s' = Cooldown) as Ep by (unfold phase_of; by rewrite E1, E3).
  split; [|done]. destruct K. constructor; rewrite ?Ep, ?E1, ?E2, ?E3, ?E4, ?E5, ?E6, ?E7, ?E8; try done; try lia.
  all: intros [?|?]; done.
Qed.

Lemma restrict_ok cfg now reason s :
  leg_ok cfg s -> ad_restricted s = false ->
  let s' := (restrictOrdinaryLocked now reason s).2 in
  leg_ok cfg s' /\ phase_of s' = Cooldown /\ ad_recoveryEpoch s' = next_epoch (ad_recoveryEpoch s).
Proof.
  intros K Hr. destruct (epoch_range _ _ K) as [E _].
  assert (Ee : ad_recoveryEpoch (restrictOrdinaryLocked now reason s).2 = next_epoch (ad_recoveryEpoch s)).
  { rewrite <- E. unfold restrictOrdinaryLocked. rewrite Hr. unfold advanceRecoveryEpochLocked. by case_bool_decide. }
  destruct (restricted_ok cfg s (restrictOrdinaryLocked now reason s).2 K) as [A B]; try done;
    unfold restrictOrdinaryLocked, advanceRecoveryEpochLocked; rewrite Hr; by case_bool_decide.
Qed.

Lemma expire_ok cfg sequence now s :
  leg_ok cfg s ->
  let s' := expire_probe sequence now s in
  leg_ok cfg s' /\ phase_of s' = Cooldown /\ ad_recoveryEpoch s' = next_epoch (ad_recoveryEpoch s).
Proof.
  intros K. destruct (epoch_range _ _ K) as [E _].
  assert (Ee : ad_recoveryEpoch (expire_probe sequence now s) = next_epoch (ad_recoveryEpoch s)).
  { rewrite <- E. unfold expire_probe, advanceRecoveryEpochLocked, end_pending. simpl. by case_bool_decide. }
  destruct (restricted_ok cfg s (expire_probe sequence now s) K) as [A B]; try done;
    unfold expire_probe, advanceRecoveryEpochLocked; by case_bool_decide.
Qed.

(** ** Transitions *)

(** Why a leg may move: a record was assigned, its write began, an ACK, anything else. *)
Inductive cause := by_assignment | by_write | by_ack | by_other.

(** The phases a leg goes through, with the number of its restricted cycle. *)
Inductive phase_step : cause -> phase * Z -> phase * Z -> Prop :=
| ps_same c v : phase_step c v v
| ps_restrict e : phase_step by_other (Normal, e) (Cooldown, next_epoch e)
| ps_fail c e : phase_step c (Probation, e) (Cooldown, next_epoch e)
| ps_probe e : phase_step by_assignment (Cooldown, e) (Pending, e)
| ps_drop c e : phase_step c (Pending, e) (Cooldown, e)
| ps_expire c e : phase_step c (Pending, e) (Cooldown, next_epoch e)
| ps_write e : phase_step by_write (Pending, e) (Probation, e)
| ps_graduate e : phase_step by_ack (Probation, e) (Normal, e).

Definition view (s : streamAdmissionLeg) : phase * Z := (phase_of s, ad_recoveryEpoch s).

Definition moves (cfg : AdmissionConfig) (c : cause) (s s' : streamAdmissionLeg) : Prop :=
  leg_ok cfg s' /\ phase_step c (view s) (view s').

Lemma control_view s s' : control_of s' = control_of s -> view s' = view s.
Proof. intros E. unfold view. rewrite (control_phase _ _ E). injection E as _ _ _ _ _ _ _ _ _ ->. done. Qed.

Lemma moves_same cfg c s s' : leg_ok cfg s -> control_of s' = control_of s -> moves cfg c s s'.
Proof. intros K E. split; [by eapply leg_ok_control|]. rewrite (control_view _ _ E). constructor. Qed.

Lemma moves_refl cfg c s : leg_ok cfg s -> moves cfg c s s.
Proof. intros. by apply moves_same. Qed.

Lemma pending_phase cfg s : leg_ok cfg s -> ad_probePending s = true -> phase_of s = Pending.
Proof. intros K H. unfold phase_of. by rewrite (lk_pending _ _ K H), H. Qed.
Lemma recovering_phase cfg s : leg_ok cfg s -> ad_recovering s = true -> phase_of s = Probation.
Proof. intros K H. unfold phase_of. by rewrite (lk_exclusive _ _ K H), H. Qed.

Lemma restrict_moves cfg now reason s :
  leg_ok cfg s -> moves cfg by_other s (restrictOrdinaryLocked now reason s).2.
Proof.
  intros K. destruct (ad_restricted s) eqn:Hr.
  { unfold restrictOrdinaryLocked. rewrite Hr. by apply moves_refl. }
  destruct (restrict_ok cfg now reason s K Hr) as (A & B & C). split; [done|].
  unfold view. rewrite B, C. unfold phase_of. rewrite Hr. destruct (ad_recovering s); constructor.
Qed.

Lemma expire_moves cfg c sequence now s :
  leg_ok cfg s -> ad_probePending s = true -> moves cfg c s (expire_probe sequence now s).
Proof.
  intros K Hp. destruct (expire_ok cfg sequence now s K) as (A & B & C). split; [done|].
  unfold view. rewrite B, C, (pending_phase _ _ K Hp). constructor.
Qed.

(** Pending to cooldown, in the same cycle. *)
Lemma drop_moves cfg c s s' :
  leg_ok cfg s -> ad_probePending s = true ->
  control_of s' = control_of (end_pending s) -> moves cfg c s s'.
Proof.
  intros K Hp E. assert (moves cfg c s (end_pending s)) as [A B].
  { pose proof (pending_phase _ _ K Hp) as Ep.
    assert (phase_of (end_pending s) = Cooldown) as Ep' by (unfold phase_of; simpl; by rewrite (lk_pending _ _ K Hp)).
    split; [|unfold view; rewrite Ep, Ep'; constructor].
    destruct K. constructor; rewrite ?Ep'; simpl; try done.
    - intros [?|?]; done.
    - intros [?|?]; done.
    - intros _. apply lk_cycle0. by rewrite Ep. }
  split; [by eapply leg_ok_control|]. by rewrite (control_view _ _ E).
Qed.

Lemma probe_is_pending sequence s : probe_is sequence s = true -> ad_probePending s = true.
Proof. unfold probe_is. by intros [? _]%andb_prop. Qed.

Lemma write_moves cfg sequence at_ ackedNext s :
  leg_ok cfg s -> moves cfg by_write s (recoveryProbeWriteStartedLocked sequence at_ ackedNext s).2.
Proof.
  intros K. unfold recoveryProbeWriteStartedLocked. case_match; [by apply moves_refl|].
  destruct (probe_is sequence s) eqn:Hp; [|by apply moves_refl]. apply probe_is_pending in Hp. simpl.
  case_match; [by apply expire_moves|]. pose proof (pending_phase _ _ K Hp) as Ep. simpl.
  match goal with |- moves _ _ _ ?x => set (s' := x) end.
  assert (phase_of s' = Probation) as Ep' by done.
  split; [|unfold view; rewrite Ep, Ep'; constructor].
  destruct K. constructor; rewrite ?Ep'; simpl; try done.
  - intros _. apply lk_limit0. by left.
  - intros _. apply lk_credit0. by left.
  - intros _. apply lk_cycle0. by rewrite Ep.
Qed.

Lemma assign_probe_control record now bytes frontier seed rate s :
  ad_restricted s = true ->
  control_of (assign_probe record now bytes frontier seed rate s) =
  MkControl true false true (bool_decide (is_Some record)) 1 0 frontier bytes 0 (ad_recoveryEpoch s).
Proof.
  intros Hr. unfold assign_probe, control_of.
  destruct record as [q|]; simpl; [destruct (_ || _); simpl|]; by rewrite Hr.
Qed.

Lemma assign_probe_ok cfg record now bytes frontier seed rate s :
  leg_ok cfg s -> ad_restricted s = true -> 0 <= bytes ->
  leg_ok cfg (assign_probe record now bytes frontier seed rate s) /\
  view (assign_probe record now bytes frontier seed rate s) = (Pending, ad_recoveryEpoch s).
Proof.
  intros K Hr Hb. set (s' := assign_probe _ _ _ _ _ _ s).
  pose proof (assign_probe_control record now bytes frontier seed rate s Hr) as E. fold s' in E.
  clearbody s'. injection E as E1 E2 E3 E4 E6 E7 E8 E9 E10 E11.
  assert (phase_of s' = Pending) as Ep by (unfold phase_of; by rewrite E1, E3).
  split; [|unfold view; by rewrite Ep, E11].
  assert (1 <= ad_recoveryEpoch s).
  { apply (lk_cycle _ _ K). unfold phase_of. rewrite Hr. by destruct (ad_probePending s). }
  destruct K. constructor; rewrite ?Ep, ?E1, ?E2, ?E3, ?E4, ?E6, ?E7, ?E9, ?E10, ?E11; try done; lia.
Qed.

Lemma assigned_moves cfg w id record now bytes frontier active seed s :
  leg_ok cfg s -> 0 <= bytes ->
  moves cfg by_assignment s (assigned_locked w id record now bytes frontier active seed s).
Proof.
  intros K Hb. unfold assigned_locked.
  assert (Hlim : forall s1, leg_ok cfg s1 ->
    let s2 := if ad_probePending s1 && bool_decide (ad_byteLimit s1 = 0) then s1 <| ad_byteLimit := bytes |> else s1 in
    leg_ok cfg s2 /\ view s2 = view s1).
  { intros s1 K1. destruct (_ && _) eqn:Hc; [|done]. apply andb_prop in Hc as [Hp Hz%bool_decide_eq_true].
    simpl. split; [|done]. destruct K1. constructor; try done. simpl. intros H.
    change (ad_proofBytes s1 <= bytes). specialize (lk_credit0 H). lia. }
  destruct (ad_restricted s && negb (ad_probePending s)) eqn:Hc.
  - apply andb_prop in Hc as [Hr Hp%negb_true_iff].
    destruct (assign_probe_ok cfg record now bytes frontier seed
      ((fun peer => ad_serviceRate (leg_at w peer)) <$> alternateIDLocked w (ae_legs w) id active) s K Hr Hb) as [A B].
    destruct (Hlim _ A) as [A2 B2]. split; [exact A2|]. rewrite B2, B.
    unfold view, phase_of. rewrite Hr, Hp. constructor.
  - destruct (Hlim s K) as [A2 B2]. split; [exact A2|]. rewrite B2. constructor.
Qed.

Lemma rejoin_control now frontier s :
  control_of (rejoin now frontier s) =
  if ad_recovering s
  then MkControl (ad_restricted s) true false false 1 0 frontier 0 0 (ad_recoveryEpoch s)
  else control_of (end_pending s).
Proof. destruct s as [? [] ? ? ? ? ? ? ? ? ? ? ? ? ? ? ? ? ? ? ? ? ? ? ? ? ? ? ? ? ? ?]; reflexivity. Qed.

Lemma rejoin_moves cfg now frontier s : leg_ok cfg s -> moves cfg by_other s (rejoin now frontier s).
Proof.
  intros K. pose proof (rejoin_control now frontier s) as E. generalize dependent (rejoin now frontier s).
  intros s' E. destruct (ad_recovering s) eqn:Hr.
  - pose proof (recovering_phase _ _ K Hr) as Ep.
    injection E as E1 E2 E3 E4 E6 E7 E8 E9 E10 E11.
    rewrite (lk_exclusive _ _ K Hr) in E1.
    assert (phase_of s' = Probation) as Ep' by (unfold phase_of; by rewrite E1, E2).
    split; [|unfold view; rewrite Ep, Ep', E11; constructor].
    destruct K. constructor; rewrite ?Ep', ?E1, ?E2, ?E3, ?E4, ?E6, ?E7, ?E9, ?E10, ?E11; try done; try lia.
    intros _. apply lk_cycle0. by rewrite Ep.
  - destruct (ad_probePending s) eqn:Hp; [by apply drop_moves|].
    apply moves_same; [done|]. rewrite E. unfold control_of, end_pending. simpl. rewrite Hp.
    destruct (ad_probeSequenceSet s) eqn:Hs; [by rewrite (lk_sequence _ _ K Hs) in Hp|done].
Qed.

(** ** Acknowledgements *)

(** Names the first conditional update of [s]. *)
#[local] Ltac name_update s s1 :=
  cbv zeta;
  match goal with |- context [if ?c then ?x else s] => set (s1 := if c then x else s) end.

Lemma suspect_control slow now threshold s : control_of (suspect slow now threshold s).2 = control_of s.
Proof. unfold suspect. destruct slow; [|done]. by destruct (_ || _). Qed.

Lemma feedback_control result leg s : control_of (ack_feedback result leg s) = control_of s.
Proof.
  unfold ack_feedback. generalize (normal_sample result leg s) as fresh. intros fresh.
  name_update s s1. assert (E : control_of s1 = control_of s) by (subst s1; by case_match).
  clearbody s1. rewrite <- E. by case_match.
Qed.

Lemma service_control result leg s : control_of (ack_service result leg s) = control_of s.
Proof.
  unfold ack_service. destruct (_ && _); [|done].
  name_update s s1. assert (E : control_of s1 = control_of s) by (subst s1; by case_match).
  clearbody s1. rewrite <- E. by case_match.
Qed.

Lemma meter_control result leg s : control_of (ack_probe_meter result leg s) = control_of s.
Proof.
  unfold ack_probe_meter. case_bool_decide; [|done]. destruct (_ || _); [done|]. by case_match.
Qed.

Lemma cohort_control result opening s : control_of (restart_cohort result opening s) = control_of s.
Proof. unfold restart_cohort. by case_match. Qed.

(** A probe that was retired before it was written. *)
Lemma ack_expire_control result s :
  control_of (ack_expire result s) =
  if ad_probePending s && ad_probeSequenceSet s && bool_decide (ad_probeSequence s < ak_AckedNext result)
  then control_of (end_pending s) else control_of s.
Proof.
  unfold ack_expire. name_update s s1.
  assert (control_of s1 = control_of s /\ control_of (end_pending s1) = control_of (end_pending s) /\
    ad_probePending s1 = ad_probePending s /\ ad_probeSequenceSet s1 = ad_probeSequenceSet s /\
    ad_probeSequence s1 = ad_probeSequence s) as (E1 & E2 & -> & -> & ->) by (subst s1; by case_match).
  clearbody s1. destruct (_ && _ && _); [|done]. by rewrite <- E2.
Qed.

Lemma ack_expire_moves cfg result s :
  leg_ok cfg s ->
  moves cfg by_ack s (ack_expire result s) /\
  (control_of (ack_expire result s) = control_of s \/ phase_of (ack_expire result s) = Cooldown).
Proof.
  intros K. pose proof (ack_expire_control result s) as E. generalize dependent (ack_expire result s).
  intros s' E. destruct (_ && _ && _) eqn:Hc.
  - apply andb_prop in Hc as [[Hp _]%andb_prop _]. split; [by apply drop_moves|]. right.
    rewrite (control_phase _ _ E). unfold phase_of. simpl. by rewrite (lk_pending _ _ K Hp).
  - split; [by apply moves_same|by left].
Qed.

Lemma double_to_spec bound n : 0 <= n -> n <= double_to bound n /\ (n <= bound -> double_to bound n <= bound) /\
  double_to bound n <= n * 2 /\ (bound <= n -> double_to bound n = n).
Proof. unfold double_to. intros. repeat case_bool_decide; lia. Qed.

Lemma graduate_control result s :
  control_of (graduate result s) = MkControl (ad_restricted s) false (ad_probePending s) (ad_probeSequenceSet s)
    (ad_limit s) (ad_proofs s) (ad_proofAfter s) (ad_byteLimit s) (ad_proofBytes s) (ad_recoveryEpoch s).
Proof. reflexivity. Qed.

(** The credits a proof leaves. *)
Lemma ramp_control cfg n leg s :
  let r := ack_ramp cfg n leg s in
  let p := if bool_decide (3 < ad_proofs s + n) then 3 else ad_proofs s + n in
  let b := if bool_decide (ad_byteLimit s < u64 (ad_proofBytes s + al_UniqueBytes leg))
           then ad_byteLimit s else u64 (ad_proofBytes s + al_UniqueBytes leg) in
  r.1 = bool_decide (3 <= p) && bool_decide (0 < ad_byteLimit s) && bool_decide (ad_byteLimit s <= b) /\
  control_of r.2 =
    if r.1 then MkControl (ad_restricted s) (ad_recovering s) (ad_probePending s) (ad_probeSequenceSet s)
      (double_to (ac_MaxInflightFrames cfg) (ad_limit s)) 0 (ad_proofAfter s)
      (double_to (ordinaryHardBytes cfg) (ad_byteLimit s)) 0 (ad_recoveryEpoch s)
    else MkControl (ad_restricted s) (ad_recovering s) (ad_probePending s) (ad_probeSequenceSet s)
      (ad_limit s) p (ad_proofAfter s) (ad_byteLimit s) b (ad_recoveryEpoch s).
Proof. intros r p b. subst r p b. unfold ack_ramp. simpl. by case_match. Qed.

Section Proofs.
  Context `{FloatConversion}.

(** An ACK that proves a leg: restricted again, normal again, or further credit. *)
Lemma ack_proof_cases cfg result leg n budget peer s :
  exists s1,
    control_of s1 = MkControl (ad_restricted s) (ad_recovering s) (ad_probePending s) (ad_probeSequenceSet s)
      (ad_limit s) (ad_proofs s) (ak_AckedNext result) (ad_byteLimit s) (ad_proofBytes s) (ad_recoveryEpoch s) /\
    let r := ack_proof cfg result leg n budget peer s in
    let ready s := bool_decide (budget <= ad_byteLimit s) || bool_decide (ac_MaxInflightFrames cfg <= ad_limit s) in
    (r = (begin_restriction (ak_LastACKProgress result) "probe_unique_service_low"
            (if ad_restricted s1 then s1 else advanceRecoveryEpochLocked s1), false) \/
     (r = (graduate result s1, true) /\ ready s1 = true) \/
     r = ((ack_ramp cfg n leg s1).2, false) \/
     (r = (graduate result (ack_ramp cfg n leg s1).2, true) /\ (ack_ramp cfg n leg s1).1 = true /\
      ready (ack_ramp cfg n leg s1).2 = true)).
Proof.
  unfold ack_proof.
  set (sa := s <| ad_proofAfter := ak_AckedNext result |>).
  assert (Eb : control_of (capture_opening peer sa) = control_of sa).
  { unfold capture_opening. destruct peer; [by case_match|done]. }
  set (sb := capture_opening peer sa) in *. clearbody sb. exists (ack_probe_meter result leg sb). split; [by rewrite meter_control, Eb|].
  set (s1 := ack_probe_meter result leg sb). clearbody s1. cbv zeta.
  generalize (f_mul (ad_openingRate s1) (f_lit 1 10)) as target. intros target.
  match goal with |- context [if ?c then (begin_restriction _ _ _, false) else _] => destruct c end; [by left|right].
  generalize (f_eq target f_zero || f_le target (ad_probeRate s1)) as sr. intros sr.
  match goal with |- context [if ?c then (graduate result s1, true) else _] => destruct c eqn:E1 end.
  { left. by apply andb_prop in E1 as [-> _]. }
  right. destruct (ack_ramp cfg n leg s1) as [ramped s2]. simpl.
  destruct ramped; [|by left]. simpl.
  match goal with |- context [if ?c then (graduate result s2, true) else _] => destruct c eqn:E2 end; [|by left].
  right. by apply andb_prop in E2 as [-> _].
Qed.

(** Restriction of a leg on probation, for any [s'] with these fields. *)
Lemma fail_moves cfg c s s' :
  leg_ok cfg s -> ad_recovering s = true -> ad_restricted s' = true -> ad_recovering s' = false ->
  ad_probePending s' = false -> ad_probeSequenceSet s' = false -> ad_proofs s' = 0 -> ad_proofBytes s' = 0 ->
  ad_byteLimit s' = ad_byteLimit s -> ad_recoveryEpoch s' = next_epoch (ad_recoveryEpoch s) -> moves cfg c s s'.
Proof.
  intros K Hr E1 E2 E3 E4 E5 E6 E7 E8. destruct (restricted_ok cfg s s' K E1 E2 E3 E4 E5 E6 E7 E8) as [A B].
  split; [done|]. unfold view. rewrite B, E8, (recovering_phase _ _ K Hr). constructor.
Qed.

Lemma not_pending cfg s : leg_ok cfg s -> ad_recovering s = true ->
  ad_probePending s = false /\ ad_probeSequenceSet s = false.
Proof.
  intros K Hr. destruct (ad_probePending s) eqn:Hp.
  { pose proof (lk_pending _ _ K Hp). rewrite (lk_exclusive _ _ K Hr) in *. done. }
  split; [done|]. destruct (ad_probeSequenceSet s) eqn:Hs; [|done]. by rewrite (lk_sequence _ _ K Hs) in Hp.
Qed.

(** Probation goes on, or ends well, with credits in range. *)
Lemma credit_moves cfg s s' :
  leg_ok cfg s -> ad_recovering s = true -> ad_restricted s' = false -> ad_probePending s' = false ->
  ad_probeSequenceSet s' = false -> 1 <= ad_limit s' <= 1 `max` ac_MaxInflightFrames cfg ->
  0 <= ad_proofs s' <= 3 -> 0 <= ad_proofBytes s' <= ad_byteLimit s' ->
  ad_recoveryEpoch s' = ad_recoveryEpoch s -> moves cfg by_ack s s'.
Proof.
  intros K Hr E1 E3 E4 Hl Hp Hb Ee. pose proof (recovering_phase _ _ K Hr) as Ep.
  assert (1 <= ad_recoveryEpoch s) as He by (apply (lk_cycle _ _ K); by rewrite Ep).
  pose proof (lk_epoch _ _ K).
  assert (phase_of s' = if ad_recovering s' then Probation else Normal) as Ep' by (unfold phase_of; by rewrite E1).
  split; [constructor; rewrite ?E1, ?E3, ?E4, ?Ee; try done; lia|].
  unfold view. rewrite Ep, Ep', Ee. destruct (ad_recovering s'); constructor.
Qed.

Lemma ack_proof_moves cfg result leg n budget peer s :
  leg_ok cfg s -> ad_recovering s = true -> 0 <= n -> moves cfg by_ack s (ack_proof cfg result leg n budget peer s).1.
Proof.
  intros K Hr Hn. destruct (ack_proof_cases cfg result leg n budget peer s) as (s1 & E & Hcases).
  generalize dependent (ack_proof cfg result leg n budget peer s). intros r Hcases.
  destruct (not_pending _ _ K Hr) as [Hnp Hns]. pose proof (lk_exclusive _ _ K Hr) as Hx.
  pose proof (lk_limit _ _ K (or_intror (recovering_phase _ _ K Hr))) as Hl.
  pose proof (lk_credit _ _ K (or_intror (recovering_phase _ _ K Hr))) as Hcr.
  pose proof (lk_proofs _ _ K) as Hpr. pose proof (lk_proofBytes _ _ K) as Hpb.
  pose proof (lk_byteLimit _ _ K) as Hbl.
  injection E as E1 E2 E3 E4 E5 E6 E7 E8 E9 E10. rewrite Hnp in E3. rewrite Hns in E4. rewrite Hx in E1.
  destruct (ramp_control cfg n leg s1) as [Hramp Er].
  assert (Hgrown : forall s2, s2 = (ack_ramp cfg n leg s1).2 ->
    ad_restricted s2 = false /\ ad_probePending s2 = false /\ ad_probeSequenceSet s2 = false /\
    1 <= ad_limit s2 <= 1 `max` ac_MaxInflightFrames cfg /\ 0 <= ad_proofs s2 <= 3 /\
    0 <= ad_proofBytes s2 <= ad_byteLimit s2 /\ ad_recoveryEpoch s2 = ad_recoveryEpoch s).
  { intros s2 ->. pose proof (u64_range (ad_proofBytes s + al_UniqueBytes leg)) as Hu. unfold is_u64 in Hu.
    destruct (double_to_spec (ac_MaxInflightFrames cfg) (ad_limit s)) as (D1 & D2 & D3 & D4); [lia|].
    destruct (double_to_spec (ordinaryHardBytes cfg) (ad_byteLimit s)) as (D5 & D6 & D7 & D8); [lia|].
    destruct ((ack_ramp cfg n leg s1).1); injection Er as R1 R2 R3 R4 R5 R6 R7 R8 R9 R10;
      rewrite R1, R3, R4, R5, R6, R8, R9, R10, ?E1, ?E3, ?E4, ?E5, ?E6, ?E8, ?E9, ?E10.
    - split_and!; try done; lia.
    - split_and!; try done; repeat case_bool_decide; lia. }
  clear Er Hramp. destruct Hcases as [->|[[-> _]|[->|[-> _]]]]; simpl.
  - destruct (epoch_range cfg s1) as [Ee _].
    { eapply leg_ok_control with (s := s <| ad_proofAfter := ak_AckedNext result |>); [|by destruct K].
      unfold control_of. rewrite E1, E2, E3, E4, E5, E6, E7, E8, E9, E10. simpl. by rewrite Hx, Hnp, Hns. }
    rewrite E1. apply (fail_moves cfg by_ack s); try done; unfold advanceRecoveryEpochLocked in *;
      case_bool_decide; simpl in *; congruence.
  - apply credit_moves; simpl; rewrite ?E1, ?E3, ?E4, ?E5, ?E6, ?E8, ?E9, ?E10; done.
  - destruct (Hgrown _ eq_refl) as (?&?&?&?&?&?&?). by apply credit_moves.
  - destruct (Hgrown _ eq_refl) as (?&?&?&?&?&?&?). by apply credit_moves.
Qed.

Lemma ack_state_moves cfg result leg generation budget peer s :
  leg_ok cfg s -> 0 <= al_UniqueTimely leg -> 0 <= al_UniqueOrdered leg ->
  let r := ack_state cfg result leg generation budget peer s in
  moves cfg by_ack s r.1 /\ (ad_recovering s = false -> control_of r.1 = control_of s).
Proof.
  intros K H1 H2. cbv zeta. unfold ack_state. destruct (_ && _); [split; [by apply moves_refl|done]|].
  set (s1 := ack_service result leg (ack_feedback result leg s)).
  assert (E : control_of s1 = control_of s) by (subst s1; by rewrite service_control, feedback_control).
  clearbody s1. pose proof (leg_ok_control cfg _ _ E K) as K1.
  assert (Er : ad_recovering s1 = ad_recovering s) by (by injection E).
  destruct (ad_recovering s1) eqn:Hr; [|simpl; split; [by apply moves_same|done]]. simpl.
  match goal with |- context [if ?c then (s1, false) else _] => destruct c end;
    [simpl; split; [by apply moves_same|done]|]. split; [|by rewrite <- Er].
  destruct (ack_proof_moves cfg result leg (al_UniqueTimely leg + al_UniqueOrdered leg) budget peer s1 K1 Hr)
    as [A B]; [lia|]. split; [done|]. by rewrite <- (control_view _ _ E).
Qed.

(** The two loops together are one transition. *)
Lemma ack_moves cfg result leg generation budget peer s :
  leg_ok cfg s -> 0 <= al_UniqueTimely leg -> 0 <= al_UniqueOrdered leg ->
  moves cfg by_ack s (ack_state cfg result leg generation budget peer (ack_expire result s)).1.
Proof.
  intros K H1 H2. destruct (ack_expire_moves cfg result s K) as [[A B] C].
  destruct (ack_state_moves cfg result leg generation budget peer _ A H1 H2) as [[D E] F].
  split; [done|]. destruct C as [C|C].
  - by rewrite <- (control_view _ _ C).
  - destruct (ad_recovering (ack_expire result s)) eqn:Hr; [by rewrite (recovering_phase _ _ A Hr) in C|].
    by rewrite (control_view _ _ (F eq_refl)).
Qed.

End Proofs.

(** ** Lists of legs *)

Definition state_of (legs : list streamAdmissionLeg) (id : Z) : streamAdmissionLeg :=
  default zero_admission (slice_get legs id).

Lemma state_insert legs id s j :
  0 <= id -> id < slen legs -> state_of (<[Z.to_nat id := s]> legs) j = if decide (j = id) then s else state_of legs j.
Proof.
  intros H0 Hl. unfold state_of, slice_get. case_decide as E.
  - subst. rewrite bool_decide_eq_true_2 by done. rewrite list_lookup_insert_eq; [done|]. unfold slen in Hl. lia.
  - case_bool_decide; [|done]. rewrite list_lookup_insert_ne by lia. done.
Qed.

Lemma slen_insert {A} (l : list A) i x : slen (<[i := x]> l) = slen l.
Proof. unfold slen. by rewrite length_insert. Qed.
Lemma slen_alter {A} (f : A -> A) (l : list A) i : slen (alter f i l) = slen l.
Proof. unfold slen. by rewrite length_alter. Qed.

Lemma state_fmap f legs j :
  0 <= j < slen legs -> state_of (f <$> legs) j = f (state_of legs j).
Proof.
  intros Hj. destruct (slice_get_Some legs j Hj) as [x Hx]. unfold state_of. rewrite Hx. simpl.
  unfold slice_get in *. rewrite bool_decide_eq_true_2 in * by lia. by rewrite list_lookup_fmap, Hx.
Qed.

Lemma state_alter f legs i j :
  state_of (alter f i legs) j = state_of legs j \/ state_of (alter f i legs) j = f (state_of legs j).
Proof.
  unfold state_of, slice_get. case_bool_decide; [|by left].
  destruct (decide (i = Z.to_nat j)) as [->|]; [|left; by rewrite list_lookup_alter_ne].
  rewrite list_lookup_alter_eq. destruct (legs !! Z.to_nat j); [by right|by left].
Qed.

Lemma state_out legs j : ~ (0 <= j < slen legs) -> state_of legs j = zero_admission.
Proof.
  intros Hj. unfold state_of. destruct (slice_get legs j) eqn:E; [|done]. by apply slice_get_range in E.
Qed.

Definition legs_ok (cfg : AdmissionConfig) (legs : list streamAdmissionLeg) : Prop :=
  forall j, leg_ok cfg (state_of legs j).

Section Steps_ok.
  Context `{FloatConversion}.

(** What one loop of [admissionACK] does to leg [j]. *)
Lemma ack_loop w result active budgets ids legs rec :
  NoDup ids -> Forall (fun id => 0 <= id < slen legs) ids ->
  let r := fold_left (fun acc id => ack_leg w result active budgets id acc) ids (legs, rec) in
  slen r.1 = slen legs /\
  forall j, if decide (j ∈ ids) then exists peer, (active = [j] -> peer = None) /\
    state_of r.1 j = (ack_state (ae_cfg w) result (legResult result j)
      (slice_get (se_legGeneration (ae_engine w)) j) (default 0 (slice_get budgets j)) peer (state_of legs j)).1
    else state_of r.1 j = state_of legs j.
Proof.
  revert legs rec. induction ids as [|id ids IH]; intros legs rec HN HF; [by split|].
  apply NoDup_cons in HN as [Hid HN]. apply Forall_cons in HF as [Hr HF].
  cbv zeta. cbn [fold_left]. destruct (ack_leg w result active budgets id (legs, rec)) as [legs1 rec1] eqn:E.
  unfold ack_leg in E. fold (state_of legs id) in E.
  match type of E with context [ack_state ?a ?b ?c ?d ?e ?p ?s] => set (peer := p) in E;
    destruct (ack_state a b c d e peer s) as [s1 d1] eqn:Es end.
  apply (f_equal fst) in E. simpl in E. subst legs1.
  destruct (IH (<[Z.to_nat id := s1]> legs) rec1 HN) as [L S].
  { eapply Forall_impl; [exact HF|]. intros x Hx. by rewrite slen_insert. }
  split; [by rewrite L, slen_insert|]. intros j. specialize (S j).
  rewrite (state_insert legs id s1 j) in S by lia.
  destruct (decide (j = id)) as [->|Hne].
  - rewrite decide_False in S by done. rewrite decide_True by set_solver. exists peer.
    split; [|by rewrite S, Es]. intros ->. subst peer. unfold alternateIDLocked, alternate_step. simpl.
    by rewrite bool_decide_eq_true_2.
  - destruct (decide (j ∈ ids)); [rewrite decide_True by set_solver|rewrite decide_False by set_solver]; done.
Qed.

(** Control, and what a leg on probation is measured by. *)
Definition same_course (s' s : streamAdmissionLeg) : Prop :=
  control_of s' = control_of s /\
  (ad_recovering s = true -> ad_since s' = ad_since s /\ ad_openingRate s' = ad_openingRate s).
#[local] Instance same_course_po : PreOrder same_course.
Proof.
  split; [done|]. intros s1 s2 s3 [A1 A2] [B1 B2]. split; [congruence|]. intros Hr.
  destruct (B2 Hr) as [<- <-]. apply A2. injection B1 as _ -> _ _ _ _ _ _ _ _. exact Hr.
Qed.

Lemma cohort_course result opening s : same_course (restart_cohort result opening s) s.
Proof.
  split; [apply cohort_control|]. intros Hr. unfold restart_cohort. rewrite Hr. by rewrite andb_false_r.
Qed.

Lemma recovered_control result active legs ids :
  slen (fold_left (ack_recovered result active) ids legs) = slen legs /\
  forall j, same_course (state_of (fold_left (ack_recovered result active) ids legs) j) (state_of legs j).
Proof.
  assert (Hpeers : forall peers id legs,
    let r := fold_left (fun legs peer => if bool_decide (peer = id) then legs else
      alter (restart_cohort result (ad_openingRate (default zero_admission (slice_get legs id)))) (Z.to_nat peer) legs)
      peers legs in slen r = slen legs /\ forall j, same_course (state_of r j) (state_of legs j)).
  { induction peers as [|p peers IH]; intros id l; [done|]. cbn [fold_left]. cbv zeta in IH |- *.
    case_bool_decide; [apply IH|]. edestruct IH as [L S]. split; [by rewrite L, slen_alter|].
    intros j. etransitivity; [apply S|]. edestruct state_alter as [-> | ->]; [done|]. apply cohort_course. }
  revert legs. induction ids as [|id ids IH]; intros legs; [done|]. cbn [fold_left].
  destruct (IH (ack_recovered result active legs id)) as [L S].
  unfold ack_recovered in *. edestruct Hpeers as [L2 S2]. split; [by rewrite L, L2, slen_alter|].
  intros j. etransitivity; [apply S|]. etransitivity; [apply S2|]. by edestruct state_alter as [-> | ->].
Qed.

Definition results_ok (result : StreamTXACKResult) : Prop :=
  forall id, 0 <= al_UniqueTimely (legResult result id) /\ 0 <= al_UniqueOrdered (legResult result id).

Lemma ack_locked_state result active budgets w j :
  0 <= j < slen (ae_legs w) ->
  exists peer s1, same_course (leg_at (ack_locked result active budgets w).2 j) s1 /\
    (active = [j] -> peer = None) /\
    s1 = (ack_state (ae_cfg w) result (legResult result j) (slice_get (se_legGeneration (ae_engine w)) j)
      (default 0 (slice_get budgets j)) peer (ack_expire result (leg_at w j))).1.
Proof.
  intros Hj. unfold ack_locked.
  destruct (ack_loop w result active budgets (seqZ 0 (slen (ae_legs w))) (ack_expire result <$> ae_legs w) [])
    as [L S].
  { apply NoDup_seqZ. }
  { apply Forall_forall. intros x Hx%elem_of_seqZ. unfold slen. rewrite length_fmap. fold (slen (ae_legs w)). lia. }
  destruct (fold_left _ _ _) as [legs rec]. simpl in *. specialize (S j).
  rewrite decide_True in S by (apply elem_of_seqZ; lia). destruct S as (peer & Hp & S). exists peer, (state_of legs j).
  split; [apply recovered_control|]. split; [exact Hp|]. by rewrite S, (state_fmap (ack_expire result)).
Qed.

Lemma ack_locked_slen result active budgets w :
  slen (ae_legs (ack_locked result active budgets w).2) = slen (ae_legs w).
Proof.
  unfold ack_locked.
  destruct (ack_loop w result active budgets (seqZ 0 (slen (ae_legs w))) (ack_expire result <$> ae_legs w) [])
    as [L _].
  { apply NoDup_seqZ. }
  { apply Forall_forall. intros x Hx%elem_of_seqZ. unfold slen. rewrite length_fmap. fold (slen (ae_legs w)). lia. }
  destruct (fold_left _ _ _) as [legs rec]. simpl in *. rewrite (proj1 (recovered_control _ _ _ _)), L.
  unfold slen. by rewrite length_fmap.
Qed.
End Steps_ok.
