(* ===== verification/AdmissionSafe.v ===== *)
(** * Slow-leg protection: theorems *)

From S2P Require Import Prelude Bytes Float64 PathProtocol TxLedger TxQueue Repair RttCache Legs LegsInv Admission AdmissionInv.
From stdpp Require Import options.
#[local] Open Scope Z_scope.

(** The arguments have the types of the code: identifiers are [uint8], sizes and counts are
    not negative. *)
Definition admission_op_ok (op : admission_op) : Prop :=
  match op with
  | mop_leg (lo_attach id _ _ _) _ => 0 <= id
  | mop_leg _ _ => True
  | mop_assigned id _ _ probeBytes _ _ _ => 0 <= id /\ 0 <= probeBytes
  | mop_write_started id _ _ _ | mop_cancel id _ _ | mop_expire id _ _ | mop_restrict id _ _
  | mop_overdue id _ _ _ _ _ | mop_suspect id _ _ _ => 0 <= id
  | mop_ack result _ _ => results_ok result
  end.

(** Why leg [j] may move. *)
Definition cause_of (op : admission_op) (j : Z) : cause :=
  match op with
  | mop_assigned id _ _ _ _ _ _ => if decide (j = id) then by_assignment else by_other
  | mop_write_started id _ _ _ => if decide (j = id) then by_write else by_other
  | mop_ack _ _ _ => by_ack
  | _ => by_other
  end.

(** The step keeps the shape of the state and moves every leg. *)
Definition step_moves (w w' : admission_engine) (c : Z -> cause) : Prop :=
  ae_cfg w' = ae_cfg w /\ slen (ae_legs w') = slen (ae_legs w) /\
  forall j, moves (ae_cfg w) (c j) (leg_at w j) (leg_at w' j).

Section Steps_move.
  Context `{FloatConversion}.
  Implicit Types (w : admission_engine).

Lemma unmoved w w' c :
  legs_ok (ae_cfg w) (ae_legs w) -> ae_cfg w' = ae_cfg w -> ae_legs w' = ae_legs w -> step_moves w w' c.
Proof. intros K E1 E2. unfold step_moves, leg_at. rewrite E1, E2. split_and!; try done. intros j. apply moves_refl, K. Qed.

Lemma set_moves w id s c :
  legs_ok (ae_cfg w) (ae_legs w) -> 0 <= id -> moves (ae_cfg w) c (leg_at w id) s ->
  step_moves w (set_leg id s w) (fun j => if decide (j = id) then c else by_other).
Proof.
  intros K H0 Hm. split; [done|]. split; [apply slen_insert|]. intros j.
  destruct (decide (id < slen (ae_legs w))) as [Hl|Hl].
  - change (moves (ae_cfg w) (if decide (j = id) then c else by_other) (state_of (ae_legs w) j)
      (state_of (<[Z.to_nat id := s]> (ae_legs w)) j)). rewrite state_insert by lia.
    case_decide as E; [subst; exact Hm|]. apply moves_refl, K.
  - unfold leg_at, set_leg. simpl. rewrite list_insert_ge by (unfold slen in *; lia). apply moves_refl, K.
Qed.

Lemma step_moves_cause w w' c c' :
  step_moves w w' c -> (forall j, c j = c' j) -> step_moves w w' c'.
Proof. intros (A & B & C) E. split; [done|]. split; [done|]. intros j. rewrite <- E. apply C. Qed.

Lemma other_cause (j id : Z) : (if decide (j = id) then by_other else by_other) = by_other.
Proof. by case_decide. Qed.

Lemma set_moves_other w id s :
  legs_ok (ae_cfg w) (ae_legs w) -> 0 <= id -> moves (ae_cfg w) by_other (leg_at w id) s ->
  step_moves w (set_leg id s w) (fun _ => by_other).
Proof. intros. eapply step_moves_cause; [by apply set_moves|]. intros j. apply other_cause. Qed.

Lemma leg_step_moves op now w w' :
  legs_ok (ae_cfg w) (ae_legs w) -> admission_op_ok (mop_leg op now) -> leg_step op now w = Some w' ->
  step_moves w w' (fun _ => by_other).
Proof.
  intros K Hok. assert (Hother : (let! e := leg_exec (ae_engine w) op in Some (w <| ae_engine := e |>)) = Some w' ->
    step_moves w w' (fun _ => by_other)).
  { destruct (leg_exec (ae_engine w) op); [|done]. intros <-%(inj Some). by apply unmoved. }
  destruct op; try exact Hother. unfold leg_step.
  destruct (attachLeg (ae_engine w) id auth prior clock) as [out e]. intros <-%(inj Some).
  destruct out; try (by apply unmoved). unfold admissionRejoined. destruct (_ || _); [by apply unmoved|].
  destruct (set_moves_other (w <| ae_engine := e |>) id (rejoin now (pr_AckedNext (ProgressSnapshot
    (ledger (w <| ae_engine := e |>)))) (leg_at w id)) K Hok) as (A & B & C).
  { apply rejoin_moves, K. }
  by split_and!.
Qed.

Lemma stamp_moves w w' p t c : step_moves w w' c -> step_moves w (stamp p t w') c.
Proof. intros (A & B & C). by split_and!. Qed.

Lemma exec_moves w op w' :
  legs_ok (ae_cfg w) (ae_legs w) -> admission_op_ok op -> admission_exec w op = Some w' ->
  step_moves w w' (cause_of op).
Proof.
  intros K Hok. destruct op; cbn [admission_exec]; simpl in Hok.
  - intros Hx. eapply step_moves_cause; [by eapply leg_step_moves|done].
  - destruct Hok as [H0 Hb]. destruct (validAdmissionLeg w id); intros <-%(inj Some); [|by apply unmoved].
    assert (forall seq, step_moves w (set_leg id (assigned_locked w id seq now probeBytes frontier active seed
      (leg_at w id)) w) (cause_of (mop_assigned id record now probeBytes frontier active seed))) as Hm.
    { intros seq. apply set_moves; [done|done|]. by apply assigned_moves; [apply K|]. }
    unfold assigned_step. destruct record; [case_match; [apply stamp_moves|]|]; apply Hm.
  - unfold recoveryProbeWriteStarted. destruct (_ || _); [intros <-%(inj Some); by apply unmoved|].
    destruct (sequence_of w record) as [q|]; [|done]. simpl.
    pose proof (write_moves (ae_cfg w) q at_ ackedNext (leg_at w id) (K id)) as Hw.
    destruct (recoveryProbeWriteStartedLocked q at_ ackedNext (leg_at w id)) as [[may stamped] s]. simpl in *.
    intros <-%(inj Some). simpl. destruct stamped; [apply stamp_moves|]; by apply set_moves.
  - intros <-%(inj Some). unfold cancelPendingRecoveryProbe. destruct (negb _); [by apply unmoved|].
    destruct (probe_is sequence (leg_at w id)) eqn:Hp; [|by apply unmoved]. apply set_moves_other; [done|done|].
    by apply drop_moves; [apply K|by eapply probe_is_pending|].
  - intros <-%(inj Some). unfold expirePendingRecoveryProbe. destruct (negb _); [by apply unmoved|].
    destruct (probe_is sequence (leg_at w id) && _) eqn:Hp; [|by apply unmoved]. simpl.
    apply andb_prop in Hp as [Hp _]. apply set_moves_other; [done|done|].
    by apply expire_moves; [apply K|by eapply probe_is_pending].
  - intros <-%(inj Some). unfold restrictOrdinary. destruct (negb _); [by apply unmoved|].
    pose proof (restrict_moves (ae_cfg w) now reason (leg_at w id) (K id)) as Hm.
    destruct (restrictOrdinaryLocked now reason (leg_at w id)) as [b s]. by apply set_moves_other.
  - intros <-%(inj Some). unfold restrictOverdueRecoveryFrontier. destruct (negb _); [by apply unmoved|].
    case_bool_decide; [by apply unmoved|]. destruct (lg_heap (ledger w) !! record) as [r|]; [|by apply unmoved].
    destruct (probe_reference budget r (leg_at w id)) as [ref lim].
    match goal with |- context [if ?c then _ else (_, false, w)] => destruct c end; [|by apply unmoved].
    pose proof (restrict_moves (ae_cfg w) now "probe_timeout" (leg_at w id) (K id)) as Hm.
    destruct (restrictOrdinaryLocked now "probe_timeout" (leg_at w id)) as [b s]. by apply set_moves_other.
  - intros <-%(inj Some). apply set_moves_other; [done|done|].
    apply moves_same; [apply K|apply suspect_control].
  - intros <-%(inj Some). split; [by unfold ack_locked; destruct (fold_left _ _ _)|].
    split; [apply ack_locked_slen|]. intros j. cbn [cause_of].
    destruct (decide (0 <= j < slen (ae_legs w))) as [Hj|Hj].
    + destruct (ack_locked_state result active budgets w j Hj) as (peer & s1 & [E _] & _ & ->).
      destruct (ack_moves (ae_cfg w) result (legResult result j) (slice_get (se_legGeneration (ae_engine w)) j)
        (default 0 (slice_get budgets j)) peer (leg_at w j) (K j)) as [A B]; [apply Hok|apply Hok|].
      split; [by eapply leg_ok_control|]. by rewrite (control_view _ _ E).
    + pose proof (state_out (ae_legs w) j Hj) as E1.
      pose proof (ack_locked_slen result active budgets w) as El.
      pose proof (state_out (ae_legs (ack_locked result active budgets w).2) j ltac:(rewrite El; exact Hj)) as E2.
      change (moves (ae_cfg w) by_ack (state_of (ae_legs w) j)
        (state_of (ae_legs (ack_locked result active budgets w).2) j)). rewrite E1, E2.
      apply moves_refl, zero_ok.
Qed.

Lemma run_moves ops w w' :
  legs_ok (ae_cfg w) (ae_legs w) -> Forall admission_op_ok ops -> admission_run ops w = Some w' ->
  ae_cfg w' = ae_cfg w /\ slen (ae_legs w') = slen (ae_legs w) /\ legs_ok (ae_cfg w') (ae_legs w').
Proof.
  revert w. induction ops as [|op ops IH]; intros w K HF Hr; simpl in Hr.
  { by apply (inj Some) in Hr as <-. }
  apply Forall_cons in HF as [Hok HF]. destruct (admission_exec w op) as [w1|] eqn:Hx; [|done]. simpl in Hr.
  destruct (exec_moves _ _ _ K Hok Hx) as (E1 & E2 & Hm).
  destruct (IH w1) as (A & B & C); [|done|done|split_and!; [congruence|congruence|done]].
  intros j. rewrite E1. apply Hm.
Qed.

Lemma new_admission_ok cfg acfg rows now :
  legs_ok (ae_cfg (new_admission cfg acfg rows now)) (ae_legs (new_admission cfg acfg rows now)).
Proof.
  unfold new_admission. simpl. set (e := NewStreamEngine cfg). clearbody e.
  assert (Hz : legs_ok acfg (replicate (Z.to_nat (se_maxActiveLegs e)) zero_admission)).
  { intros j. unfold state_of. destruct (slice_get _ j) eqn:E; [|apply zero_ok]. simpl. unfold slice_get in E.
    case_bool_decide; [|done]. apply lookup_replicate in E as [-> _]. apply zero_ok. }
  destruct (cf_slowLegProtection cfg); [|done]. revert Hz.
  generalize (replicate (Z.to_nat (se_maxActiveLegs e)) zero_admission). induction rows as [|row rows IH]; [done|].
  intros legs K. simpl. apply IH. intros j. unfold warm_start.
  edestruct state_alter as [-> | ->]; [apply K|]. case_match.
  - constructor; simpl; try done; try lia. all: try (by intros []).
  - by eapply leg_ok_control; [|apply K].
Qed.
End Steps_move.

(** ** Earned credit *)

(** The credit a leg has been given or holds towards the next stage; the proofs behind its
    frame limit. *)
Definition byte_credit (s : streamAdmissionLeg) : Z := ad_byteLimit s + ad_proofBytes s.
Definition proof_credit (s : streamAdmissionLeg) : Z := 3 * Z.log2 (ad_limit s) + ad_proofs s.
Definition suspended (s : streamAdmissionLeg) : Prop := phase_of s = Pending \/ phase_of s = Probation.

(** The credits grow by at most [bytes] and [proofs]. *)
Definition credits (bytes proofs : Z) (s s' : streamAdmissionLeg) : Prop :=
  suspended s' -> suspended s /\ byte_credit s' <= byte_credit s + bytes /\ proof_credit s' <= proof_credit s + proofs.

Lemma control_credits s s' :
  control_of s' = control_of s ->
  (suspended s' <-> suspended s) /\ byte_credit s' = byte_credit s /\ proof_credit s' = proof_credit s.
Proof.
  intros E. unfold suspended, byte_credit, proof_credit. rewrite (control_phase _ _ E).
  by injection E as _ _ _ _ -> -> _ -> -> _.
Qed.

Lemma credits_same bytes proofs s s' :
  control_of s' = control_of s -> 0 <= bytes -> 0 <= proofs -> credits bytes proofs s s'.
Proof. intros (A & B & C)%control_credits H1 H2 Hs. rewrite B, C. split; [by apply A|lia]. Qed.

Lemma credits_control bytes proofs s s1 s2 s' :
  control_of s1 = control_of s -> credits bytes proofs s1 s2 -> control_of s' = control_of s2 ->
  credits bytes proofs s s'.
Proof.
  intros (A & B & C)%control_credits Hc (D & E & F)%control_credits Hs. rewrite E, F, <- B, <- C.
  rewrite <- A. apply Hc, D, Hs.
Qed.

Lemma credits_cooldown bytes proofs s s' : phase_of s' = Cooldown -> credits bytes proofs s s'.
Proof. intros E [H|H]; congruence. Qed.

Lemma proof_credit_nonneg cfg s : leg_ok cfg s -> 0 <= proof_credit s.
Proof. intros K. unfold proof_credit. pose proof (Z.log2_nonneg (ad_limit s)). pose proof (lk_proofs _ _ K). lia. Qed.

Lemma restrict_credits cfg now reason s :
  leg_ok cfg s -> credits 0 0 s (restrictOrdinaryLocked now reason s).2.
Proof.
  intros K. destruct (ad_restricted s) eqn:Hr.
  - unfold restrictOrdinaryLocked. rewrite Hr. by apply credits_same.
  - by apply credits_cooldown, (restrict_ok cfg).
Qed.

Lemma drop_credits cfg s s' :
  leg_ok cfg s -> ad_probePending s = true -> control_of s' = control_of (end_pending s) -> credits 0 0 s s'.
Proof.
  intros K Hp E. apply credits_cooldown. rewrite (control_phase _ _ E). unfold phase_of. simpl.
  by rewrite (lk_pending _ _ K Hp).
Qed.

Lemma write_credits cfg sequence at_ ackedNext s :
  leg_ok cfg s -> credits 0 0 s (recoveryProbeWriteStartedLocked sequence at_ ackedNext s).2.
Proof.
  intros K. unfold recoveryProbeWriteStartedLocked. case_match; [by apply credits_same|].
  destruct (probe_is sequence s) eqn:Hp; [|by apply credits_same]. apply probe_is_pending in Hp. simpl.
  case_match; simpl; [by apply credits_cooldown, (expire_ok cfg)|]. intros _.
  split; [left; by eapply pending_phase|]. unfold byte_credit, proof_credit. simpl. lia.
Qed.

Lemma rejoin_credits cfg now frontier s : leg_ok cfg s -> credits 0 0 s (rejoin now frontier s).
Proof.
  intros K. pose proof (rejoin_control now frontier s) as E. generalize dependent (rejoin now frontier s).
  intros s' E. destruct (ad_recovering s) eqn:Hr.
  - intros _. pose proof (recovering_phase _ _ K Hr) as Ep. split; [by right|].
    pose proof (proof_credit_nonneg _ _ K). pose proof (lk_proofBytes _ _ K). pose proof (lk_byteLimit _ _ K).
    injection E as _ _ _ _ E5 E6 _ E8 E9 _. unfold byte_credit, proof_credit in *. rewrite E5, E6, E8, E9.
    simpl. lia.
  - destruct (ad_probePending s) eqn:Hp; [by eapply drop_credits|].
    apply credits_same; [|done|done]. rewrite E. unfold control_of, end_pending. simpl. rewrite Hp.
    destruct (ad_probeSequenceSet s) eqn:Hs; [by rewrite (lk_sequence _ _ K Hs) in Hp|done].
Qed.

Lemma ramp_credits cfg acfg n leg s :
  leg_ok acfg s -> 1 <= ad_limit s -> 0 <= n -> 0 <= al_UniqueBytes leg ->
  byte_credit (ack_ramp cfg n leg s).2 <= byte_credit s + al_UniqueBytes leg /\
  proof_credit (ack_ramp cfg n leg s).2 <= proof_credit s + n.
Proof.
  intros K Hl Hn Hu. destruct (ramp_control cfg n leg s) as [Hr E]. revert E Hr.
  destruct (ack_ramp cfg n leg s) as [ramped s']. simpl. intros E Hr.
  pose proof (lk_proofs _ _ K). pose proof (lk_proofBytes _ _ K). pose proof (lk_byteLimit _ _ K).
  assert (u64 (ad_proofBytes s + al_UniqueBytes leg) <= ad_proofBytes s + al_UniqueBytes leg).
  { apply Z.mod_le; lia. }
  destruct (double_to_spec (ac_MaxInflightFrames cfg) (ad_limit s)) as (D1 & _ & D3 & _); [lia|].
  destruct (double_to_spec (ordinaryHardBytes cfg) (ad_byteLimit s)) as (_ & _ & D7 & _); [lia|].
  assert (Z.log2 (double_to (ac_MaxInflightFrames cfg) (ad_limit s)) <= Z.log2 (ad_limit s) + 1).
  { rewrite Z.add_1_r, <- Z.log2_double by lia. apply Z.log2_le_mono. lia. }
  unfold byte_credit, proof_credit. destruct ramped; injection E as _ _ _ _ E5 E6 _ E8 E9 _; rewrite E5, E6, E8, E9.
  - symmetry in Hr. apply andb_prop in Hr as [[Hr1 _]%andb_prop Hr3]. revert Hr1 Hr3.
    repeat case_bool_decide; try done; lia.
  - split; repeat case_bool_decide; lia.
Qed.

Section Credits.
  Context `{FloatConversion}.
  Implicit Types (w : admission_engine).

Lemma ack_proof_credits cfg result leg n budget peer s :
  leg_ok cfg s -> ad_recovering s = true -> 0 <= n -> 0 <= al_UniqueBytes leg ->
  credits (al_UniqueBytes leg) n s (ack_proof cfg result leg n budget peer s).1.
Proof.
  intros K Hr Hn Hu. destruct (ack_proof_cases cfg result leg n budget peer s) as (s1 & E & Hcases).
  generalize dependent (ack_proof cfg result leg n budget peer s). intros r Hcases.
  pose proof (recovering_phase _ _ K Hr) as Ep. pose proof (lk_exclusive _ _ K Hr) as Hx.
  assert (1 <= ad_limit s) as Hl by (apply (lk_limit _ _ K); by right).
  assert (K1 : leg_ok cfg s1).
  { eapply leg_ok_control with (s := s <| ad_proofAfter := ak_AckedNext result |>); [exact E|by destruct K]. }
  assert (byte_credit s1 = byte_credit s /\ proof_credit s1 = proof_credit s /\ ad_limit s1 = ad_limit s
    /\ ad_restricted s1 = false /\ ad_probePending s1 = false) as (B1 & B2 & B3 & B4 & B5).
  { destruct (not_pending _ _ K Hr) as [Hp _]. injection E as E1 _ E3 _ E5 E6 _ E8 E9 _.
    unfold byte_credit, proof_credit. by rewrite E1, E3, E5, E6, E8, E9, Hx, Hp. }
  rewrite <- B3 in Hl.
  destruct (ramp_credits cfg cfg n leg s1 K1 Hl Hn Hu) as [R1 R2].
  destruct Hcases as [->|[[-> _]|[->|[-> _]]]]; simpl; intros Hs; (split; [by right|]).
  - rewrite B4 in Hs. destruct Hs as [Hs|Hs]; unfold phase_of, advanceRecoveryEpochLocked in Hs;
      by case_bool_decide; simpl in Hs; rewrite ?B5 in Hs.
  - unfold byte_credit, proof_credit in *. simpl. lia.
  - lia.
  - change (byte_credit (graduate result (ack_ramp cfg n leg s1).2)) with (byte_credit (ack_ramp cfg n leg s1).2).
    change (proof_credit (graduate result (ack_ramp cfg n leg s1).2)) with (proof_credit (ack_ramp cfg n leg s1).2). lia.
Qed.

Lemma ack_credits cfg result leg generation budget peer s :
  leg_ok cfg s -> 0 <= al_UniqueTimely leg -> 0 <= al_UniqueOrdered leg -> 0 <= al_UniqueBytes leg ->
  credits (al_UniqueBytes leg) (al_UniqueTimely leg + al_UniqueOrdered leg) s
    (ack_state cfg result leg generation budget peer (ack_expire result s)).1.
Proof.
  intros K H1 H2 H3. destruct (ack_expire_moves cfg result s K) as [[A _] C].
  set (s0 := ack_expire result s) in *. clearbody s0.
  destruct C as [C|C]; [eapply credits_control; [exact C| |reflexivity]|].
  - unfold ack_state. destruct (_ && _); [apply credits_same; [done|lia|lia]|].
    set (s1 := ack_service result leg (ack_feedback result leg s0)).
    assert (E : control_of s1 = control_of s0) by (subst s1; by rewrite service_control, feedback_control).
    clearbody s1. destruct (ad_recovering s1) eqn:Hr; simpl; [|apply credits_same; [done|lia|lia]].
    match goal with |- context [if ?c then (s1, false) else _] => destruct c end; [apply credits_same; [done|lia|lia]|].
    eapply credits_control; [exact E| |reflexivity].
    apply ack_proof_credits; [by eapply leg_ok_control|done|lia|done].
  - apply credits_cooldown. destruct (ack_state_moves cfg result leg generation budget peer s0 A H1 H2) as [_ F].
    destruct (ad_recovering s0) eqn:Hr; [by rewrite (recovering_phase _ _ A Hr) in C|].
    by rewrite (control_phase _ _ (F eq_refl)).
Qed.

(** The account of a leg: the bytes of its probe and what ACKs have confirmed of it since,
    and the number of records confirmed. *)
Record account := MkAccount { at_bytes : Z; at_proofs : Z }.
Definition account_step (id : Z) w (op : admission_op) (a : account) : account :=
  match op with
  | mop_assigned id' _ _ probeBytes _ _ _ =>
    if bool_decide (id' = id) && validAdmissionLeg w id then
      if starts_probe w id then MkAccount probeBytes 0 else
      if ad_probePending (leg_at w id) && bool_decide (ad_byteLimit (leg_at w id) = 0)
      then MkAccount probeBytes (at_proofs a) else a
    else a
  | mop_ack result _ _ =>
    let leg := legResult result id in
    MkAccount (at_bytes a + al_UniqueBytes leg) (at_proofs a + (al_UniqueTimely leg + al_UniqueOrdered leg))
  | _ => a
  end.
Fixpoint account_run (id : Z) (ops : list admission_op) w (a : account) : account :=
  match ops with
  | [] => a
  | op :: ops =>
    match admission_exec w op with
    | Some w' => account_run id ops w' (account_step id w op a)
    | None => a
    end
  end.

Definition bytes_ok (op : admission_op) : Prop :=
  match op with mop_ack result _ _ => forall id, 0 <= al_UniqueBytes (legResult result id) | _ => True end.

Definition earned (s : streamAdmissionLeg) (a : account) : Prop :=
  suspended s -> byte_credit s <= at_bytes a /\ proof_credit s <= at_proofs a.

Lemma earned_credits bytes proofs s s' a a' :
  earned s a -> credits bytes proofs s s' -> at_bytes a + bytes <= at_bytes a' -> at_proofs a + proofs <= at_proofs a' ->
  earned s' a'.
Proof. intros He Hc H1 H2 Hs. destruct (Hc Hs) as (A & B & C). destruct (He A). lia. Qed.

(** A section on one leg: leg [j] keeps its credits unless it is that leg. *)
Lemma set_credits w id s j :
  0 <= id -> credits 0 0 (leg_at w id) s -> credits 0 0 (leg_at w j) (leg_at (set_leg id s w) j).
Proof.
  intros H0 Hc. destruct (decide (id < slen (ae_legs w))) as [Hl|Hl].
  - change (credits 0 0 (leg_at w j) (state_of (<[Z.to_nat id := s]> (ae_legs w)) j)).
    rewrite state_insert by lia. case_decide; [by subst|]. by apply credits_same.
  - unfold leg_at, set_leg. simpl. rewrite list_insert_ge by (unfold slen in *; lia). by apply credits_same.
Qed.

Lemma exec_credits w op w' j :
  legs_ok (ae_cfg w) (ae_legs w) -> admission_op_ok op -> bytes_ok op -> admission_exec w op = Some w' ->
  (forall id r t b f a s, op <> mop_assigned id r t b f a s) ->
  match op with
  | mop_ack result _ _ => let leg := legResult result j in
    credits (al_UniqueBytes leg) (al_UniqueTimely leg + al_UniqueOrdered leg) (leg_at w j) (leg_at w' j)
  | _ => credits 0 0 (leg_at w j) (leg_at w' j)
  end.
Proof.
  intros K Hok Hb Hx Hna. pose proof (K j) as Kj. destruct op; cbn [admission_exec] in Hx; simpl in Hok.
  - assert (Hs : forall e, credits 0 0 (leg_at w j) (leg_at (w <| ae_engine := e |>) j)) by (intros; by apply credits_same).
    assert (Hother : (let! e := leg_exec (ae_engine w) op in Some (w <| ae_engine := e |>)) = Some w' ->
      credits 0 0 (leg_at w j) (leg_at w' j)).
    { destruct (leg_exec (ae_engine w) op); [|done]. intros <-%(inj Some). apply Hs. }
    destruct op; try exact (Hother Hx). unfold leg_step in Hx. clear Hother.
    destruct (attachLeg (ae_engine w) id auth prior clock) as [out e]. apply (inj Some) in Hx as <-.
    destruct out; try apply Hs. unfold admissionRejoined. destruct (_ || _); [apply Hs|].
    change (credits 0 0 (leg_at (w <| ae_engine := e |>) j) (leg_at (set_leg id (rejoin now
      (pr_AckedNext (ProgressSnapshot (ledger (w <| ae_engine := e |>)))) (leg_at (w <| ae_engine := e |>) id))
      (w <| ae_engine := e |>)) j)).
    apply set_credits; [done|]. eapply rejoin_credits, K.
  - by destruct (Hna id record now probeBytes frontier active seed).
  - unfold recoveryProbeWriteStarted in Hx. destruct (_ || _); [apply (inj Some) in Hx as <-; by apply credits_same|].
    destruct (sequence_of w record) as [q|]; [|done]. simpl in Hx.
    pose proof (write_credits (ae_cfg w) q at_ ackedNext (leg_at w id) (K id)) as Hw.
    destruct (recoveryProbeWriteStartedLocked q at_ ackedNext (leg_at w id)) as [[may stamped] s]. simpl in *.
    apply (inj Some) in Hx as <-. simpl. destruct stamped; by apply (set_credits w id s j).
  - apply (inj Some) in Hx as <-. unfold cancelPendingRecoveryProbe. destruct (negb _); [by apply credits_same|].
    destruct (probe_is sequence (leg_at w id)) eqn:Hp; [|by apply credits_same]. apply set_credits; [done|].
    by eapply drop_credits; [apply K|by eapply probe_is_pending|].
  - apply (inj Some) in Hx as <-. unfold expirePendingRecoveryProbe. destruct (negb _); [by apply credits_same|].
    destruct (_ && _); [|by apply credits_same]. apply set_credits; [done|].
    eapply credits_cooldown, expire_ok, K.
  - apply (inj Some) in Hx as <-. unfold restrictOrdinary. destruct (negb _); [by apply credits_same|].
    pose proof (restrict_credits (ae_cfg w) now reason (leg_at w id) (K id)) as Hm.
    destruct (restrictOrdinaryLocked now reason (leg_at w id)) as [b s]. by apply set_credits.
  - apply (inj Some) in Hx as <-. unfold restrictOverdueRecoveryFrontier. destruct (negb _); [by apply credits_same|].
    case_bool_decide; [by apply credits_same|]. destruct (lg_heap (ledger w) !! record) as [r|]; [|by apply credits_same].
    destruct (probe_reference budget r (leg_at w id)) as [ref lim].
    match goal with |- context [if ?c then _ else (_, false, w)] => destruct c end; [|by apply credits_same].
    pose proof (restrict_credits (ae_cfg w) now "probe_timeout" (leg_at w id) (K id)) as Hm.
    destruct (restrictOrdinaryLocked now "probe_timeout" (leg_at w id)) as [b s]. by apply set_credits.
  - apply (inj Some) in Hx as <-. apply set_credits; [done|]. by apply credits_same; [apply suspect_control|..].
  - apply (inj Some) in Hx as <-. cbv zeta. destruct (Hok j) as [H1 H2]. specialize (Hb j).
    destruct (decide (0 <= j < slen (ae_legs w))) as [Hj|Hj].
    + destruct (ack_locked_state result active budgets w j Hj) as (peer & s1 & [E _] & _ & ->).
      eapply credits_control; [reflexivity| |exact E]. by apply (ack_credits (ae_cfg w)).
    + pose proof (state_out (ae_legs w) j Hj) as E1.
      pose proof (ack_locked_slen result active budgets w) as El.
      pose proof (state_out (ae_legs (ack_locked result active budgets w).2) j ltac:(rewrite El; exact Hj)) as E2.
      apply credits_same; [|done|lia].
      change (control_of (state_of (ae_legs (ack_locked result active budgets w).2) j) =
        control_of (state_of (ae_legs w) j)). by rewrite E1, E2.
Qed.

Lemma assigned_earned cfg w id record now bytes frontier active seed a :
  leg_ok cfg (leg_at w id) -> earned (leg_at w id) a ->
  earned (assigned_locked w id record now bytes frontier active seed (leg_at w id))
    (if starts_probe w id then MkAccount bytes 0 else
     if ad_probePending (leg_at w id) && bool_decide (ad_byteLimit (leg_at w id) = 0)
     then MkAccount bytes (at_proofs a) else a).
Proof.
  intros K He. unfold assigned_locked, starts_probe.
  destruct (ad_restricted (leg_at w id) && negb (ad_probePending (leg_at w id))) eqn:Hc.
  - apply andb_prop in Hc as [Hr _].
    match goal with |- context [assign_probe ?a ?b ?c ?d ?e ?f ?g] =>
      pose proof (assign_probe_control a b c d e f g Hr) as E; generalize dependent (assign_probe a b c d e f g) end.
    intros s E. injection E as E1 E2 E3 E4 E5 E6 E7 E8 E9 E10. intros _.
    unfold byte_credit, proof_credit. destruct (_ && _); simpl; rewrite E5, E6, ?E8, E9; simpl; lia.
  - destruct (ad_probePending (leg_at w id) && bool_decide (ad_byteLimit (leg_at w id) = 0)) eqn:Hz; [|exact He].
    apply andb_prop in Hz as [Hp Hz%bool_decide_eq_true]. pose proof (pending_phase _ _ K Hp) as Ep.
    destruct (He (or_introl Ep)) as [_ H2]. pose proof (lk_credit _ _ K (or_introl Ep)).
    intros _. split; [|exact H2]. unfold byte_credit. simpl. lia.
Qed.

Lemma stamp_leg p t w j : leg_at (stamp p t w) j = leg_at w j.
Proof. done. Qed.

Lemma exec_earned w op w' j a :
  legs_ok (ae_cfg w) (ae_legs w) -> admission_op_ok op -> bytes_ok op -> admission_exec w op = Some w' ->
  earned (leg_at w j) a -> earned (leg_at w' j) (account_step j w op a).
Proof.
  intros K Hok Hb Hx He.
  pose proof (exec_credits w op w' j K Hok Hb Hx) as Hc.
  destruct op; try (specialize (Hc ltac:(discriminate)); eapply earned_credits; [exact He|exact Hc|simpl; lia|simpl; lia]).
  clear Hc. cbn [admission_exec account_step] in *. destruct Hok as [H0 _].
  destruct (validAdmissionLeg w id) eqn:Hv; apply (inj Some) in Hx as <-.
  2:{ case_bool_decide; [subst; by rewrite Hv|done]. }
  assert (Hl : id < slen (ae_legs w)).
  { unfold validAdmissionLeg in Hv. by apply andb_prop in Hv as [Hv%bool_decide_eq_true _]. }
  assert (Hset : forall seq, earned (leg_at (set_leg id (assigned_locked w id seq now probeBytes frontier active seed
    (leg_at w id)) w) j) (account_step j w (mop_assigned id record now probeBytes frontier active seed) a)).
  { intros seq. change (earned (state_of (<[Z.to_nat id := assigned_locked w id seq now probeBytes frontier active seed
      (leg_at w id)]> (ae_legs w)) j) (account_step j w (mop_assigned id record now probeBytes frontier active seed) a)).
    rewrite state_insert by lia. cbn [account_step]. case_decide as Ej.
    - subst. rewrite bool_decide_eq_true_2 by done. rewrite Hv. by apply (assigned_earned (ae_cfg w)); [apply K|].
    - rewrite bool_decide_eq_false_2 by congruence. exact He. }
  unfold assigned_step. destruct record; [case_match; rewrite ?stamp_leg|]; apply Hset.
Qed.

Lemma run_earned ops w w' j a :
  legs_ok (ae_cfg w) (ae_legs w) -> Forall admission_op_ok ops -> Forall bytes_ok ops ->
  admission_run ops w = Some w' -> earned (leg_at w j) a -> earned (leg_at w' j) (account_run j ops w a).
Proof.
  revert w a. induction ops as [|op ops IH]; intros w a K HF HB Hr He; simpl in Hr.
  { by apply (inj Some) in Hr as <-. }
  apply Forall_cons in HF as [Hok HF]. apply Forall_cons in HB as [Hb HB]. cbn [account_run].
  destruct (admission_exec w op) as [w1|] eqn:Hx; [|done]. simpl in Hr.
  destruct (exec_moves _ _ _ K Hok Hx) as (E1 & E2 & Hm).
  apply (IH w1); [|done|done|done|by eapply exec_earned]. intros i. rewrite E1. apply Hm.
Qed.

(** A new session: nothing is suspended but what was warm-started into a cooldown. *)
Lemma new_admission_phase cfg acfg rows now j : ~ suspended (leg_at (new_admission cfg acfg rows now) j).
Proof.
  unfold new_admission. set (e := NewStreamEngine cfg). clearbody e. unfold leg_at. simpl.
  assert (Hz : ~ suspended (state_of (replicate (Z.to_nat (se_maxActiveLegs e)) zero_admission) j)).
  { unfold state_of. destruct (slice_get _ j) eqn:E; [|by intros []]. simpl. unfold slice_get in E.
    case_bool_decide; [|done]. apply lookup_replicate in E as [-> _]. by intros []. }
  destruct (cf_slowLegProtection cfg); [|done]. revert Hz.
  generalize (replicate (Z.to_nat (se_maxActiveLegs e)) zero_admission). induction rows as [|row rows IH]; [done|].
  intros legs K. simpl. apply IH. unfold warm_start.
  edestruct state_alter as [-> | ->]; [apply K|]. case_match; [by intros []|exact K].
Qed.

End Credits.

(** ** A leg whose carrier is replaced on probation *)

Section Stuck.
  Context `{FloatConversion}.
  Implicit Types (w : admission_engine).

(** What [rejoin] leaves of a leg on probation: one frame, no byte allowance. *)
Definition reprobing (s : streamAdmissionLeg) : Prop :=
  ad_recovering s = true /\ ad_limit s = 1 /\ ad_byteLimit s = 0.

Definition held_back (s : streamAdmissionLeg) : Prop := reprobing s \/ ad_restricted s = true.

Definition budget_positive (id : Z) (op : admission_op) : Prop :=
  match op with mop_ack _ _ budgets => 0 < default 0 (slice_get budgets id) | _ => True end.

Lemma held_control s s' : control_of s' = control_of s -> reprobing s -> held_back s'.
Proof. intros E (A & B & C). left. unfold reprobing. injection E as _ -> _ _ -> _ _ -> _ _. done. Qed.

Lemma held_restrict now reason s : reprobing s -> held_back (restrictOrdinaryLocked now reason s).2.
Proof. intros Hs. unfold restrictOrdinaryLocked. case_match; [by left|by right]. Qed.

Lemma held_rejoin now frontier s : reprobing s -> held_back (rejoin now frontier s).
Proof.
  intros (Hr & _). pose proof (rejoin_control now frontier s) as E. rewrite Hr in E.
  generalize dependent (rejoin now frontier s). intros s' E. left. unfold reprobing.
  by injection E as _ -> _ _ -> _ _ -> _ _.
Qed.

Lemma ack_held cfg result leg generation budget peer s :
  leg_ok cfg s -> 1 < ac_MaxInflightFrames cfg -> 0 < budget -> reprobing s ->
  held_back (ack_state cfg result leg generation budget peer (ack_expire result s)).1.
Proof.
  intros K HM Hb Hs. pose proof Hs as (Hr & Hl & Hz). destruct (not_pending _ _ K Hr) as [Hp _].
  assert (E0 : control_of (ack_expire result s) = control_of s) by (by rewrite ack_expire_control, Hp).
  set (s0 := ack_expire result s) in *. clearbody s0. unfold ack_state. destruct (_ && _); [by eapply held_control|].
  set (s1 := ack_service result leg (ack_feedback result leg s0)).
  assert (E : control_of s1 = control_of s) by (subst s1; by rewrite service_control, feedback_control).
  clearbody s1. match goal with |- context [if ?c then (s1, false) else _] => destruct c end; [by eapply held_control|].
  destruct (ack_proof_cases cfg result leg (al_UniqueTimely leg + al_UniqueOrdered leg) budget peer s1)
    as (s2 & E2 & Hcases). generalize dependent (ack_proof cfg result leg
      (al_UniqueTimely leg + al_UniqueOrdered leg) budget peer s1). intros r Hcases.
  injection E as A1 A2 A3 A4 A5 A6 A7 A8 A9 A10. injection E2 as B1 B2 B3 B4 B5 B6 B7 B8 B9 B10.
  destruct (ramp_control cfg (al_UniqueTimely leg + al_UniqueOrdered leg) leg s2) as [Hramp Er].
  assert (Hnr : (ack_ramp cfg (al_UniqueTimely leg + al_UniqueOrdered leg) leg s2).1 = false).
  { rewrite Hramp. rewrite (bool_decide_eq_false_2 (0 < ad_byteLimit s2)) by lia. by rewrite andb_false_r. }
  destruct Hcases as [->|[[-> Hready]|[->|(_ & Ht & _)]]]; simpl; [by right| | |by rewrite Hnr in Ht].
  - apply orb_prop in Hready as [Hx|Hx]; apply bool_decide_eq_true in Hx; lia.
  - left. rewrite Hnr in Er. injection Er as R1 R2 R3 R4 R5 R6 R7 R8 R9 R10. unfold reprobing.
    rewrite R2, R5, R8. split_and!; congruence.
Qed.

Lemma set_held w id s j :
  0 <= id -> reprobing (leg_at w j) -> (j = id -> held_back s) -> held_back (leg_at (set_leg id s w) j).
Proof.
  intros H0 Hs Hh. destruct (decide (id < slen (ae_legs w))) as [Hl|Hl].
  - change (held_back (state_of (<[Z.to_nat id := s]> (ae_legs w)) j)). rewrite state_insert by lia.
    case_decide; [auto|by left].
  - unfold leg_at, set_leg. simpl. rewrite list_insert_ge by (unfold slen in *; lia). by left.
Qed.

Lemma assigned_held w id seq now bytes frontier active seed s :
  ad_restricted s = false -> ad_probePending s = false ->
  assigned_locked w id seq now bytes frontier active seed s = s.
Proof. intros E1 E2. unfold assigned_locked. rewrite E1. simpl. by rewrite E2. Qed.

Lemma exec_held w op w' j :
  legs_ok (ae_cfg w) (ae_legs w) -> 1 < ac_MaxInflightFrames (ae_cfg w) -> admission_op_ok op -> budget_positive j op ->
  admission_exec w op = Some w' -> reprobing (leg_at w j) -> held_back (leg_at w' j).
Proof.
  intros K HM Hok Hb Hx Hs. pose proof (K j : leg_ok (ae_cfg w) (leg_at w j)) as Kj. pose proof Hs as (Hr & _).
  destruct (not_pending _ _ Kj Hr) as [Hnp _]. pose proof (lk_exclusive _ _ Kj Hr) as Hnr.
  assert (Hpi : forall sequence, probe_is sequence (leg_at w j) = false).
  { intros q. unfold probe_is. by rewrite Hnp. }
  destruct op; cbn [admission_exec] in Hx; simpl in Hok.
  - assert (Hother : (let! e := leg_exec (ae_engine w) op in Some (w <| ae_engine := e |>)) = Some w' ->
      held_back (leg_at w' j)).
    { destruct (leg_exec (ae_engine w) op); [|done]. intros <-%(inj Some). by left. }
    destruct op; try exact (Hother Hx). unfold leg_step in Hx. clear Hother.
    destruct (attachLeg (ae_engine w) id auth prior clock) as [out e]. apply (inj Some) in Hx as <-.
    destruct out; try (by left). unfold admissionRejoined. destruct (_ || _); [by left|].
    apply set_held; [done|exact Hs|]. intros ->. by apply held_rejoin.
  - destruct Hok as [H0 _]. destruct (validAdmissionLeg w id); apply (inj Some) in Hx as <-; [|by left].
    assert (Hset : forall seq, held_back (leg_at (set_leg id (assigned_locked w id seq now probeBytes frontier active
      seed (leg_at w id)) w) j)).
    { intros seq. apply set_held; [done|done|]. intros <-. left. by rewrite assigned_held. }
    unfold assigned_step. destruct record; [case_match; rewrite ?stamp_leg|]; apply Hset.
  - unfold recoveryProbeWriteStarted in Hx. destruct (_ || _); [apply (inj Some) in Hx as <-; by left|].
    destruct (sequence_of w record) as [q|]; [|done]. simpl in Hx.
    destruct (recoveryProbeWriteStartedLocked q at_ ackedNext (leg_at w id)) as [[may stamped] s] eqn:Ew.
    apply (inj Some) in Hx as <-. assert (held_back (leg_at (set_leg id s w) j)); [|by destruct stamped].
    apply set_held; [done|done|]. intros <-. left. unfold recoveryProbeWriteStartedLocked in Ew. rewrite Hpi in Ew.
    destruct (_ && _) in Ew; simpl in Ew; by injection Ew as _ _ <-.
  - apply (inj Some) in Hx as <-. unfold cancelPendingRecoveryProbe. destruct (negb _); [by left|].
    destruct (probe_is sequence (leg_at w id)) eqn:Hp; [|by left]. apply set_held; [done|done|].
    intros <-. by rewrite Hpi in Hp.
  - apply (inj Some) in Hx as <-. unfold expirePendingRecoveryProbe. destruct (negb _); [by left|].
    destruct (probe_is sequence (leg_at w id) && _) eqn:Hp; [|by left]. apply set_held; [done|done|].
    intros <-. by rewrite Hpi in Hp.
  - apply (inj Some) in Hx as <-. unfold restrictOrdinary. destruct (negb _); [by left|].
    pose proof (held_restrict now reason (leg_at w id)) as Hm.
    destruct (restrictOrdinaryLocked now reason (leg_at w id)) as [b s]. apply set_held; [done|done|]. by intros ->; auto.
  - apply (inj Some) in Hx as <-. unfold restrictOverdueRecoveryFrontier. destruct (negb _); [by left|].
    case_bool_decide; [by left|]. destruct (lg_heap (ledger w) !! record) as [r|]; [|by left].
    destruct (probe_reference budget r (leg_at w id)) as [ref lim].
    match goal with |- context [if ?c then _ else (_, false, w)] => destruct c end; [|by left].
    pose proof (held_restrict now "probe_timeout" (leg_at w id)) as Hm.
    destruct (restrictOrdinaryLocked now "probe_timeout" (leg_at w id)) as [b s].
    apply set_held; [done|done|]. by intros ->; auto.
  - apply (inj Some) in Hx as <-. apply set_held; [done|done|]. intros ->.
    eapply held_control; [apply suspect_control|done].
  - apply (inj Some) in Hx as <-. destruct (decide (0 <= j < slen (ae_legs w))) as [Hj|Hj].
    + destruct (ack_locked_state result active budgets w j Hj) as (peer & s1 & [E _] & _ & Es).
      pose proof (ack_held (ae_cfg w) result (legResult result j) (slice_get (se_legGeneration (ae_engine w)) j)
        (default 0 (slice_get budgets j)) peer (leg_at w j) Kj HM Hb Hs) as Hh. rewrite <- Es in Hh.
      destruct Hh as [Hh|Hh]; [by eapply held_control|right]. injection E as -> _ _ _ _ _ _ _ _ _. exact Hh.
    + pose proof (state_out (ae_legs w) j Hj) as E1. change (reprobing (state_of (ae_legs w) j)) in Hs.
      rewrite E1 in Hs. by destruct Hs.
Qed.

Lemma run_held ops w w' j :
  legs_ok (ae_cfg w) (ae_legs w) -> 1 < ac_MaxInflightFrames (ae_cfg w) ->
  Forall admission_op_ok ops -> Forall (budget_positive j) ops ->
  admission_run ops w = Some w' -> reprobing (leg_at w j) ->
  reprobing (leg_at w' j) \/
  exists k w1, admission_run (take k ops) w = Some w1 /\ ad_restricted (leg_at w1 j) = true.
Proof.
  revert w. induction ops as [|op ops IH]; intros w K HM HF HB Hr Hs; simpl in Hr.
  { apply (inj Some) in Hr as <-. by left. }
  apply Forall_cons in HF as [Hok HF]. apply Forall_cons in HB as [Hb HB].
  destruct (admission_exec w op) as [w1|] eqn:Hx; [|done]. simpl in Hr.
  destruct (exec_moves _ _ _ K Hok Hx) as (E1 & E2 & Hm).
  destruct (exec_held _ _ _ _ K HM Hok Hb Hx Hs) as [Hs1|Hs1].
  - destruct (IH w1) as [?|(k & w2 & Hk & Hw2)]; try done.
    + intros i. rewrite E1. apply Hm.
    + by rewrite E1.
    + by left.
    + right. exists (S k), w2. simpl. by rewrite Hx.
  - right. exists 1%nat, w1. simpl. by rewrite Hx.
Qed.
End Stuck.

(** ** Handlers *)

Section Handlers.
  Context `{FloatConversion}.
  Implicit Types (w : admission_engine).

Lemma admission_run_app ops1 ops2 w w1 w2 :
  admission_run ops1 w = Some w1 -> admission_run ops2 w1 = Some w2 -> admission_run (ops1 ++ ops2) w = Some w2.
Proof.
  revert w. induction ops1 as [|op ops IH]; intros w; simpl; [by intros <-%(inj Some)|].
  destruct (admission_exec w op); [|done]. simpl. apply IH.
Qed.

(** [w'] is reached from [w] by critical sections. *)
Definition by_sections w w' : Prop :=
  exists ops, Forall admission_op_ok ops /\ admission_run ops w = Some w'.

Lemma sections_refl w : by_sections w w.
Proof. by exists []. Qed.
Lemma sections_trans w1 w2 w3 : by_sections w1 w2 -> by_sections w2 w3 -> by_sections w1 w3.
Proof.
  intros (o1 & F1 & R1) (o2 & F2 & R2). exists (o1 ++ o2). split; [by apply Forall_app|].
  by eapply admission_run_app.
Qed.
Lemma sections_step w op w' : admission_op_ok op -> admission_exec w op = Some w' -> by_sections w w'.
Proof. intros Hok Hx. exists [op]. split; [by repeat constructor|]. simpl. by rewrite Hx. Qed.

Lemma expire_sections id sequence now w :
  0 <= id -> by_sections w (expirePendingRecoveryProbe id sequence now w).2.
Proof. intros. by apply (sections_step w (mop_expire id sequence now)). Qed.

Lemma maintain_sections now w : by_sections w (maintainAdmission now w).
Proof.
  unfold maintainAdmission. destruct (negb _); [apply sections_refl|].
  assert (HF : Forall (fun id => 0 <= id) (seqZ 0 (slen (ae_legs w)))).
  { apply Forall_forall. intros x Hx%elem_of_seqZ. lia. }
  revert HF. generalize (seqZ 0 (slen (ae_legs w))). intros ids. revert w.
  induction ids as [|id ids IH]; intros w HF; [apply sections_refl|]. apply Forall_cons in HF as [Hid HF].
  cbn [fold_left]. eapply sections_trans; [|by apply IH]. unfold maintain_leg.
  destruct (_ && _); [by apply expire_sections|apply sections_refl].
Qed.

Lemma assigned_sections p id record now bytes w :
  0 <= id -> 0 <= ac_ChunkSize (ae_cfg w) -> by_sections w (ordinaryAssignedRecord p id record now bytes w).
Proof.
  intros H0 Hc. unfold ordinaryAssignedRecord. destruct (slowLegProtection w); [|apply sections_refl]. simpl.
  destruct (validAdmissionLeg w id) eqn:Hv; [|apply sections_refl]. simpl.
  eapply (sections_step w (mop_assigned _ _ _ _ _ _ _)); [|cbn [admission_exec]; rewrite Hv; reflexivity].
  split; [done|]. destruct bytes; [case_bool_decide; lia|done].
Qed.

Lemma ack_sections p result now w : results_ok result -> by_sections w (admissionACK p result now w).2.
Proof.
  intros Hr. unfold admissionACK. destruct (negb _); [apply sections_refl|].
  by eapply (sections_step w (mop_ack _ _ _)).
Qed.

Lemma protect_sections p perf c now w : by_sections w (protectFrontier p perf c now w).2.
Proof.
  unfold protectFrontier.
  destruct (_ || _ || negb (_ && _)) eqn:Hg; [apply sections_refl|].
  apply orb_false_elim in Hg as [_ Ho%negb_false_iff]. apply andb_prop in Ho as [Ho%bool_decide_eq_true _].
  destruct (fc_record c ≫= _) as [[record r]|]; [|apply sections_refl].
  match goal with |- context [ad_restricted (leg_at w ?i)] => set (id := i) end.
  assert (Hid : 0 <= id).
  { subst id. destruct (_ && _) eqn:E; [|done]. by apply andb_prop in E as [E%bool_decide_eq_true _]. }
  clearbody id. set (c' := MkFrontierCandidate _ _ _ _ _ _). clearbody c'.
  destruct (_ || _).
  - unfold protect_suspended. destruct (suspended_view _ _ _ _ _ _) as [reference overdue].
    set (w1 := if ad_probePending (leg_at w id) && _ then _ else w).
    assert (by_sections w w1) as H1.
    { subst w1. destruct (_ && _); [by apply expire_sections|apply sections_refl]. }
    clearbody w1. destruct (_ && _); [|exact H1].
    match goal with |- context [restrictOverdueRecoveryFrontier ?a ?b ?c ?d ?e ?f ?g] =>
      assert (by_sections g (restrictOverdueRecoveryFrontier a b c d e f g).2) as H2
        by (by apply (sections_step g (mop_overdue a b c d e f)));
      destruct (restrictOverdueRecoveryFrontier a b c d e f g) as [[x y] z] end.
    simpl in *. by eapply sections_trans.
  - unfold protect_normal. destruct (heaviest_other w p id) as [[other ow]|]; [|apply sections_refl].
    destruct (_ || _); [apply sections_refl|].
    match goal with |- context [suspect ?k ?n ?t ?s] =>
      assert (by_sections w (set_leg id (suspect k n t s).2 w)) as H1
        by (by apply (sections_step w (mop_suspect id k n t))); destruct (suspect k n t s) as [low s'] end.
    simpl in H1. match goal with |- context [if ?x then _ else (c', set_leg id s' w)] => destruct x end; [|exact H1].
    simpl. eapply sections_trans; [exact H1|].
    by apply (sections_step _ (mop_restrict id now "sustained_frontier")).
Qed.

End Handlers.

(** ** Probation ends *)

Section Progress.
  Context `{FloatConversion}.
  Implicit Types (w : admission_engine).

(** An ACK that proves a whole stage for leg [id]: of this generation and phase, with three
    records and as many bytes as an allowance can be. *)
Definition proves (cfg : AdmissionConfig) (generation : option Z) (id : Z) (since : time) (next : Z)
    (result : StreamTXACKResult) : Prop :=
  let leg := legResult result id in
  (al_UniqueGeneration leg = 0 \/ generation = Some (al_UniqueGeneration leg)) /\
  0 <= al_UniqueTimely leg /\ 0 <= al_UniqueOrdered leg /\ 3 <= al_UniqueTimely leg + al_UniqueOrdered leg /\
  ordinaryHardBytes cfg <= al_UniqueBytes leg < 2 ^ 62 /\
  since <= ak_LastACKProgress result /\ next < ak_AckedNext result.

(** One after the other, each further than the one before. *)
Fixpoint proving (cfg : AdmissionConfig) (generation : option Z) (id : Z) (since : time) (next : Z)
    (acks : list StreamTXACKResult) : Prop :=
  match acks with
  | [] => True
  | result :: acks => proves cfg generation id since next result /\ results_ok result /\
                      proving cfg generation id since (ak_AckedNext result) acks
  end.

Lemma hard_bytes_bound cfg : ordinaryHardBytes cfg <= 2 ^ 24.
Proof.
  unfold ordinaryHardBytes. simpl. change streamOrdinaryMaxBytes with (2 ^ 24).
  repeat (case_bool_decide; try lia).
Qed.

(** A leg on probation without a companion, whose allowance is at least [2^k]. *)
Record on_probation (cfg : AdmissionConfig) (since : time) (next : Z) (k : Z) (s : streamAdmissionLeg) : Prop := {
  op_ok : leg_ok cfg s;
  op_recovering : ad_recovering s = true;
  op_opening : ad_openingRate s = f_zero;
  op_since : ad_since s = since;
  op_after : ad_proofAfter s = next;
  op_allowance : Z.min (2 ^ k) (ordinaryHardBytes cfg) <= ad_byteLimit s;
  op_positive : 0 < ad_byteLimit s
}.

Lemma probation_meters result leg s :
  ad_recovering s = true -> ack_service result leg (ack_feedback result leg s) = s.
Proof.
  intros Hr. unfold ack_feedback, ack_service, normal_sample. rewrite Hr. simpl. by rewrite Hr.
Qed.

Lemma ramp_other cfg n leg s :
  ad_since (ack_ramp cfg n leg s).2 = ad_since s /\ ad_openingRate (ack_ramp cfg n leg s).2 = ad_openingRate s.
Proof. unfold ack_ramp. simpl. by case_match. Qed.
Lemma meter_other result leg s :
  ad_since (ack_probe_meter result leg s) = ad_since s /\
  ad_openingRate (ack_probe_meter result leg s) = ad_openingRate s.
Proof. unfold ack_probe_meter. case_bool_decide; [|done]. destruct (_ || _); [done|]. by case_match. Qed.

(** A proof without a companion: normal again, or credit for the stage. *)
Lemma lone_proof cfg result leg n budget s :
  ad_openingRate s = f_zero ->
  exists s1,
    control_of s1 = control_of (s <| ad_proofAfter := ak_AckedNext result |>) /\
    ad_since s1 = ad_since s /\ ad_openingRate s1 = f_zero /\
    let r := ack_proof cfg result leg n budget None s in
    (phase_of r.1 = (if ad_restricted s then phase_of r.1 else Normal) /\ ad_recovering r.1 = false \/
     r.1 = (ack_ramp cfg n leg s1).2 /\ ad_byteLimit s < budget).
Proof.
  intros Ho. unfold ack_proof. set (sa := s <| ad_proofAfter := ak_AckedNext result |>).
  change (capture_opening None sa) with sa. exists (ack_probe_meter result leg sa).
  destruct (meter_other result leg sa) as [M1 M2]. pose proof (meter_control result leg sa) as Ec.
  split; [exact Ec|]. split; [exact M1|]. split; [rewrite M2; exact Ho|].
  set (s1 := ack_probe_meter result leg sa) in *. clearbody s1. cbv zeta. rewrite M2.
  change (ad_openingRate sa) with (ad_openingRate s). rewrite Ho.
  change (f_mul f_zero (f_lit 1 10)) with f_zero. simpl (bool_decide (is_Some None)). cbn [andb].
  change (f_eq f_zero f_zero) with true. cbn [orb]. rewrite !andb_true_r.
  assert (ad_restricted s1 = ad_restricted s /\ ad_byteLimit s1 = ad_byteLimit s) as [Er Eb].
  { injection Ec as -> _ _ _ _ _ _ -> _ _. done. }
  destruct (bool_decide (budget <= ad_byteLimit s1) || _) eqn:E1.
  { left. simpl. split; [|done]. unfold phase_of. simpl. rewrite Er. by destruct (ad_restricted s). }
  apply orb_false_elim in E1 as [E1%bool_decide_eq_false _].
  destruct (ramp_control cfg n leg s1) as [_ Er2]. destruct (ack_ramp cfg n leg s1) as [ramped s2]. simpl in *.
  assert (ad_restricted s2 = ad_restricted s) as Er3.
  { destruct ramped; injection Er2 as -> _ _ _ _ _ _ _ _ _; exact Er. }
  destruct (ramped && _); [|right; simpl; split; [done|lia]].
  left. simpl. split; [|done]. unfold phase_of. simpl. rewrite Er3. by destruct (ad_restricted s).
Qed.

Lemma stage cfg generation budget result id since next k s :
  on_probation cfg since next k s -> proves cfg generation id since next result -> 0 <= k ->
  budget <= ordinaryHardBytes cfg ->
  let s' := (ack_state cfg result (legResult result id) generation budget None (ack_expire result s)).1 in
  phase_of s' = Normal \/
  on_probation cfg since (ak_AckedNext result) (k + 1) s' /\ 2 ^ k < budget.
Proof.
  intros [K Hr Ho Hs Ha Hal Hpos] (Hgen & Ht & Hod & H3 & [Hu1 Hu2] & Hsince & Hnext) Hk Hbud.
  set (leg := legResult result id) in *. clearbody leg. destruct (not_pending _ _ K Hr) as [Hnp Hns].
  pose proof (lk_exclusive _ _ K Hr) as Hx.
  assert (E0 : exists s0, ack_expire result s = s0 /\ control_of s0 = control_of s /\ ad_since s0 = ad_since s /\
    ad_openingRate s0 = ad_openingRate s).
  { eexists. split; [reflexivity|]. rewrite ack_expire_control, Hnp. split; [done|]. unfold ack_expire.
    destruct (ad_probeExpired s && _); simpl; by rewrite Hnp. }
  destruct E0 as (s0 & -> & Ec & Es & Eo). pose proof (leg_ok_control cfg _ _ Ec K) as K0.
  injection Ec as C1 C2 C3 C4 C5 C6 C7 C8 C9 C10.
  destruct (ack_state_moves cfg result leg generation budget None s0 K0 Ht Hod) as [[K' _] _]. revert K'.
  unfold ack_state. rewrite (probation_meters result leg s0) by congruence.
  assert (bool_decide (al_UniqueGeneration leg <> 0) && bool_decide (generation <> Some (al_UniqueGeneration leg)) = false)
    as ->.
  { destruct Hgen as [-> | ->]; [done|]. apply andb_false_intro2, bool_decide_eq_false. intros Hn. by apply Hn. }
  rewrite C2, Hr, (bool_decide_eq_false_2 (_ = 0)) by lia. unfold before.
  rewrite Es, Hs, (bool_decide_eq_false_2 (ak_LastACKProgress result < since)) by lia.
  rewrite C7, Ha, (bool_decide_eq_false_2 (ak_AckedNext result <= next)) by lia. cbn [negb orb].
  set (n := al_UniqueTimely leg + al_UniqueOrdered leg) in *.
  destruct (lone_proof cfg result leg n budget s0) as (s1 & Ec1 & Es1 & Eo1 & [[Hn _]|[-> Hlt]]); [congruence| |].
  { intros _. left. rewrite Hn. by rewrite C1, Hx. }
  intros K'. right. injection Ec1 as D1 D2 D3 D4 D5 D6 D7 D8 D9 D10.
  destruct (ramp_control cfg n leg s1) as [Hramp Er]. destruct (ramp_other cfg n leg s1) as [O1 O2].
  rewrite C8 in Hlt. assert (ordinaryHardBytes cfg <= 2 ^ 24) by apply hard_bytes_bound.
  pose proof (lk_proofs _ _ K0). pose proof (lk_proofBytes _ _ K0).
  pose proof (lk_credit _ _ K0 (or_intror (recovering_phase _ _ K0 ltac:(congruence)))).
  assert (u64 (ad_proofBytes s1 + al_UniqueBytes leg) = ad_proofBytes s1 + al_UniqueBytes leg) as Hu64.
  { apply u64_small. unfold is_u64. lia. }
  assert ((ack_ramp cfg n leg s1).1 = true) as Hrt.
  { rewrite Hramp, Hu64. repeat case_bool_decide; try done; lia. }
  rewrite Hrt in Er. injection Er as R1 R2 R3 R4 R5 R6 R7 R8 R9 R10.
  assert (2 ^ k < budget) by lia. split; [|done]. constructor; try done; try congruence.
  - rewrite R8, D8, C8. unfold double_to. rewrite Z.pow_add_r by lia. repeat case_bool_decide; lia.
  - rewrite R8, D8, C8. unfold double_to. repeat case_bool_decide; lia.
Qed.

Lemma course_probation cfg since next k s s' :
  same_course s' s -> on_probation cfg since next k s -> on_probation cfg since next k s'.
Proof.
  intros [E Ho] [K Hr H1 H2 H3 H4 H5]. destruct (Ho Hr) as [O1 O2].
  pose proof (leg_ok_control cfg _ _ E K) as K'. injection E as E1 E2 E3 E4 E5 E6 E7 E8 E9 E10.
  constructor; congruence || (rewrite E8; lia) || exact K'.
Qed.

Definition lone_acks (id : Z) (budgets : list Z) (acks : list StreamTXACKResult) : list admission_op :=
  (fun result => mop_ack result [id] budgets) <$> acks.

Lemma acks_graduate id budgets since acks w next k :
  0 <= id < slen (ae_legs w) -> default 0 (slice_get budgets id) <= ordinaryHardBytes (ae_cfg w) ->
  on_probation (ae_cfg w) since next k (leg_at w id) ->
  proving (ae_cfg w) (slice_get (se_legGeneration (ae_engine w)) id) id since next acks ->
  0 <= k -> (k = 0 \/ 2 ^ (k - 1) < default 0 (slice_get budgets id)) -> 25 <= k + slen acks ->
  exists n w', (n <= length acks)%nat /\ admission_run (take n (lone_acks id budgets acks)) w = Some w' /\
    phase_of (leg_at w' id) = Normal.
Proof.
  revert w next k. induction acks as [|result acks IH]; intros w next k Hid Hbud Hp Hacks Hk Hlast Hlen.
  { pose proof (hard_bytes_bound (ae_cfg w)). change (slen []) with 0 in Hlen. destruct Hlast as [->|Hlast]; [lia|].
    assert (2 ^ 24 <= 2 ^ (k - 1)) by (apply Z.pow_le_mono_r; lia). lia. }
  destruct Hacks as (Hpr & Hok & Hacks).
  pose (w1 := (ack_locked result [id] budgets w).2).
  assert (Hcfg : ae_cfg w1 = ae_cfg w /\ ae_engine w1 = ae_engine w).
  { subst w1. unfold ack_locked. by destruct (fold_left _ _ _). }
  destruct Hcfg as [Ecfg Eeng].
  destruct (ack_locked_state result [id] budgets w id Hid) as (peer & s1 & Hsame & Hpeer & Es1).
  specialize (Hpeer eq_refl) as ->. fold w1 in Hsame.
  destruct (stage (ae_cfg w) (slice_get (se_legGeneration (ae_engine w)) id) (default 0 (slice_get budgets id)) result id
    since next k (leg_at w id) Hp Hpr Hk Hbud) as [Hn|[Hp1 Hlt]]; rewrite <- Es1 in *.
  - exists 1%nat, w1. split; [simpl; lia|]. split; [done|]. by rewrite (control_phase _ _ (proj1 Hsame)).
  - destruct (IH w1 (ak_AckedNext result) (k + 1)) as (n & w' & Hle & Hr & Hph); rewrite ?Ecfg, ?Eeng; try done.
    + subst w1. by rewrite ack_locked_slen.
    + by eapply course_probation.
    + lia.
    + right. by replace (k + 1 - 1) with k by lia.
    + unfold slen in *. simpl in Hlen. lia.
    + exists (S n), w'. split; [simpl; lia|]. split; [exact Hr|exact Hph].
Qed.
End Progress.

(** ** Claims *)





(** C40. A leg whose carrier is replaced during probation cannot finish it: once a new
    generation has joined, the leg has a frame limit of one and no byte allowance, and
    whatever is assigned, written and acknowledged afterwards leaves it so, until it is
    restricted again.  The design says that such a leg learns its allowance from the next
    record assigned to it; the code does that only for a pending probe. *)
Theorem reprobe_stuck `{FloatConversion} cfg acfg rows now before w id ops w' :
  Forall admission_op_ok before -> admission_run before (new_admission cfg acfg rows now) = Some w ->
  reprobing (leg_at w id) -> 1 < ac_MaxInflightFrames acfg ->
  Forall admission_op_ok ops -> Forall (budget_positive id) ops -> admission_run ops w = Some w' ->
  reprobing (leg_at w' id) \/
  exists k w1, admission_run (take k ops) w = Some w1 /\ ad_restricted (leg_at w1 id) = true.
Proof.
  intros HF Hr Hs HM HF2 HB Hr2. destruct (run_moves _ _ _ (new_admission_ok cfg acfg rows now) HF Hr) as (E & _ & K).
  apply run_held; try done. by rewrite E.
Qed.

(** The handlers of slow-leg protection are sequences of the critical sections the other
    theorems speak about: assigning a record, an acknowledgement, the maintenance tick and
    the check of the frontier, from any state.  So the phases, the bounds and the earned
    credit hold whatever the handlers decide and however they interleave. *)
Theorem admission_handlers `{FloatConversion} w :
  (forall p id record now bytes, 0 <= id -> 0 <= ac_ChunkSize (ae_cfg w) ->
     by_sections w (ordinaryAssignedRecord p id record now bytes w)) /\
  (forall p result now, results_ok result -> by_sections w (admissionACK p result now w).2) /\
  (forall now, by_sections w (maintainAdmission now w)) /\
  (forall p perf c now, by_sections w (protectFrontier p perf c now w).2).
Proof.
  split; [intros; by apply assigned_sections|]. split; [intros; by apply ack_sections|].
  split; [intros; apply maintain_sections|intros; apply protect_sections].
Qed.

(** ** A run

    Leg 1 is restricted, probed and put on probation; three proved records of 1000 bytes
    double its allowance. *)

#[local] Existing Instance amd64_conversion.
Definition slow_cfg : StreamConfig := MkConfig 2 0 false StreamPathRoleClient 4 [10; 20] true true 0.
Definition slow_acfg : AdmissionConfig :=
  MkAdmissionConfig 1000 64 64 (20 * Millisecond) Second Second.
Definition proof_ack (next : Z) (at_ : time) : StreamTXACKResult :=
  MkACK StreamTXACKAdvanced next 0 0 3 1000 next at_
    [zero_leg_result; zero_leg_result <| al_UniqueTimely := 3 |> <| al_UniqueBytes := 1000 |>] [].
Definition probe_start : list admission_op :=
  [mop_leg (lo_attach 0 None 0 0) 1; mop_leg lo_join 1; mop_leg (lo_attach 1 None 0 0) 1; mop_leg lo_join 1;
   mop_leg (lo_tx (op_add (zero_bytes 1000) 2 false)) 2;
   mop_restrict 1 10 "sustained_frontier";
   mop_assigned 1 (Some 0) (5 * Second + 10) 1000 0 [0; 1] (f_of 20)].
Definition probation_start : list admission_op := probe_start ++ [mop_write_started 1 0 (5 * Second + 20) 0].
Definition ramped_ops : list admission_op :=
  probation_start ++ [mop_ack (proof_ack 3 (6 * Second)) [0; 1] [100000; 100000]].
Definition slow_session : admission_engine := new_admission slow_cfg slow_acfg [] 1.
Definition slow_after (ops : list admission_op) : admission_engine := default slow_session (admission_run ops slow_session).

Lemma proof_ack_ok next at_ id : 0 <= al_UniqueTimely (legResult (proof_ack next at_) id) /\
  0 <= al_UniqueOrdered (legResult (proof_ack next at_) id) /\ 0 <= al_UniqueBytes (legResult (proof_ack next at_) id).
Proof.
  assert (legResult (proof_ack next at_) id = zero_leg_result \/
    legResult (proof_ack next at_) id = zero_leg_result <| al_UniqueTimely := 3 |> <| al_UniqueBytes := 1000 |>)
    as [-> | ->]; [|simpl; lia..].
  unfold legResult. destruct (_ && _).
  - unfold slice_get. case_bool_decide; [|by left]. cbn [ak_PerLeg proof_ack].
    destruct (Z.to_nat id) as [|[|n]]; [by left|by right|by left].
  - destruct (_ || _); [by left|]. unfold slice_get. left. by case_bool_decide.
Qed.

Lemma ramped_ok : Forall admission_op_ok ramped_ops /\ Forall bytes_ok ramped_ops.
Proof.
  unfold ramped_ops, probation_start, probe_start. simpl.
  split; repeat (apply Forall_cons; split; [try done; simpl; lia|]); apply Forall_cons; (split; [|constructor]).
  - intros id. split; apply proof_ack_ok.
  - intros id. apply proof_ack_ok.
Qed.

Lemma ramped_facts :
  admission_run ramped_ops slow_session = Some (slow_after ramped_ops) /\
  admission_run probe_start slow_session = Some (slow_after probe_start) /\
  admission_exec (slow_after probe_start) (mop_write_started 1 0 (5 * Second + 20) 0) = Some (slow_after probation_start) /\
  view (leg_at (slow_after probe_start) 1) = (Pending, 1) /\
  view (leg_at (slow_after probation_start) 1) = (Probation, 1) /\
  phase_of (leg_at (slow_after ramped_ops) 1) = Probation /\
  ad_byteLimit (leg_at (slow_after ramped_ops) 1) = 2000 /\
  account_run 1 ramped_ops slow_session (MkAccount 0 0) = MkAccount 2000 3.
Proof.
  vm_compute. exact (conj eq_refl (conj eq_refl (conj eq_refl (conj eq_refl (conj eq_refl (conj eq_refl
    (conj eq_refl eq_refl))))))).
Qed.


Lemma probe_start_ok : Forall admission_op_ok probe_start.
Proof. repeat (apply Forall_cons; split; [try done; simpl; lia|]). constructor. Qed.



(** The carrier of leg 1 is replaced on probation; then records are assigned and proved. *)
Definition replaced_ops : list admission_op :=
  probation_start ++
  [mop_leg (lo_fail 1 (ErrCarrier io_other)) 1; mop_leg (lo_invalidate 0) 1; mop_leg (lo_notify 0) 1;
   mop_leg (lo_worker_exit 1) 1; mop_leg (lo_worker_exit 1) 1; mop_leg (lo_retire 1) 1;
   mop_leg (lo_attach 1 None 0 0) (6 * Second)].
Definition later_ops : list admission_op :=
  [mop_assigned 1 (Some 0) (7 * Second) 1000 0 [0; 1] (f_of 20); mop_write_started 1 0 (7 * Second) 0;
   mop_ack (proof_ack 3 (8 * Second)) [0; 1] [100000; 100000];
   mop_ack (proof_ack 6 (9 * Second)) [0; 1] [100000; 100000];
   mop_ack (proof_ack 9 (10 * Second)) [0; 1] [100000; 100000]].
Definition replaced_after (ops : list admission_op) : admission_engine :=
  default (slow_after replaced_ops) (admission_run ops (slow_after replaced_ops)).

Lemma replaced_ok : Forall admission_op_ok replaced_ops /\ Forall admission_op_ok later_ops.
Proof.
  split.
  - repeat (apply Forall_cons; split; [try done; simpl; lia|]). constructor.
  - do 2 (apply Forall_cons; split; [try done; simpl; lia|]).
    do 3 (apply Forall_cons; split; [intros id; split; apply proof_ack_ok|]). constructor.
Qed.

Lemma replaced_facts :
  admission_run replaced_ops slow_session = Some (slow_after replaced_ops) /\
  admission_run later_ops (slow_after replaced_ops) = Some (replaced_after later_ops) /\
  ad_recovering (leg_at (slow_after replaced_ops) 1) = true /\ ad_limit (leg_at (slow_after replaced_ops) 1) = 1 /\
  ad_byteLimit (leg_at (slow_after replaced_ops) 1) = 0 /\
  ad_reason (leg_at (slow_after replaced_ops) 1) = "generation_reprobe"%string /\
  Forall (fun k => ad_restricted (leg_at (replaced_after (take k later_ops)) 1) = false /\
                   admission_run (take k later_ops) (slow_after replaced_ops) = Some (replaced_after (take k later_ops)))
    [0; 1; 2; 3; 4; 5]%nat.
Proof.
  split_and!; [vm_compute; reflexivity..|]. repeat (apply Forall_cons; split; [vm_compute; by split|]). constructor.
Qed.

Lemma reprobe_stuck_witness :
  reprobing (leg_at (replaced_after later_ops) 1) \/
  exists k w1, admission_run (take k later_ops) (slow_after replaced_ops) = Some w1 /\ ad_restricted (leg_at w1 1) = true.
Proof.
  destruct replaced_facts as (A & B & C & D & E & _).
  apply (reprobe_stuck slow_cfg slow_acfg [] 1 replaced_ops (slow_after replaced_ops) 1 later_ops).
  - exact (proj1 replaced_ok).
  - exact A.
  - exact (conj C (conj D E)).
  - simpl. lia.
  - exact (proj2 replaced_ok).
  - repeat (apply Forall_cons; split; [simpl; try done; vm_compute; reflexivity|]). constructor.
  - exact B.
Defined.

(** The cooldown of a restricted leg can be skipped: leg 1 is eligible for the next record,
    is restricted before the record is assigned, and the assignment then starts a probe at
    once; the leg is on probation long before its cooldown of five seconds is over.  The
    check and the assignment are two critical sections, and the second does not look at
    the time of the next probe. *)
Theorem cooldown_skipped :
  let w := slow_after (take 5 probe_start) in
  ordinaryEligible w None 1 0 20 = Some true /\
  exists w1, admission_run [mop_restrict 1 30 "sustained_frontier";
      mop_assigned 1 (Some 0) 20 1000 0 [0; 1] (f_of 20); mop_write_started 1 0 40 0] w = Some w1 /\
    phase_of (leg_at w1 1) = Probation /\ ad_nextProbe (leg_at w1 1) = 30 + streamRestrictionCooldown.
Proof. split; [by vm_compute|]. eexists. split; [by vm_compute|]. by vm_compute. Qed.

Lemma admission_handlers_witness :
  by_sections (slow_after probe_start) (ordinaryAssignedRecord None 1 (Some 0) 20 None (slow_after probe_start)).
Proof.
  destruct (admission_handlers (slow_after probe_start)) as [Hassign _].
  apply Hassign; [lia|]. assert (ae_cfg (slow_after probe_start) = slow_acfg) as -> by (by vm_compute). simpl. lia.
Defined.

(** Leg 1 is the only one attached; it is probed, and every ACK proves 64000 bytes. *)
Definition lone_start : list admission_op :=
  [mop_leg (lo_attach 1 None 0 0) 1; mop_leg lo_join 1; mop_leg (lo_tx (op_add (zero_bytes 1000) 2 false)) 2;
   mop_restrict 1 10 "sustained_frontier"; mop_assigned 1 (Some 0) (5 * Second + 10) 1000 0 [1] (f_of 20);
   mop_write_started 1 0 (5 * Second + 20) 0].
Definition big_ack (k : nat) : StreamTXACKResult :=
  let next := Z.of_nat k + 1 in
  MkACK StreamTXACKAdvanced next 0 0 3 64000 next (6 * Second)
    [zero_leg_result; zero_leg_result <| al_UniqueTimely := 3 |> <| al_UniqueBytes := 64000 |>
                        <| al_UniqueGeneration := 1 |>] [].
Definition big_acks : list StreamTXACKResult := big_ack <$> seq 0 25.

Lemma big_ack_ok k : results_ok (big_ack k).
Proof.
  intros id. unfold legResult. destruct (_ && _).
  - unfold slice_get. case_bool_decide; [|done]. cbn [ak_PerLeg big_ack].
    by destruct (Z.to_nat id) as [|[|n]].
  - destruct (_ || _); [done|]. unfold slice_get. by case_bool_decide.
Qed.

Lemma big_acks_prove since n k :
  since <= 6 * Second -> proving slow_acfg (Some 1) 1 since (Z.of_nat k) (big_ack <$> seq k n).
Proof.
  intros Hs. revert k. induction n as [|n IH]; intros k; [done|]. cbn [seq fmap list_fmap]. split_and!.
  - change (legResult (big_ack k) 1) with (zero_leg_result <| al_UniqueTimely := 3 |> <| al_UniqueBytes := 64000 |>
      <| al_UniqueGeneration := 1 |>). unfold proves. simpl. split_and!; try done; try lia. by right.
  - apply big_ack_ok.
  - replace (ak_AckedNext (big_ack k)) with (Z.of_nat (S k)) by (simpl; lia). apply IH.
Qed.

Lemma lone_facts :
  admission_run lone_start slow_session = Some (slow_after lone_start) /\
  slen (ae_legs (slow_after lone_start)) = 2 /\ ad_recovering (leg_at (slow_after lone_start) 1) = true /\
  ad_byteLimit (leg_at (slow_after lone_start) 1) = 1000 /\ ad_openingRate (leg_at (slow_after lone_start) 1) = f_zero /\
  slice_get (se_legGeneration (ae_engine (slow_after lone_start))) 1 = Some 1 /\
  ad_since (leg_at (slow_after lone_start) 1) = 5 * Second + 20 /\ ad_proofAfter (leg_at (slow_after lone_start) 1) = 0.
Proof.
  vm_compute. exact (conj eq_refl (conj eq_refl (conj eq_refl (conj eq_refl (conj eq_refl (conj eq_refl
    (conj eq_refl eq_refl))))))).
Qed.

Lemma lone_ok : Forall admission_op_ok lone_start.
Proof. repeat (apply Forall_cons; split; [try done; simpl; lia|]). constructor. Qed.

