(* ===== verification/Assignment.v ===== *)
(** * The assignment of records to legs

    [core/stream_assignment_debug.go]: in the aggregation mode every record is given an
    owner, the leg with the least normalized service, before it waits for a place in the
    queue of that leg.  [assignBenchmark] picks the owner and moves the account of the
    record with it, all under [weightedMu].

    What [assignBenchmark] reads under other locks, or in atomic variables that other
    goroutines write, is a [view]: the theorems hold for every view, so for every
    interleaving with the reads.  [read_view] is the view when nothing intervenes.  Traces
    and telemetry are left out. *)

From S2P Require Import Prelude Float64 PathProtocol TxLedger Repair RttCache Legs Admission.
From stdpp Require Import options.
#[local] Open Scope Z_scope.

(** ** Data *)

Definition holFrontierDistance : Z := 8.
Definition holCandidateStride : Z := 8.
Definition holMaxCorrectionStreak : Z := 4.
Definition holMinimumLead : duration := 2 * Millisecond.
Definition holRelativeLead : float64 := f_lit 1 10.

Record benchmarkAssignment := MkAssignment { ba_owner : option lptr; ba_admitted : bool }.
#[export] Instance benchmarkAssignment_fields : Fields benchmarkAssignment := fun a =>
  MkAssignment (ba_owner a) (ba_admitted a).

(** The configuration the assignment reads; [gc_capacity]: a capacity estimator or
    provider is present. *)
Record assign_config := MkAssignConfig {
  gc_HOLCompletion : bool;
  gc_epochRebase : bool;
  gc_capacity : bool;
  gc_PendingFrames : Z
}.

(** The counters, under [weightedMu]; the statistics; the state of the correction. *)
Record sched := MkSched {
  sc_service : list Z;        (* assignedService, uint64 *)
  sc_records : list Z;        (* assignedRecords, uint64 *)
  sc_origin : list float64;   (* assignedEpochOrigin *)
  sc_weight : list float64;   (* assignedEpochWeight *)
  sc_ready : list bool;       (* assignedEpochReady *)
  sc_mask : Z;                (* assignedEpochMask *)
  sc_initial : Z;
  sc_rollback : Z;
  sc_reassigned : Z;
  sc_reassignments : Z;
  sc_ordinaryBytes : list Z;
  sc_streak : Z;              (* holCorrectionStreak *)
  sc_maxStreak : Z;           (* holMaxCorrectionStreak *)
  sc_candidates : Z;
  sc_predicted : Z;
  sc_corrections : Z
}.
#[export] Instance sched_fields : Fields sched := fun s =>
  MkSched (sc_service s) (sc_records s) (sc_origin s) (sc_weight s) (sc_ready s) (sc_mask s)
    (sc_initial s) (sc_rollback s) (sc_reassigned s) (sc_reassignments s) (sc_ordinaryBytes s)
    (sc_streak s) (sc_maxStreak s) (sc_candidates s) (sc_predicted s) (sc_corrections s).

Definition new_sched (maxActiveLegs : Z) : sched :=
  let n := Z.to_nat maxActiveLegs in
  MkSched (replicate n 0) (replicate n 0) (replicate n f_zero) (replicate n f_zero)
    (replicate n false) 0 0 0 0 0 (replicate n 0) 0 0 0 0 0.

Record assign_engine := MkAssign {
  ag_cfg : assign_config;
  ag_admission : admission_engine;
  ag_sched : sched;
  ag_assignment : gmap ptr benchmarkAssignment  (* record.benchmarkAssignment *)
}.
#[export] Instance assign_engine_fields : Fields assign_engine := fun g =>
  MkAssign (ag_cfg g) (ag_admission g) (ag_sched g) (ag_assignment g).

Definition ag_engine (g : assign_engine) : StreamEngine := ae_engine (ag_admission g).
Definition ag_ledger (g : assign_engine) : StreamTXLedger := se_txLedger (ag_engine g).

(** What [completionEstimate] reads of a leg. *)
Record leg_load := MkLoad {
  ll_pending : Z; ll_sent : Z; ll_acked : Z;
  ll_writeBPS : float64; ll_ackedBPS : float64; ll_latency : duration
}.

Record assign_view := MkView {
  av_now : time;
  av_legs : list lptr;                   (* availableLegs *)
  av_selectable : Z -> bool;             (* ordinaryEligible *)
  av_weight : Z -> float64;              (* effectiveSchedulerWeight *)
  av_penalty : lptr -> option float64;   (* pathRTTScorePenalty, [None]: not in feedbackLegs *)
  av_provider : provider;
  av_ackedNext : Z;
  av_load : Z -> leg_load
}.

(** ** The correction at the frontier *)

Definition f_max : float64 := SpecFloat.S754_finite false 9007199254740991 971.
Definition not_a_number (f : float64) : bool := negb (f_eq f f).
Definition infinite (f : float64) : bool :=
  match f with SpecFloat.S754_infinity _ => true | _ => false end.

Definition completionEstimate (chunk : Z) (weight : float64) (load : leg_load) (payload : Z) : float64 :=
  if f_le weight f_zero || not_a_number weight || infinite weight then f_max else
  let bps := (weight * f_of 1000000 / f_of 8)%float in
  if f_le bps f_zero then f_max else
  let queued := u64 (Z.max 0 (ll_pending load) * chunk) in
  let inflight := if bool_decide (ll_acked load < ll_sent load) then ll_sent load - ll_acked load else 0 in
  let latency := if bool_decide (ll_latency load <= 0) && f_le (ll_writeBPS load) f_zero
                    && f_le (ll_ackedBPS load) f_zero then 0 else ll_latency load in
  (f_of (u64 (queued + inflight + Z.max 0 payload)) / bps + seconds latency)%float.

Definition estimate_of (cfg : AdmissionConfig) (v : assign_view) (payload : Z) (l : streamLeg) : float64 :=
  completionEstimate (ac_ChunkSize cfg) (av_weight v (sl_id l)) (av_load v (sl_id l)) payload.

Definition earlier_step (cfg : AdmissionConfig) (v : assign_view) (payload : Z) (baseline : lptr)
    (best : lptr * float64) (leg : lptr * streamLeg) : lptr * float64 :=
  if sl_closed leg.2 || bool_decide (leg.1 = baseline) then best else
  let estimate := estimate_of cfg v payload leg.2 in
  if f_lt estimate best.2 then (leg.1, estimate) else best.

(** The leg, and the state of the correction. *)
Definition holCorrection (cfg : AdmissionConfig) (v : assign_view) (sequence payload : Z)
    (baseline : lptr * streamLeg) (legs : list (lptr * streamLeg)) (s : sched) : lptr * sched :=
  if bool_decide (slen legs < 2) then (baseline.1, s) else
  if bool_decide (sequence < av_ackedNext v) then (baseline.1, s) else
  if bool_decide (holFrontierDistance < sequence - av_ackedNext v) then (baseline.1, s) else
  let s := s <| sc_candidates ::= fun n => u64 (n + 1) |> in
  let baseEstimate := estimate_of cfg v payload baseline.2 in
  let '(best, bestEstimate) := fold_left (earlier_step cfg v payload baseline.1) legs (baseline.1, baseEstimate) in
  if bool_decide (best = baseline.1) || f_lt (baseEstimate - bestEstimate)%float (seconds holMinimumLead)
     || f_le (baseEstimate * (f_of 1 - holRelativeLead))%float bestEstimate
  then (baseline.1, s <| sc_streak := 0 |>) else
  let s := s <| sc_predicted ::= fun n => u64 (n + 1) |> in
  if bool_decide (holMaxCorrectionStreak <= sc_streak s) then (baseline.1, s) else
  let s := s <| sc_streak ::= fun n => n + 1 |> in
  let s := s <| sc_maxStreak ::= Z.max (sc_streak s) |> in
  (best, s <| sc_corrections ::= fun n => u64 (n + 1) |>).

(** ** The owner *)

Definition at_id {A} (d : A) (s : list A) (id : Z) : A := default d (slice_get s id).
Definition put_id {A} (id : Z) (x : A) (s : list A) : list A := <[Z.to_nat id := x]> s.

(** An open owner keeps its record: an admitted one, or one its leg may still carry. *)
Definition keeps_owner (w : admission_engine) (a : benchmarkAssignment) (sequence : Z) : option lptr :=
  let! p := ba_owner a in
  let! l := se_heap (ae_engine w) !! p in
  if negb (sl_closed l) && (ba_admitted a || ordinaryOwnerAllowed (sl_id l) w
                            || pendingRecoveryProbeOwner (sl_id l) sequence w)
  then Some p else None.

(** Temporary fullness is not a change of membership, a restriction is. *)
Definition member (w : admission_engine) (v : assign_view) (l : streamLeg) : bool :=
  negb (sl_closed l) && (ordinaryOwnerAllowed (sl_id l) w || av_selectable v (sl_id l)).

Definition origin_step (v : assign_view) (s : sched) (l : streamLeg) : sched :=
  let weight := av_weight v (sl_id l) in
  if f_lt f_zero weight then
    s <| sc_origin ::= put_id (sl_id l) (f_of (at_id 0 (sc_service s) (sl_id l)) / weight)%float |>
      <| sc_weight ::= put_id (sl_id l) weight |>
  else s.

Definition ready_mask (ready : list bool) : Z :=
  fold_left (fun mask id => if at_id false ready id then Z.lor mask (Z.shiftl 1 id) else mask) [0; 1] 0.

Definition rebase (w : admission_engine) (v : assign_view) (legs : list streamLeg) (s : sched) : sched :=
  if existsb (fun l => negb (eqb (member w v l) (at_id false (sc_ready s) (sl_id l)))) legs then
    let s := fold_left (origin_step v) legs s in
    let s := fold_left (fun s l => s <| sc_ready ::= put_id (sl_id l) (member w v l) |>) legs s in
    s <| sc_mask := ready_mask (sc_ready s) |>
  else s.

(** A change of capacity keeps the normalized finish of a leg. *)
Definition reweigh_step (v : assign_view) (s : sched) (l : streamLeg) : sched :=
  let id := sl_id l in
  let old := at_id f_zero (sc_weight s) id in
  let next := av_weight v id in
  let served := f_of (at_id 0 (sc_service s) id) in
  let s := if f_lt f_zero old && f_lt f_zero next && negb (f_eq old next) then
             let finish := (served / old - at_id f_zero (sc_origin s) id)%float in
             s <| sc_origin ::= put_id id (served / next - finish)%float |>
           else s in
  s <| sc_weight ::= put_id id next |>.

(** The normalized service of a leg with [n] bytes more. *)
Definition finish_of (v : assign_view) (s : sched) (n : Z) (leg : lptr * streamLeg) : float64 :=
  let id := sl_id leg.2 in
  let next := (f_of (u64 (at_id 0 (sc_service s) id + n)) / av_weight v id - at_id f_zero (sc_origin s) id)%float in
  match av_penalty v leg.1 with Some penalty => (next + penalty)%float | None => next end.

Definition candidate (v : assign_view) (l : streamLeg) : bool :=
  negb (sl_closed l) && av_selectable v (sl_id l) && negb (f_le (av_weight v (sl_id l)) f_zero).

Definition pick_step (v : assign_view) (s : sched) (n : Z) (best : option (lptr * streamLeg * float64))
    (leg : lptr * streamLeg) : option (lptr * streamLeg * float64) :=
  if negb (candidate v leg.2) then best else
  let next := finish_of v s n leg in
  match best with
  | None => Some (leg, next)
  | Some (b, score) =>
    if f_lt next score || (f_eq next score && bool_decide (sl_id leg.2 < sl_id b.2))
    then Some (leg, next) else best
  end.

Definition pick (v : assign_view) (s : sched) (n : Z) (legs : list (lptr * streamLeg))
  : option (lptr * streamLeg) :=
  fst <$> fold_left (pick_step v s n) legs None.

(** ** [assignBenchmark] *)

Definition resolve (e : StreamEngine) (legs : list lptr) : list (lptr * streamLeg) :=
  omap (fun p => pair p <$> se_heap e !! p) legs.

(** The account of the record moves to the leg [id]. *)
Definition charge (n : Z) (from : option Z) (id : Z) (s : sched) : sched :=
  let s := match from with
    | Some old =>
      s <| sc_service ::= put_id old (u64 (at_id 0 (sc_service s) old - n)) |>
        <| sc_records ::= put_id old (u64 (at_id 0 (sc_records s) old - 1)) |>
        <| sc_rollback ::= fun x => u64 (x + n) |> <| sc_reassigned ::= fun x => u64 (x + n) |>
        <| sc_reassignments ::= fun x => u64 (x + 1) |>
    | None =>
      s <| sc_initial ::= fun x => u64 (x + n) |>
        <| sc_ordinaryBytes ::= put_id id (u64 (at_id 0 (sc_ordinaryBytes s) id + n)) |>
    end in
  s <| sc_service ::= put_id id (u64 (at_id 0 (sc_service s) id + n)) |>
    <| sc_records ::= put_id id (u64 (at_id 0 (sc_records s) id + 1)) |>.

(** What follows the choice of [best]: the ledger, the probe of a restricted leg, the account. *)
Definition commit (v : assign_view) (r : ptr) (record : StreamTXRecord) (a : benchmarkAssignment)
    (best : lptr * streamLeg) (g : assign_engine) : option (option lptr * assign_engine) :=
  let n := payload_size record in
  let now := av_now v in
  let w := ag_admission g in
  let own a g := g <| ag_assignment ::= <[r := a <| ba_owner := Some best.1 |>]> |> in
  if ba_admitted a then Some (Some best.1, own a g) else
  let! owner := match ba_owner a with
                | Some p => Some <$> se_heap (ae_engine w) !! p
                | None => Some None end in
  let protected := slowLegProtection w in
  let! result := if protected then assignOrdinary (ledger w) (Some r) (sl_id best.2) now
                 else Some (true, ledger w) in
  let '(assigned, tx) := result in
  let w := w <| ae_engine ::= fun e => e <| se_txLedger := tx |> |> in
  if negb assigned then Some (None, g <| ag_admission := w |>) else
  let moved := bool_decide (ba_owner a <> Some best.1) in
  let w := match owner with
           | Some l => if moved then cancelPendingRecoveryProbe (sl_id l) (tr_sequence record) now w else w
           | None => w end in
  let w := ordinaryAssignedRecord (av_provider v) (sl_id best.2) (Some r) now (Some n) w in
  let w := if protected then
             w <| ae_engine ::= upd_ledger (fun tx =>
               setOrigin tx r (at_id 0 (se_legGeneration (ae_engine w)) (sl_id best.2))
                 (ad_since (leg_at w (sl_id best.2)))) |>
           else w in
  let g := g <| ag_admission := w |> in
  if negb moved then Some (Some best.1, g) else
  Some (Some best.1, own a (g <| ag_sched ::= charge n (sl_id <$> owner) (sl_id best.2) |>)).

(** The counters when the owner is picked. *)
Definition renewed (v : assign_view) (g : assign_engine) : sched :=
  let legs := (resolve (ag_engine g) (av_legs v)).*2 in
  let s := ag_sched g in
  let s := if gc_epochRebase (ag_cfg g) then rebase (ag_admission g) v legs s else s in
  if gc_capacity (ag_cfg g) then fold_left (reweigh_step v) legs s else s.

(** The leg the record goes to and the counters, or [None] when no leg can be chosen. *)
Definition choose_owner (v : assign_view) (g : assign_engine) (record : StreamTXRecord)
  : option (lptr * streamLeg) * sched :=
  let legs := resolve (ag_engine g) (av_legs v) in
  let s := renewed v g in
  let n := payload_size record in
  match pick v s n legs with
  | None => (None, s)
  | Some best =>
    if gc_HOLCompletion (ag_cfg g) && bool_decide (tr_sequence record `mod` holCandidateStride = 0) then
      let eligible := List.filter (fun leg => av_selectable v (sl_id leg.2)) legs in
      let '(p, s) := holCorrection (ae_cfg (ag_admission g)) v (tr_sequence record) n best eligible s in
      (pair p <$> se_heap (ag_engine g) !! p, s)
    else (Some best, s)
  end.

(** [None]: an index out of range, or no such record. *)
Definition assignBenchmark (v : assign_view) (r : ptr) (g : assign_engine)
  : option (option lptr * assign_engine) :=
  let! record := lg_heap (ag_ledger g) !! r in
  let! a := ag_assignment g !! r in
  match keeps_owner (ag_admission g) a (tr_sequence record) with
  | Some p => Some (Some p, g)
  | None =>
    if existsb (fun leg => bool_decide (slen (sc_service (ag_sched g)) <= sl_id leg.2)) (resolve (ag_engine g) (av_legs v))
    then None else
    match choose_owner v g record with
    | (None, s) => Some (None, g <| ag_sched := s |>)
    | (Some best, s) => commit v r record a best (g <| ag_sched := s |>)
    end
  end.

(** ** What the call reads *)

Section Views.
  Context `{FloatConversion}.

(** The measured round-trip time of every leg, when each has a fresh one.  One unit of the
    score is 8 microseconds. *)
Definition pathRTTScorePenalty (now : time) (w : admission_engine) (p : lptr) (leg : streamLeg) : float64 :=
  match se_pathRTTCache (ae_engine w) with
  | Some cache =>
    let legs := resolve (ae_engine w) (availableLegs (ae_engine w)) in
    let suspended l := ad_restricted (leg_at w (sl_id l)) || ad_recovering (leg_at w (sl_id l)) in
    let rtt l := if sl_pathRTTEnabled l
                 then match pathFeedbackAt cache cache cache (sl_pathIdentity l) now with
                      | Some feedback => fb_RTT feedback
                      | None => 0 end
                 else 0 in
    if negb (cf_PathAware (se_cfg (ae_engine w))) || negb (sl_pathRTTEnabled leg) || bool_decide (slen legs < 2)
       || (slowLegProtection w && existsb (fun leg => suspended leg.2) legs)
       || existsb (fun leg => bool_decide (rtt leg.2 <= 0)) legs
       || negb (existsb (fun leg => bool_decide (leg.1 = p)) legs)
    then f_zero else (f_of (rtt leg) / f_of 8000)%float
  | None => f_zero
  end.

(** The weight in the aggregation mode; with a fixed capacity it is the configured one. *)
Definition aggregation_weight (w : admission_engine) (capacityProvider : provider) (id : Z) : float64 :=
  if slowLegProtection w then effectiveSchedulerWeight w capacityProvider id
  else f_of (weightFor (ae_engine w) id).

(** The frames of the leg, less the record itself when the leg has it already. *)
Definition read_selectable (now : time) (capacityProvider : provider) (owner : option lptr) (w : admission_engine)
    (leg : lptr * streamLeg) : option bool :=
  let id := sl_id leg.2 in
  let count := at_id 0 (OrdinaryFramesByLeg (ledger w)) id in
  let count := if bool_decide (owner = Some leg.1) then count - 1 else count in
  ordinaryEligible w capacityProvider id count now.

Fixpoint read_all {A} (f : A -> option bool) (l : list A) : option (list (A * bool)) :=
  match l with
  | [] => Some []
  | x :: l => let! b := f x in let! rest := read_all f l in Some ((x, b) :: rest)
  end.

(** [None]: an index out of range. *)
Definition read_view (now : time) (capacityProvider : provider) (ackedNext : Z) (load : Z -> leg_load)
    (r : ptr) (g : assign_engine) : option assign_view :=
  let w := ag_admission g in
  let legs := resolve (ag_engine g) (availableLegs (ag_engine g)) in
  let owner := ag_assignment g !! r ≫= ba_owner in
  let! selectable := if slowLegProtection w then read_all (read_selectable now capacityProvider owner w) legs
                     else Some [] in
  Some (MkView now (availableLegs (ag_engine g))
    (fun id => negb (existsb (fun e => bool_decide (sl_id e.1.2 = id) && negb e.2) selectable))
    (aggregation_weight w capacityProvider)
    (fun p => let! l := se_heap (ag_engine g) !! p in
              if bool_decide (getLeg (ag_engine g) (sl_id l) = Some p)
              then Some (pathRTTScorePenalty now w p l) else None)
    capacityProvider ackedNext load).

End Views.

(** ** The order on numbers *)

(** The class of a number, its exponent and its mantissa, in the order of the numbers. *)
Definition rank (f : float64) : Z * Z * Z :=
  match f with
  | SpecFloat.S754_zero _ | SpecFloat.S754_nan => (0, 0, 0)
  | SpecFloat.S754_infinity s => (if s then -2 else 2, 0, 0)
  | SpecFloat.S754_finite true m e => (-1, - e, Zneg m)
  | SpecFloat.S754_finite false m e => (1, e, Zpos m)
  end.
Definition rank_lt (x y : Z * Z * Z) : Prop :=
  x.1.1 < y.1.1 \/ (x.1.1 = y.1.1 /\ (x.1.2 < y.1.2 \/ (x.1.2 = y.1.2 /\ x.2 < y.2))).

Lemma rank_spec x y : not_a_number x = false -> not_a_number y = false ->
  (f_lt x y = true <-> rank_lt (rank x) (rank y)) /\ (f_eq x y = true <-> rank x = rank y).
Proof.
  unfold not_a_number, f_lt, f_eq, SpecFloat.SFltb, SpecFloat.SFeqb, rank_lt.
  destruct x as [s|s| |s m e], y as [s'|s'| |s' m' e']; try discriminate; intros _ _;
    try (destruct s); try (destruct s'); cbn;
    try (repeat split; intros; simplify_eq; (done || lia)).
  all: destruct (Z.compare_spec e e'); subst; try rewrite Z.compare_refl; cbn.
  all: try (repeat split; intros; simplify_eq; (done || lia)).
  all: change (Pos.compare_cont Eq m m') with (Pos.compare m m'); destruct (Pos.compare_spec m m'); subst; cbn.
  all: repeat split; intros; simplify_eq; (done || lia).
Qed.

(** ** The choice of an owner *)

(** [b] comes before [x]: an earlier finish, or the same one and not a higher identifier. *)
Definition wins (v : assign_view) (s : sched) (n : Z) (b x : lptr * streamLeg) : Prop :=
  f_lt (finish_of v s n b) (finish_of v s n x) = true \/
  (f_eq (finish_of v s n b) (finish_of v s n x) = true /\ sl_id b.2 <= sl_id x.2).

Section Pick.
  Context (v : assign_view) (s : sched) (n : Z) (legs : list (lptr * streamLeg)).
  #[local] Set Default Proof Using "Type*".
  Hypothesis numbers : forall x, x ∈ legs -> not_a_number (finish_of v s n x) = false.

Lemma wins_refl b : b ∈ legs -> wins v s n b b.
Proof. intros Hb%numbers. right. split; [|lia]. by apply rank_spec. Qed.

Lemma wins_trans a b c : a ∈ legs -> b ∈ legs -> c ∈ legs ->
  wins v s n a b -> wins v s n b c -> wins v s n a c.
Proof.
  intros Ha%numbers Hb%numbers Hc%numbers. unfold wins.
  destruct (rank_spec _ _ Ha Hb) as [-> ->]. destruct (rank_spec _ _ Hb Hc) as [-> ->].
  destruct (rank_spec _ _ Ha Hc) as [-> ->].
  intros [H1|[-> H1]] [H2|[E H2]]; rewrite <- ?E; auto; [|right; split; [done|lia]].
  left. unfold rank_lt in *. lia.
Qed.

Lemma wins_step b x : b ∈ legs -> x ∈ legs ->
  if f_lt (finish_of v s n x) (finish_of v s n b)
     || (f_eq (finish_of v s n x) (finish_of v s n b) && bool_decide (sl_id x.2 < sl_id b.2))
  then wins v s n x b else wins v s n b x.
Proof.
  intros Hb%numbers Hx%numbers. unfold wins.
  destruct (rank_spec _ _ Hx Hb) as [L E], (rank_spec _ _ Hb Hx) as [L' E'].
  destruct (f_lt (finish_of v s n x) _) eqn:H1; [by left|].
  destruct (f_eq (finish_of v s n x) _) eqn:H2; cbn.
  - case_bool_decide; right; (split; [|lia]); [done|]. apply E'. by rewrite (proj1 E).
  - left. apply L'. assert (~ rank_lt (rank (finish_of v s n x)) (rank (finish_of v s n b))) as N1
      by (rewrite <- L; congruence).
    assert (rank (finish_of v s n x) <> rank (finish_of v s n b)) as N2 by (rewrite <- E; congruence).
    revert N1 N2. unfold rank_lt. destruct (rank (finish_of v s n x)) as [[x1 x2] x3].
    destruct (rank (finish_of v s n b)) as [[y1 y2] y3]. cbn. intros N1 N2.
    destruct (decide (x1 = y1)), (decide (x2 = y2)), (decide (x3 = y3)); subst; try lia; by destruct N2.
Qed.

Lemma pick_fold seen : (forall x, x ∈ seen -> x ∈ legs) ->
  match fold_left (pick_step v s n) seen None with
  | Some (b, score) => score = finish_of v s n b /\ b ∈ seen /\ candidate v b.2 = true /\
      forall x, x ∈ seen -> candidate v x.2 = true -> wins v s n b x
  | None => forall x, x ∈ seen -> candidate v x.2 = false
  end.
Proof.
  induction seen as [|x seen IH] using rev_ind; intros Hin; [by intros ? ?%not_elem_of_nil|].
  rewrite fold_left_app. cbn [fold_left].
  assert (x ∈ legs) as Hx by (apply Hin, elem_of_app; right; by left).
  specialize (IH ltac:(intros y Hy; apply Hin, elem_of_app; by left)).
  unfold pick_step at 1. destruct (candidate v x.2) eqn:Hc; cbn [negb].
  - destruct (fold_left _ seen None) as [[b score]|] eqn:E.
    + destruct IH as (-> & Hb & Hbc & IH). assert (b ∈ legs) as Hbl by (apply Hin, elem_of_app; by left).
      pose proof (wins_step b x Hbl Hx) as Hw. destruct (_ || _).
      * split_and!; [done|apply elem_of_app; right; by left|done|].
        intros y [Hy|Hy%list_elem_of_singleton]%elem_of_app Hyc; [|subst; by apply wins_refl].
        apply (wins_trans x b y); auto. apply Hin, elem_of_app; by left.
      * split_and!; [done|apply elem_of_app; by left|done|].
        intros y [Hy|Hy%list_elem_of_singleton]%elem_of_app Hyc; subst; auto.
    + split_and!; [done|apply elem_of_app; right; by left|done|].
      intros y [Hy|Hy%list_elem_of_singleton]%elem_of_app Hyc; [|subst; by apply wins_refl].
      rewrite (IH _ Hy) in Hyc. done.
  - destruct (fold_left _ seen None) as [[b score]|] eqn:E.
    + destruct IH as (-> & Hb & Hbc & IH). split_and!; [done|apply elem_of_app; by left|done|].
      intros y [Hy|Hy%list_elem_of_singleton]%elem_of_app Hyc; [auto|]. subst. congruence.
    + intros y [Hy|Hy%list_elem_of_singleton]%elem_of_app; [auto|]. by subst.
Qed.

Lemma pick_least :
  match pick v s n legs with
  | Some b => b ∈ legs /\ candidate v b.2 = true /\
      forall x, x ∈ legs -> candidate v x.2 = true -> wins v s n b x
  | None => forall x, x ∈ legs -> candidate v x.2 = false
  end.
Proof.
  unfold pick. pose proof (pick_fold legs ltac:(done)) as H.
  destruct (fold_left _ legs None) as [[b score]|]; cbn; [|done]. by destruct H as (_ & H).
Qed.

End Pick.

Lemma commit_owner v r record a best g p g' : commit v r record a best g = Some (Some p, g') -> p = best.1.
Proof.
  unfold commit. destruct (ba_admitted a); [by intros [= <- _]|].
  intros (owner & _ & E)%bind_Some. apply bind_Some in E as ([assigned tx] & _ & E).
  destruct assigned; cbn [negb] in E; [|discriminate E].
  by destruct (bool_decide _); cbn [negb] in E; injection E as <- _.
Qed.

(** C19. A record whose owner cannot keep it goes to the leg with the least normalized
    service among the legs that are open, admitted by slow-leg protection and of positive
    weight, the lower identifier first; when [assignBenchmark] gives no leg, there is none, or
    slow-leg protection is on and the ledger refuses the record for a leg that was picked.
    (The frontier correction is off; the scores are numbers.) *)
Theorem owner_has_least_finish v r g record a owner g' :
  lg_heap (ag_ledger g) !! r = Some record -> ag_assignment g !! r = Some a ->
  keeps_owner (ag_admission g) a (tr_sequence record) = None -> gc_HOLCompletion (ag_cfg g) = false ->
  (forall x, x ∈ resolve (ag_engine g) (av_legs v) ->
     not_a_number (finish_of v (renewed v g) (payload_size record) x) = false) ->
  assignBenchmark v r g = Some (owner, g') ->
  match owner with
  | Some p => exists l, (p, l) ∈ resolve (ag_engine g) (av_legs v) /\ candidate v l = true /\
      forall x, x ∈ resolve (ag_engine g) (av_legs v) -> candidate v x.2 = true ->
        wins v (renewed v g) (payload_size record) (p, l) x
  | None => (forall x, x ∈ resolve (ag_engine g) (av_legs v) -> candidate v x.2 = false) \/
      exists x, x ∈ resolve (ag_engine g) (av_legs v) /\ slowLegProtection (ag_admission g) = true /\
        fst <$> assignOrdinary (ag_ledger g) (Some r) (sl_id x.2) (av_now v) = Some false
  end.
Proof.
  intros Hr Ha Hk Hh Hn. unfold assignBenchmark. rewrite Hr, Ha. cbn [mbind option_bind]. rewrite Hk.
  case_match; [discriminate|]. unfold choose_owner. rewrite Hh. cbn [andb].
  pose proof (pick_least v (renewed v g) (payload_size record) _ Hn) as HP.
  destruct (pick v _ _ _) as [[p l]|]; [|intros [= <- _]; by left].
  destruct owner as [q|]; intros E.
  - apply commit_owner in E. cbn in E. subst q. exists l. exact HP.
  - right. destruct HP as (HP & _). exists (p, l). split; [done|]. revert E. unfold commit. cbn [ag_admission].
    destruct (ba_admitted a); [discriminate|]. intros (o & _ & E)%bind_Some. change (ledger (ag_admission _)) with (ag_ledger g) in E.
    change (slowLegProtection (ag_admission _)) with (slowLegProtection (ag_admission g)) in E.
    destruct (slowLegProtection _) eqn:Hs; [|cbn in E; destruct (bool_decide _); discriminate E].
    split; [done|]. apply bind_Some in E as ([[] tx] & E1 & E); cbn [negb] in E; [|by rewrite E1].
    destruct (bool_decide _); discriminate E.
Qed.
