(* ===== verification/Feeder.v ===== *)
(** * The queues of assigned records

    [core/stream_assignment_debug.go], and the parts of [core/stream_engine.go] that feed
    it: the transmit loop assigns a record ([enqueueAssignedDecoupled]) and puts it on the
    pending queue of its leg; the feeder of that leg ([pendingFeeder]) takes it and hands it
    to the leg; when a leg fails, a goroutine ([reassignFailedPending]) moves what is still
    pending to other legs.

    Each goroutine is a program counter with its local variables; a step is a channel
    operation, an atomic load or store, or a critical section.  The three steps of
    [tryQueue] are those of [Legs], on the dispatch the goroutine has opened.  The rest of
    the engine takes the steps of [Admission]; [env_ok] says which ones, and what
    [scheduleRetries] and [scheduleFrontierRescue] ask of a record before they queue it.  A
    wakeup may come at any time.  [fs_sent] and [fs_dropped] are histories: the records
    the feeders have put on a send queue, and those [reassignFailedPending] has dropped. *)

From S2P Require Import Prelude Bytes Float64 PathProtocol TxLedger TxInv TxQueue Repair RttCache Legs Admission.
From S2P Require Import Assignment.
From stdpp Require Import options.
#[local] Open Scope Z_scope.

(** ** Data *)

(** The transmit loop between two reads of the application. *)
Inductive planner :=
| PlIdle
| PlNew (r : ptr) (hint : Z)
| PlClaim (r : ptr) (p : lptr)       (* [tryQueue] on the hinted leg *)
| PlSelect (r : ptr) (p : lptr)
| PlFinish (r : ptr) (p : lptr)
| PlCheck (r : ptr)                  (* the loop that waits for an owner *)
| PlAssign (r : ptr)
| PlAssignWait (r : ptr)
| PlRecheck (r : ptr) (id : Z)       (* the loop that waits for a place *)
| PlPush (r : ptr) (id : Z)
| PlPushWait (r : ptr) (id : Z)
| PlReassign (r : ptr) (id : Z)
| PlQueued (r : ptr) (id : Z)
| PlDepth (r : ptr) (id depth : Z)
| PlReturn (r : ptr) (failed : bool).

Inductive feeder :=
| FdIdle
| FdTook (r : ptr)
| FdDepth (r : ptr) (depth : Z)
| FdStored (r : ptr)                 (* pendingDepth stored, feederHeld not yet *)
| FdLoop (r : ptr)
| FdAssign (r : ptr)
| FdTry (r : ptr) (p : lptr)
| FdClaim (r : ptr) (p : lptr)
| FdSelect (r : ptr) (p : lptr)
| FdFinish (r : ptr) (p : lptr)
| FdFailed (r : ptr)
| FdWait (r : ptr)
| FdRelease
| FdExit.

Inductive reassigner :=
| RaTake (id : Z)
| RaTook (id : Z) (r : ptr)
| RaStore (id : Z) (r : ptr) (depth : Z)
| RaAssign (id : Z) (r : ptr)
| RaPush (id : Z) (r : ptr) (to : Z)
| RaQueued (id to : Z)
| RaDepth (id to depth : Z).

Record feeder_engine := MkFeeder {
  fs_assign : assign_engine;
  fs_pending : gmap Z (list ptr);       (* the channels that have been made *)
  fs_pendingDepth : list Z;
  fs_feederHeld : list Z;
  fs_planner : planner;
  fs_feeders : gmap Z feeder;
  fs_reassigners : list reassigner;
  fs_wake : list bool;                  (* decoupledWake: three channels of capacity one *)
  fs_inputBlocked : bool;
  fs_crashed : bool;                    (* a goroutine has panicked *)
  fs_sent : list ptr;
  fs_dropped : list ptr
}.
#[export] Instance feeder_engine_fields : Fields feeder_engine := fun s =>
  MkFeeder (fs_assign s) (fs_pending s) (fs_pendingDepth s) (fs_feederHeld s) (fs_planner s) (fs_feeders s)
    (fs_reassigners s) (fs_wake s) (fs_inputBlocked s) (fs_crashed s) (fs_sent s) (fs_dropped s).

Definition fs_admission (s : feeder_engine) : admission_engine := ag_admission (fs_assign s).
Definition fs_engine (s : feeder_engine) : StreamEngine := ag_engine (fs_assign s).
Definition fs_ledger (s : feeder_engine) : StreamTXLedger := ag_ledger (fs_assign s).
Definition set_admission (w : admission_engine) (s : feeder_engine) : feeder_engine :=
  s <| fs_assign ::= fun g => g <| ag_admission := w |> |>.
Definition set_engine (e : StreamEngine) (s : feeder_engine) : feeder_engine :=
  set_admission ((fs_admission s) <| ae_engine := e |>) s.

Definition new_feeder (cfg : StreamConfig) (acfg : AdmissionConfig) (gcfg : assign_config)
    (rows : list capacity_row) (now : time) : feeder_engine :=
  let w := new_admission cfg acfg rows now in
  let n := Z.to_nat (se_maxActiveLegs (ae_engine w)) in
  MkFeeder (MkAssign gcfg w (new_sched (se_maxActiveLegs (ae_engine w))) ∅) ∅ (replicate n 0) (replicate n 0)
    PlIdle ∅ [] [false; false; false] false false [] [].

(** ** Shared operations *)

Definition benchmarkPendingOnly (s : feeder_engine) (r : ptr) : bool :=
  match ag_assignment (fs_assign s) !! r with Some a => negb (ba_admitted a) | None => true end.

Definition wakeDecoupled (s : feeder_engine) : feeder_engine := s <| fs_wake ::= fmap (fun _ => true) |>.

(** [<-c.decoupledWake[id]]; [None]: nothing to receive. *)
Definition take_wake (id : Z) (s : feeder_engine) : option feeder_engine :=
  if at_id false (fs_wake s) id then Some (s <| fs_wake ::= put_id id false |>) else None.

Definition pending_depth (s : feeder_engine) : Z :=
  let depth := gc_PendingFrames (ag_cfg (fs_assign s)) in
  if bool_decide (depth <= 0) then 32 else depth.

Definition pending_of (s : feeder_engine) (id : Z) : list ptr := default [] (fs_pending s !! id).
(** [case c.pending[id] <- r]; [None]: full, or no such channel. *)
Definition push_pending (id : Z) (r : ptr) (s : feeder_engine) : option feeder_engine :=
  let! q := fs_pending s !! id in
  if bool_decide (slen q < pending_depth s) then Some (s <| fs_pending ::= <[id := q ++ [r]]> |>) else None.
Definition take_pending (id : Z) (s : feeder_engine) : option (ptr * feeder_engine) :=
  match fs_pending s !! id with
  | Some (r :: q) => Some (r, s <| fs_pending ::= <[id := q]> |>)
  | _ => None
  end.
Definition store_depth (id depth : Z) (s : feeder_engine) : feeder_engine :=
  s <| fs_pendingDepth ::= put_id id depth |>.
Definition load_depth (id : Z) (s : feeder_engine) : Z := slen (pending_of s id).

Definition outstanding (s : feeder_engine) (r : ptr) : bool := IsOutstanding (fs_ledger s) (Some r).

(** [assignBenchmark]: the identifier and the leg. *)
Definition assign (v : assign_view) (r : ptr) (s : feeder_engine) : option (option (Z * lptr) * feeder_engine) :=
  let! result := assignBenchmark v r (fs_assign s) in
  let '(owner, g) := result in
  let s := s <| fs_assign := g |> in
  match owner with
  | Some p => let! l := se_heap (ag_engine g) !! p in Some (Some (sl_id l, p), s)
  | None => Some (None, s)
  end.

(** *** [tryQueue(leg, r, false)] *)

(** The dispatch of the caller: the ordinary one of its record. *)
Definition own_dispatch (e : StreamEngine) (p : lptr) (r : ptr) : option (nat * dispatch) :=
  let! l := se_heap e !! p in
  list_find (fun d => sa_record (dp_attempt d) = r /\ sa_ordinary (dp_attempt d) = true) (sl_dispatch l).

Inductive try_event := te_claim (now : time) | te_select (c : select_case) | te_finish.
Inductive try_outcome := TrySelect | TryFinish | TryReturn (queued : bool).

Definition try_stage (te : try_event) : dispatch_stage :=
  match te with te_claim _ => Checked | te_select _ => Claimed | te_finish => Pushed end.

(** [None]: the step is not enabled. *)
Definition try_step (p : lptr) (r : ptr) (te : try_event) (e : StreamEngine)
  : option (try_outcome * StreamEngine) :=
  let! found := own_dispatch e p r in
  let '(k, d) := found in
  if bool_decide (dp_stage d <> try_stage te) then None else
  match te with
  | te_claim now =>
    let e := dispatch_claim e p k now in
    Some (match own_dispatch e p r with
          | Some _ => TrySelect
          | None => TryReturn (negb (IsOutstanding (se_txLedger e) (Some r))) end, e)
  | te_select c =>
    let! e := dispatch_select e p k c in
    Some (match c with TakeSend => TryFinish | _ => TryReturn false end, e)
  | te_finish =>
    let! l := se_heap e !! p in
    Some (TryReturn (negb (sl_closed l)), dispatch_finish e p k)
  end.

Definition leg_open (e : StreamEngine) (p : lptr) : bool :=
  match se_heap e !! p with Some l => open_leg l | None => false end.

(** [assignment.admitted.Store(true)], once the send queue has the record. *)
Definition mark_admitted (r : ptr) (s : feeder_engine) : feeder_engine :=
  s <| fs_assign ::= fun g => g <| ag_assignment ::= alter (fun a => a <| ba_admitted := true |>) r |> |>.

(** ** The transmit loop *)

Inductive event :=
| ev_go
| ev_done
| ev_wake
| ev_assign (v : assign_view)
| ev_try (te : try_event)
| ev_choose (choice : option lptr).

Definition set_planner (pl : planner) (s : feeder_engine) : feeder_engine := s <| fs_planner := pl |>.

(** [enqueueAssignedDecoupled] begins. *)
Definition begin_assign (r : ptr) (s : feeder_engine) : feeder_engine :=
  set_planner (PlCheck r) (s <| fs_assign ::= fun g => g <| ag_assignment ::= <[r := MkAssignment None false]> |> |>).

(** [chooseLegWithStartupHint]; [choice] is what [chooseLeg] gives. *)
Definition hinted_leg (s : feeder_engine) (hint : Z) (choice : option lptr) : option lptr :=
  match getLeg (fs_engine s) hint with
  | Some p => if leg_open (fs_engine s) p then Some p else choice
  | None => choice
  end.

(** [enqueueRecordWithHint], up to [tryQueue]. *)
Definition enqueue_new (r : ptr) (hint : Z) (choice : option lptr) (s : feeder_engine) : feeder_engine :=
  if bool_decide (hint < 0) || bool_decide (se_maxActiveLegs (fs_engine s) <= hint) || negb (outstanding s r)
  then begin_assign r s else
  match hinted_leg s hint choice with
  | Some p => if leg_open (fs_engine s) p
              then set_planner (PlClaim r p) (set_engine (tryQueue (fs_engine s) p r false) s)
              else begin_assign r s
  | None => begin_assign r s
  end.

Definition planner_try (r : ptr) (p : lptr) (te : try_event) (s : feeder_engine) : option feeder_engine :=
  let! result := try_step p r te (fs_engine s) in
  let '(outcome, e) := result in
  let s := set_engine e s in
  Some (match outcome with
        | TrySelect => set_planner (PlSelect r p) s
        | TryFinish => set_planner (PlFinish r p) s
        | TryReturn true => set_planner (PlReturn r false) s
        | TryReturn false => begin_assign r s
        end).

Definition block_input (b : bool) (s : feeder_engine) : feeder_engine := s <| fs_inputBlocked := b |>.

(** The end of [txLoop]'s turn: [finishLocalEnqueue], and the failure of the stream. *)
Definition planner_return (r : ptr) (failed : bool) (s : feeder_engine) : feeder_engine :=
  let e := upd_ledger (fun tx => finishLocalEnqueue tx r) (fs_engine s) in
  let e := if failed then (fail e ErrStreamClosed) <| se_txStopped := true |> else e in
  set_planner PlIdle (block_input false (set_engine e s)).

Definition planner_step (ev : event) (s : feeder_engine) : option feeder_engine :=
  let to pl := Some (set_planner pl s) in
  match fs_planner s, ev with
  | PlNew r hint, ev_choose choice => Some (enqueue_new r hint choice s)
  | PlClaim r p, ev_try (te_claim now) => planner_try r p (te_claim now) s
  | PlSelect r p, ev_try (te_select c) => planner_try r p (te_select c) s
  | PlFinish r p, ev_try te_finish => planner_try r p te_finish s
  | PlCheck r, ev_go => if outstanding s r then to (PlAssign r) else to (PlReturn r false)
  | PlAssign r, ev_assign v =>
    let! result := assign v r s in
    let '(leg, s) := result in
    Some (match leg with
          | Some (id, _) => set_planner (PlRecheck r id) s
          | None => set_planner (PlAssignWait r) (block_input true s)
          end)
  | PlAssignWait r, ev_wake => let! s := take_wake 2 s in Some (set_planner (PlCheck r) s)
  | PlAssignWait r, ev_done => if se_done (fs_engine s) then to (PlReturn r true) else None
  | PlRecheck r id, ev_go => if outstanding s r then to (PlPush r id) else to (PlReturn r false)
  | PlPush r id, ev_go =>
    match push_pending id r s with
    | Some s => Some (set_planner (PlQueued r id) s)
    | None => Some (set_planner (PlPushWait r id) (block_input true s))
    end
  | PlPushWait r id, ev_wake => let! s := take_wake 2 s in Some (set_planner (PlReassign r id) s)
  | PlPushWait r id, ev_done => if se_done (fs_engine s) then to (PlReturn r true) else None
  | PlReassign r id, ev_assign v =>
    let! result := assign v r s in
    let '(leg, s) := result in
    Some (set_planner (PlRecheck r (from_option fst id leg)) s)
  | PlQueued r id, ev_go => to (PlDepth r id (load_depth id s))
  | PlDepth r id depth, ev_go => Some (set_planner (PlReturn r false) (store_depth id depth s))
  | PlReturn r failed, ev_go => Some (planner_return r failed s)
  | _, _ => None
  end.

(** [txLoop] has read [payload]. *)
Definition read_input (payload : bytes) (now : time) (hint : Z) (s : feeder_engine) : option feeder_engine :=
  match fs_planner s with
  | PlIdle =>
    if se_txStopped (fs_engine s) then None else
    let '(r, tx) := add (fs_ledger s) payload now true in
    Some (set_planner (PlNew r hint) (set_engine ((fs_engine s) <| se_txLedger := tx |>) s))
  | _ => None
  end.

(** ** The feeder of a leg *)

Definition set_feeder (id : Z) (f : feeder) (s : feeder_engine) : feeder_engine :=
  s <| fs_feeders ::= <[id := f]> |>.
Definition set_held (id n : Z) (s : feeder_engine) : feeder_engine := s <| fs_feederHeld ::= put_id id n |>.

Definition feeder_try (id : Z) (r : ptr) (p : lptr) (te : try_event) (s : feeder_engine) : option feeder_engine :=
  let! result := try_step p r te (fs_engine s) in
  let '(outcome, e) := result in
  let s := set_engine e s in
  Some (match outcome with
        | TrySelect => set_feeder id (FdSelect r p) s
        | TryFinish => set_feeder id (FdFinish r p) (mark_admitted r s <| fs_sent ::= fun sent => sent ++ [r] |>)
        | TryReturn true => set_feeder id FdRelease s
        | TryReturn false => set_feeder id (FdFailed r) s
        end).

(** [decoupledWake] has three channels: the feeder of another leg panics when it must wait. *)
Definition wait_on (id : Z) (wait s : feeder_engine) : feeder_engine :=
  if bool_decide (slen (fs_wake s) <= id) then s <| fs_crashed := true |> else wait.

Definition feeder_step (id : Z) (ev : event) (s : feeder_engine) : option feeder_engine :=
  let! f := fs_feeders s !! id in
  let to f := Some (set_feeder id f s) in
  match f, ev with
  | FdIdle, ev_go =>
    let! result := take_pending id s in
    let '(r, s) := result in
    Some (set_feeder id (FdTook r) (wakeDecoupled s))
  | FdIdle, ev_done => if se_done (fs_engine s) then to FdExit else None
  | FdTook r, ev_go => to (FdDepth r (load_depth id s))
  | FdDepth r depth, ev_go => Some (set_feeder id (FdStored r) (store_depth id depth s))
  | FdStored r, ev_go => Some (set_feeder id (FdLoop r) (set_held id 1 s))
  | FdLoop r, ev_go => if outstanding s r then to (FdAssign r) else to FdRelease
  | FdAssign r, ev_assign v =>
    let! result := assign v r s in
    let '(leg, s) := result in
    Some (set_feeder id (match leg with Some (_, p) => FdTry r p | None => FdFailed r end) s)
  | FdTry r p, ev_go =>
    if leg_open (fs_engine s) p
    then Some (set_feeder id (FdClaim r p) (set_engine (tryQueue (fs_engine s) p r false) s))
    else to (FdFailed r)
  | FdClaim r p, ev_try (te_claim now) => feeder_try id r p (te_claim now) s
  | FdSelect r p, ev_try (te_select c) => feeder_try id r p (te_select c) s
  | FdFinish r p, ev_try te_finish => feeder_try id r p te_finish s
  | FdFailed r, ev_go =>
    if benchmarkPendingOnly s r then Some (wait_on id (set_feeder id (FdWait r) s) s) else to FdRelease
  | FdWait r, ev_wake => let! s := take_wake id s in Some (set_feeder id (FdLoop r) s)
  | FdWait r, ev_done => if se_done (fs_engine s) then to FdExit else None
  | FdRelease, ev_go => Some (set_feeder id FdIdle (set_held id 0 s))
  | _, _ => None
  end.

(** ** [reassignFailedPending] *)

Definition set_reassigner (k : nat) (x : reassigner) (s : feeder_engine) : feeder_engine :=
  s <| fs_reassigners ::= <[k := x]> |>.
Definition end_reassigner (k : nat) (s : feeder_engine) : feeder_engine :=
  s <| fs_reassigners ::= delete k |>.

Definition reassigner_step (k : nat) (ev : event) (s : feeder_engine) : option feeder_engine :=
  let! x := fs_reassigners s !! k in
  match x, ev with
  | RaTake id, ev_go =>
    match take_pending id s with
    | Some (r, s) => Some (set_reassigner k (RaTook id r) s)
    | None => Some (end_reassigner k s)
    end
  | RaTook id r, ev_go => Some (set_reassigner k (RaStore id r (load_depth id s)) s)
  | RaStore id r depth, ev_go =>
    let s := store_depth id depth s in
    Some (match ag_assignment (fs_assign s) !! r with
          | Some _ => set_reassigner k (RaAssign id r) s
          | None => set_reassigner k (RaTake id) s <| fs_dropped ::= fun l => l ++ [r] |>
          end)
  | RaAssign id r, ev_assign v =>
    let! result := assign v r s in
    let '(leg, s) := result in
    Some (match leg with
          | Some (to, _) => wait_on to (set_reassigner k (RaPush id r to) s) s
          | None => end_reassigner k s <| fs_dropped ::= fun l => l ++ [r] |>
          end)
  | RaPush id r to, ev_go => let! s := push_pending to r s in Some (set_reassigner k (RaQueued id to) s)
  | RaPush id r to, ev_wake => take_wake to s
  | RaPush id r to, ev_done =>
    if se_done (fs_engine s) then Some (end_reassigner k s <| fs_dropped ::= fun l => l ++ [r] |>) else None
  | RaQueued id to, ev_go => Some (set_reassigner k (RaDepth id to (load_depth to s)) s)
  | RaDepth id to depth, ev_go =>
    Some (set_reassigner k (RaTake id) (store_depth to depth s)
            <| fs_assign ::= fun g => g <| ag_sched ::= fun c => c <| sc_reassignments ::= fun n => u64 (n + 1) |> |> |>)
  | _, _ => None
  end.

(** ** The rest of the engine *)

(** [attachLeg]: the first leg with an identifier makes the queue and starts the feeder. *)
Definition attach (id : Z) (auth : option StreamPathAuth) (prior : Z) (clock now : time) (s : feeder_engine)
  : option feeder_engine :=
  let! w := leg_step (lo_attach id auth prior clock) now (fs_admission s) in
  let s' := set_admission w s in
  if bool_decide (getLeg (ae_engine w) id <> getLeg (fs_engine s) id) && bool_decide (fs_pending s !! id = None)
  then Some (set_feeder id FdIdle (s' <| fs_pending ::= <[id := []]> |>)) else Some s'.

(** [handleLegFailure], after [InvalidateLegWithReason]. *)
Definition invalidate (k : nat) (now : time) (s : feeder_engine) : option feeder_engine :=
  let! f := se_failing (fs_engine s) !! k in
  let! l := se_heap (fs_engine s) !! fl_leg f in
  let! w := leg_step (lo_invalidate k) now (fs_admission s) in
  Some ((set_admission w s) <| fs_reassigners ::= fun l' => l' ++ [RaTake (sl_id l)] |>).

(** An open dispatch of the retry planner or of the rescue. *)
Definition not_ordinary (e : StreamEngine) (p : lptr) (k : nat) : bool :=
  match (let! l := se_heap e !! p in sl_dispatch l !! k) with
  | Some d => negb (sa_ordinary (dp_attempt d))
  | None => true
  end.

(** What the other goroutines do: [scheduleRetries] and [scheduleFrontierRescue] pass over a
    record that is still pending, the latter only without slow-leg protection. *)
Definition env_ok (s : feeder_engine) (op : admission_op) : bool :=
  match op with
  | mop_leg (lo_attach _ _ _ _) _ | mop_leg (lo_invalidate _) _ => false
  | mop_leg (lo_tx (op_ack _ _)) _ | mop_leg (lo_tx op_trace) _ => true
  | mop_leg (lo_tx _) _ => false
  | mop_leg lo_tx_stop _ => match fs_planner s with PlIdle => true | _ => false end
  | mop_leg (lo_queue _ r retry) _ => retry && negb (benchmarkPendingOnly s r)
  | mop_leg (lo_rescue _ r _) _ => negb (benchmarkPendingOnly s r) || slowLegProtection (fs_admission s)
  | mop_leg (lo_claim p k _) _ | mop_leg (lo_select p k _) _ | mop_leg (lo_finish p k) _ =>
    not_ordinary (fs_engine s) p k
  | _ => true
  end.

Inductive feeder_op :=
| fo_env (op : admission_op)
| fo_attach (id : Z) (auth : option StreamPathAuth) (prior : Z) (clock now : time)
| fo_invalidate (k : nat) (now : time)
| fo_wake
| fo_read (payload : bytes) (now : time) (hint : Z)
| fo_plan (ev : event)
| fo_feed (id : Z) (ev : event)
| fo_reassign (k : nat) (ev : event).

Section Steps.
  Context `{FloatConversion}.

(** [None]: the step is not enabled (or a panic in the ledger). *)
Definition feeder_exec (s : feeder_engine) (op : feeder_op) : option feeder_engine :=
  if fs_crashed s then None else
  match op with
  | fo_env op =>
    if env_ok s op then let! w := admission_exec (fs_admission s) op in Some (set_admission w s) else None
  | fo_attach id auth prior clock now => attach id auth prior clock now s
  | fo_invalidate k now => invalidate k now s
  | fo_wake => Some (wakeDecoupled s)
  | fo_read payload now hint => read_input payload now hint s
  | fo_plan ev => planner_step ev s
  | fo_feed id ev => feeder_step id ev s
  | fo_reassign k ev => reassigner_step k ev s
  end.

Fixpoint feeder_run (ops : list feeder_op) (s : feeder_engine) : option feeder_engine :=
  match ops with
  | [] => Some s
  | op :: ops => let! s := feeder_exec s op in feeder_run ops s
  end.

End Steps.

Definition feeder_op_ok (op : feeder_op) : Prop :=
  match op with
  | fo_env (mop_leg op _) => lop_wf op
  | fo_attach id auth prior clock _ => lop_wf (lo_attach id auth prior clock)
  | _ => True
  end.
