(* ===== verification/FeederInv.v ===== *)
(** * The queues of assigned records: invariants

    What a step of the engine leaves alone ([evolves]), which steps of the other goroutines
    can bring an attempt of a record, and what [assignBenchmark] changes ([assign_spec]). *)

From S2P Require Import Prelude Bytes Float64 PathProtocol TxLedger TxInv TxQueue Repair RttCache Legs LegsInv.
From S2P Require Import LegPath Admission Assignment Feeder.
From stdpp Require Import options.
#[local] Open Scope Z_scope.

(** ** Steps of the engine *)

(** The records a leg has attempts of. *)
Definition attempts (l : streamLeg) : list ptr :=
  sa_record <$> (dp_attempt <$> sl_dispatch l) ++ sl_send l ++ sl_rescue l ++ sl_hand l.

(** A leg keeps its identifier, stays closed, and gets attempts of the [allowed] records only. *)
Definition leg_evolves (allowed : ptr -> Prop) (l l' : streamLeg) : Prop :=
  sl_id l' = sl_id l /\ (sl_closed l = true -> sl_closed l' = true) /\
  forall r, r ∈ attempts l' -> r ∈ attempts l \/ allowed r.

Definition heap_evolves (allowed : ptr -> Prop) (h h' : gmap lptr streamLeg) : Prop :=
  (forall p l, h !! p = Some l -> exists l', h' !! p = Some l' /\ leg_evolves allowed l l') /\
  forall p l', h' !! p = Some l' -> h !! p = None -> attempts l' = [].

Definition ledger_evolves (l l' : StreamTXLedger) : Prop :=
  (forall p x, rec_id <$> lg_heap l !! p = Some x -> rec_id <$> lg_heap l' !! p = Some x) /\
  (forall p, is_Some (lg_heap l !! p) -> IsOutstanding l (Some p) = false -> IsOutstanding l' (Some p) = false).

Definition fixed (e : StreamEngine) : StreamConfig * Z := (se_cfg e, se_maxActiveLegs e).

Record evolves (allowed : ptr -> Prop) (e e' : StreamEngine) : Prop := {
  ev_heap : heap_evolves allowed (se_heap e) (se_heap e');
  ev_ledger : ledger_evolves (se_txLedger e) (se_txLedger e');
  ev_ended : se_done e = true -> se_done e' = true;
  ev_fixed : fixed e' = fixed e
}.

Lemma leg_evolution_refl A l : leg_evolves A l l.
Proof. split_and!; auto. Qed.
Lemma leg_evolves_trans A l1 l2 l3 : leg_evolves A l1 l2 -> leg_evolves A l2 l3 -> leg_evolves A l1 l3.
Proof.
  intros (I & C & R) (I' & C' & R'). split_and!; [congruence|auto|].
  intros r [H|H]%R'; [by apply R|by right].
Qed.
Lemma heap_evolves_refl A h : heap_evolves A h h.
Proof. split; [intros p l Hl; eauto using leg_evolution_refl|congruence]. Qed.
Lemma heap_evolves_mono (A B : ptr -> Prop) h h' : (forall r, A r -> B r) -> heap_evolves A h h' -> heap_evolves B h h'.
Proof.
  intros HAB [K N]. split; [|done]. intros p l (l' & Hl & I & C & R)%K. exists l'. split_and!; [done..|].
  split_and!; [done..|]. intros r [H|H]%R; auto.
Qed.
Lemma heap_evolves_trans A h1 h2 h3 : heap_evolves A h1 h2 -> heap_evolves A h2 h3 ->
  (forall p l, h2 !! p = Some l -> h1 !! p = None -> h3 !! p = Some l) -> heap_evolves A h1 h3.
Proof.
  intros [K N] [K' N'] HK. split.
  - intros p l (l' & Hl & E)%K. apply K' in Hl as (l2 & Hl2 & E'). eauto using leg_evolves_trans.
  - intros p l' Hl' Hn. destruct (h2 !! p) as [l|] eqn:E; [|by eapply N'].
    rewrite (HK _ _ E Hn) in Hl'. injection Hl' as <-. by eapply N.
Qed.
Lemma heap_evolves_alter A h p f :
  (forall l, h !! p = Some l -> leg_evolves A l (f l)) -> heap_evolves A h (alter f p h).
Proof.
  intros Hf. split.
  - intros q l Hl. destruct (decide (p = q)) as [<-|Hne].
    + exists (f l). rewrite lookup_alter_eq, Hl. auto.
    + exists l. rewrite lookup_alter_ne by done. auto using leg_evolution_refl.
  - intros q l' Hl' Hn. destruct (decide (p = q)) as [<-|Hne].
    + by rewrite lookup_alter_eq, Hn in Hl'.
    + rewrite lookup_alter_ne in Hl' by done. congruence.
Qed.
Lemma heap_evolves_new A h p l : h !! p = None -> attempts l = [] -> heap_evolves A h (<[p := l]> h).
Proof.
  intros Hp Ha. split.
  - intros q m Hm. exists m. rewrite lookup_insert_ne by congruence. auto using leg_evolution_refl.
  - intros q m. destruct (decide (p = q)) as [<-|Hne]; [|rewrite lookup_insert_ne by done; congruence].
    rewrite lookup_insert_eq. by intros [= <-].
Qed.

Lemma ledger_evolves_refl l : ledger_evolves l l.
Proof. by split. Qed.
Lemma ledger_evolves_trans l1 l2 l3 : ledger_evolves l1 l2 -> ledger_evolves l2 l3 -> ledger_evolves l1 l3.
Proof.
  intros [H1 H2] [H3 H4]. split; [auto|]. intros p [r Hr] Ho. apply H4; [|apply H2; eauto].
  specialize (H1 p (rec_id r)). rewrite Hr in H1. apply fmap_is_Some with (f := rec_id). rewrite H1; eauto.
Qed.

Lemma IsOutstanding_id l p :
  IsOutstanding l (Some p) = true <->
  exists s b, rec_id <$> lg_heap l !! p = Some (s, b) /\ lg_outstanding l !! s = Some p.
Proof.
  unfold IsOutstanding. rewrite bool_decide_eq_true. unfold current. split.
  - intros [x Hx]. destruct (lg_heap l !! p) as [r|]; [|done]. case_bool_decide; [|done].
    exists (tr_sequence r), (tr_payload r). done.
  - intros (s & b & Hr & Ho). apply fmap_Some in Hr as (r & -> & [= -> ->]).
    rewrite bool_decide_eq_true_2 by done. eauto.
Qed.

Lemma quiet_evolves l l' : quiet l l' -> ledger_evolves l l'.
Proof.
  intros [_ _ _ Q4 _ Q6]. split; [intros p x; by rewrite Q6|].
  intros p _. rewrite <- !not_true_iff_false, !IsOutstanding_id, Q4. by setoid_rewrite Q6.
Qed.
Lemma quiet_tracked l l' : quiet l l' -> tracked l -> tracked l'.
Proof. intros [_ Q2 Q3 Q4 _ Q6] HT p s b. rewrite Q6, Q2, Q3, Q4. apply HT. Qed.

(** What has been retired stays retired. *)
Lemma effect_evolves op l l' : ledger_inv l -> tracked l -> step_effect op l l' ->
  ledger_evolves l l' /\ tracked l'.
Proof.
  intros HI HT HE. destruct (step_tracked _ _ _ HI HE HT) as (HT' & HA & HP). split; [|done].
  split; [done|]. intros p [r Hr]. rewrite <- !not_true_iff_false, !IsOutstanding_id. intros Ho (s & b & Hs & Ho').
  apply Ho. clear Ho.
  assert (rec_id <$> lg_heap l !! p = Some (rec_id r)) as Hid by (by rewrite Hr).
  pose proof (HP _ _ Hid) as Hid'. rewrite Hs in Hid'. injection Hid' as -> ->.
  exists (tr_sequence r), (tr_payload r). split; [done|].
  destruct (HT p (tr_sequence r) (tr_payload r) ltac:(by rewrite Hr)) as [Hlt Hout].
  apply Hout. destruct (decide (lg_ackedNext l <= tr_sequence r)) as [|Hn]; [done|]. exfalso.
  assert (lg_outstanding l !! tr_sequence r = None) as Hnone.
  { destruct (lg_outstanding l !! tr_sequence r) eqn:E; [|done].
    destruct (proj1 (li_dom _ HI (tr_sequence r)) ltac:(eauto)). lia. }
  destruct op; cbn [step_effect] in HE; try (destruct HE as [_ _ _ Q4 _ _]; congruence).
  - destruct HE as (_ & _ & _ & EO & _). rewrite EO, lookup_insert_ne in Ho' by lia. congruence.
  - destruct HE as (_ & _ & _ & EO & _). rewrite EO in Ho'. case_match; congruence.
Qed.

Lemma call_evolves new l l' : ledger_inv l -> tracked l -> lg_nextSequence l < max_u64 -> tx_call new l l' ->
  ledger_evolves l l' /\ tracked l'.
Proof.
  intros HI HT Hn [->|(op & Hwf & Hop & _)]; [split; [apply ledger_evolves_refl|done]|].
  destruct (tx_step_ok op l HI Hwf Hn) as (l2 & Hop2 & _ & HE). simplify_eq. by eapply effect_evolves.
Qed.

Definition allows (op : leg_op) (r : ptr) : Prop :=
  match op with lo_queue _ q _ | lo_rescue _ q _ => r = q | _ => False end.

Lemma elem_of_attempts r l :
  r ∈ attempts l <-> (exists d, d ∈ sl_dispatch l /\ sa_record (dp_attempt d) = r) \/
                    exists a, queued l a /\ sa_record a = r.
Proof.
  unfold attempts, queued. rewrite list_elem_of_fmap. setoid_rewrite elem_of_app.
  setoid_rewrite elem_of_app. setoid_rewrite elem_of_app. setoid_rewrite list_elem_of_fmap. naive_solver.
Qed.

(** A leg whose dispatches and queues shrink, but for a dispatch that is renewed. *)
Lemma leg_evolves_intro (A : ptr -> Prop) l l' :
  sl_id l' = sl_id l -> (sl_closed l = true -> sl_closed l' = true) ->
  (forall d, d ∈ sl_dispatch l' -> sa_record (dp_attempt d) ∈ attempts l \/ A (sa_record (dp_attempt d))) ->
  (forall a, queued l' a -> sa_record a ∈ attempts l) -> leg_evolves A l l'.
Proof.
  intros I C D Q. split_and!; [done..|]. intros r [(d & Hd & <-)|(a & Ha & <-)]%elem_of_attempts; auto.
Qed.

Lemma dispatch_attempts l d : d ∈ sl_dispatch l -> sa_record (dp_attempt d) ∈ attempts l.
Proof. intros. apply elem_of_attempts. eauto. Qed.
Lemma queued_attempts l a : queued l a -> sa_record a ∈ attempts l.
Proof. intros. apply elem_of_attempts. eauto. Qed.

Lemma deleted {A} (l : list A) k x : x ∈ delete k l -> x ∈ l.
Proof. intros Hx. eapply elem_of_submseteq; [exact Hx|]. apply sublist_submseteq, sublist_delete. Qed.
Lemma inserted {A} (l : list A) k x y : x ∈ <[k := y]> l -> x ∈ l \/ x = y.
Proof.
  intros [i Hi]%list_elem_of_lookup_1. destruct (decide (k = i)) as [<-|Hne].
  - right. apply list_lookup_insert_Some in Hi as [(_ & -> & _)|[? _]]; done.
  - left. rewrite list_lookup_insert_ne in Hi by done. by eapply list_elem_of_lookup_2.
Qed.

#[local] Hint Resolve dispatch_attempts queued_attempts leg_evolution_refl heap_evolves_refl
  ledger_evolves_refl : smp3.

(** The attempts of the updated leg, queue by queue. *)
Ltac same_attempts :=
  apply leg_evolves_intro;
  [done|simpl; auto
  |intros d Hd; left; apply dispatch_attempts; revert Hd; simpl; try done; eauto using deleted
  |intros a Ha; apply queued_attempts; unfold queued; revert Ha; unfold queued; simpl; try done].

Lemma upd_heap_evolves A e p f :
  (forall l, se_heap e !! p = Some l -> leg_evolves A l (f l)) -> heap_evolves A (se_heap e) (se_heap (upd_leg p f e)).
Proof. apply heap_evolves_alter. Qed.

Lemma close_evolves A err l : leg_evolves A l (leg_close err l).
Proof. unfold leg_close. destruct (sl_closed l) eqn:E; [apply leg_evolution_refl|]. same_attempts. Qed.

Lemma fail_heap_evolves A e p err : heap_evolves A (se_heap e) (se_heap (handleLegFailure e p err)).
Proof.
  unfold handleLegFailure. destruct (se_heap e !! p) as [l|] eqn:Hl; [|auto with smp3].
  assert (forall x, se_heap x = se_heap e -> heap_evolves A (se_heap e) (se_heap (upd_leg p (leg_close err) x))) as HU.
  { intros x Hx. cbn. rewrite Hx. apply heap_evolves_alter. intros. apply close_evolves. }
  destruct (sl_pathRTTEnabled l); case_bool_decide; by apply HU.
Qed.

Lemma drop_evolves A e x p k : se_heap x = se_heap e -> heap_evolves A (se_heap e) (se_heap (drop_dispatch p k x)).
Proof. intros <-. apply upd_heap_evolves. intros l _. same_attempts. Qed.

Lemma queue_heap_evolves e p a owner :
  heap_evolves (eq (sa_record a)) (se_heap e)
    (se_heap (upd_leg p (fun l => l <| sl_dispatch ::= fun ds => ds ++ [MkDispatch Checked a owner] |>) e)).
Proof.
  apply upd_heap_evolves. intros l _. apply leg_evolves_intro; auto with smp3.
  intros d [Hd|Hd%list_elem_of_singleton]%elem_of_app; [|subst; by right]. left. by apply dispatch_attempts.
Qed.

Lemma claim_heap_evolves A e p k now : heap_evolves A (se_heap e) (se_heap (dispatch_claim e p k now)).
Proof.
  unfold dispatch_claim. destruct (se_heap e !! p) as [l|] eqn:Hl; [|apply heap_evolves_refl]. simpl.
  destruct (sl_dispatch l !! k) as [[[] a owner]|] eqn:Hk; try apply heap_evolves_refl. simpl.
  match goal with |- context [let '(_, _) := ?x in _] => destruct x as [[] tx] end;
    [|by apply drop_evolves].
  refine (heap_evolves_alter A (se_heap e) p _ _). intros m Hm. rewrite Hl in Hm. injection Hm as <-.
  apply leg_evolves_intro; auto with smp3.
  intros d [Hd| ->]%inserted; [eauto with smp3|]. left. cbn.
  apply (dispatch_attempts l (MkDispatch Checked a owner)). by eapply list_elem_of_lookup_2.
Qed.

Lemma select_heap_evolves A e p k c e' : dispatch_select e p k c = Some e' -> heap_evolves A (se_heap e) (se_heap e').
Proof.
  unfold dispatch_select. destruct (se_heap e !! p) as [l|] eqn:Hl; [|done]. simpl.
  destruct (sl_dispatch l !! k) as [[st a owner]|] eqn:Hk; [|done]. simpl. case_bool_decide; [done|].
  assert (In : sa_record a ∈ attempts l).
  { apply (dispatch_attempts l (MkDispatch st a owner)). by eapply list_elem_of_lookup_2. }
  destruct c.
  - destruct (sl_closed l); [|done]. intros [= <-]. by apply drop_evolves.
  - destruct (send_full e l (sa_rescue a)); [done|].
    assert (heap_evolves A (se_heap e) (alter (fun l => (push_attempt a l) <| sl_dispatch ::=
      <[k := MkDispatch Pushed a owner]> |>) p (se_heap e))) as HU.
    { apply heap_evolves_alter. intros m Hm. rewrite Hl in Hm. injection Hm as <-.
      unfold push_attempt. destruct (sa_rescue a); (apply leg_evolves_intro; auto;
        [intros d [Hd| ->]%inserted; [eauto with smp3|by left]|]);
      intros b; unfold queued; cbn; rewrite elem_of_app, list_elem_of_singleton;
      (intros [Hb|[[Hb| ->]|Hb]] || intros [[Hb| ->]|[Hb|Hb]]); try done; apply queued_attempts; unfold queued; auto. }
    destruct (sa_rescue a); [by intros [= <-]|]. destruct (_ && _); [|by intros [= <-]].
    intros (tx & _ & [= <-])%bind_Some. exact HU.
  - destruct (_ || _); [done|]. intros [= <-]. apply drop_evolves. by destruct (_ && _ && _).
Qed.

Lemma hand_evolves A e p f : (forall l, leg_evolves A l (f l)) -> heap_evolves A (se_heap e) (alter f p (se_heap e)).
Proof. intros Hf. apply heap_evolves_alter. auto. Qed.

Lemma taken_evolves A l send rescue hand w :
  (forall a, a ∈ send \/ a ∈ rescue \/ a ∈ hand -> queued l a) ->
  leg_evolves A l (l <| sl_send := send |> <| sl_rescue := rescue |> <| sl_hand := hand |> <| sl_writer := w |>).
Proof. intros H. apply leg_evolves_intro; [done|done|eauto with smp3|]. intros a Ha. apply queued_attempts, H, Ha. Qed.

(** One leg is replaced by a later state of it. *)
Lemma put_evolves A e x p l f : se_heap e !! p = Some l -> se_heap x = se_heap e -> leg_evolves A l (f l) ->
  heap_evolves A (se_heap e) (se_heap (upd_leg p f x)).
Proof. intros Hl Hx Hf. cbn. rewrite Hx. apply heap_evolves_alter. intros m Hm. by rewrite Hl in Hm; injection Hm as <-. Qed.

Lemma writer_heap_evolves A e op e' :
  match op with lo_take_send _ | lo_take_rescue _ | lo_write _ _ | lo_wrote _ _ | lo_commit _ _ _ => True | _ => False end ->
  leg_exec e op = Some e' -> heap_evolves A (se_heap e) (se_heap e').
Proof.
  destruct op as [| | | | | | | | | | | | | | | | | | | | | | | |p|p|p now|p ok|p now err]; try done; intros _; cbn [leg_exec].
  all: unfold take_send, take_rescue, writeAttempt, write_return, write_commit;
    destruct (se_heap e !! p) as [l|] eqn:Hl; [|done]; cbn [mbind option_bind].
  - destruct (sl_hand l) eqn:Hh; [|done]. destruct (sl_send l) as [|a send] eqn:Hs; [done|]. intros [= <-].
    apply (put_evolves _ _ _ _ l); [done..|]. apply (taken_evolves A l send (sl_rescue l) [a] (sl_writer l)).
    unfold queued. rewrite Hs, Hh. set_solver.
  - destruct (sl_rescue l) as [|a rescue] eqn:Hs; [done|]. destruct (_ || _); [done|]. intros [= <-].
    apply (put_evolves _ _ _ _ l); [done..|]. apply (taken_evolves A l (sl_send l) rescue (a :: sl_hand l) (sl_writer l)).
    unfold queued. rewrite Hs. set_solver.
  - destruct (sl_hand l) as [|a hand] eqn:Hh; [done|]. case_bool_decide; [done|].
    destruct (AttemptCurrent _ _ _ _); intros [= <-]; (apply (put_evolves _ _ _ _ l); [done..|]).
    + apply (taken_evolves A l (sl_send l) (sl_rescue l) (sl_hand l) WriterWriting). done.
    + apply (taken_evolves A l (sl_send l) (sl_rescue l) hand (sl_writer l)). unfold queued. rewrite Hh. set_solver.
  - case_bool_decide; [done|]. intros [= <-]. apply (put_evolves _ _ _ _ l); [done..|].
    apply (taken_evolves A l (sl_send l) (sl_rescue l) (sl_hand l) (WriterWrote ok)). done.
  - destruct (sl_writer l) as [| |[]]; [done..| |]; (destruct (sl_hand l) as [|a hand] eqn:Hh; [done|]; intros [= <-]).
    all: assert (heap_evolves A (se_heap e) (alter (fun l => l <| sl_writer := WriterIdle |> <| sl_hand := hand |>) p (se_heap e)))
      as HU by (refine (put_evolves _ e e _ l _ Hl eq_refl _);
        apply (taken_evolves A l (sl_send l) (sl_rescue l) hand WriterIdle); unfold queued; rewrite Hh; set_solver).
    + exact HU.
    + eapply heap_evolves_trans; [exact HU| |].
      { match goal with |- context [handleLegFailure ?x p err] => exact (fail_heap_evolves A x p err) end. }
      intros q m Hq Hn. exfalso. destruct (decide (p = q)) as [<-|Hne]; [congruence|].
      rewrite lookup_alter_ne in Hq by done. congruence.
Qed.

Lemma attach_heap e id auth prior clock :
  let e' := (attachLeg e id auth prior clock).2 in
  (se_heap e' = se_heap e \/ exists l, se_heap e' = <[se_fresh e := l]> (se_heap e) /\ attempts l = []) /\
  se_txLedger e' = se_txLedger e /\ se_done e' = se_done e /\ fixed e' = fixed e.
Proof.
  assert (forall e1 l, se_heap e1 = se_heap e -> se_fresh e1 = se_fresh e -> se_txLedger e1 = se_txLedger e ->
    se_done e1 = se_done e -> fixed e1 = fixed e -> attempts l = [] -> let e' := (attach_install e1 l).2 in
    (se_heap e' = se_heap e \/ exists m, se_heap e' = <[se_fresh e := m]> (se_heap e) /\ attempts m = []) /\
    se_txLedger e' = se_txLedger e /\ se_done e' = se_done e /\ fixed e' = fixed e) as HA.
  { intros e1 l E1 E2 E3 E4 E5 HL. cbn. rewrite E1, E2, E3, E4. split_and!; try done. right. eauto. }
  cbv zeta. unfold attachLeg. destruct (se_configError e); [by auto|]. case_bool_decide; [by auto|].
  destruct (se_finalizing e || se_done e); [by auto|].
  destruct (se_legs e !! id) eqn:El; [by destruct (se_retiring e !! id); auto|].
  destruct (se_retiring e !! id); [by auto|]. case_bool_decide; [by auto|].
  destruct auth as [auth|]; [|by apply HA].
  destruct (_ && _); [by auto|].
  assert (exists r, (if PathRTTEnabled auth then attach_path e id (default 0 (slice_get (se_legGeneration e) id) + 1) auth clock
     else Ok (zero_binding, zero_identity, e)) = r /\ match r with Ok (b, i, e1) =>
       se_heap e1 = se_heap e /\ se_fresh e1 = se_fresh e /\ se_txLedger e1 = se_txLedger e /\ se_done e1 = se_done e /\
       fixed e1 = fixed e | Err _ => True end) as (r & -> & Hr).
  { eexists. split; [reflexivity|]. destruct (PathRTTEnabled auth); [|done].
    destruct (attach_path _ _ _ _ _) as [[[b i] e1]|] eqn:E; [|done].
    revert E. unfold attach_path. repeat (case_match; try done). by intros [= <- <- <-]. }
  destruct r as [[[b i] e1]|err]; [|by auto]. destruct Hr as (R1 & R2 & R3 & R4 & R5).
  destruct (CoordinatedDrainEnabled auth); [|by apply HA].
  destruct (attach_drain e1 auth) as [e2|err] eqn:Ed; [|by auto].
  revert Ed. unfold attach_drain. repeat (case_match; try done). intros [= <-]. by apply HA.
Qed.

Lemma attach_heap_evolves n A e id auth prior clock :
  engine_inv n e -> heap_evolves A (se_heap e) (se_heap (attachLeg e id auth prior clock).2).
Proof.
  intros HI. destruct (attach_heap e id auth prior clock) as ([->|(l & -> & Hl)] & _); [apply heap_evolves_refl|].
  apply heap_evolves_new; [|done]. destruct (se_heap e !! se_fresh e) eqn:E; [|done].
  pose proof (lp_fresh _ _ _ (ei_placed _ _ HI _ _ E)). lia.
Qed.

Lemma failWith_heap e err app : se_heap (failWithAppClose e err app) = se_heap e.
Proof. unfold failWithAppClose. cbn. by destruct (se_done e). Qed.

Lemma same_heap_evolves A e e' : se_heap e' = se_heap e -> heap_evolves A (se_heap e) (se_heap e').
Proof. intros ->. apply heap_evolves_refl. Qed.

Lemma leg_heap_evolves n e op e' : engine_inv n e -> leg_exec e op = Some e' ->
  heap_evolves (allows op) (se_heap e) (se_heap e').
Proof.
  intros HI. pose proof (same_heap_evolves (allows op) e) as HS.
  destruct op as [id auth prior clock| |p err|k|k|p|p|k|err| | |err| | | |ok| |op|op|p r retry|p r owner|p k now|p k c|p k
                 |p|p|p now|p ok|p now err]; cbn [leg_exec].
  - intros [= <-]. by eapply attach_heap_evolves.
  - case_bool_decide; [|done]. intros [= <-]. by apply HS.
  - destruct (se_heap e !! p); [|done]. intros [= <-]. apply fail_heap_evolves.
  - destruct (se_failing e !! k) as [f|]; [|done]. simpl. case_bool_decide; [|done]. intros [= <-].
    apply HS. unfold failure_invalidate. by case_match.
  - destruct (se_failing e !! k) as [f|]; [|done]. simpl. case_bool_decide; [|done]. intros [= <-].
    apply HS. unfold failure_notify. by repeat case_match.
  - destruct (se_heap e !! p) as [l|] eqn:Hl; [|done]. simpl. case_bool_decide; [|done]. intros [= <-].
    apply (put_evolves _ _ _ _ l); [done..|]. same_attempts.
  - destruct (se_heap e !! p) as [l|] eqn:Hl; [|done]. simpl. destruct (_ && negb _); [|done]. intros [= <-].
    unfold retire_leg. rewrite Hl. apply (put_evolves _ _ _ _ l); [done|by case_match|]. same_attempts.
  - destruct (se_timers e !! k); [|done]. simpl. intros [= <-]. apply HS. unfold failIfNoLegRecovers, fail.
    case_match; [by rewrite failWith_heap|done].
  - intros [= <-]. apply HS, failWith_heap.
  - intros [= <-]. apply HS. unfold Close, fail. by rewrite failWith_heap.
  - destruct (se_shutdown e) as [|p rest]; [done|]. destruct (se_closeErr e) as [err|]; [|done]. intros [= <-].
    refine (heap_evolves_alter _ (se_heap e) p _ _). intros. apply close_evolves.
  - intros [= <-]. apply HS. unfold StartGracefulClose. cbn. by case_match.
  - intros [= <-]. by apply HS.
  - destruct (se_closer e) as [[err []]|]; [|done..]. case_match; [|done]. intros [= <-].
    apply HS. unfold closer_drained, beginFinalizing. by destruct (se_done e).
  - destruct (se_closer e) as [[err []]|]; [|done..]. intros [= <-]. apply HS. exact (failWith_heap e _ true).
  - destruct (se_closer e) as [[err []]|]; [done| |done]. intros [= <-]. apply HS.
    unfold closer_sent, finishGracefulClose, fail. destruct ok; [case_bool_decide|]; cbn; apply failWith_heap.
  - intros [= <-]. by apply HS.
  - destruct (tx_outside e op); [|done]. intros (tx & _ & [= <-])%bind_Some. by apply HS.
  - destruct (rtt_outside op); [|done]. intros [= <-]. by apply HS.
  - intros [= <-]. unfold tryQueue. destruct (se_heap e !! p) as [l|]; [|by apply HS]. destruct (open_leg l); [|by apply HS].
    eapply heap_evolves_mono; [|apply queue_heap_evolves]. by intros q <-.
  - intros [= <-]. unfold tryQueueRescueOwnedAttempt. destruct (se_heap e !! p) as [l|]; [|by apply HS].
    destruct (open_leg l); [|by apply HS].
    eapply heap_evolves_mono; [|apply queue_heap_evolves]. by intros q <-.
  - intros [= <-]. apply claim_heap_evolves.
  - apply select_heap_evolves.
  - intros [= <-]. unfold dispatch_finish. destruct (se_heap e !! p) as [l|] eqn:Hl; [|by apply HS]. simpl.
    destruct (sl_dispatch l !! k) as [[[] a owner]|]; try by apply HS. simpl. apply drop_evolves. by case_match.
  - by apply (writer_heap_evolves _ e (lo_take_send p)).
  - by apply (writer_heap_evolves _ e (lo_take_rescue p)).
  - by apply (writer_heap_evolves _ e (lo_write p now)).
  - by apply (writer_heap_evolves _ e (lo_wrote p ok)).
  - by apply (writer_heap_evolves _ e (lo_commit p now err)).
Qed.

Definition keeps_rest (e e' : StreamEngine) : Prop :=
  ledger_evolves (se_txLedger e) (se_txLedger e') /\ tracked (se_txLedger e') /\
  (se_done e = true -> se_done e' = true) /\ fixed e' = fixed e.

Lemma keeps_same e e' : tracked (se_txLedger e) -> se_txLedger e' = se_txLedger e ->
  (se_done e = true -> se_done e' = true) -> fixed e' = fixed e -> keeps_rest e e'.
Proof. intros HT E HD HC. unfold keeps_rest. rewrite E. split_and!; [apply ledger_evolves_refl|done..]. Qed.
Lemma keeps_trans e1 e2 e3 : keeps_rest e1 e2 -> keeps_rest e2 e3 -> keeps_rest e1 e3.
Proof.
  intros (L & _ & D & C) (L' & T' & D' & C'). split_and!; [by eapply ledger_evolves_trans|done|auto|congruence].
Qed.

Lemma data_keeps n new e e' : engine_inv n e -> n < max_u64 -> tracked (se_txLedger e) ->
  data_step new e e' -> keeps_rest e e'.
Proof.
  intros HI Hn HT (h & tx & a & -> & _ & HC).
  destruct (call_evolves _ _ _ (ei_ledger _ _ HI) HT ltac:(pose proof (ei_next _ _ HI); lia) HC) as [HE HT'].
  split_and!; done.
Qed.

Lemma failWith_keeps e err app : tracked (se_txLedger e) -> keeps_rest e (failWithAppClose e err app).
Proof. intros HT. unfold failWithAppClose. cbn. destruct (se_done e) eqn:E; apply keeps_same; cbn; auto; congruence. Qed.

Lemma fail_keeps e p err : tracked (se_txLedger e) -> keeps_rest e (handleLegFailure e p err).
Proof.
  intros HT. unfold handleLegFailure. destruct (se_heap e !! p) as [l|]; [|by apply keeps_same].
  destruct (sl_pathRTTEnabled l); case_bool_decide; by apply keeps_same.
Qed.

Lemma leg_keeps n e op e' : engine_inv n e -> n < max_u64 -> lop_wf op -> tracked (se_txLedger e) ->
  leg_exec e op = Some e' -> keeps_rest e e'.
Proof.
  intros HI Hn Hwf HT. pose proof (fun x => keeps_same e x HT) as HS.
  pose proof (fun new x => data_keeps n new e x HI Hn HT) as HD.
  destruct op as [id auth prior clock| |p err|k|k|p|p|k|err| | |err| | | |ok| |op|op|p r retry|p r owner|p k now|p k c|p k
                 |p|p|p now|p ok|p now err]; cbn [leg_exec].
  - intros [= <-]. destruct (attach_heap e id auth prior clock) as (_ & E1 & E2 & E3). apply HS; congruence.
  - case_bool_decide; [|done]. intros [= <-]. by apply HS.
  - destruct (se_heap e !! p); [|done]. intros [= <-]. by apply fail_keeps.
  - destruct (se_failing e !! k) as [f|]; [|done]. simpl. case_bool_decide; [|done]. intros [= <-].
    unfold failure_invalidate. destruct (se_heap _ !! fl_leg f) as [l|]; [|by apply HS].
    pose proof (InvalidateLeg_quiet _ (sl_id l) (ei_ledger _ _ HI)) as HQ.
    split_and!; [by apply quiet_evolves|by eapply quiet_tracked|done|done].
  - destruct (se_failing e !! k) as [f|]; [|done]. simpl. case_bool_decide; [|done]. intros [= <-].
    unfold failure_notify. repeat case_match; by apply HS.
  - destruct (se_heap e !! p) as [l|]; [|done]. simpl. case_bool_decide; [|done]. intros [= <-]. by apply HS.
  - destruct (se_heap e !! p) as [l|] eqn:Hl; [|done]. simpl. destruct (_ && negb _); [|done]. intros [= <-].
    unfold retire_leg. rewrite Hl. case_match; by apply HS.
  - destruct (se_timers e !! k); [|done]. simpl. intros [= <-]. unfold failIfNoLegRecovers, fail.
    case_match; [|by apply HS]. eapply keeps_trans; [|by apply failWith_keeps]. by apply HS.
  - intros [= <-]. by apply failWith_keeps.
  - intros [= <-]. unfold Close, fail. eapply keeps_trans; [|by apply failWith_keeps]. by apply HS.
  - destruct (se_shutdown e) as [|p rest]; [done|]. destruct (se_closeErr e) as [err|]; [|done]. intros [= <-]. by apply HS.
  - intros [= <-]. unfold StartGracefulClose. cbn. case_match; by apply HS.
  - intros [= <-]. by apply HS.
  - destruct (se_closer e) as [[err []]|]; [|done..]. case_match; [|done]. intros [= <-].
    unfold closer_drained, beginFinalizing. destruct (se_done e) eqn:?; apply HS; first [done|cbn; congruence].
  - destruct (se_closer e) as [[err []]|]; [|done..]. intros [= <-].
    eapply keeps_trans; [by apply (failWith_keeps e errDrainStalled true)|]. apply keeps_same; try done. by apply failWith_keeps.
  - destruct (se_closer e) as [[err []]|]; [done| |done]. intros [= <-]. unfold closer_sent, finishGracefulClose, fail.
    destruct ok; [case_bool_decide|]; (eapply keeps_trans; [by apply (failWith_keeps e)|]; apply keeps_same; try done; by apply failWith_keeps).
  - intros [= <-]. by apply HS.
  - destruct (tx_outside e op) eqn:Ho; [|done]. intros (tx & Htx & [= <-])%bind_Some.
    apply (HD true), data_intro; [by destruct e|done|]. apply (tx_call_op _ op); [done..|by destruct op].
  - destruct (rtt_outside op); [|done]. intros [= <-]. by apply HS.
  - intros [= <-]. eapply HD, tryQueue_data.
  - intros [= <-]. eapply HD, tryQueueRescue_data.
  - intros [= <-]. eapply HD, dispatch_claim_data.
  - intros E. by eapply HD, dispatch_select_data.
  - intros [= <-]. eapply HD, dispatch_finish_data.
  - intros E. by eapply HD, take_send_data.
  - intros E. by eapply HD, take_rescue_data.
  - intros E. by eapply HD, writeAttempt_data.
  - intros E. by eapply HD, write_return_data.
  - intros E. destruct (write_commit_data _ _ _ _ _ E) as (e1 & H1 & [->| ->]); [by eapply HD|].
    eapply keeps_trans; [by eapply HD|]. apply fail_keeps. by eapply HD.
Qed.

Lemma leg_evolution n e op e' : engine_inv n e -> n < max_u64 -> lop_wf op -> tracked (se_txLedger e) ->
  leg_exec e op = Some e' -> evolves (allows op) e e' /\ engine_inv (n + 1) e' /\ tracked (se_txLedger e').
Proof.
  intros HI Hn Hwf HT E. destruct (leg_keeps _ _ _ _ HI Hn Hwf HT E) as (HL & HT' & HD & HC).
  split_and!; [|by eapply step_inv|done]. constructor; [by eapply leg_heap_evolves|done..].
Qed.

(** ** Steps of the admission controller *)

Lemma quiet_engine n e tx : engine_inv n e -> quiet (se_txLedger e) tx -> engine_inv n (e <| se_txLedger := tx |>).
Proof.
  intros HI [Q1 Q2 Q3 Q4 Q5 Q6]. constructor; cbn; rewrite ?Q2; try apply HI; try done.
  - intros p l Hl. destruct (ei_placed _ _ HI _ _ Hl). by constructor.
  - intros err Hc. destruct (ei_closer _ _ HI _ Hc) as (? & ? & ?). unfold settled in *. by rewrite Q2, Q3.
  - intros Hd Ha. destruct (ei_eof _ _ HI Hd Ha) as (? & ? & ?). unfold settled in *. by rewrite Q2, Q3.
Qed.

(** A step that touches the ledger only, and there neither the numbers nor the payloads. *)
Definition hushed (e e' : StreamEngine) : Prop :=
  exists tx, e' = e <| se_txLedger := tx |> /\ quiet (se_txLedger e) tx.

Lemma hushed_refl n e : engine_inv n e -> hushed e e.
Proof. intros HI. exists (se_txLedger e). split; [by destruct e|apply quiet_refl, HI]. Qed.
Lemma hushed_trans e1 e2 e3 : hushed e1 e2 -> hushed e2 e3 -> hushed e1 e3.
Proof. intros (t & -> & Q) (t' & -> & Q'). exists t'. split; [done|by eapply quiet_trans]. Qed.

Lemma hushed_evolves n A e e' : engine_inv n e -> tracked (se_txLedger e) -> hushed e e' ->
  evolves A e e' /\ engine_inv n e' /\ tracked (se_txLedger e').
Proof.
  intros HI HT (tx & -> & HQ). split_and!; [|by apply quiet_engine|by eapply quiet_tracked].
  constructor; try done; [apply heap_evolves_refl|by apply quiet_evolves].
Qed.

Lemma stamp_hushed n p t w : engine_inv n (ae_engine w) -> hushed (ae_engine w) (ae_engine (stamp p t w)).
Proof.
  intros HI. pose proof (ei_ledger _ _ HI) as HL. unfold stamp, upd_ledger. cbn. eexists. split; [reflexivity|].
  destruct (lg_heap _ !! p) as [r|] eqn:Hr; [|by apply quiet_refl].
  eapply (heap_map_quiet _ _ (fun q x => if bool_decide (p = q) then x <| tr_recoveryProbeWriteStartedAt := t |> else x)); try done.
  - intros q x. by case_bool_decide.
  - intros q. cbn. destruct (decide (p = q)) as [<-|Hne].
    + by rewrite lookup_insert_eq, Hr, bool_decide_eq_true_2.
    + rewrite lookup_insert_ne, bool_decide_eq_false_2 by done. by destruct (lg_heap _ !! q).
Qed.

Definition admission_allows (op : admission_op) (r : ptr) : Prop :=
  match op with mop_leg op _ => allows op r | _ => False end.
Definition admission_wf (op : admission_op) : Prop :=
  match op with mop_leg op _ => lop_wf op | _ => True end.

Lemma evolves_mono (A B : ptr -> Prop) e e' : (forall r, A r -> B r) -> evolves A e e' -> evolves B e e'.
Proof. intros HAB [H1 H2 H3 H4]. constructor; try done. by eapply heap_evolves_mono. Qed.

Lemma leg_step_evolution n op now w w' : engine_inv n (ae_engine w) -> n < max_u64 -> lop_wf op ->
  tracked (ledger w) -> leg_step op now w = Some w' ->
  evolves (allows op) (ae_engine w) (ae_engine w') /\ engine_inv (n + 1) (ae_engine w') /\ tracked (ledger w').
Proof.
  intros HI Hn Hwf HT E. assert (leg_exec (ae_engine w) op = Some (ae_engine w')) as HE.
  { destruct op; cbn [leg_step] in E; try (by apply bind_Some in E as (e & -> & [= <-])).
    destruct (attachLeg _ _ _ _ _) as [out e] eqn:EA. cbn [leg_exec]. rewrite EA. revert E. intros [= <-].
    destruct out; try done. unfold admissionRejoined. by case_match. }
  by eapply leg_evolution.
Qed.

Section Evolution.
  Context `{FloatConversion}.

Lemma admission_evolution n op w w' : engine_inv n (ae_engine w) -> n < max_u64 -> admission_wf op ->
  tracked (ledger w) -> admission_exec w op = Some w' ->
  evolves (admission_allows op) (ae_engine w) (ae_engine w') /\ engine_inv (n + 1) (ae_engine w') /\ tracked (ledger w').
Proof.
  intros HI Hn Hwf HT E.
  assert (forall x, hushed (ae_engine w) (ae_engine x) -> w' = x ->
    evolves (admission_allows op) (ae_engine w) (ae_engine w') /\ engine_inv (n + 1) (ae_engine w') /\ tracked (ledger w')) as HH.
  { intros x Hx ->. destruct (hushed_evolves n (admission_allows op) _ _ HI HT Hx) as (A & B & C).
    split_and!; [done|eapply inv_mono; [done|lia]|done]. }
  assert (forall x, ae_engine x = ae_engine w -> w' = x ->
    evolves (admission_allows op) (ae_engine w) (ae_engine w') /\ engine_inv (n + 1) (ae_engine w') /\ tracked (ledger w')) as HS.
  { intros x Hx. apply HH. rewrite Hx. by eapply hushed_refl. }
  assert (forall x p t, ae_engine x = ae_engine w -> hushed (ae_engine w) (ae_engine (stamp p t x))) as HP.
  { intros x p t Hx. rewrite <- Hx. eapply stamp_hushed. by rewrite Hx. }
  pose proof (hushed_refl _ _ HI) as HR. destruct op; cbn [admission_exec] in E.
  - by eapply leg_step_evolution.
  - destruct (validAdmissionLeg w id); injection E as <-; [|by apply (HS w)]. eapply HH; [|reflexivity].
    unfold assigned_step. destruct record as [p|]; [|done]. destruct (starts_probe w id); [|done]. by apply HP.
  - apply fmap_Some in E as ([may x] & E & ->). unfold recoveryProbeWriteStarted in E. eapply HH; [|reflexivity]. cbn [snd].
    destruct (_ || _); [by injection E as _ <-|]. apply bind_Some in E as (sq & _ & E).
    destruct (recoveryProbeWriteStartedLocked _ _ _ _) as [[m stamped] st]. injection E as _ <-.
    destruct stamped; [|done]. by apply HP.
  - injection E as <-. eapply HS; [|reflexivity]. unfold cancelPendingRecoveryProbe. by repeat case_match.
  - injection E as <-. eapply HS; [|reflexivity]. unfold expirePendingRecoveryProbe. by repeat case_match.
  - injection E as <-. eapply HS; [|reflexivity]. unfold restrictOrdinary. by repeat case_match.
  - injection E as <-. eapply HS; [|reflexivity]. unfold restrictOverdueRecoveryFrontier. by repeat case_match.
  - injection E as <-. by eapply HS, eq_refl.
  - injection E as <-. eapply HS; [|reflexivity]. unfold ack_locked. by repeat case_match.
Qed.

End Evolution.

(** ** [assignBenchmark] *)

Lemma assigned_hushed n p id record now bytes w :
  engine_inv n (ae_engine w) -> hushed (ae_engine w) (ae_engine (ordinaryAssignedRecord p id record now bytes w)).
Proof.
  intros HI. pose proof (hushed_refl _ _ HI) as HR. unfold ordinaryAssignedRecord. destruct (_ || _); [done|].
  unfold assigned_step. destruct record as [q|]; [|done]. destruct (starts_probe w id); [|done].
  by eapply (stamp_hushed n q None (set_leg id _ w)).
Qed.

Lemma commit_hushed n v r record a best g owner g' :
  engine_inv n (ag_engine g) -> 0 <= sl_id best.2 < MaxStreamLegIDCount ->
  commit v r record a best g = Some (owner, g') -> hushed (ag_engine g) (ag_engine g').
Proof.
  intros HI Hid. unfold commit. destruct (ba_admitted a); [intros [= _ <-]; by eapply hushed_refl|].
  intros (o & _ & E)%bind_Some. apply bind_Some in E as ([assigned tx] & Hx & E).
  assert (quiet (se_txLedger (ag_engine g)) tx) as HQ.
  { destruct (slowLegProtection _); [|injection Hx as <- <-; apply quiet_refl, HI].
    destruct (assignOrdinary_quiet (se_txLedger (ag_engine g)) (Some r) (sl_id best.2) (av_now v) (ei_ledger _ _ HI) Hid)
      as (ok & l' & E1 & Q & _). unfold ledger in Hx. unfold ag_engine in E1, Q. rewrite E1 in Hx. by injection Hx as <- <-. }
  assert (hushed (ag_engine g) ((ag_engine g) <| se_txLedger := tx |>)) as H1 by (by exists tx).
  destruct assigned; cbn [negb] in E; [|by injection E as _ <-].
  set (w1 := (ag_admission g) <| ae_engine ::= _ |>) in *.
  assert (engine_inv n (ae_engine w1)) as HI1 by (by apply quiet_engine).
  assert (forall w2, ae_engine w2 = ae_engine w1 -> forall w3, w3 = (let w := ordinaryAssignedRecord (av_provider v) (sl_id best.2)
      (Some r) (av_now v) (Some (payload_size record)) w2 in
      if slowLegProtection (ag_admission g) then w <| ae_engine ::= upd_ledger (fun tx =>
               setOrigin tx r (at_id 0 (se_legGeneration (ae_engine w)) (sl_id best.2))
                 (ad_since (leg_at w (sl_id best.2)))) |> else w) -> hushed (ag_engine g) (ae_engine w3)) as H3.
  { intros w2 E2 w3 ->. cbv zeta. eapply hushed_trans; [exact H1|].
    pose proof (assigned_hushed n (av_provider v) (sl_id best.2) (Some r) (av_now v) (Some (payload_size record)) w2
      ltac:(by rewrite E2)) as H2. rewrite E2 in H2. destruct (slowLegProtection _); [|exact H2].
    eapply hushed_trans; [exact H2|]. destruct H2 as (tx2 & EQ & Q2). cbn. eexists. split; [reflexivity|].
    apply setOrigin_quiet. rewrite EQ. apply Q2. }
  match type of E with context [ordinaryAssignedRecord _ _ _ _ _ ?w2] => specialize (H3 w2) end.
  specialize (H3 ltac:(unfold cancelPendingRecoveryProbe; by repeat case_match) _ eq_refl).
  destruct (bool_decide _); injection E as _ <-; exact H3.
Qed.

(** *** What is left alone until the account moves *)

Definition accounts (s : sched) : list Z * list Z * Z := (sc_service s, sc_records s, sc_initial s).

Lemma fold_accounts {A} (f : sched -> A -> sched) l s :
  (forall s x, accounts (f s x) = accounts s) -> accounts (fold_left f l s) = accounts s.
Proof. intros Hf. revert s. induction l as [|x l IH]; intros s; [done|]. cbn. by rewrite IH, Hf. Qed.

Lemma renewed_accounts v g : accounts (renewed v g) = accounts (ag_sched g).
Proof.
  assert (forall w v legs s, accounts (rebase w v legs s) = accounts s) as HR.
  { intros w v0 legs s. unfold rebase. destruct (existsb _ _); [|done].
    match goal with |- accounts (update sc_mask _ ?x) = _ => change (accounts x = accounts s) end.
    rewrite fold_accounts by done. apply fold_accounts. intros s0 x. unfold origin_step. by case_match. }
  unfold renewed. destruct (gc_capacity _).
  - rewrite fold_accounts; [by destruct (gc_epochRebase _)|]. intros s x. unfold reweigh_step. by case_match.
  - by destruct (gc_epochRebase _).
Qed.

Lemma hol_accounts cfg v sequence n best legs s : accounts (holCorrection cfg v sequence n best legs s).2 = accounts s.
Proof. unfold holCorrection. repeat case_match; done. Qed.

Lemma resolve_heap e ps p l : (p, l) ∈ resolve e ps -> se_heap e !! p = Some l.
Proof.
  intros (q & _ & E)%list_elem_of_omap. apply fmap_Some in E as (m & Hm & [= -> ->]). done.
Qed.

Lemma pick_in v s n legs best : pick v s n legs = Some best -> best ∈ legs.
Proof.
  unfold pick. intros ([b score] & E & ->)%fmap_Some. cbn. revert b score E.
  induction legs as [|x legs IH] using rev_ind; [done|]. intros b score. rewrite fold_left_app. cbn [fold_left].
  unfold pick_step at 1. intros E. apply elem_of_app.
  destruct (negb (candidate v x.2)); [left; eauto|].
  destruct (fold_left _ legs None) as [[b' score']|] eqn:EF; [|injection E as <- <-; right; by left].
  destruct (_ || _); injection E as <- <-; [right; by left|left; eauto].
Qed.

Lemma choose_owner_in v g record best s : choose_owner v g record = (Some best, s) ->
  se_heap (ag_engine g) !! best.1 = Some best.2 /\ accounts s = accounts (ag_sched g).
Proof.
  unfold choose_owner. destruct (pick _ _ _ _) as [b|] eqn:EP; [|done].
  apply pick_in in EP. destruct b as [p l]. apply resolve_heap in EP.
  destruct (_ && _).
  - match goal with |- context [let '(_, _) := ?x in _] => destruct x as [q s'] eqn:EH end.
    intros [= E <-]. apply fmap_Some in E as (m & Hm & ->). split; [done|].
    rewrite <- (renewed_accounts v g). pose proof (f_equal (fun x => accounts x.2) EH) as E2. cbn in E2. rewrite <- E2.
    apply hol_accounts.
  - intros [= <- <-]. split; [done|apply renewed_accounts].
Qed.
Lemma choose_none v g record s : choose_owner v g record = (None, s) ->
  accounts s = accounts (ag_sched g).
Proof.
  unfold choose_owner. destruct (pick _ _ _ _) as [b|] eqn:EP; [|intros [= <-]; apply renewed_accounts].
  destruct (_ && _); [|done].
  match goal with |- context [let '(_, _) := ?x in _] => destruct x as [q s'] eqn:EH end. intros [= _ <-].
  rewrite <- (renewed_accounts v g). pose proof (f_equal (fun x => accounts x.2) EH) as E2. cbn in E2. rewrite <- E2.
  apply hol_accounts.
Qed.

(** The account of a record that moves: from the leg [from], if any, to [to]. *)
Definition moves_account (n : Z) (from : option Z) (to : Z) (c c' : list Z * list Z * Z) : Prop :=
  exists s, accounts s = c /\ c' = accounts (charge n from to s).

(** How [assignBenchmark] leaves the assignment of a record that is not yet admitted. *)
Definition assign_spec (r : ptr) (g : assign_engine) (owner : option lptr) (g' : assign_engine) : Prop :=
  exists record a, lg_heap (ag_ledger g) !! r = Some record /\ ag_assignment g !! r = Some a /\
    ((ag_assignment g' = ag_assignment g /\ accounts (ag_sched g') = accounts (ag_sched g)) \/
     exists p l from, owner = Some p /\ se_heap (ag_engine g) !! p = Some l /\
       (match ba_owner a with
        | Some q => exists m, se_heap (ag_engine g) !! q = Some m /\ from = Some (sl_id m)
        | None => from = None end) /\
       ag_assignment g' = <[r := a <| ba_owner := Some p |>]> (ag_assignment g) /\
       moves_account (payload_size record) from (sl_id l) (accounts (ag_sched g)) (accounts (ag_sched g'))).

Lemma commit_spec v r record a best g owner g' :
  lg_heap (ag_ledger g) !! r = Some record -> ag_assignment g !! r = Some a -> ba_admitted a = false ->
  se_heap (ag_engine g) !! best.1 = Some best.2 ->
  commit v r record a best g = Some (owner, g') -> assign_spec r g owner g' /\ ag_cfg g' = ag_cfg g.
Proof.
  intros Hr Ha Had Hb. unfold commit. rewrite Had. intros (o & Ho & E)%bind_Some.
  apply bind_Some in E as ([assigned tx] & _ & E).
  assert (forall w, owner = Some best.1 \/ owner = None -> g' = g <| ag_admission := w |> ->
    assign_spec r g owner g' /\ ag_cfg g' = ag_cfg g) as HS.
  { intros w _ ->. split; [|done]. exists record, a. auto. }
  destruct assigned; cbn [negb] in E; [|injection E as <- <-; by eapply HS; [right|]].
  case_bool_decide as Hm; cbn [negb] in E; injection E as <- <-; [|by eapply HS; [left|]].
  split; [|done]. exists record, a. split_and!; [done..|]. right. exists best.1, best.2, (sl_id <$> o).
  split_and!; [done|done| |done|].
  - destruct (ba_owner a) as [q|]; [|by injection Ho as <-]. apply fmap_Some in Ho as (m & Hm' & ->). eauto.
  - exists (ag_sched g). done.
Qed.

Lemma assign_effect n v r g owner g' :
  engine_inv n (ag_engine g) -> (forall a, ag_assignment g !! r = Some a -> ba_admitted a = false) ->
  assignBenchmark v r g = Some (owner, g') ->
  hushed (ag_engine g) (ag_engine g') /\ assign_spec r g owner g' /\ ag_cfg g' = ag_cfg g.
Proof.
  intros HI Had. unfold assignBenchmark. intros (record & Hr & E)%bind_Some. apply bind_Some in E as (a & Ha & E).
  destruct (keeps_owner _ _ _) as [p|].
  { injection E as <- <-. split_and!; [by eapply hushed_refl| |done]. exists record, a. auto. }
  destruct (existsb _ _); [done|]. destruct (choose_owner v g record) as [[best|] s] eqn:EC.
  - apply choose_owner_in in EC as [Hb Hs]. set (g1 := g <| ag_sched := s |>) in E.
    split; [eapply (commit_hushed n _ _ _ _ _ g1); [done| |exact E]|].
    { destruct (ei_placed _ _ HI _ _ Hb) as [[? ?] _ _ _ _ _]. destruct (ei_max _ _ HI). lia. }
    destruct (commit_spec v r record a best g1 owner g' Hr Ha (Had _ Ha) Hb E) as [(rec & a' & Hr' & Ha' & HC) HG].
    split; [|exact HG]. exists rec, a'. split_and!; [done..|]. cbn [ag_sched] in HC.
    destruct HC as [[H1 H2]|(p & l & from & H1 & H2 & H3 & H4 & H5)].
    + left. split; [exact H1|]. rewrite H2. exact Hs.
    + right. exists p, l, from. split_and!; [done..|]. change (accounts (ag_sched g1)) with (accounts s) in H5.
      rewrite <- Hs. exact H5.
  - injection E as <- <-. apply choose_none in EC. split_and!; [by eapply hushed_refl| |done]. exists record, a. auto.
Qed.
