(* ===== verification/FeederSafe.v ===== *)
(** * The queues of assigned records: runs

    Who holds a record ([holders]), the invariant that ties a holder to the state of its
    record, and what a step of the machine of [Feeder] does to the holders; the invariant
    carried over runs.  The claims are in [FeederClaims]. *)

From S2P Require Import Prelude Bytes Float64 PathProtocol TxLedger TxInv TxQueue Repair RttCache Legs LegsInv.
From S2P Require Import LegPath Admission Assignment Feeder FeederInv.
From stdpp Require Import options.
#[local] Open Scope Z_scope.

(** ** Holders *)

(** A record that is new has no assignment; one that waits is not admitted; one whose
    [tryQueue] has succeeded is; after a [tryQueue] that has failed it may be either. *)
Inductive tag := New | Waiting | Sent | Refused.

Definition status (t : tag) (admitted : option bool) : Prop :=
  match t with
  | New => admitted = None
  | Waiting => admitted = Some false
  | Sent => admitted = Some true
  | Refused => is_Some admitted
  end.

Definition held_planner (pl : planner) : list (tag * ptr) :=
  match pl with
  | PlNew r _ | PlClaim r _ | PlSelect r _ | PlFinish r _ => [(New, r)]
  | PlCheck r | PlAssign r | PlAssignWait r | PlRecheck r _ | PlPush r _ | PlPushWait r _ | PlReassign r _ =>
    [(Waiting, r)]
  | PlIdle | PlQueued _ _ | PlDepth _ _ _ | PlReturn _ _ => []
  end.
Definition held_feeder (f : feeder) : list (tag * ptr) :=
  match f with
  | FdTook r | FdDepth r _ | FdStored r | FdLoop r | FdAssign r | FdTry r _ | FdClaim r _ | FdSelect r _ | FdWait r =>
    [(Waiting, r)]
  | FdFinish r _ => [(Sent, r)]
  | FdFailed r => [(Refused, r)]
  | FdIdle | FdRelease | FdExit => []
  end.
Definition held_reassigner (x : reassigner) : list (tag * ptr) :=
  match x with
  | RaTook _ r | RaStore _ r _ | RaAssign _ r | RaPush _ r _ => [(Waiting, r)]
  | RaTake _ | RaQueued _ _ | RaDepth _ _ _ => []
  end.
Definition held_queue (q : list ptr) : list (tag * ptr) := pair Waiting <$> q.

Definition held_map {A} (f : A -> list (tag * ptr)) (m : gmap Z A) : list (tag * ptr) := (map_to_list m).*2 ≫= f.

Definition tagged (s : feeder_engine) : list (tag * ptr) :=
  held_planner (fs_planner s) ++ held_map held_queue (fs_pending s) ++ held_map held_feeder (fs_feeders s)
  ++ (fs_reassigners s ≫= held_reassigner).
(** The records that are in the hands of a goroutine or on a pending queue. *)
Definition holders (s : feeder_engine) : list ptr := (tagged s).*2.

Lemma held_map_insert {A} f (m : gmap Z A) k x : m !! k = None -> held_map f (<[k := x]> m) ≡ₚ f x ++ held_map f m.
Proof. intros Hk. unfold held_map. by rewrite map_to_list_insert. Qed.
Lemma held_map_take {A} f (m : gmap Z A) k x : m !! k = Some x -> held_map f m ≡ₚ f x ++ held_map f (delete k m).
Proof.
  intros Hk. rewrite <- (held_map_insert f (delete k m) k x) by apply lookup_delete_eq. by rewrite insert_delete_id.
Qed.
Lemma held_map_put {A} f (m : gmap Z A) k x : held_map f (<[k := x]> m) ≡ₚ f x ++ held_map f (delete k m).
Proof. rewrite <- insert_delete_eq. apply held_map_insert, lookup_delete_eq. Qed.

Lemma held_list_take {A} (f : A -> list (tag * ptr)) l k x : l !! k = Some x -> l ≫= f ≡ₚ f x ++ (delete k l ≫= f).
Proof. intros Hk. by rewrite (delete_Permutation l k x Hk) at 1. Qed.
Lemma held_list_put {A} (f : A -> list (tag * ptr)) l k x y : l !! k = Some x -> <[k := y]> l ≫= f ≡ₚ f y ++ (delete k l ≫= f).
Proof.
  intros Hk. assert (k < length l)%nat as Hlt by (by eapply lookup_lt_Some).
  rewrite (delete_Permutation (<[k := y]> l) k y) by (by apply list_lookup_insert_eq).
  assert (delete k (<[k := y]> l) = delete k l) as ->; [|done].
  by rewrite !delete_take_drop, take_insert_ge, drop_insert_lt by lia.
Qed.

Definition admitted_of (s : feeder_engine) (r : ptr) : option bool := ba_admitted <$> ag_assignment (fs_assign s) !! r.

(** The goroutine whose turn it is, and the queues, at a step. *)
Record feed_inv (n : Z) (s : feeder_engine) : Prop := {
  fi_engine : engine_inv n (fs_engine s);
  fi_tracked : tracked (fs_ledger s);
  fi_once : NoDup (holders s);
  fi_alloc : forall r, r ∈ holders s -> is_Some (lg_heap (fs_ledger s) !! r);
  fi_assigned : forall r, is_Some (admitted_of s r) -> is_Some (lg_heap (fs_ledger s) !! r);
  fi_status : forall t r, (t, r) ∈ tagged s -> status t (admitted_of s r);
  fi_sent : NoDup (fs_sent s) /\ forall r, r ∈ fs_sent s -> admitted_of s r = Some true;
  fi_kept : forall r, admitted_of s r = Some false -> outstanding s r = true -> se_done (fs_engine s) = false ->
    r ∈ holders s \/ r ∈ fs_dropped s
}.

(** The records a step may queue on a leg: one that is no longer pending, or one in the hands
    of a goroutine; with slow-leg protection, any. *)
Definition permitted (s : feeder_engine) (r : ptr) : Prop :=
  benchmarkPendingOnly s r = false \/ slowLegProtection (fs_admission s) = true \/ r ∈ holders s.

(** The step takes [out] from the holders and gives them [inn]; the rest is not concerned. *)
Record feed_step (n : Z) (s s' : feeder_engine) (out inn rest : list (tag * ptr)) : Prop := {
  ft_evolves : evolves (permitted s) (fs_engine s) (fs_engine s');
  ft_engine : engine_inv n (fs_engine s') /\ tracked (fs_ledger s');
  ft_out : tagged s ≡ₚ out ++ rest;
  ft_inn : tagged s' ≡ₚ inn ++ rest;
  ft_new : NoDup inn.*2 /\ forall r, r ∈ inn.*2 -> r ∈ out.*2 \/ lg_heap (fs_ledger s) !! r = None;
  ft_alloc : forall r, r ∈ inn.*2 -> is_Some (lg_heap (fs_ledger s') !! r);
  ft_status : forall t r, (t, r) ∈ inn -> status t (admitted_of s' r);
  ft_other : forall r, r ∉ out.*2 -> admitted_of s' r = admitted_of s r;
  ft_admitted : forall r, admitted_of s r = Some true -> admitted_of s' r = Some true;
  ft_sent : fs_sent s' = fs_sent s \/
    exists r, fs_sent s' = fs_sent s ++ [r] /\ admitted_of s r = Some false /\ admitted_of s' r = Some true;
  ft_dropped : forall r, r ∈ fs_dropped s -> r ∈ fs_dropped s';
  ft_kept : forall r, r ∈ out.*2 -> admitted_of s' r = Some false -> outstanding s' r = true ->
    se_done (fs_engine s') = false -> r ∈ inn.*2 \/ r ∈ fs_dropped s'
}.

Lemma heap_kept A e e' r : evolves A e e' -> is_Some (lg_heap (se_txLedger e) !! r) -> is_Some (lg_heap (se_txLedger e') !! r).
Proof.
  intros [_ [HL _] _ _] [x Hx]. specialize (HL r (rec_id x)). rewrite Hx in HL.
  apply fmap_is_Some with (f := rec_id). rewrite HL; eauto.
Qed.

Lemma feed_step_inv n m s s' out inn rest : feed_inv n s -> feed_step m s s' out inn rest -> feed_inv m s'.
Proof.
  intros [HI HT H1 HA HG HS [HN HM] HK] [EV [EI ET] TO TI [NN NF] AL ST OT AD SE DR KE].
  assert (forall r, r ∈ holders s <-> r ∈ out.*2 \/ r ∈ rest.*2) as IO.
  { intros r. unfold holders. by rewrite TO, fmap_app, elem_of_app. }
  assert (forall r, r ∈ holders s' <-> r ∈ inn.*2 \/ r ∈ rest.*2) as II.
  { intros r. unfold holders. by rewrite TI, fmap_app, elem_of_app. }
  assert (NoDup (out.*2 ++ rest.*2)) as HND by (unfold holders in H1; by rewrite TO, fmap_app in H1).
  apply NoDup_app in HND as (ND1 & ND2 & ND3).
  constructor; [done|done|..].
  - unfold holders. rewrite TI, fmap_app. apply NoDup_app. split_and!; [done| |done].
    intros r Hr Hr'. destruct (NF r Hr) as [Ho|Ho]; [by eapply ND2|].
    destruct (HA r ltac:(apply IO; by right)) as [x Hx]. congruence.
  - intros r [Hr|Hr]%II; [by apply AL|]. eapply heap_kept; [exact EV|]. apply HA, IO. by right.
  - intros r Hr. destruct (decide (r ∈ out.*2)) as [Ho|Ho].
    + eapply heap_kept; [exact EV|]. apply HA, IO. by left.
    + eapply heap_kept; [exact EV|]. apply HG. by rewrite <- OT.
  - intros t r. rewrite TI. intros [Hr|Hr]%elem_of_app; [by apply ST|].
    rewrite OT; [apply HS; rewrite TO; apply elem_of_app; by right|].
    intros Ho. eapply ND2; [exact Ho|]. apply list_elem_of_fmap. exists (t, r). by split.
  - destruct SE as [->|(r & -> & S1 & S2)]; [split; auto|]. split.
    + apply NoDup_app. split_and!; [done| |apply NoDup_singleton].
      intros q Hq ->%list_elem_of_singleton. apply HM in Hq. congruence.
    + intros q [Hq|Hq%list_elem_of_singleton]%elem_of_app; [auto|by subst].
  - intros r Hr Ho Hd. destruct (decide (r ∈ out.*2)) as [Hin|Hin].
    + destruct (KE r Hin Hr Ho Hd); [left; apply II; by left|by right].
    + rewrite OT in Hr by done. destruct (HK r Hr) as [Hh|Hh]; [..|by right; apply DR].
      * destruct EV as [_ [_ HR] _ _]. destruct (outstanding s r) eqn:E; [done|].
        unfold outstanding in *. rewrite HR in Ho; [done|apply HG; eauto|done].
      * destruct EV as [_ _ HD _]. destruct (se_done (fs_engine s)); [|done]. by rewrite HD in Hd.
      * left. apply II. apply IO in Hh as [Hh|Hh]; [done|by right].
Qed.

(** ** One step *)

(** The engine has taken a step, or none. *)
Definition world (n : Z) (s s' : feeder_engine) : Prop :=
  evolves (permitted s) (fs_engine s) (fs_engine s') /\ engine_inv (n + 1) (fs_engine s') /\ tracked (fs_ledger s').

Lemma evolves_refl A e : evolves A e e.
Proof. constructor; auto using heap_evolves_refl, ledger_evolves_refl. Qed.
Lemma world_same n s s' : feed_inv n s -> fs_engine s' = fs_engine s -> world n s s'.
Proof.
  intros HI E. split_and!; [rewrite E; apply evolves_refl| |].
  - rewrite E. eapply inv_mono; [apply HI|lia].
  - unfold fs_ledger, ag_ledger. fold (fs_engine s'). rewrite E. apply HI.
Qed.
Lemma world_hushed n s s' : feed_inv n s -> hushed (fs_engine s) (fs_engine s') -> world n s s'.
Proof.
  intros HI HH. destruct (hushed_evolves n (permitted s) _ _ (fi_engine _ _ HI) (fi_tracked _ _ HI) HH) as (A & B & C).
  split_and!; [done|eapply inv_mono; [exact B|lia]|done].
Qed.
Lemma world_leg n s s' op : feed_inv n s -> n < max_u64 -> lop_wf op -> (forall r, allows op r -> permitted s r) ->
  leg_exec (fs_engine s) op = Some (fs_engine s') -> world n s s'.
Proof.
  intros HI Hn Hwf HA E. destruct (leg_evolution n _ _ _ (fi_engine _ _ HI) Hn Hwf (fi_tracked _ _ HI) E) as (A & B & C).
  split_and!; [by eapply evolves_mono|done|done].
Qed.

(** The records stay admitted or not; the histories grow by a dropped record at most. *)
Definition same_records (s s' : feeder_engine) : Prop :=
  (forall r, admitted_of s' r = admitted_of s r) /\ fs_sent s' = fs_sent s /\
  forall r, r ∈ fs_dropped s -> r ∈ fs_dropped s'.

(** Nothing is taken, or one record is passed on or released. *)
Definition passed (s s' : feeder_engine) (out inn : list (tag * ptr)) : Prop :=
  inn = [] /\ (forall r, r ∈ out.*2 -> admitted_of s' r = Some false -> outstanding s' r = true ->
    se_done (fs_engine s') = false -> r ∈ fs_dropped s') \/
  exists t t' r, out = [(t, r)] /\ inn = [(t', r)] /\ (status t (admitted_of s r) -> status t' (admitted_of s r)).

Lemma step_pass n s s' out inn rest :
  feed_inv n s -> world n s s' -> tagged s ≡ₚ out ++ rest -> tagged s' ≡ₚ inn ++ rest ->
  same_records s s' -> passed s s' out inn -> feed_step (n + 1) s s' out inn rest.
Proof.
  intros HI (EV & EI & ET) TO TI (S1 & S2 & S3) HP.
  assert (forall r, r ∈ inn.*2 -> r ∈ out.*2) as Hsub.
  { destruct HP as [[-> _]|(t & t' & r & -> & -> & _)]; [by intros ? ?%not_elem_of_nil|done]. }
  assert (forall r, r ∈ out.*2 -> r ∈ holders s) as Hin.
  { intros r Hr. unfold holders. rewrite TO, fmap_app. apply elem_of_app. by left. }
  constructor; try done.
  - split; [|intros r Hr; left; auto]. destruct HP as [[-> _]|(t & t' & r & -> & -> & _)]; [apply NoDup_nil_2|apply NoDup_singleton].
  - intros r Hr. eapply heap_kept; [exact EV|]. apply HI; auto.
  - intros t0 r Hr. rewrite S1. destruct HP as [[-> _]|(t & t' & r' & -> & -> & Hs)]; [by apply not_elem_of_nil in Hr|].
    apply list_elem_of_singleton in Hr. injection Hr as -> ->. apply Hs, HI. rewrite TO. by left.
  - intros r Hr. by rewrite S1.
  - by left.
  - intros r Hr Ha Ho Hd. destruct HP as [[-> HP]|(t & t' & r' & -> & -> & _)]; [right; auto|by left].
Qed.

(** Nothing is taken. *)
Lemma step_none n s s' :
  feed_inv n s -> world n s s' -> tagged s' ≡ₚ tagged s -> same_records s s' -> feed_step (n + 1) s s' [] [] (tagged s).
Proof. intros HI HW TI HS. apply step_pass; try done. left. split; [done|]. by intros r ?%not_elem_of_nil. Qed.

Lemma same_refl s s' : ag_assignment (fs_assign s') = ag_assignment (fs_assign s) -> fs_sent s' = fs_sent s ->
  fs_dropped s' = fs_dropped s -> same_records s s'.
Proof. intros E1 E2 E3. split_and!; [intros r; unfold admitted_of; by rewrite E1|done|by rewrite E3]. Qed.

(** *** The parts of [tagged] *)

Definition but_planner (s : feeder_engine) : list (tag * ptr) :=
  held_map held_queue (fs_pending s) ++ held_map held_feeder (fs_feeders s) ++ (fs_reassigners s ≫= held_reassigner).
Definition but_feeder (id : Z) (s : feeder_engine) : list (tag * ptr) :=
  held_planner (fs_planner s) ++ held_map held_queue (fs_pending s) ++ held_map held_feeder (delete id (fs_feeders s))
  ++ (fs_reassigners s ≫= held_reassigner).
Definition but_reassigner (k : nat) (s : feeder_engine) : list (tag * ptr) :=
  held_planner (fs_planner s) ++ held_map held_queue (fs_pending s) ++ held_map held_feeder (fs_feeders s)
  ++ (delete k (fs_reassigners s) ≫= held_reassigner).

Lemma tagged_planner s : tagged s ≡ₚ held_planner (fs_planner s) ++ but_planner s.
Proof. done. Qed.
Lemma tagged_feeder id f s : fs_feeders s !! id = Some f -> tagged s ≡ₚ held_feeder f ++ but_feeder id s.
Proof. intros Hf. unfold tagged, but_feeder. rewrite (held_map_take held_feeder _ _ _ Hf). solve_Permutation. Qed.
Lemma tagged_set_feeder id f s s' : fs_feeders s' = <[id := f]> (fs_feeders s) -> fs_planner s' = fs_planner s ->
  fs_pending s' = fs_pending s -> fs_reassigners s' = fs_reassigners s -> tagged s' ≡ₚ held_feeder f ++ but_feeder id s.
Proof. intros E1 E2 E3 E4. unfold tagged, but_feeder. rewrite E1, E2, E3, E4, held_map_put. solve_Permutation. Qed.
Lemma tagged_reassigner k x s : fs_reassigners s !! k = Some x -> tagged s ≡ₚ held_reassigner x ++ but_reassigner k s.
Proof. intros Hx. unfold tagged, but_reassigner. rewrite (held_list_take held_reassigner _ _ _ Hx). solve_Permutation. Qed.
Lemma tagged_set_reassigner k x0 x s s' : fs_reassigners s !! k = Some x0 -> fs_reassigners s' = <[k := x]> (fs_reassigners s) ->
  fs_planner s' = fs_planner s -> fs_pending s' = fs_pending s -> fs_feeders s' = fs_feeders s ->
  tagged s' ≡ₚ held_reassigner x ++ but_reassigner k s.
Proof.
  intros Hx E1 E2 E3 E4. unfold tagged, but_reassigner.
  rewrite E1, E2, E3, E4, (held_list_put held_reassigner _ _ _ x Hx). solve_Permutation.
Qed.
Lemma tagged_end_reassigner k s s' : fs_reassigners s' = delete k (fs_reassigners s) ->
  fs_planner s' = fs_planner s -> fs_pending s' = fs_pending s -> fs_feeders s' = fs_feeders s -> tagged s' = but_reassigner k s.
Proof. intros E1 E2 E3 E4. unfold tagged, but_reassigner. by rewrite E1, E2, E3, E4. Qed.

Definition stepped (n : Z) (s s' : feeder_engine) : Prop := exists out inn rest, feed_step (n + 1) s s' out inn rest.

Lemma assign_world n v r s leg s' : feed_inv n s -> (Waiting, r) ∈ tagged s -> assign v r s = Some (leg, s') ->
  world n s s' /\ same_records s s' /\ (exists g, s' = s <| fs_assign := g |>) /\
  assign_spec r (fs_assign s) (snd <$> leg) (fs_assign s').
Proof.
  intros HI Hr. unfold assign. intros ([owner g] & E & E')%bind_Some.
  assert (forall a, ag_assignment (fs_assign s) !! r = Some a -> ba_admitted a = false) as Had.
  { intros a Ha. pose proof (fi_status _ _ HI _ _ Hr) as HS. unfold admitted_of in HS. rewrite Ha in HS. by injection HS. }
  destruct (assign_effect n v r (fs_assign s) owner g (fi_engine _ _ HI) Had E) as (HH & HS & _).
  assert (s' = s <| fs_assign := g |> /\ (snd <$> leg) = owner) as [-> HL].
  { destruct owner as [p|]; [|by injection E' as <- <-]. by apply bind_Some in E' as (l & _ & [= <- <-]). }
  rewrite HL. split_and!; [by apply world_hushed| |by eexists|exact HS]. destruct HS as (record & a & _ & Ha & HC).
  split_and!; [|done|done]. intros q. unfold admitted_of. change (fs_assign (s <| fs_assign := g |>)) with g in *.
  destruct HC as [[-> _]|(p & l & from & _ & _ & _ & -> & _)]; [done|].
  destruct (decide (r = q)) as [<-|Hne]; [by rewrite lookup_insert_eq, Ha|by rewrite lookup_insert_ne].
Qed.

Lemma planner_pass n s s' : feed_inv n s -> world n s s' -> fs_pending s' = fs_pending s ->
  fs_feeders s' = fs_feeders s -> fs_reassigners s' = fs_reassigners s -> same_records s s' ->
  passed s s' (held_planner (fs_planner s)) (held_planner (fs_planner s')) -> stepped n s s'.
Proof.
  intros HI HW E1 E2 E3 HS HP. exists (held_planner (fs_planner s)), (held_planner (fs_planner s')), (but_planner s).
  apply step_pass; try done. rewrite tagged_planner. unfold but_planner. by rewrite E1, E2, E3.
Qed.

Lemma passed_on s s' t r : passed s s' [(t, r)] [(t, r)].
Proof. right. exists t, t, r. auto. Qed.
Lemma passed_none s s' : passed s s' [] [].
Proof. left. split; [done|]. by intros r ?%not_elem_of_nil. Qed.
(** A record that is retired, or the end of the session, frees its holder. *)
Lemma passed_released s s' t r : (admitted_of s' r <> Some false \/ outstanding s' r = false \/ se_done (fs_engine s') = true) ->
  passed s s' [(t, r)] [].
Proof.
  intros H. left. split; [done|]. intros q Hq%list_elem_of_singleton Ha Ho Hd. cbn in Hq. subst q.
  destruct H as [?|[?|?]]; congruence.
Qed.

(** *** [begin_assign], and [tryQueue] of the transmit loop *)

Lemma begin_step n s s1 r : feed_inv n s -> world n s s1 -> held_planner (fs_planner s) = [(New, r)] ->
  fs_pending s1 = fs_pending s -> fs_feeders s1 = fs_feeders s -> fs_reassigners s1 = fs_reassigners s ->
  ag_assignment (fs_assign s1) = ag_assignment (fs_assign s) -> fs_sent s1 = fs_sent s -> fs_dropped s1 = fs_dropped s ->
  stepped n s (begin_assign r s1).
Proof.
  intros HI (EV & EI & ET) HN E1 E2 E3 E4 E5 E6. exists [(New, r)], [(Waiting, r)], (but_planner s).
  assert (tagged s ≡ₚ [(New, r)] ++ but_planner s) as TO by (by rewrite tagged_planner, HN).
  assert (status New (admitted_of s r)) as HS by (apply HI; rewrite TO; by left).
  assert (forall q, admitted_of (begin_assign r s1) q = if decide (q = r) then Some false else admitted_of s q) as HA.
  { intros q. unfold admitted_of, begin_assign. cbn. rewrite E4. destruct (decide (q = r)) as [->|Hne].
    - by rewrite lookup_insert_eq.
    - by rewrite lookup_insert_ne. }
  constructor.
  - done.
  - done.
  - done.
  - unfold tagged, begin_assign, but_planner. cbn. by rewrite E1, E2, E3.
  - split; [apply NoDup_singleton|]. by left.
  - intros q Hq. eapply heap_kept; [exact EV|]. apply HI. unfold holders. rewrite TO. apply list_elem_of_singleton in Hq as ->.
    by left.
  - intros t q Hq%list_elem_of_singleton. injection Hq as -> ->. rewrite HA. by destruct (decide (r = r)).
  - intros q Hq. rewrite HA. destruct (decide (q = r)) as [->|]; [|done]. exfalso. apply Hq. by left.
  - intros q Hq. rewrite HA. destruct (decide (q = r)) as [->|]; [|done]. rewrite HS in Hq. done.
  - left. exact E5.
  - intros q. unfold begin_assign. cbn. by rewrite E6.
  - intros q Hq _ _ _. by left.
Qed.

Lemma try_evolution n s p r te o e : feed_inv n s -> n < max_u64 -> try_step p r te (fs_engine s) = Some (o, e) ->
  world n s (set_engine e s) /\
  (forall ok, o = TryReturn ok -> ok = true -> (exists now, te = te_claim now) -> outstanding (set_engine e s) r = false).
Proof.
  intros HI Hn. unfold try_step. intros ([k d] & _ & E)%bind_Some. case_bool_decide; [done|]. destruct te as [now|c|].
  - injection E as <- <-. split; [by eapply (world_leg n s _ (lo_claim p k now))|].
    intros ok. destruct (own_dispatch _ _ _); [done|]. intros [= <-] E _. by apply negb_true_iff in E.
  - apply bind_Some in E as (e1 & E & [= <- <-]). split; [by eapply (world_leg n s _ (lo_select p k c))|]. by intros ok _ _ [? ?].
  - apply bind_Some in E as (l & _ & [= <- <-]). split; [by eapply (world_leg n s _ (lo_finish p k))|]. by intros ok _ _ [? ?].
Qed.

Lemma planner_try_step n s r p te s' : feed_inv n s -> n < max_u64 -> held_planner (fs_planner s) = [(New, r)] ->
  planner_try r p te s = Some s' -> stepped n s s'.
Proof.
  intros HI Hn HN. unfold planner_try. intros ([o e] & E & [= <-])%bind_Some.
  destruct (try_evolution _ _ _ _ _ _ _ HI Hn E) as [HW _].
  assert (same_records s (set_engine e s)) as HS by (by apply same_refl).
  destruct o as [| |[]].
  - apply planner_pass; try done. cbn. rewrite HN. apply passed_on.
  - apply planner_pass; try done. cbn. rewrite HN. apply passed_on.
  - apply planner_pass; try done. cbn. rewrite HN. apply passed_released. left.
    assert (status New (admitted_of s r)) as -> by (apply HI; rewrite tagged_planner, HN; by left). done.
  - by apply begin_step.
Qed.

Lemma world_queue n s p r : feed_inv n s -> n < max_u64 -> r ∈ holders s -> world n s (set_engine (tryQueue (fs_engine s) p r false) s).
Proof.
  intros HI Hn Hr. apply (world_leg n s _ (lo_queue p r false)); try done. intros q ->. by right; right.
Qed.
Lemma held_planner_in t r s : held_planner (fs_planner s) = [(t, r)] -> r ∈ holders s.
Proof. intros E. unfold holders. rewrite tagged_planner, E. by left. Qed.
Lemma held_feeder_in id f t r s : fs_feeders s !! id = Some f -> held_feeder f = [(t, r)] -> r ∈ holders s.
Proof. intros Hf E. unfold holders. rewrite (tagged_feeder _ _ _ Hf), E. by left. Qed.

(** The side conditions of a step that leaves the engine and the records alone. *)
Ltac unmoved_engine := first [by apply world_same|by apply same_refl|done].

Lemma take_wake_world n id s s' : feed_inv n s -> take_wake id s = Some s' ->
  world n s s' /\ same_records s s' /\ fs_pending s' = fs_pending s /\ fs_feeders s' = fs_feeders s /\
  fs_reassigners s' = fs_reassigners s /\ fs_planner s' = fs_planner s.
Proof.
  intros HI. unfold take_wake. destruct (at_id _ _ _); [|done]. intros [= <-].
  split_and!; unmoved_engine.
Qed.

Lemma push_perm id r s s' : push_pending id r s = Some s' ->
  held_map held_queue (fs_pending s') ≡ₚ (Waiting, r) :: held_map held_queue (fs_pending s) /\
  s' = s <| fs_pending := fs_pending s' |>.
Proof.
  unfold push_pending. intros (q & Hq & E)%bind_Some. case_bool_decide; [|done]. injection E as <-. cbn.
  split; [|by destruct s]. rewrite held_map_put, (held_map_take held_queue _ _ _ Hq). unfold held_queue at 1 3.
  rewrite fmap_app. cbn. solve_Permutation.
Qed.
Lemma take_perm id r s s' : take_pending id s = Some (r, s') ->
  held_map held_queue (fs_pending s) ≡ₚ (Waiting, r) :: held_map held_queue (fs_pending s') /\
  s' = s <| fs_pending := fs_pending s' |>.
Proof.
  unfold take_pending. destruct (fs_pending s !! id) as [[|x q]|] eqn:Hq; [done| |done]. intros [= <- <-]. cbn.
  split; [|by destruct s]. rewrite held_map_put, (held_map_take held_queue _ _ _ Hq). unfold held_queue at 1 3. done.
Qed.

Lemma planner_return_world n s r failed : feed_inv n s -> n < max_u64 -> world n s (planner_return r failed s).
Proof.
  intros HI Hn. unfold planner_return.
  set (e := upd_ledger (fun tx => finishLocalEnqueue tx r) (fs_engine s)).
  assert (hushed (fs_engine s) e) as HH.
  { eexists. split; [reflexivity|]. apply finishLocalEnqueue_quiet, HI. }
  destruct failed; [|by apply world_hushed].
  destruct (hushed_evolves n (fun _ => False) _ _ (fi_engine _ _ HI) (fi_tracked _ _ HI) HH) as (A & B & C).
  pose proof (fail_inv n e ErrStreamClosed true) as HF.
  assert (engine_inv n (fail e ErrStreamClosed)) as B1 by (apply HF; [done|done]).
  assert (keeps_rest (fs_engine s) ((fail e ErrStreamClosed) <| se_txStopped := true |>)) as HK.
  { eapply keeps_trans; [split_and!; [apply A|exact C|apply A|apply A]|].
    eapply keeps_trans; [by apply (failWith_keeps e ErrStreamClosed true)|]. by apply keeps_same; [apply (failWith_keeps e)|..]. }
  destruct HK as (K1 & K2 & K3 & K4). split_and!.
  - constructor; try done. apply same_heap_evolves. unfold fs_engine. cbn. 
    change (se_heap (fail e ErrStreamClosed) = se_heap (fs_engine s)). unfold fail. by rewrite failWith_heap.
  - change (engine_inv (n + 1) ((fail e ErrStreamClosed) <| se_txStopped := true |>)).
    by eapply (step_inv n (fail e ErrStreamClosed) lo_tx_stop).
  - exact K2.
Qed.

Lemma planner_step_ok n ev s s' : feed_inv n s -> n < max_u64 -> planner_step ev s = Some s' -> stepped n s s'.
Proof.
  intros HI Hn. unfold planner_step.
  assert (forall pl, passed s (set_planner pl s) (held_planner (fs_planner s)) (held_planner pl) -> stepped n s (set_planner pl s)) as HT.
  { intros pl HP. apply planner_pass; unmoved_engine. }
  assert (forall leg s1 pl r v, held_planner (fs_planner s) = [(Waiting, r)] -> held_planner pl = [(Waiting, r)] ->
    assign v r s = Some (leg, s1) ->
    stepped n s (set_planner pl (s1 <| fs_inputBlocked := true |>)) /\ stepped n s (set_planner pl s1)) as HG.
  { intros leg s1 pl r v HN HP E. destruct (assign_world n v r s leg s1) as (HW & HS & (g & ->) & _); [done| |done|].
    { rewrite tagged_planner, HN. by left. }
    split; (apply planner_pass; [done..|]; cbn; rewrite HN, HP; apply passed_on). }
  assert (forall id s1 pl r, held_planner (fs_planner s) = [(Waiting, r)] -> held_planner pl = [(Waiting, r)] ->
    take_wake id s = Some s1 -> stepped n s (set_planner pl s1)) as HK.
  { intros id s1 pl r HN HP E. destruct (take_wake_world n id s s1 HI E) as (HW & HS & E1 & E2 & E3 & E4).
    apply planner_pass; try done. cbn. rewrite HN, HP. apply passed_on. }
  destruct (fs_planner s) as [|r hint|r p|r p|r p|r|r|r|r id|r id|r id|r id|r id|r id depth|r failed] eqn:EP;
    destruct ev as [| | |v|te|choice]; try done; cbn [held_planner] in *.
  - intros [= <-]. unfold enqueue_new. assert (held_planner (fs_planner s) = [(New, r)]) as HN by (by rewrite EP).
    assert (stepped n s (begin_assign r s)) as HB by (apply begin_step; unmoved_engine).
    destruct (_ || _); [exact HB|]. destruct (hinted_leg s hint choice) as [p|]; [|exact HB].
    destruct (leg_open _ _); [|exact HB]. apply planner_pass; [done|by eapply world_queue, held_planner_in|done..|by apply same_refl|].
    rewrite HN. apply passed_on.
  - destruct te; try done. intros E. eapply planner_try_step; [done..|by rewrite EP|exact E].
  - destruct te; try done. intros E. eapply planner_try_step; [done..|by rewrite EP|exact E].
  - destruct te; try done. intros E. eapply planner_try_step; [done..|by rewrite EP|exact E].
  - destruct (outstanding s r) eqn:Ho; intros [= <-]; apply HT; [apply passed_on|apply passed_released; auto].
  - intros ([leg s1] & E & [= <-])%bind_Some.
    destruct leg as [[id p]|]; [by apply (HG _ s1 (PlRecheck r id) r v eq_refl eq_refl E)|].
    by apply (HG _ s1 (PlAssignWait r) r v eq_refl eq_refl E).
  - destruct (se_done _) eqn:Hd; [|done]. intros [= <-]. apply HT, passed_released. auto.
  - intros (s1 & E & [= <-])%bind_Some. by eapply HK.
  - destruct (outstanding s r) eqn:Ho; intros [= <-]; apply HT; [apply passed_on|apply passed_released; auto].
  - destruct (push_pending id r s) as [s1|] eqn:E.
    + intros [= <-]. apply push_perm in E as [HP ES]. exists [(Waiting, r)], [(Waiting, r)], (but_planner s).
      rewrite ES in *. apply step_pass; unmoved_engine || idtac.
      * by rewrite tagged_planner, EP.
      * unfold tagged, but_planner. cbn. cbn in HP. rewrite HP. solve_Permutation.
      * apply passed_on.
    + intros [= <-]. unfold block_input. apply planner_pass; unmoved_engine || idtac. rewrite EP. apply passed_on.
  - destruct (se_done _) eqn:Hd; [|done]. intros [= <-]. apply HT, passed_released. auto.
  - intros (s1 & E & [= <-])%bind_Some. by eapply HK.
  - intros ([leg s1] & E & [= <-])%bind_Some.
    by apply (HG _ s1 (PlRecheck r (from_option fst id leg)) r v eq_refl eq_refl E).
  - intros [= <-]. apply HT, passed_none.
  - intros [= <-]. apply planner_pass; unmoved_engine || idtac. rewrite EP. apply passed_none.
  - intros [= <-]. apply planner_pass; [done|by apply planner_return_world|done..|by apply same_refl|].
    rewrite EP. apply passed_none.
Qed.

Lemma feeder_pass n id f f' s s' : feed_inv n s -> fs_feeders s !! id = Some f -> world n s s' ->
  fs_feeders s' = <[id := f']> (fs_feeders s) -> fs_planner s' = fs_planner s -> fs_pending s' = fs_pending s ->
  fs_reassigners s' = fs_reassigners s -> same_records s s' -> passed s s' (held_feeder f) (held_feeder f') -> stepped n s s'.
Proof.
  intros HI Hf HW E1 E2 E3 E4 HS HP. exists (held_feeder f), (held_feeder f'), (but_feeder id s).
  apply step_pass; try done; [by apply tagged_feeder|by apply tagged_set_feeder].
Qed.

(** The send queue has taken the record. *)
Lemma admit_step n id r p s e : feed_inv n s -> fs_feeders s !! id = Some (FdSelect r p) -> world n s (set_engine e s) ->
  stepped n s (set_feeder id (FdFinish r p) (mark_admitted r (set_engine e s) <| fs_sent ::= fun sent => sent ++ [r] |>)).
Proof.
  intros HI Hf (EV & EI & ET). exists [(Waiting, r)], [(Sent, r)], (but_feeder id s).
  pose proof (tagged_feeder _ _ _ Hf) as TO. cbn [held_feeder] in TO.
  assert (admitted_of s r = Some false) as HS by (apply (fi_status _ _ HI Waiting); rewrite TO; by left).
  set (s' := set_feeder _ _ _).
  assert (forall q, admitted_of s' q = if decide (q = r) then Some true else admitted_of s q) as HA.
  { intros q. unfold admitted_of, s'. cbn. destruct (decide (q = r)) as [->|Hne].
    - rewrite lookup_alter_eq. unfold admitted_of in HS. by destruct (ag_assignment (fs_assign s) !! r).
    - by rewrite lookup_alter_ne. }
  constructor; try done.
  - by apply (tagged_set_feeder id (FdFinish r p)).
  - split; [apply NoDup_singleton|]. by left.
  - intros q ->%list_elem_of_singleton. eapply heap_kept; [exact EV|]. apply HI. unfold holders. rewrite TO. by left.
  - intros t q Hq%list_elem_of_singleton. injection Hq as -> ->. rewrite HA. by destruct (decide (r = r)).
  - intros q Hq. rewrite HA. destruct (decide (q = r)) as [->|]; [|done]. exfalso. apply Hq. by left.
  - intros q Hq. rewrite HA. by destruct (decide (q = r)).
  - right. exists r. split_and!; [done..|]. rewrite HA. by destruct (decide (r = r)).
  - intros q Hq _ _ _. by left.
Qed.

Lemma try_cases p r te e o e' : try_step p r te e = Some (o, e') ->
  match o with
  | TrySelect => exists now, te = te_claim now
  | TryFinish => te = te_select TakeSend
  | TryReturn true => (exists now, te = te_claim now) \/ te = te_finish
  | TryReturn false => True
  end.
Proof.
  unfold try_step. intros ([k d] & _ & E)%bind_Some. case_bool_decide; [done|]. destruct te as [now|c|].
  - injection E as <- _. destruct (own_dispatch _ _ _); [|destruct (negb _)]; eauto.
  - apply bind_Some in E as (e1 & _ & [= <- _]). by destruct c.
  - apply bind_Some in E as (l & _ & [= <- _]). destruct (negb _); auto.
Qed.

Lemma feeder_try_step n id r p te f s s' : feed_inv n s -> n < max_u64 -> fs_feeders s !! id = Some f ->
  match te with te_claim _ => f = FdClaim r p | te_select _ => f = FdSelect r p | te_finish => f = FdFinish r p end ->
  feeder_try id r p te s = Some s' -> stepped n s s'.
Proof.
  intros HI Hn Hf Hte. unfold feeder_try. intros ([o e] & E & <-%(inj Some))%bind_Some.
  destruct (try_evolution _ _ _ _ _ _ _ HI Hn E) as [HW HO]. apply try_cases in E.
  assert (same_records s (set_engine e s)) as HS by (by apply same_refl).
  destruct o as [| |[]].
  - destruct E as [now ->]. subst f. eapply (feeder_pass _ _ _ (FdSelect r p)); try done. apply passed_on.
  - subst te f. by apply admit_step.
  - destruct E as [[now ->]| ->]; subst f; (eapply (feeder_pass _ _ _ FdRelease); try done); apply passed_released.
    + right. left. eapply (HO true); eauto.
    + left. assert (status Sent (admitted_of s r)) as HR by (apply HI; rewrite (tagged_feeder _ _ _ Hf); by left).
      change (admitted_of s r <> Some false). cbn in HR. congruence.
  - eapply (feeder_pass _ _ _ (FdFailed r)); try done. right.
    destruct te; subst f; eexists _, Refused, r; (split; [reflexivity|]); split; try done; cbn; intros ->; eauto.
Qed.

Lemma feeder_step_ok n id ev s s' : feed_inv n s -> n < max_u64 -> feeder_step id ev s = Some s' -> stepped n s s'.
Proof.
  intros HI Hn. unfold feeder_step. destruct (fs_feeders s !! id) as [f|] eqn:Hf; [|done]. cbn [mbind option_bind].
  assert (forall s1 f', fs_engine s1 = fs_engine s -> fs_feeders s1 = fs_feeders s -> fs_planner s1 = fs_planner s ->
    fs_pending s1 = fs_pending s -> fs_reassigners s1 = fs_reassigners s -> same_records s s1 ->
    passed s s1 (held_feeder f) (held_feeder f') -> stepped n s (set_feeder id f' s1)) as HT.
  { intros s1 f' E1 E2 E3 E4 E5 HS HP. eapply (feeder_pass _ _ _ f'); try done; [by apply world_same|cbn; by rewrite E2]. }
  destruct f as [|r|r depth|r|r|r|r p|r p|r p|r p|r|r| |]; destruct ev as [| | |v|te|choice]; try done; cbn [held_feeder] in *.
  - intros ([r s1] & E & <-%(inj Some))%bind_Some. apply take_perm in E as [HP ES].
    exists [(Waiting, r)], [(Waiting, r)], (held_planner (fs_planner s) ++ held_map held_queue (fs_pending s1)
      ++ held_map held_feeder (delete id (fs_feeders s)) ++ (fs_reassigners s ≫= held_reassigner)).
    rewrite ES in *. cbn in HP. apply step_pass; unmoved_engine || idtac.
    + unfold tagged. rewrite HP, (held_map_take held_feeder _ _ _ Hf). cbn. solve_Permutation.
    + unfold tagged. cbn. rewrite held_map_put. cbn. solve_Permutation.
    + apply passed_on.
  - destruct (se_done _) eqn:Hd; [|done]. intros <-%(inj Some). apply HT; unmoved_engine || idtac. apply passed_none.
  - intros <-%(inj Some). apply HT; unmoved_engine || idtac. apply passed_on.
  - intros <-%(inj Some). apply HT; unmoved_engine || idtac. apply passed_on.
  - intros <-%(inj Some). apply HT; unmoved_engine || idtac. apply passed_on.
  - destruct (outstanding s r) eqn:Ho; intros <-%(inj Some); apply HT; unmoved_engine || idtac; [apply passed_on|].
    apply passed_released. auto.
  - intros ([leg s1] & E & <-%(inj Some))%bind_Some.
    destruct (assign_world n v r s leg s1) as (HW & HS & (g & ->) & _); [done| |done|].
    { rewrite (tagged_feeder _ _ _ Hf). by left. }
    eapply (feeder_pass _ _ _ (match leg with Some (_, p) => FdTry r p | None => FdFailed r end)); try done.
    destruct leg as [[i p]|]; [apply passed_on|]. right. exists Waiting, Refused, r. split_and!; try done. cbn. intros ->. eauto.
  - destruct (leg_open _ _); intros <-%(inj Some).
    + eapply (feeder_pass _ _ _ (FdClaim r p)); try done; [by eapply world_queue, held_feeder_in|apply passed_on].
    + apply HT; unmoved_engine || idtac. right. exists Waiting, Refused, r. split_and!; try done. cbn. intros ->. eauto.
  - destruct te; try done. by eapply feeder_try_step.
  - destruct te; try done. by eapply feeder_try_step.
  - destruct te; try done. by eapply feeder_try_step.
  - destruct (benchmarkPendingOnly s r) eqn:Hp; intros <-%(inj Some).
    + unfold wait_on. case_bool_decide.
      * exists [], [], (tagged s). apply step_none; unmoved_engine.
      * apply HT; unmoved_engine || idtac. right. exists Refused, Waiting, r. split_and!; try done.
        cbn. unfold benchmarkPendingOnly, admitted_of in *. destruct (ag_assignment _ !! r) as [a|]; cbn; [|by intros [? ?]].
        apply negb_true_iff in Hp. by rewrite Hp.
    + apply HT; unmoved_engine || idtac. apply passed_released. left. unfold benchmarkPendingOnly, admitted_of in *.
      destruct (ag_assignment _ !! r) as [a|]; [|done]. apply negb_false_iff in Hp. cbn. congruence.
  - destruct (se_done _) eqn:Hd; [|done]. intros <-%(inj Some). apply HT; unmoved_engine || idtac.
    apply passed_released. auto.
  - intros (s1 & E & <-%(inj Some))%bind_Some. destruct (take_wake_world n id s s1 HI E) as (HW & HS & E1 & E2 & E3 & E4).
    eapply (feeder_pass _ _ _ (FdLoop r)); try done; [cbn; by rewrite E2|apply passed_on].
  - intros <-%(inj Some). apply HT; unmoved_engine || idtac. apply passed_none.
Qed.

Lemma reassigner_pass n k x x' s s' : feed_inv n s -> fs_reassigners s !! k = Some x -> world n s s' ->
  fs_reassigners s' = <[k := x']> (fs_reassigners s) -> fs_planner s' = fs_planner s -> fs_pending s' = fs_pending s ->
  fs_feeders s' = fs_feeders s -> same_records s s' -> passed s s' (held_reassigner x) (held_reassigner x') -> stepped n s s'.
Proof.
  intros HI Hx HW E1 E2 E3 E4 HS HP. exists (held_reassigner x), (held_reassigner x'), (but_reassigner k s).
  apply step_pass; try done; [by apply tagged_reassigner|by eapply tagged_set_reassigner].
Qed.
Lemma reassigner_end n k x s s' : feed_inv n s -> fs_reassigners s !! k = Some x -> world n s s' ->
  fs_reassigners s' = delete k (fs_reassigners s) -> fs_planner s' = fs_planner s -> fs_pending s' = fs_pending s ->
  fs_feeders s' = fs_feeders s -> same_records s s' -> passed s s' (held_reassigner x) [] -> stepped n s s'.
Proof.
  intros HI Hx HW E1 E2 E3 E4 HS HP. exists (held_reassigner x), [], (but_reassigner k s).
  apply step_pass; try done; [by apply tagged_reassigner|]. cbn. by erewrite tagged_end_reassigner.
Qed.

(** The record is recorded as dropped. *)
Lemma passed_dropped s s' t r : r ∈ fs_dropped s' -> passed s s' [(t, r)] [].
Proof. intros H. left. split; [done|]. intros q Hq%list_elem_of_singleton _ _ _. cbn in Hq. by subst q. Qed.
Lemma same_dropped s s' r : ag_assignment (fs_assign s') = ag_assignment (fs_assign s) -> fs_sent s' = fs_sent s ->
  fs_dropped s' = fs_dropped s ++ [r] -> same_records s s' /\ r ∈ fs_dropped s'.
Proof.
  intros E1 E2 E3. rewrite E3. split; [|apply elem_of_app; right; by left].
  split_and!; [intros q; unfold admitted_of; by rewrite E1|done|]. rewrite E3. intros q Hq. apply elem_of_app. by left.
Qed.

Lemma reassigner_step_ok n k ev s s' : feed_inv n s -> n < max_u64 -> reassigner_step k ev s = Some s' -> stepped n s s'.
Proof.
  intros HI Hn. unfold reassigner_step. destruct (fs_reassigners s !! k) as [x|] eqn:Hx; [|done]. cbn [mbind option_bind].
  assert (forall s1 x', fs_engine s1 = fs_engine s -> fs_feeders s1 = fs_feeders s -> fs_planner s1 = fs_planner s ->
    fs_pending s1 = fs_pending s -> fs_reassigners s1 = <[k := x']> (fs_reassigners s) -> same_records s s1 ->
    passed s s1 (held_reassigner x) (held_reassigner x') -> stepped n s s1) as HT.
  { intros s1 x' E1 E2 E3 E4 E5 HS HP. eapply (reassigner_pass _ _ _ x'); try done. by apply world_same. }
  destruct x as [id|id r|id r depth|id r|id r to|id to|id to depth]; destruct ev as [| | |v|te|choice]; try done;
    cbn [held_reassigner] in *.
  - destruct (take_pending id s) as [[r s1]|] eqn:E; intros <-%(inj Some).
    + apply take_perm in E as [HP ES].
      exists [(Waiting, r)], [(Waiting, r)], (held_planner (fs_planner s) ++ held_map held_queue (fs_pending s1)
        ++ held_map held_feeder (fs_feeders s) ++ (delete k (fs_reassigners s) ≫= held_reassigner)).
      rewrite ES in *. cbn in HP. apply step_pass; unmoved_engine || idtac.
      * unfold tagged. rewrite HP, (held_list_take held_reassigner _ _ _ Hx). cbn. solve_Permutation.
      * unfold tagged. cbn. rewrite (held_list_put held_reassigner _ _ _ _ Hx). cbn. solve_Permutation.
      * apply passed_on.
    + eapply reassigner_end; unmoved_engine || idtac. apply passed_none.
  - intros <-%(inj Some). eapply (HT _ (RaStore id r (load_depth id s))); unmoved_engine || idtac. apply passed_on.
  - intros <-%(inj Some). cbn [fs_assign]. destruct (ag_assignment _ !! r) as [a|] eqn:Ea.
    + eapply (HT _ (RaAssign id r)); unmoved_engine || idtac. apply passed_on.
    + match goal with |- stepped n s ?s1 => destruct (same_dropped s s1 r) as [HS HD]; [done..|] end.
      eapply (HT _ (RaTake id)); unmoved_engine || idtac. by apply passed_dropped.
  - intros ([leg s1] & E & <-%(inj Some))%bind_Some.
    destruct (assign_world n v r s leg s1) as (HW & HS & (g & ->) & _); [done| |done|].
    { rewrite (tagged_reassigner _ _ _ Hx). by left. }
    destruct leg as [[to p]|].
    + unfold wait_on. case_bool_decide.
      * exists [], [], (tagged s). by apply step_none.
      * eapply (reassigner_pass _ _ _ (RaPush id r to)); try done. apply passed_on.
    + eapply reassigner_end; try done.
      * destruct HS as (S1 & S2 & S3). split_and!; [done..|]. intros q Hq. cbn. apply elem_of_app. by left.
      * apply passed_dropped. cbn. apply elem_of_app. right. by left.
  - intros (s1 & E & <-%(inj Some))%bind_Some. apply push_perm in E as [HP ES].
    exists [(Waiting, r)], [(Waiting, r)], (but_reassigner k s). rewrite ES in *. cbn in HP.
    apply step_pass; unmoved_engine || idtac.
    + by rewrite (tagged_reassigner _ _ _ Hx).
    + unfold tagged, but_reassigner. cbn. rewrite HP, (held_list_put held_reassigner _ _ _ _ Hx). cbn. solve_Permutation.
    + apply passed_on.
  - destruct (se_done _) eqn:Hd; [|done]. intros <-%(inj Some).
    match goal with |- stepped n s ?s1 => destruct (same_dropped s s1 r) as [HS HD]; [done..|] end.
    eapply reassigner_end; unmoved_engine || idtac. by apply passed_dropped.
  - intros E. destruct (take_wake_world n to s s' HI E) as (HW & HS & E1 & E2 & E3 & E4).
    exists [], [], (tagged s). apply step_none; try done. unfold tagged. by rewrite E1, E2, E3, E4.
  - intros <-%(inj Some). eapply (HT _ (RaDepth id to (load_depth to s))); unmoved_engine || idtac. apply passed_none.
  - intros <-%(inj Some). eapply (HT _ (RaTake id)); unmoved_engine || idtac. apply passed_none.
Qed.

(** *** The transmit loop reads; the rest of the engine *)

Lemma read_step_ok n payload now hint s s' : feed_inv n s -> n < max_u64 ->
  read_input payload now hint s = Some s' -> stepped n s s'.
Proof.
  intros HI Hn. unfold read_input. destruct (fs_planner s) eqn:EP; try done. destruct (se_txStopped _) eqn:Ht; [done|].
  destruct (add (fs_ledger s) payload now true) as [r tx] eqn:EA. intros <-%(inj Some).
  pose proof (ei_ledger _ _ (fi_engine _ _ HI)) as HL. pose proof (ei_next _ _ (fi_engine _ _ HI)) as Hx.
  assert (world n s (set_engine ((fs_engine s) <| se_txLedger := tx |>) s)) as (EV & EI & ET).
  { apply (world_leg n s _ (lo_tx (op_add payload now true))); try done. cbn [leg_exec tx_outside]. rewrite Ht. cbn [negb].
    unfold tx_step. change (se_txLedger (fs_engine s)) with (fs_ledger s). by rewrite EA. }
  destruct (tx_step_ok (op_add payload now true) (fs_ledger s) HL I ltac:(change (lg_nextSequence (se_txLedger (fs_engine s)) < max_u64); lia)) as (l' & E1 & _ & HE).
  unfold tx_step in E1. rewrite EA in E1. injection E1 as <-. destruct HE as (_ & _ & _ & _ & EH).
  assert (r = lg_fresh (fs_ledger s)) as Hr.
  { apply (f_equal fst) in EA. cbn [fst] in EA. rewrite <- EA. unfold add. cbn. unfold ensureLocked. by repeat case_match. }
  assert (lg_heap (fs_ledger s) !! r = None) as HN.
  { destruct (lg_heap (fs_ledger s) !! r) eqn:E; [|done]. pose proof (li_fresh _ HL r ltac:(eauto)) as Hf.
    change (r < lg_fresh (fs_ledger s)) in Hf. lia. }
  assert (admitted_of s r = None) as HU.
  { destruct (admitted_of s r) eqn:E; [|done]. destruct (fi_assigned _ _ HI r ltac:(eauto)). congruence. }
  exists [], [(New, r)], (tagged s). constructor; try done.
  - unfold tagged at 2. rewrite EP. done.
  - split; [apply NoDup_singleton|]. intros q ->%list_elem_of_singleton. by right.
  - intros q ->%list_elem_of_singleton. cbn. specialize (EH r). rewrite bool_decide_eq_true_2 in EH by done.
    apply fmap_is_Some with (f := rec_id). change (is_Some (rec_id <$> lg_heap tx !! r)). rewrite EH. eauto.
  - intros t q Hq%list_elem_of_singleton. injection Hq as -> ->. exact HU.
  - by left.
  - by intros q ?%not_elem_of_nil.
Qed.

(** *** A queue has a feeder only when it has been made *)

Definition queues_ok (s : feeder_engine) : Prop := forall id, fs_pending s !! id = None -> fs_feeders s !! id = None.
Definition queues_kept (s s' : feeder_engine) : Prop :=
  forall id, (fs_pending s' !! id = None -> fs_pending s !! id = None) /\
             (fs_feeders s !! id = None -> fs_feeders s' !! id = None).

Lemma holding_kept_refl s s' : fs_pending s' = fs_pending s -> fs_feeders s' = fs_feeders s -> queues_kept s s'.
Proof. intros E1 E2 id. by rewrite E1, E2. Qed.
Lemma holding_kept_trans s1 s2 s3 : queues_kept s1 s2 -> queues_kept s2 s3 -> queues_kept s1 s3.
Proof. intros A B id. destruct (A id), (B id). auto. Qed.
Lemma kept_feeder id f f' s : fs_feeders s !! id = Some f -> queues_kept s (set_feeder id f' s).
Proof.
  intros Hf j. cbn. split; [done|]. intros Hj. rewrite lookup_insert_ne; [done|congruence].
Qed.
Lemma kept_push id r s s' : push_pending id r s = Some s' -> queues_kept s s'.
Proof.
  unfold push_pending. intros (q & Hq & E)%bind_Some. case_bool_decide; [|done]. injection E as <-. intros j. cbn. split; [|done].
  destruct (decide (id = j)) as [<-|Hne]; [by rewrite lookup_insert_eq|by rewrite lookup_insert_ne].
Qed.
Lemma kept_take id r s s' : take_pending id s = Some (r, s') -> queues_kept s s'.
Proof.
  unfold take_pending. destruct (fs_pending s !! id) as [[|x q]|] eqn:Hq; [done| |done]. intros [= <- <-]. intros j. cbn.
  split; [|done]. destruct (decide (id = j)) as [<-|Hne]; [by rewrite lookup_insert_eq|by rewrite lookup_insert_ne].
Qed.
Lemma kept_assign v r s leg s' : assign v r s = Some (leg, s') ->
  fs_pending s' = fs_pending s /\ fs_feeders s' = fs_feeders s /\ fs_reassigners s' = fs_reassigners s.
Proof.
  unfold assign. intros ([owner g] & _ & E)%bind_Some. destruct owner as [p|]; [|by injection E as <- <-].
  by apply bind_Some in E as (l & _ & [= <- <-]).
Qed.
Lemma kept_wake id s s' : take_wake id s = Some s' -> fs_pending s' = fs_pending s /\ fs_feeders s' = fs_feeders s.
Proof. unfold take_wake. destruct (at_id _ _ _); [|done]. by intros [= <-]. Qed.

Lemma planner_queues ev s s' : planner_step ev s = Some s' -> queues_kept s s'.
Proof.
  assert (forall r p te, planner_try r p te s = Some s' -> queues_kept s s') as HP.
  { intros r p te. unfold planner_try. intros ([o e] & _ & [= <-])%bind_Some. destruct o as [| |[]]; by apply holding_kept_refl. }
  unfold planner_step. destruct (fs_planner s) as [|r hint|r p|r p|r p|r|r|r|r id|r id|r id|r id|r id|r id depth|r failed];
    destruct ev as [| | |v|te|choice]; try done.
  - intros [= <-]. unfold enqueue_new. destruct (_ || _); [by apply holding_kept_refl|].
    destruct (hinted_leg _ _ _); [destruct (leg_open _ _)|]; by apply holding_kept_refl.
  - destruct te; try done. by apply HP.
  - destruct te; try done. by apply HP.
  - destruct te; try done. by apply HP.
  - destruct (outstanding s r); intros [= <-]; by apply holding_kept_refl.
  - intros ([leg s1] & (E1 & E2 & _)%kept_assign & [= <-])%bind_Some. destruct leg as [[id p]|]; by apply holding_kept_refl.
  - destruct (se_done _); [|done]. intros [= <-]. by apply holding_kept_refl.
  - intros (s1 & [E1 E2]%kept_wake & [= <-])%bind_Some. by apply holding_kept_refl.
  - destruct (outstanding s r); intros [= <-]; by apply holding_kept_refl.
  - destruct (push_pending id r s) as [s1|] eqn:E; intros [= <-]; [|by apply holding_kept_refl].
    eapply holding_kept_trans; [by eapply kept_push|by apply holding_kept_refl].
  - destruct (se_done _); [|done]. intros [= <-]. by apply holding_kept_refl.
  - intros (s1 & [E1 E2]%kept_wake & [= <-])%bind_Some. by apply holding_kept_refl.
  - intros ([leg s1] & (E1 & E2 & _)%kept_assign & [= <-])%bind_Some. by apply holding_kept_refl.
  - intros [= <-]. by apply holding_kept_refl.
  - intros [= <-]. by apply holding_kept_refl.
  - intros [= <-]. by apply holding_kept_refl.
Qed.

Lemma feeder_queues id ev s s' : feeder_step id ev s = Some s' -> queues_kept s s'.
Proof.
  unfold feeder_step. destruct (fs_feeders s !! id) as [f|] eqn:Hf; [|done]. cbn [mbind option_bind].
  assert (forall s1 f', queues_kept s s1 -> fs_feeders s1 = fs_feeders s -> queues_kept s (set_feeder id f' s1)) as HF.
  { intros s1 f' HK E. eapply holding_kept_trans; [exact HK|]. eapply kept_feeder. rewrite E. exact Hf. }
  assert (forall s1 f', fs_pending s1 = fs_pending s -> fs_feeders s1 = fs_feeders s -> queues_kept s (set_feeder id f' s1)) as HS.
  { intros s1 f' E1 E2. apply HF; [by apply holding_kept_refl|done]. }
  assert (forall r p te, feeder_try id r p te s = Some s' -> queues_kept s s') as HP.
  { intros r p te. unfold feeder_try. intros ([o e] & _ & <-%(inj Some))%bind_Some. destruct o as [| |[]]; by apply HS. }
  destruct f as [|r|r depth|r|r|r|r p|r p|r p|r p|r|r| |]; destruct ev as [| | |v|te|choice]; try done.
  - intros ([r s1] & E & <-%(inj Some))%bind_Some. pose proof (kept_take _ _ _ _ E) as HK. apply take_perm in E as [_ ES].
    apply HF; [eapply holding_kept_trans; [exact HK|by apply holding_kept_refl]|by rewrite ES].
  - destruct (se_done _); [|done]. intros <-%(inj Some). by apply HS.
  - intros <-%(inj Some). by apply HS.
  - intros <-%(inj Some). by apply HS.
  - intros <-%(inj Some). by apply HS.
  - destruct (outstanding s r); intros <-%(inj Some); by apply HS.
  - intros ([leg s1] & (E1 & E2 & _)%kept_assign & <-%(inj Some))%bind_Some. by apply HS.
  - destruct (leg_open _ _); intros <-%(inj Some); by apply HS.
  - destruct te; try done. by apply HP.
  - destruct te; try done. by apply HP.
  - destruct te; try done. by apply HP.
  - destruct (benchmarkPendingOnly s r); intros <-%(inj Some); [|by apply HS].
    unfold wait_on. case_bool_decide; [by apply holding_kept_refl|by apply HS].
  - destruct (se_done _); [|done]. intros <-%(inj Some). by apply HS.
  - intros (s1 & [E1 E2]%kept_wake & <-%(inj Some))%bind_Some. by apply HS.
  - intros <-%(inj Some). by apply HS.
Qed.

Lemma reassigner_queues k ev s s' : reassigner_step k ev s = Some s' -> queues_kept s s'.
Proof.
  unfold reassigner_step. destruct (fs_reassigners s !! k) as [x|] eqn:Hx; [|done]. cbn [mbind option_bind].
  destruct x as [id|id r|id r depth|id r|id r to|id to|id to depth]; destruct ev as [| | |v|te|choice]; try done.
  - destruct (take_pending id s) as [[r s1]|] eqn:E; intros <-%(inj Some); [|by apply holding_kept_refl].
    eapply holding_kept_trans; [by eapply kept_take|by apply holding_kept_refl].
  - intros <-%(inj Some). by apply holding_kept_refl.
  - intros <-%(inj Some). cbn [fs_assign]. destruct (ag_assignment _ !! r); by apply holding_kept_refl.
  - intros ([leg s1] & (E1 & E2 & _)%kept_assign & <-%(inj Some))%bind_Some. destruct leg as [[to p]|]; [|by apply holding_kept_refl].
    unfold wait_on. case_bool_decide; by apply holding_kept_refl.
  - intros (s1 & E & <-%(inj Some))%bind_Some. eapply holding_kept_trans; [by eapply kept_push|by apply holding_kept_refl].
  - destruct (se_done _); [|done]. intros <-%(inj Some). by apply holding_kept_refl.
  - intros [E1 E2]%kept_wake. by apply holding_kept_refl.
  - intros <-%(inj Some). by apply holding_kept_refl.
  - intros <-%(inj Some). by apply holding_kept_refl.
Qed.

Section Runs.
  Context `{FloatConversion}.

Lemma exec_queues op s s' : queues_ok s -> feeder_exec s op = Some s' -> queues_ok s'.
Proof.
  intros HQ. unfold feeder_exec. destruct (fs_crashed s); [done|].
  assert (queues_kept s s' -> queues_ok s') as HK by (intros HK id Hp; destruct (HK id); auto).
  destruct op as [op|id auth prior clock now|k now| |payload now hint|ev|id ev|k ev]; intros E.
  - destruct (env_ok s op); [|done]. apply bind_Some in E as (w & _ & <-%(inj Some)). by apply HK, holding_kept_refl.
  - unfold attach in E. apply bind_Some in E as (w & _ & E). destruct (_ && _); injection E as <-; [|by apply HK, holding_kept_refl].
    intros j. cbn. destruct (decide (id = j)) as [<-|Hne]; [by rewrite lookup_insert_eq|].
    rewrite !lookup_insert_ne by done. apply HQ.
  - unfold invalidate in E. apply bind_Some in E as (f & _ & E). apply bind_Some in E as (l & _ & E).
    apply bind_Some in E as (w & _ & <-%(inj Some)). by apply HK, holding_kept_refl.
  - injection E as <-. by apply HK, holding_kept_refl.
  - unfold read_input in E. destruct (fs_planner s); try done. destruct (se_txStopped _); [done|].
    destruct (add _ _ _ _). injection E as <-. by apply HK, holding_kept_refl.
  - by eapply HK, planner_queues.
  - by eapply HK, feeder_queues.
  - by eapply HK, reassigner_queues.
Qed.

Lemma env_permitted s op r : env_ok s op = true -> admission_allows op r -> permitted s r.
Proof.
  destruct op as [op now| | | | | | | |]; try done. destruct op; try done; cbn; intros HE ->.
  - apply andb_true_iff in HE as [_ HE%negb_true_iff]. by left.
  - apply orb_true_iff in HE as [HE%negb_true_iff|HE]; [by left|by right; left].
Qed.

Lemma exec_stepped n op s s' : feed_inv n s -> queues_ok s -> n < max_u64 -> feeder_op_ok op ->
  feeder_exec s op = Some s' -> stepped n s s'.
Proof.
  intros HI HQ Hn Hwf. unfold feeder_exec. destruct (fs_crashed s); [done|].
  assert (forall w s1 A, fs_engine s1 = ae_engine w -> evolves A (fs_engine s) (ae_engine w) ->
    (forall r, A r -> permitted s r) -> engine_inv (n + 1) (ae_engine w) -> tracked (ledger w) -> world n s s1) as HW.
  { intros w s1 A E EV HA EI ET. unfold world, fs_ledger, ag_ledger. fold (fs_engine s1). rewrite E.
    split_and!; [by eapply evolves_mono|done|done]. }
  destruct op as [op|id auth prior clock now|k now| |payload now hint|ev|id ev|k ev].
  - destruct (env_ok s op) eqn:HE; [|done]. intros (w & E & <-%(inj Some))%bind_Some. exists [], [], (tagged s).
    destruct (admission_evolution n op _ _ (fi_engine _ _ HI) Hn ltac:(by destruct op) (fi_tracked _ _ HI) E) as (EV & EI & ET).
    apply step_none; [done|eapply (HW w); try done|done|by apply same_refl]. intros r. by apply env_permitted.
  - unfold attach. intros (w & E & E')%bind_Some.
    destruct (leg_step_evolution n _ now _ _ (fi_engine _ _ HI) Hn Hwf (fi_tracked _ _ HI) E) as (EV & EI & ET).
    exists [], [], (tagged s). destruct (_ && _) eqn:EC; injection E' as <-;
      (apply step_none; [done|by eapply (HW w)| |by apply same_refl]); [|done].
    apply andb_true_iff in EC as [_ EC%bool_decide_eq_true]. unfold tagged. cbn.
    by rewrite (held_map_insert held_queue), (held_map_insert held_feeder) by auto.
  - unfold invalidate. intros (f & _ & E)%bind_Some. apply bind_Some in E as (l & _ & E).
    apply bind_Some in E as (w & E & <-%(inj Some)).
    destruct (leg_step_evolution n (lo_invalidate k) now _ _ (fi_engine _ _ HI) Hn ltac:(done) (fi_tracked _ _ HI) E) as (EV & EI & ET).
    exists [], [], (tagged s). apply step_none; [done|by eapply (HW w)| |by apply same_refl].
    unfold tagged. cbn. rewrite bind_app. cbn. by rewrite app_nil_r.
  - intros <-%(inj Some). exists [], [], (tagged s). apply step_none; unmoved_engine.
  - by apply read_step_ok.
  - by apply planner_step_ok.
  - by apply feeder_step_ok.
  - by apply reassigner_step_ok.
Qed.

Lemma exec_feed_inv n op s s' : feed_inv n s -> queues_ok s -> n < max_u64 -> feeder_op_ok op ->
  feeder_exec s op = Some s' -> feed_inv (n + 1) s' /\ queues_ok s'.
Proof.
  intros HI HQ Hn Hwf E. split; [|by eapply exec_queues].
  destruct (exec_stepped n op s s' HI HQ Hn Hwf E) as (out & inn & rest & HS). by eapply feed_step_inv.
Qed.

(** What every step keeps, a run keeps. *)
Lemma run_keeps (P : feeder_engine -> Prop) ops n s s' :
  (forall n op s s', feed_inv n s -> queues_ok s -> n < max_u64 -> feeder_op_ok op -> feeder_exec s op = Some s' -> P s -> P s') ->
  feed_inv n s -> queues_ok s -> n + slen ops <= max_u64 -> Forall feeder_op_ok ops -> P s ->
  feeder_run ops s = Some s' -> feed_inv (n + slen ops) s' /\ queues_ok s' /\ P s'.
Proof.
  intros HP. revert n s. induction ops as [|op ops IH]; intros n s HI HQ Hn Hwf HS.
  - intros [= <-]. unfold slen. by rewrite Z.add_0_r.
  - apply Forall_cons in Hwf as [Hop Hwf]. cbn. intros (s1 & E & Hr)%bind_Some.
    assert (slen (op :: ops) = 1 + slen ops) as Hl by (unfold slen; cbn; lia). rewrite Hl in *. pose proof (Zle_0_nat (length ops)).
    unfold slen in *. assert (n < max_u64) as Hlt by lia. destruct (exec_feed_inv n op s s1 HI HQ Hlt Hop E) as [HI1 HQ1].
    replace (n + (1 + Z.of_nat (length ops))) with (n + 1 + Z.of_nat (length ops)) by lia.
    apply (IH (n + 1) s1); try done; [lia|by apply (HP n op s)].
Qed.

Lemma run_feed_inv ops n s s' : feed_inv n s -> queues_ok s -> n + slen ops <= max_u64 -> Forall feeder_op_ok ops ->
  feeder_run ops s = Some s' -> feed_inv (n + slen ops) s' /\ queues_ok s'.
Proof. intros HI HQ Hn Hwf E. by destruct (run_keeps (fun _ => True) ops n s s') as (? & ? & _). Qed.

End Runs.

Lemma new_feeder_inv cfg acfg gcfg rows now : feed_inv 0 (new_feeder cfg acfg gcfg rows now) /\
  queues_ok (new_feeder cfg acfg gcfg rows now).
Proof.
  split; [|done].
  assert (tagged (new_feeder cfg acfg gcfg rows now) = []) as HT.
  { unfold tagged, new_feeder, held_map. cbn. by rewrite !map_to_list_empty. }
  assert (forall r, admitted_of (new_feeder cfg acfg gcfg rows now) r = None) as HA.
  { intros r. unfold admitted_of, new_feeder. cbn. by rewrite lookup_empty. }
  constructor; unfold holders; rewrite ?HT.
  - apply NewStreamEngine_inv.
  - change (tracked (se_txLedger (NewStreamEngine cfg))). unfold NewStreamEngine.
    destruct (normalizeMaxActiveStreamLegs (cf_MaxActiveLegs cfg)). by intros p s payload.
  - apply NoDup_nil_2.
  - by intros r ?%not_elem_of_nil.
  - intros r. rewrite HA. by intros [? ?].
  - by intros t r ?%not_elem_of_nil.
  - split; [apply NoDup_nil_2|]. by intros r ?%not_elem_of_nil.
  - intros r. by rewrite HA.
Qed.
