(* ===== verification/FeederClaims.v ===== *)
(** * The queues of assigned records: the claims

    On top of the invariant of [FeederSafe]: the accounts of the legs, and records that
    nobody will ever send. *)

From S2P Require Import Prelude Bytes Float64 PathProtocol TxLedger TxInv TxQueue Repair RttCache Legs LegsInv.
From S2P Require Import LegPath Drain Admission Assignment Feeder FeederInv FeederSafe.
From stdpp Require Import options.
#[local] Open Scope Z_scope.

(** ** The accounts *)

Definition owner_of (g : assign_engine) (r : ptr) : option lptr := ag_assignment g !! r ≫= ba_owner.

(** The bytes of the records owned by the legs that [P] selects. *)
Definition charge_of (P : Z -> bool) (g : assign_engine) (r : ptr) (p : lptr) : option Z :=
  let! l := se_heap (ag_engine g) !! p in
  let! record := lg_heap (ag_ledger g) !! r in
  if P (sl_id l) then Some (payload_size record) else None.
Definition charges (P : Z -> bool) (g : assign_engine) : gmap ptr Z :=
  map_imap (fun r a => ba_owner a ≫= charge_of P g r) (ag_assignment g).

Definition owned_bytes (id : Z) (g : assign_engine) : Z := map_sum (fun n => n) (charges (Z.eqb id) g).
Definition owned_records (id : Z) (g : assign_engine) : Z := map_sum (fun _ => 1) (charges (Z.eqb id) g).
Definition assigned_bytes (g : assign_engine) : Z := map_sum (fun n => n) (charges (fun _ => true) g).

Lemma charges_lookup P g r : charges P g !! r = owner_of g r ≫= charge_of P g r.
Proof. unfold charges, owner_of. rewrite map_lookup_imap. by destruct (ag_assignment g !! r). Qed.

Lemma map_sum_at (f : Z -> Z) (m : gmap Z Z) k : map_sum f m = from_option f 0 (m !! k) + map_sum f (delete k m).
Proof.
  destruct (m !! k) as [x|] eqn:E; cbn; [rewrite (map_sum_delete _ _ _ _ E); lia|]. by rewrite delete_id.
Qed.

(** Two maps that agree outside one key. *)
Lemma map_sum_off (f : Z -> Z) (m m' : gmap Z Z) k : (forall j, j <> k -> m' !! j = m !! j) ->
  map_sum f m' = map_sum f m - from_option f 0 (m !! k) + from_option f 0 (m' !! k).
Proof.
  intros H. rewrite (map_sum_at f m k), (map_sum_at f m' k).
  assert (delete k m' = delete k m) as ->; [|lia]. apply map_eq. intros j. destruct (decide (j = k)) as [->|Hne].
  - by rewrite !lookup_delete_eq.
  - rewrite !lookup_delete_ne by done. auto.
Qed.

Record account_inv (g : assign_engine) : Prop := {
  ai_len : slen (sc_service (ag_sched g)) = se_maxActiveLegs (ag_engine g) /\
           slen (sc_records (ag_sched g)) = se_maxActiveLegs (ag_engine g);
  ai_owner : forall r p, owner_of g r = Some p -> is_Some (se_heap (ag_engine g) !! p);
  ai_service : forall id, 0 <= id < se_maxActiveLegs (ag_engine g) ->
    at_id 0 (sc_service (ag_sched g)) id = u64 (owned_bytes id g);
  ai_records : forall id, 0 <= id < se_maxActiveLegs (ag_engine g) ->
    at_id 0 (sc_records (ag_sched g)) id = u64 (owned_records id g);
  ai_initial : sc_initial (ag_sched g) = u64 (assigned_bytes g)
}.

Lemma at_put {A} (d : A) (l : list A) i x j : 0 <= i < slen l -> 0 <= j ->
  at_id d (put_id i x l) j = if bool_decide (i = j) then x else at_id d l j.
Proof.
  intros Hi Hj. unfold at_id, put_id, slice_get, slen in *. rewrite !bool_decide_eq_true_2 by lia. case_bool_decide as E.
  - subst j. by rewrite list_lookup_insert_eq by lia.
  - by rewrite list_lookup_insert_ne by lia.
Qed.
Lemma slen_put {A} i (x : A) l : slen (put_id i x l) = slen l.
Proof. unfold put_id, slen. by rewrite length_insert. Qed.

(** The engine goes on, the owners and the counters stay. *)
Lemma charge_evolves A P g g' r p : evolves A (ag_engine g) (ag_engine g') ->
  is_Some (se_heap (ag_engine g) !! p) -> is_Some (lg_heap (ag_ledger g) !! r) -> charge_of P g' r p = charge_of P g r p.
Proof.
  intros [[HK _] [HL _] _ _] [l Hl] [x Hx]. unfold charge_of. destruct (HK _ _ Hl) as (l' & Hl' & I & _).
  specialize (HL r (rec_id x)). unfold ag_ledger in *. rewrite Hx in HL.
  destruct (fmap_Some_1 _ _ _ (HL eq_refl)) as (x' & Hx' & Hid). rewrite Hl, Hl', Hx, Hx'. cbn. rewrite I.
  injection Hid as _ Hp. unfold payload_size. by rewrite Hp.
Qed.

Lemma charges_same A P g g' : evolves A (ag_engine g) (ag_engine g') ->
  (forall r, is_Some (ag_assignment g !! r) -> is_Some (lg_heap (ag_ledger g) !! r)) ->
  (forall r p, owner_of g r = Some p -> is_Some (se_heap (ag_engine g) !! p)) ->
  (forall r, owner_of g' r = owner_of g r) -> charges P g' = charges P g.
Proof.
  intros EV HA HO HE. apply map_eq. intros r. rewrite !charges_lookup, HE. destruct (owner_of g r) as [p|] eqn:E; [|done].
  cbn. eapply charge_evolves; [exact EV|by eapply HO|]. apply HA. unfold owner_of in E. apply bind_Some in E as (a & -> & _). eauto.
Qed.

Lemma account_same A g g' : account_inv g -> evolves A (ag_engine g) (ag_engine g') ->
  (forall r, is_Some (ag_assignment g !! r) -> is_Some (lg_heap (ag_ledger g) !! r)) ->
  (forall r, owner_of g' r = owner_of g r) -> accounts (ag_sched g') = accounts (ag_sched g) -> account_inv g'.
Proof.
  intros [[L1 L2] HO HS HR HN] EV HA HE HC. injection HC as C1 C2 C3.
  assert (forall P, charges P g' = charges P g) as HP by (intros P; by eapply charges_same).
  assert (se_maxActiveLegs (ag_engine g') = se_maxActiveLegs (ag_engine g)) as EM by (pose proof (ev_fixed _ _ _ EV) as E; by injection E).
  constructor; unfold owned_bytes, owned_records, assigned_bytes; rewrite ?C1, ?C2, ?C3, ?EM; try setoid_rewrite HP; try done.
  intros r p. rewrite HE. intros [l Hl]%HO. destruct (ev_heap _ _ _ EV) as [HK _]. destruct (HK _ _ Hl) as (l' & ? & _). eauto.
Qed.

Lemma assign_off P r g g' A :
  (forall q p, owner_of g q = Some p -> is_Some (se_heap (ag_engine g) !! p)) ->
  (forall q, is_Some (ag_assignment g !! q) -> is_Some (lg_heap (ag_ledger g) !! q)) ->
  evolves A (ag_engine g) (ag_engine g') ->
  (forall q, q <> r -> owner_of g' q = owner_of g q) ->
  forall j, j <> r -> charges P g' !! j = charges P g !! j.
Proof.
  intros HO HA EV HE j Hj. rewrite !charges_lookup, HE by done. destruct (owner_of g j) as [p|] eqn:E; [|done]. cbn.
  eapply charge_evolves; [exact EV|by eapply HO|]. apply HA. unfold owner_of in E. apply bind_Some in E as (a & -> & _). eauto.
Qed.

(** [d] is taken from one counter, if any, and added to another. *)
Definition moved (from : option Z) (to d : Z) (l : list Z) : list Z :=
  let l := match from with Some i => put_id i (u64 (at_id 0 l i - d)) l | None => l end in
  put_id to (u64 (at_id 0 l to + d)) l.

Lemma charge_service n from to s : sc_service (charge n from to s) = moved from to n (sc_service s).
Proof. by destruct from. Qed.
Lemma charge_records n from to s : sc_records (charge n from to s) = moved from to 1 (sc_records s).
Proof. by destruct from. Qed.

Lemma moved_at (F : Z -> Z) max from to d l id : slen l = max -> 0 <= to < max ->
  (forall i, from = Some i -> 0 <= i < max) -> (forall j, 0 <= j < max -> at_id 0 l j = u64 (F j)) -> 0 <= id < max ->
  at_id 0 (moved from to d l) id
  = u64 (F id - match from with Some i => if id =? i then d else 0 | None => 0 end + if id =? to then d else 0).
Proof.
  intros HL Ht Hf HF Hid. unfold moved. destruct from as [i|].
  - specialize (Hf i eq_refl). rewrite !at_put by (rewrite ?slen_put; lia). rewrite !HF by lia.
    repeat case_bool_decide; destruct (Z.eqb_spec id i), (Z.eqb_spec id to); try lia; subst;
      rewrite ?u64_sub_u64, ?u64_add_u64; f_equal; lia.
  - rewrite !at_put by lia. rewrite !HF by lia. case_bool_decide; destruct (Z.eqb_spec id to); try lia; subst;
      rewrite ?u64_add_u64; f_equal; lia.
Qed.

(** A record changes hands. *)
Lemma account_assign n A r g owner g' : engine_inv n (ag_engine g) -> account_inv g -> evolves A (ag_engine g) (ag_engine g') ->
  (forall q, is_Some (ag_assignment g !! q) -> is_Some (lg_heap (ag_ledger g) !! q)) ->
  assign_spec r g owner g' -> account_inv g'.
Proof.
  intros HI HC EV HA (record & a & Hr & Ha & [[E1 E2]|(p & l & from & _ & Hl & Hf & E1 & (s & Hs & E2))]).
  { eapply account_same; try done. intros q. unfold owner_of. by rewrite E1. }
  pose proof HC as [[L1 L2] HO HS HR HN].
  assert (se_maxActiveLegs (ag_engine g') = se_maxActiveLegs (ag_engine g)) as EM by (pose proof (ev_fixed _ _ _ EV) as E; by injection E).
  injection Hs as S1 S2 S3.
  pose proof (f_equal (fun c => c.1.1) E2) as C1. pose proof (f_equal (fun c => c.1.2) E2) as C2.
  pose proof (f_equal (fun c => c.2) E2) as C3. cbn [accounts fst snd] in C1, C2, C3. set (k := payload_size record) in *.
  assert (forall q, owner_of g' q = if decide (q = r) then Some p else owner_of g q) as HE.
  { intros q. unfold owner_of. rewrite E1. destruct (decide (q = r)) as [->|Hne]; [by rewrite lookup_insert_eq|by rewrite lookup_insert_ne]. }
  assert (forall P q m, se_heap (ag_engine g) !! q = Some m -> charge_of P g r q = if P (sl_id m) then Some k else None) as HQ.
  { intros P q m Hm. unfold charge_of. by rewrite Hm, Hr. }
  assert (forall P, charges P g' !! r = if P (sl_id l) then Some k else None) as HN'.
  { intros P. rewrite charges_lookup, HE. destruct (decide (r = r)); [|done]. cbn.
    rewrite (charge_evolves A P g g') by eauto. by apply HQ. }
  assert (forall P, charges P g !! r = match from with Some i => if P i then Some k else None | None => None end) as HO'.
  { intros P. rewrite charges_lookup. unfold owner_of. rewrite Ha. cbn. destruct (ba_owner a) as [q|].
    - destruct Hf as (m & Hm & ->). cbn. by apply HQ.
    - by subst from. }
  assert (forall f P, map_sum f (charges P g') = map_sum f (charges P g) - (match from with Some i => if P i then f k else 0 | None => 0 end)
     + if P (sl_id l) then f k else 0) as HM.
  { intros f P. rewrite (map_sum_off f (charges P g) (charges P g') r).
    - rewrite HN', HO'. destruct from as [i|]; [destruct (P i)|]; destruct (P (sl_id l)); done.
    - eapply assign_off; try done. intros q Hq. rewrite HE. by destruct (decide (q = r)). }
  assert (0 <= sl_id l < se_maxActiveLegs (ag_engine g)) as Rl by (by destruct (ei_placed _ _ HI _ _ Hl)).
  assert (forall i, from = Some i -> 0 <= i < se_maxActiveLegs (ag_engine g)) as Rf.
  { intros i ->. destruct (ba_owner a) as [q|]; [|done]. destruct Hf as (m & Hm & [= ->]). by destruct (ei_placed _ _ HI _ _ Hm). }
  rewrite <- S1 in L1, HS. rewrite <- S2 in L2, HR. rewrite <- S3 in HN.
  constructor; rewrite ?C1, ?C2, ?C3, ?EM.
  - unfold charge. destruct from; cbn; by rewrite !slen_put.
  - intros q p'. rewrite HE. destruct (ev_heap _ _ _ EV) as [HK _]. destruct (decide (q = r)) as [->|Hne].
    + intros [= <-]. destruct (HK _ _ Hl) as (l' & ? & _). eauto.
    + intros [m Hm]%HO. destruct (HK _ _ Hm) as (l' & ? & _). eauto.
  - intros id Hid. rewrite charge_service. unfold owned_bytes. rewrite HM.
    by apply (moved_at (fun id => owned_bytes id g) (se_maxActiveLegs (ag_engine g))).
  - intros id Hid. rewrite charge_records. unfold owned_records. rewrite HM.
    by apply (moved_at (fun id => owned_records id g) (se_maxActiveLegs (ag_engine g))).
  - unfold assigned_bytes. rewrite HM. unfold charge. destruct from as [i|]; cbn; rewrite HN; unfold assigned_bytes.
    + f_equal. lia.
    + rewrite u64_add_u64. f_equal. lia.
Qed.

(** A step leaves the owners and the counters alone, or it is one [assignBenchmark]. *)
Definition accounted (g g' : assign_engine) : Prop :=
  ((forall r, owner_of g' r = owner_of g r) /\ accounts (ag_sched g') = accounts (ag_sched g)) \/
  exists r owner, assign_spec r g owner g'.

Lemma accounted_same g g' : ag_assignment g' = ag_assignment g -> accounts (ag_sched g') = accounts (ag_sched g) -> accounted g g'.
Proof. intros E1 E2. left. split; [|done]. intros r. unfold owner_of. by rewrite E1. Qed.

Lemma accounted_begin n s s1 r : feed_inv n s -> held_planner (fs_planner s) = [(New, r)] ->
  ag_assignment (fs_assign s1) = ag_assignment (fs_assign s) -> accounts (ag_sched (fs_assign s1)) = accounts (ag_sched (fs_assign s)) ->
  accounted (fs_assign s) (fs_assign (begin_assign r s1)).
Proof.
  intros HI HN E1 E2. left. split; [|exact E2]. intros q. unfold owner_of, begin_assign. cbn. rewrite E1.
  assert (status New (admitted_of s r)) as HS by (apply HI; rewrite tagged_planner, HN; by left).
  destruct (decide (r = q)) as [<-|Hne]; [|by rewrite lookup_insert_ne]. rewrite lookup_insert_eq. cbn in *.
  unfold admitted_of in HS. by destruct (ag_assignment (fs_assign s) !! r).
Qed.

Lemma accounted_wake id s s' : take_wake id s = Some s' -> fs_assign s' = fs_assign s.
Proof. unfold take_wake. destruct (at_id _ _ _); [|done]. by intros [= <-]. Qed.
Lemma accounted_push id r s s' : push_pending id r s = Some s' -> fs_assign s' = fs_assign s.
Proof. intros [_ ->]%push_perm. done. Qed.

Lemma planner_accounted n ev s s' : feed_inv n s -> planner_step ev s = Some s' -> accounted (fs_assign s) (fs_assign s').
Proof.
  intros HI. unfold planner_step.
  assert (forall r p te, held_planner (fs_planner s) = [(New, r)] -> planner_try r p te s = Some s' ->
    accounted (fs_assign s) (fs_assign s')) as HP.
  { intros r p te HN. unfold planner_try. intros ([o e] & _ & [= <-])%bind_Some.
    destruct o as [| |[]]; [by apply accounted_same..|]. by apply (accounted_begin n s). }
  assert (forall v r leg s1, (Waiting, r) ∈ tagged s -> assign v r s = Some (leg, s1) -> accounted (fs_assign s) (fs_assign s1)) as HA.
  { intros v r leg s1 Hin E. destruct (assign_world n v r s leg s1 HI Hin E) as (_ & _ & _ & HS). right. eauto. }
  assert (forall r, held_planner (fs_planner s) = [(Waiting, r)] -> (Waiting, r) ∈ tagged s) as HW.
  { intros r HN. rewrite tagged_planner, HN. by left. }
  assert (forall s1, fs_assign s1 = fs_assign s -> accounted (fs_assign s) (fs_assign s1)) as HS by (intros s1 ->; by apply accounted_same).
  destruct (fs_planner s) as [|r hint|r p|r p|r p|r|r|r|r id|r id|r id|r id|r id|r id depth|r failed] eqn:EP;
    destruct ev as [| | |v|te|choice]; try done; cbn [held_planner] in *.
  - intros [= <-]. unfold enqueue_new. assert (held_planner (fs_planner s) = [(New, r)]) as HN by (by rewrite EP).
    assert (accounted (fs_assign s) (fs_assign (begin_assign r s))) as HB by (by apply (accounted_begin n s)).
    destruct (_ || _); [exact HB|]. destruct (hinted_leg s hint choice) as [p|]; [|exact HB].
    destruct (leg_open _ _); [|exact HB]. by apply accounted_same.
  - destruct te; try done. by apply HP.
  - destruct te; try done. by apply HP.
  - destruct te; try done. by apply HP.
  - destruct (outstanding s r); intros [= <-]; by apply HS.
  - intros ([leg s1] & E & [= <-])%bind_Some. specialize (HA v r leg s1 (HW r eq_refl) E). by destruct leg as [[id p]|].
  - destruct (se_done _); [|done]. intros [= <-]. by apply HS.
  - intros (s1 & E%accounted_wake & [= <-])%bind_Some. by apply HS.
  - destruct (outstanding s r); intros [= <-]; by apply HS.
  - destruct (push_pending id r s) as [s1|] eqn:E; intros [= <-]; apply HS; [|done]. by apply accounted_push in E.
  - destruct (se_done _); [|done]. intros [= <-]. by apply HS.
  - intros (s1 & E%accounted_wake & [= <-])%bind_Some. by apply HS.
  - intros ([leg s1] & E & [= <-])%bind_Some. exact (HA v r leg s1 (HW r eq_refl) E).
  - intros [= <-]. by apply HS.
  - intros [= <-]. by apply HS.
  - intros [= <-]. by apply accounted_same.
Qed.

Lemma feeder_accounted n id ev s s' : feed_inv n s -> feeder_step id ev s = Some s' -> accounted (fs_assign s) (fs_assign s').
Proof.
  intros HI. unfold feeder_step. destruct (fs_feeders s !! id) as [f|] eqn:Hf; [|done]. cbn [mbind option_bind].
  assert (forall s1, fs_assign s1 = fs_assign s -> accounted (fs_assign s) (fs_assign s1)) as HS by (intros s1 ->; by apply accounted_same).
  assert (forall r p te, feeder_try id r p te s = Some s' -> accounted (fs_assign s) (fs_assign s')) as HP.
  { intros r p te. unfold feeder_try. intros ([o e] & _ & <-%(inj Some))%bind_Some.
    destruct o as [| |[]]; try (by apply accounted_same). left. split; [|done]. intros q. unfold owner_of. cbn.
    destruct (decide (r = q)) as [<-|Hne]; [|by rewrite lookup_alter_ne]. rewrite lookup_alter_eq. by destruct (ag_assignment _ !! r). }
  destruct f as [|r|r depth|r|r|r|r p|r p|r p|r p|r|r| |]; destruct ev as [| | |v|te|choice]; try done.
  - intros ([r s1] & [_ ES]%take_perm & <-%(inj Some))%bind_Some. apply HS. by rewrite ES.
  - destruct (se_done _); [|done]. intros <-%(inj Some). by apply HS.
  - intros <-%(inj Some). by apply HS.
  - intros <-%(inj Some). by apply HS.
  - intros <-%(inj Some). by apply HS.
  - destruct (outstanding s r); intros <-%(inj Some); by apply HS.
  - intros ([leg s1] & E & <-%(inj Some))%bind_Some.
    destruct (assign_world n v r s leg s1 HI ltac:(rewrite (tagged_feeder _ _ _ Hf); by left) E) as (_ & _ & _ & HA). right. eauto.
  - destruct (leg_open _ _); intros <-%(inj Some); by apply accounted_same.
  - destruct te; try done. by apply HP.
  - destruct te; try done. by apply HP.
  - destruct te; try done. by apply HP.
  - destruct (benchmarkPendingOnly s r); intros <-%(inj Some); [|by apply HS]. unfold wait_on. case_bool_decide; by apply HS.
  - destruct (se_done _); [|done]. intros <-%(inj Some). by apply HS.
  - intros (s1 & E%accounted_wake & <-%(inj Some))%bind_Some. by apply HS.
  - intros <-%(inj Some). by apply HS.
Qed.

Lemma reassigner_accounted n k ev s s' : feed_inv n s -> reassigner_step k ev s = Some s' -> accounted (fs_assign s) (fs_assign s').
Proof.
  intros HI. unfold reassigner_step. destruct (fs_reassigners s !! k) as [x|] eqn:Hx; [|done]. cbn [mbind option_bind].
  assert (forall s1, fs_assign s1 = fs_assign s -> accounted (fs_assign s) (fs_assign s1)) as HS by (intros s1 ->; by apply accounted_same).
  destruct x as [id|id r|id r depth|id r|id r to|id to|id to depth]; destruct ev as [| | |v|te|choice]; try done.
  - destruct (take_pending id s) as [[r s1]|] eqn:E; intros <-%(inj Some); apply HS; [|done].
    apply take_perm in E as [_ ES]. by rewrite ES.
  - intros <-%(inj Some). by apply HS.
  - intros <-%(inj Some). cbn [fs_assign]. destruct (ag_assignment _ !! r); by apply HS.
  - intros ([leg s1] & E & <-%(inj Some))%bind_Some.
    destruct (assign_world n v r s leg s1 HI ltac:(rewrite (tagged_reassigner _ _ _ Hx); by left) E) as (_ & _ & _ & HA). right.
    destruct leg as [[to p]|]; [unfold wait_on; case_bool_decide|]; eexists _, _; exact HA.
  - intros (s1 & E & <-%(inj Some))%bind_Some. apply HS. by apply accounted_push in E.
  - destruct (se_done _); [|done]. intros <-%(inj Some). by apply HS.
  - intros E%accounted_wake. by apply HS.
  - intros <-%(inj Some). by apply HS.
  - intros <-%(inj Some). by apply accounted_same.
Qed.

Section AccountRuns.
  Context `{FloatConversion}.

Lemma exec_accounted n op s s' : feed_inv n s -> feeder_exec s op = Some s' -> accounted (fs_assign s) (fs_assign s').
Proof.
  intros HI. unfold feeder_exec. destruct (fs_crashed s); [done|].
  destruct op as [op|id auth prior clock now|k now| |payload now hint|ev|id ev|k ev]; intros E.
  - destruct (env_ok s op); [|done]. apply bind_Some in E as (w & _ & <-%(inj Some)). by apply accounted_same.
  - unfold attach in E. apply bind_Some in E as (w & _ & E). destruct (_ && _); injection E as <-; by apply accounted_same.
  - unfold invalidate in E. apply bind_Some in E as (f & _ & E). apply bind_Some in E as (l & _ & E).
    apply bind_Some in E as (w & _ & <-%(inj Some)). by apply accounted_same.
  - injection E as <-. by apply accounted_same.
  - unfold read_input in E. destruct (fs_planner s); try done. destruct (se_txStopped _); [done|].
    destruct (add _ _ _ _). injection E as <-. by apply accounted_same.
  - by eapply planner_accounted.
  - by eapply feeder_accounted.
  - by eapply reassigner_accounted.
Qed.

Lemma exec_account n op s s' : feed_inv n s -> queues_ok s -> n < max_u64 -> feeder_op_ok op ->
  account_inv (fs_assign s) -> feeder_exec s op = Some s' -> account_inv (fs_assign s').
Proof.
  intros HI HQ Hn Hwf HA E. destruct (exec_stepped n op s s' HI HQ Hn Hwf E) as (out & inn & rest & HS).
  pose proof (ft_evolves _ _ _ _ _ _ HS) as EV.
  assert (forall r, is_Some (ag_assignment (fs_assign s) !! r) -> is_Some (lg_heap (ag_ledger (fs_assign s)) !! r)) as HL.
  { intros r Hr. apply (fi_assigned _ _ HI). unfold admitted_of. by apply fmap_is_Some. }
  destruct (exec_accounted n op s s' HI E) as [[H1 H2]|(r & owner & HR)]; [by eapply account_same|].
  eapply account_assign; try done. apply HI.
Qed.

Lemma run_account ops n s s' : feed_inv n s -> queues_ok s -> n + slen ops <= max_u64 -> Forall feeder_op_ok ops ->
  account_inv (fs_assign s) -> feeder_run ops s = Some s' -> account_inv (fs_assign s').
Proof.
  intros HI HQ Hn Hwf HA E. apply (run_keeps (fun s => account_inv (fs_assign s)) ops n s s'); try done.
  intros m op s1 s2 HI1 HQ1 Hm Hop E1 HA1. by apply (exec_account m op s1).
Qed.

End AccountRuns.

Lemma new_account cfg acfg gcfg rows now : account_inv (fs_assign (new_feeder cfg acfg gcfg rows now)).
Proof.
  set (m := se_maxActiveLegs (NewStreamEngine cfg)).
  assert (0 <= m) as Hm by (pose proof (ei_max _ _ (NewStreamEngine_inv cfg)); lia).
  assert (forall P, charges P (fs_assign (new_feeder cfg acfg gcfg rows now)) = ∅) as HC by done.
  assert (forall id, 0 <= id < m -> at_id 0 (replicate (Z.to_nat m) 0) id = 0) as HZ.
  { intros id Hid. unfold at_id. apply replicate_zero_get. }
  constructor.
  - cbn. change (slen (replicate (Z.to_nat m) 0) = m /\ slen (replicate (Z.to_nat m) 0) = m).
    unfold slen. rewrite length_replicate. lia.
  - done.
  - intros id Hid. unfold owned_bytes. rewrite HC, map_sum_empty. by apply HZ.
  - intros id Hid. unfold owned_records. rewrite HC, map_sum_empty. by apply HZ.
  - unfold assigned_bytes. by rewrite HC, map_sum_empty.
Qed.

(** ** Records that nobody will send *)

(** Nobody holds the record, it counts as pending, and what attempts of it there are belong to
    closed legs. *)
Definition adrift (s : feeder_engine) (r : ptr) : Prop :=
  benchmarkPendingOnly s r = true /\ r ∉ holders s /\ is_Some (lg_heap (fs_ledger s) !! r) /\
  slowLegProtection (fs_admission s) = false /\
  forall p l, se_heap (fs_engine s) !! p = Some l -> r ∈ attempts l -> sl_closed l = true.

Lemma pendingOnly_admitted s r : benchmarkPendingOnly s r = negb (bool_decide (admitted_of s r = Some true)).
Proof.
  unfold benchmarkPendingOnly, admitted_of. destruct (ag_assignment _ !! r) as [a|]; [|done].
  change (ba_admitted <$> Some a) with (Some (ba_admitted a)). case_bool_decide as E; destruct (ba_admitted a); congruence.
Qed.

Lemma step_adrift n s s' r : feed_inv n s -> stepped n s s' -> adrift s r -> adrift s' r.
Proof.
  intros HI (out & inn & rest & [EV _ TO TI [_ NF] _ _ OT _ _ _ _]) (HP & HH & HA & HS & HL).
  assert (forall x, x ∈ holders s <-> x ∈ out.*2 \/ x ∈ rest.*2) as IO.
  { intros x. unfold holders. by rewrite TO, fmap_app, elem_of_app. }
  split_and!.
  - rewrite pendingOnly_admitted in *. rewrite OT; [done|]. intros Ho. apply HH, IO. by left.
  - unfold holders. rewrite TI, fmap_app, elem_of_app. intros [Hi|Hi].
    + destruct (NF r Hi) as [Ho|Ho]; [apply HH, IO; by left|]. rewrite Ho in HA. by destruct HA.
    + apply HH, IO. by right.
  - eapply heap_kept; [exact EV|done].
  - pose proof (ev_fixed _ _ _ EV) as E. injection E as E _.
    change (cf_slowLegProtection (se_cfg (fs_engine s')) = false). by rewrite E.
  - intros p l' Hl' Hr. destruct (ev_heap _ _ _ EV) as [HK HN]. destruct (se_heap (fs_engine s) !! p) as [l|] eqn:Hl.
    + destruct (HK _ _ Hl) as (m & Hm & I & C & R). rewrite Hl' in Hm. injection Hm as <-.
      destruct (R r Hr) as [Hr'|[H1|[H1|H1]]]; [apply C; by eapply HL|congruence|congruence|done].
    + rewrite (HN _ _ Hl' Hl) in Hr. by apply not_elem_of_nil in Hr.
Qed.

Section AdriftRuns.
  Context `{FloatConversion}.

Lemma run_adrift ops n s s' r : feed_inv n s -> queues_ok s -> n + slen ops <= max_u64 -> Forall feeder_op_ok ops ->
  adrift s r -> feeder_run ops s = Some s' -> adrift s' r.
Proof.
  intros HI HQ Hn Hwf HA E. apply (run_keeps (fun s => adrift s r) ops n s s'); try done.
  intros m op s1 s2 HI1 HQ1 Hm Hop E1 HA1. apply (step_adrift m s1 s2); try done. by apply (exec_stepped m op s1).
Qed.

End AdriftRuns.

(** ** Panics *)

(** The channels, and whether a goroutine has panicked. *)
Definition channels (s : feeder_engine) : Z * bool := (slen (fs_wake s), fs_crashed s).
(** A goroutine waits on the channel [id], or panics for want of it. *)
Definition waits (id : Z) (s s' : feeder_engine) : Prop :=
  channels s' = channels s \/ (channels s' = (slen (fs_wake s), true) /\ slen (fs_wake s) <= id).

Lemma wake_channels id s s' : take_wake id s = Some s' -> channels s' = channels s.
Proof.
  unfold take_wake. destruct (at_id _ _ _); [|done]. intros [= <-]. unfold channels. cbn. by rewrite slen_put.
Qed.
Lemma push_channels id r s s' : push_pending id r s = Some s' -> channels s' = channels s.
Proof. intros [_ ->]%push_perm. done. Qed.
Lemma assign_channels v r s leg s' : assign v r s = Some (leg, s') -> channels s' = channels s.
Proof.
  unfold assign. intros ([owner g] & _ & E)%bind_Some. destruct owner as [p|]; [|by injection E as <- <-].
  by apply bind_Some in E as (l & _ & [= <- <-]).
Qed.

Lemma planner_channels ev s s' : planner_step ev s = Some s' -> channels s' = channels s.
Proof.
  assert (forall r p te, planner_try r p te s = Some s' -> channels s' = channels s) as HP.
  { intros r p te. unfold planner_try. intros ([o e] & _ & [= <-])%bind_Some. by destruct o as [| |[]]. }
  unfold planner_step. destruct (fs_planner s) as [|r hint|r p|r p|r p|r|r|r|r id|r id|r id|r id|r id|r id depth|r failed];
    destruct ev as [| | |v|te|choice]; try done; try (by destruct te; try done; apply HP); try (by intros [= <-]);
    try (by destruct (outstanding s r); intros [= <-]); try (by destruct (se_done _); [intros [= <-]|]);
    try (by intros (s1 & E%wake_channels & [= <-])%bind_Some).
  - intros [= <-]. unfold enqueue_new. repeat case_match; done.
  - intros ([leg s1] & E%assign_channels & [= <-])%bind_Some. by destruct leg as [[id p]|].
  - destruct (push_pending id r s) as [s1|] eqn:E; intros [= <-]; [|done]. by apply push_channels in E.
  - by intros ([leg s1] & E%assign_channels & [= <-])%bind_Some.
Qed.

Lemma feeder_channels id ev s s' : feeder_step id ev s = Some s' -> waits id s s'.
Proof.
  unfold feeder_step. destruct (fs_feeders s !! id) as [f|] eqn:Hf; [|done]. cbn [mbind option_bind]. unfold waits.
  assert (forall r p te, feeder_try id r p te s = Some s' -> channels s' = channels s) as HP.
  { intros r p te. unfold feeder_try. intros ([o e] & _ & <-%(inj Some))%bind_Some. by destruct o as [| |[]]. }
  destruct f as [|r|r depth|r|r|r|r p|r p|r p|r p|r|r| |]; destruct ev as [| | |v|te|choice]; try done;
    try (left; by destruct te; try done; eapply HP); try (intros <-%(inj Some); by left);
    try (destruct (outstanding s r); intros <-%(inj Some); by left);
    try (destruct (se_done _); [|done]; intros <-%(inj Some); by left);
    try (intros (s1 & E%wake_channels & <-%(inj Some))%bind_Some; by left).
  - intros ([r s1] & [_ ES]%take_perm & <-%(inj Some))%bind_Some. left. rewrite ES. unfold channels, slen. cbn. by rewrite length_fmap.
  - intros ([leg s1] & E%assign_channels & <-%(inj Some))%bind_Some. by left.
  - destruct (leg_open _ _); intros <-%(inj Some); by left.
  - destruct (benchmarkPendingOnly s r); intros <-%(inj Some); [|by left]. unfold wait_on. case_bool_decide; [by right|by left].
Qed.

Lemma reassigner_channels n k ev s s' : feed_inv n s -> reassigner_step k ev s = Some s' ->
  exists id, id < se_maxActiveLegs (fs_engine s) /\ waits id s s'.
Proof.
  intros HI. pose proof (ei_max _ _ (fi_engine _ _ HI)) as HM.
  unfold reassigner_step. destruct (fs_reassigners s !! k) as [x|] eqn:Hx; [|done]. cbn [mbind option_bind].
  assert (channels s' = channels s -> exists id, id < se_maxActiveLegs (fs_engine s) /\ waits id s s') as HS.
  { intros E. exists 0. split; [lia|by left]. }
  destruct x as [id|id r|id r depth|id r|id r to|id to|id to depth]; destruct ev as [| | |v|te|choice]; try done.
  - destruct (take_pending id s) as [[r s1]|] eqn:E; intros <-%(inj Some); apply HS; [|done].
    apply take_perm in E as [_ ES]. by rewrite ES.
  - intros <-%(inj Some). by apply HS.
  - intros <-%(inj Some). apply HS. cbn [fs_assign]. by destruct (ag_assignment _ !! r).
  - intros ([leg s1] & E & <-%(inj Some))%bind_Some. pose proof (assign_channels _ _ _ _ _ E) as EC.
    destruct leg as [[to p]|]; [|by apply HS]. exists to. split.
    + destruct (assign_world n v r s _ s1 HI ltac:(rewrite (tagged_reassigner _ _ _ Hx); by left) E) as ((EV & EI & _) & _).
      revert E. unfold assign. intros ([owner g] & _ & E)%bind_Some. destruct owner as [q|]; [|done].
      apply bind_Some in E as (l & Hl & [= <- <- <-]). destruct (ei_placed _ _ EI _ _ Hl) as [[_ Hr] _ _ _ _ _].
      pose proof (ev_fixed _ _ _ EV) as EF. injection EF as _ EF. rewrite <- EF. exact Hr.
    + unfold wait_on. injection EC as EC1 EC2. case_bool_decide as Hb.
      * right. rewrite EC1 in Hb. split; [|done]. unfold channels. cbn. by rewrite EC1.
      * left. unfold channels. cbn. by rewrite EC1, EC2.
  - intros (s1 & E%push_channels & <-%(inj Some))%bind_Some. by apply HS.
  - destruct (se_done _); [|done]. intros <-%(inj Some). by apply HS.
  - intros E%wake_channels. by apply HS.
  - intros <-%(inj Some). by apply HS.
  - intros <-%(inj Some). by apply HS.
Qed.

(** There are three channels, and the feeders are those of legs that can be attached. *)
Definition calm (m : Z) (s : feeder_engine) : Prop :=
  se_maxActiveLegs (fs_engine s) = m /\ slen (fs_wake s) = 3 /\
  (forall id, is_Some (fs_feeders s !! id) -> id < m) /\ (m <= 3 -> fs_crashed s = false).

Section PanicRuns.
  Context `{FloatConversion}.

Lemma attach_range n id auth prior clock now w w' : engine_inv n (ae_engine w) -> n < max_u64 -> is_u8 id -> tracked (ledger w) ->
  leg_step (lo_attach id auth prior clock) now w = Some w' -> getLeg (ae_engine w') id <> getLeg (ae_engine w) id ->
  id < se_maxActiveLegs (ae_engine w').
Proof.
  intros HI Hn Hid HT E Hne. destruct (leg_step_evolution n (lo_attach id auth prior clock) now w w' HI Hn Hid HT E) as (_ & EI & _).
  assert (exists p, getLeg (ae_engine w') id = Some p) as [p Hp].
  { revert E. cbn [leg_step]. destruct (attachLeg _ _ _ _ _) as [out e] eqn:EA. intros [= <-].
    destruct (attach_cases (ae_engine w) id auth prior clock) as (_ & _ & _ & HC). rewrite EA in HC. cbn [snd] in HC.
    assert (forall x, ae_engine x = e -> getLeg (ae_engine x) id <> getLeg (ae_engine w) id -> exists p, getLeg (ae_engine x) id = Some p) as HX.
    { intros x -> Hx. unfold getLeg in *. destruct HC as [[_ HL]|(l & _ & HL & _)]; [by rewrite HL in Hx|]. rewrite HL in *.
      destruct (decide (sl_id l = id)) as [<-|Hd]; [rewrite lookup_insert_eq; eauto|]. by rewrite lookup_insert_ne in Hx. }
    apply HX; [|exact Hne]. destruct out; try done. unfold admissionRejoined. by case_match. }
  destruct (ei_legs _ _ EI _ _ Hp) as (_ & l & Hl & <- & _). by destruct (ei_placed _ _ EI _ _ Hl) as [[_ ?] _ _ _ _ _].
Qed.

Lemma exec_calm m n op s s' : feed_inv n s -> queues_ok s -> n < max_u64 -> feeder_op_ok op ->
  feeder_exec s op = Some s' -> calm m s -> calm m s'.
Proof.
  intros HI HQ Hn Hwf E (HM & HW & HF & HC).
  destruct (exec_stepped n op s s' HI HQ Hn Hwf E) as (out & inn & rest & HS).
  pose proof (ev_fixed _ _ _ (ft_evolves _ _ _ _ _ _ HS)) as EF. injection EF as _ EF. clear HS out inn rest.
  assert (queues_kept s s' -> forall id, id < m -> waits id s s' -> calm m s') as HG.
  { intros HK id Hid HX. split_and!; [congruence| | |].
    - destruct HX as [HX|[HX _]]; injection HX; congruence.
    - intros j Hj. apply HF. destruct (fs_feeders s !! j) eqn:Ej; [by eexists|]. destruct (HK j) as [_ HK2].
      rewrite HK2 in Hj by done. by destruct Hj.
    - intros H3. destruct HX as [HX|[_ HX]]; [injection HX as _ ->; auto|]. rewrite HW in HX. lia. }
  assert (0 < m) as Hm by (pose proof (ei_max _ _ (fi_engine _ _ HI)); lia).
  revert E. unfold feeder_exec. destruct (fs_crashed s) eqn:Hcr; [done|].
  assert (channels s = (3, false)) as HN by (unfold channels; by rewrite HW, Hcr).
  destruct op as [op|id auth prior clock now|k now| |payload now hint|ev|id ev|k ev]; intros E.
  - destruct (env_ok s op); [|done]. apply bind_Some in E as (w & _ & <-%(inj Some)). apply (HG ltac:(by apply holding_kept_refl) 0 Hm). by left.
  - unfold attach in E. apply bind_Some in E as (w & EL & E). destruct (_ && _) eqn:EB; injection E as <-;
      [|apply (HG ltac:(by apply holding_kept_refl) 0 Hm); by left].
    split_and!; [congruence|done| |done]. intros j. cbn. destruct (decide (id = j)) as [<-|Hj]; [|rewrite lookup_insert_ne by done; apply HF].
    intros _. apply andb_true_iff in EB as [EB%bool_decide_eq_true _]. rewrite <- HM, <- EF.
    eapply (attach_range n id auth prior clock now (fs_admission s) w); try done; apply HI.
  - unfold invalidate in E. apply bind_Some in E as (f & _ & E). apply bind_Some in E as (l & _ & E).
    apply bind_Some in E as (w & _ & <-%(inj Some)). apply (HG ltac:(by apply holding_kept_refl) 0 Hm). by left.
  - injection E as <-. apply (HG ltac:(by apply holding_kept_refl) 0 Hm). left. unfold channels, slen. cbn. by rewrite length_fmap.
  - unfold read_input in E. destruct (fs_planner s); try done. destruct (se_txStopped _); [done|].
    destruct (add _ _ _ _). injection E as <-. apply (HG ltac:(by apply holding_kept_refl) 0 Hm). by left.
  - apply (HG ltac:(by eapply planner_queues) 0 Hm). left. by eapply planner_channels.
  - apply (HG ltac:(by eapply feeder_queues) id); [|by eapply feeder_channels]. apply HF.
    unfold feeder_step in E. destruct (fs_feeders s !! id); [by eexists|done].
  - destruct (reassigner_channels n k ev s s' HI E) as (id & Hid & HX). apply (HG ltac:(by eapply reassigner_queues) id); [lia|done].
Qed.

End PanicRuns.

(** ** Claims *)

(** C17. A record is in one place at a time, and is sent once: in every run, no two of the
    transmit loop, the pending queues, the feeders and the goroutines of
    [reassignFailedPending] hold the same record, no record is put on a send queue by the
    feeders twice, one that still waits has not been put there, and one that is assigned,
    not yet admitted and not acknowledged is held by one of them, unless
    [reassignFailedPending] has dropped it or the session has ended. *)
Theorem assigned_record_in_one_place `{FloatConversion} cfg acfg gcfg rows now ops s :
  Forall feeder_op_ok ops -> slen ops <= max_u64 ->
  feeder_run ops (new_feeder cfg acfg gcfg rows now) = Some s ->
  NoDup (holders s) /\ NoDup (fs_sent s) /\
  (forall r, (Waiting, r) ∈ tagged s -> r ∉ fs_sent s) /\
  forall r, admitted_of s r = Some false -> outstanding s r = true -> se_done (fs_engine s) = false ->
    r ∈ holders s \/ r ∈ fs_dropped s.
Proof.
  intros Hwf Hn E. destruct (new_feeder_inv cfg acfg gcfg rows now) as [HI HQ].
  destruct (run_feed_inv ops 0 _ s HI HQ ltac:(lia) Hwf E) as [HI' _]. destruct HI' as [_ _ H1 _ _ HS [HN HM] HK].
  split_and!; try done. intros r Hr Hs. apply HM in Hs. apply HS in Hr. cbn in Hr. congruence.
Qed.

(** C18. The accounts are exact: in every run the service counter of a leg is, modulo 2^64, the
    number of bytes of the records it owns, its record counter their number, and the initial
    service of all legs is the bytes of all records that have an owner; so a record that
    changes its owner takes its service along, and none is counted twice. *)
Theorem assigned_service_exact `{FloatConversion} cfg acfg gcfg rows now ops s id :
  Forall feeder_op_ok ops -> slen ops <= max_u64 ->
  feeder_run ops (new_feeder cfg acfg gcfg rows now) = Some s -> 0 <= id < se_maxActiveLegs (fs_engine s) ->
  at_id 0 (sc_service (ag_sched (fs_assign s))) id = u64 (owned_bytes id (fs_assign s)) /\
  at_id 0 (sc_records (ag_sched (fs_assign s))) id = u64 (owned_records id (fs_assign s)) /\
  sc_initial (ag_sched (fs_assign s)) = u64 (assigned_bytes (fs_assign s)).
Proof.
  intros Hwf Hn E Hid. destruct (new_feeder_inv cfg acfg gcfg rows now) as [HI HQ].
  destruct (run_account ops 0 _ s HI HQ ltac:(lia) Hwf (new_account _ _ _ _ _) E) as [_ _ HS HR HN]. auto.
Qed.

(** *** Behaviours that are not wanted *)

(** The views in the run name the legs that are available at the time. *)
Definition view_current (s : feeder_engine) (op : feeder_op) : bool :=
  match op with
  | fo_plan (ev_assign v) | fo_feed _ (ev_assign v) | fo_reassign _ (ev_assign v) =>
    bool_decide (av_legs v = availableLegs (fs_engine s))
  | _ => true
  end.
Fixpoint current_run `{FloatConversion} (ops : list feeder_op) (s : feeder_engine) : option feeder_engine :=
  match ops with
  | [] => Some s
  | op :: ops => if view_current s op then let! s := feeder_exec s op in current_run ops s else None
  end.

Lemma current_run_run `{FloatConversion} ops s s' : current_run ops s = Some s' -> feeder_run ops s = Some s'.
Proof.
  revert s. induction ops as [|op ops IH]; intros s; [done|]. cbn. destruct (view_current s op); [|done].
  intros (s1 & -> & E)%bind_Some. by apply IH.
Qed.

(** An aggregation session with fixed capacities. *)
Definition plain_cfg (legs frames : Z) : StreamConfig :=
  MkConfig legs 0 false StreamPathRoleClient frames [10; 20] true false 0.
Definition plain_acfg : AdmissionConfig := MkAdmissionConfig 1000 64 64 (20 * Millisecond) Second Second.
Definition plain_session (legs frames : Z) : feeder_engine :=
  new_feeder (plain_cfg legs frames) plain_acfg (MkAssignConfig false true false 32) [] 1.
Definition saw (legs : list lptr) : assign_view :=
  MkView 5 legs (fun _ => true) (fun _ => f_of 10) (fun _ => None) None 0 (fun _ => MkLoad 0 0 0 f_zero f_zero 0).

Definition attached (id : Z) : list feeder_op := [fo_attach id None 0 0 1; fo_env (mop_leg lo_join 1)].
Definition planned (legs : list lptr) : list feeder_op :=
  [fo_read (zero_bytes 3) 2 (-1); fo_plan (ev_choose None); fo_plan ev_go; fo_plan (ev_assign (saw legs));
   fo_plan ev_go; fo_plan ev_go].
Definition noted : list feeder_op := [fo_plan ev_go; fo_plan ev_go; fo_plan ev_go].
Definition tried (id : Z) (legs : list lptr) : list feeder_op :=
  [fo_feed id ev_go; fo_feed id ev_go; fo_feed id ev_go; fo_feed id ev_go; fo_feed id ev_go;
   fo_feed id (ev_assign (saw legs)); fo_feed id ev_go; fo_feed id (ev_try (te_claim 7))].
Definition accepted (id : Z) : list feeder_op :=
  [fo_feed id (ev_try (te_select TakeSend)); fo_feed id (ev_try te_finish); fo_feed id ev_go].
Definition refused (id : Z) : list feeder_op := [fo_feed id (ev_try (te_select TakeDefault)); fo_feed id ev_go].
Definition carrier_lost (p : lptr) : list feeder_op :=
  [fo_env (mop_leg (lo_fail p (ErrCarrier io_EOF)) 9); fo_invalidate 0 9].

(** The only leg fails while a record is pending, and comes back. *)
Definition dropped_ops : list feeder_op :=
  attached 0 ++ planned [0] ++ noted ++ carrier_lost 0 ++
  [fo_reassign 0 ev_go; fo_reassign 0 ev_go; fo_reassign 0 ev_go; fo_reassign 0 (ev_assign (saw []));
   fo_env (mop_leg (lo_notify 0) 9); fo_env (mop_leg (lo_worker_exit 0) 9); fo_env (mop_leg (lo_worker_exit 0) 9);
   fo_env (mop_leg (lo_retire 0) 9)] ++ attached 0.
(** The first record goes to the preferred leg, which fails before the record is written. *)
Definition hinted_ops : list feeder_op :=
  attached 0 ++ attached 1 ++
  [fo_read (zero_bytes 3) 2 0; fo_plan (ev_choose None); fo_plan (ev_try (te_claim 3));
   fo_plan (ev_try (te_select TakeSend)); fo_plan (ev_try te_finish); fo_plan ev_go] ++ carrier_lost 0.
(** The fourth leg has a full send queue. *)
Definition crash_ops : list feeder_op :=
  attached 3 ++ planned [0] ++ noted ++ tried 3 [0] ++ accepted 3 ++ planned [0] ++ noted ++ tried 3 [0] ++ refused 3.
(** The feeder is faster than the transmit loop. *)
Definition stale_ops : list feeder_op :=
  attached 0 ++ planned [0] ++ [fo_plan ev_go] ++ tried 0 [0] ++ accepted 0 ++ [fo_plan ev_go; fo_plan ev_go].

Section Unwanted.
  Context `{FloatConversion}.

Definition after (legs frames : Z) (ops : list feeder_op) : feeder_engine :=
  default (plain_session legs frames) (current_run ops (plain_session legs frames)).

(** No leg that is open has, or ever gets, an attempt of the record. *)
Definition never_sent (s : feeder_engine) (r : ptr) : Prop :=
  forall ops s', Forall feeder_op_ok ops -> slen ops <= 2 ^ 63 -> feeder_run ops s = Some s' ->
  r ∉ holders s' /\ forall p l, se_heap (fs_engine s') !! p = Some l -> r ∈ attempts l -> sl_closed l = true.

Lemma adrift_never_sent legs frames ops r s : Forall feeder_op_ok ops -> slen ops <= 2 ^ 62 ->
  current_run ops (plain_session legs frames) = Some s -> adrift s r -> never_sent s r.
Proof.
  intros Hwf Hn E%current_run_run HA ops' s' Hwf' Hn' E'.
  destruct (new_feeder_inv (plain_cfg legs frames) plain_acfg (MkAssignConfig false true false 32) [] 1) as [HI HQ].
  destruct (run_feed_inv ops 0 _ s HI HQ ltac:(unfold max_u64; lia) Hwf E) as [HI1 HQ1].
  destruct (run_adrift ops' _ s s' r HI1 HQ1 ltac:(unfold max_u64; lia) Hwf' HA E') as (_ & H1 & _ & _ & H2). auto.
Qed.

Lemma dropped_facts :
  current_run dropped_ops (plain_session 1 1) = Some (after 1 1 dropped_ops) /\
  outstanding (after 1 1 dropped_ops) 0 = true /\ se_done (fs_engine (after 1 1 dropped_ops)) = false /\
  availableLegs (fs_engine (after 1 1 dropped_ops)) = [1] /\ adrift (after 1 1 dropped_ops) 0.
Proof.
  split_and!; [by vm_compute..|]. split_and!.
  - by vm_compute.
  - apply (bool_decide_unpack _). by vm_compute.
  - apply (bool_decide_unpack _). by vm_compute.
  - by vm_compute.
  - change (map_Forall (fun _ l => 0 ∈ attempts l -> sl_closed l = true) (se_heap (fs_engine (after 1 1 dropped_ops)))).
    apply (bool_decide_unpack _). by vm_compute.
Qed.

Lemma hinted_facts :
  current_run hinted_ops (plain_session 2 4) = Some (after 2 4 hinted_ops) /\
  outstanding (after 2 4 hinted_ops) 0 = true /\ se_done (fs_engine (after 2 4 hinted_ops)) = false /\
  availableLegs (fs_engine (after 2 4 hinted_ops)) = [1] /\ adrift (after 2 4 hinted_ops) 0.
Proof.
  split_and!; [by vm_compute..|]. split_and!.
  - by vm_compute.
  - apply (bool_decide_unpack _). by vm_compute.
  - apply (bool_decide_unpack _). by vm_compute.
  - by vm_compute.
  - change (map_Forall (fun _ l => 0 ∈ attempts l -> sl_closed l = true) (se_heap (fs_engine (after 2 4 hinted_ops)))).
    apply (bool_decide_unpack _). by vm_compute.
Qed.

Lemma unwanted_ok : Forall feeder_op_ok dropped_ops /\ Forall feeder_op_ok hinted_ops.
Proof. split; repeat (apply Forall_cons; split; [try done; cbn; unfold is_u8; lia|]); apply Forall_nil_2. Qed.

End Unwanted.



(** C39. [decoupledWake] has three channels.  With at most three legs no goroutine ever indexes
    it out of range; with four, the feeder of the fourth leg panics, and with it the
    process, the first time the send queue of its leg is full. *)
Theorem feeder_panics_beyond_three_legs `{FloatConversion} :
  (forall cfg acfg gcfg rows now ops s, Forall feeder_op_ok ops -> slen ops <= max_u64 ->
     se_maxActiveLegs (NewStreamEngine cfg) <= 3 ->
     feeder_run ops (new_feeder cfg acfg gcfg rows now) = Some s -> fs_crashed s = false) /\
  exists s, current_run crash_ops (plain_session 4 1) = Some s /\ fs_crashed s = true.
Proof.
  split; [|eexists; split; [vm_compute; reflexivity|reflexivity]].
  intros cfg acfg gcfg rows now ops s Hwf Hn H3 E. destruct (new_feeder_inv cfg acfg gcfg rows now) as [HI HQ].
  destruct (run_keeps (calm (se_maxActiveLegs (NewStreamEngine cfg))) ops 0 _ s
    (fun n op s s' HI HQ Hn Hw E HC => exec_calm _ n op s s' HI HQ Hn Hw E HC) HI HQ ltac:(lia) Hwf) as (_ & _ & HC); [|done|by apply HC].
  split_and!; try done. intros id. cbn. rewrite lookup_empty. by intros [? ?].
Qed.

(** The count of pending records can stay behind: the feeder takes a record, stores the length
    of the queue and sends the record on before the transmit loop stores the length it has
    read.  The queue is empty, every goroutine is idle, and [pendingDepth] says one; the
    leg is never ready to be drained. *)
Theorem stale_depth_blocks_drain `{FloatConversion} :
  exists s, current_run stale_ops (plain_session 2 4) = Some s /\
    fs_planner s = PlIdle /\ fs_feeders s = {[0 := FdIdle]} /\ fs_reassigners s = [] /\ fs_pending s = {[0 := []]} /\
    forall d p l, dn_pendingDepth d = fs_pendingDepth s -> sl_id l = 0 -> drainReady d p l = false.
Proof.
  eexists. split; [vm_compute; reflexivity|]. split_and!; [done..|]. intros d p l Hd Hl. unfold drainReady.
  destruct (_ || _); [done|]. destruct (negb (leg_quiet _ _)); [done|]. rewrite Hd, Hl. done.
Qed.

(** ** Witnesses *)

#[local] Existing Instance amd64_conversion.

(** Two legs of which the lighter is served first, a record that moves when its leg fails. *)
Definition moved_ops : list feeder_op :=
  attached 0 ++ attached 1 ++ planned [0; 1] ++ noted ++ tried 0 [0; 1] ++ accepted 0 ++
  planned [0; 1] ++ noted ++ planned [0; 1] ++ noted ++ carrier_lost 0 ++
  [fo_reassign 0 ev_go; fo_reassign 0 ev_go; fo_reassign 0 ev_go; fo_reassign 0 (ev_assign (saw [1])); fo_reassign 0 ev_go].

Lemma moved_ok : Forall feeder_op_ok moved_ops.
Proof. repeat (apply Forall_cons; split; [try done; cbn; unfold is_u8; lia|]); apply Forall_nil_2. Qed.

Lemma moved_facts :
  feeder_run moved_ops (plain_session 2 4) = Some (after 2 4 moved_ops) /\ se_maxActiveLegs (fs_engine (after 2 4 moved_ops)) = 2 /\
  fs_sent (after 2 4 moved_ops) = [0] /\ holders (after 2 4 moved_ops) = [1; 2] /\
  sc_service (ag_sched (fs_assign (after 2 4 moved_ops))) = [3; 6].
Proof. split_and!; by vm_compute. Qed.

Lemma assigned_record_in_one_place_witness :
  NoDup (holders (after 2 4 moved_ops)) /\ fs_sent (after 2 4 moved_ops) = [0] /\ 2 ∈ holders (after 2 4 moved_ops).
Proof.
  destruct moved_facts as (A & _ & B & C & _).
  destruct (assigned_record_in_one_place (plain_cfg 2 4) plain_acfg (MkAssignConfig false true false 32) [] 1 moved_ops
    (after 2 4 moved_ops) moved_ok ltac:(vm_compute; discriminate) A) as (H1 & _).
  split; [exact H1|]. split; [exact B|]. rewrite C. right. left.
Defined.

Lemma assigned_service_exact_witness :
  u64 (owned_bytes 0 (fs_assign (after 2 4 moved_ops))) = 3 /\ u64 (owned_bytes 1 (fs_assign (after 2 4 moved_ops))) = 6.
Proof.
  destruct moved_facts as (A & M & _ & _ & S).
  pose proof (fun id => assigned_service_exact (plain_cfg 2 4) plain_acfg (MkAssignConfig false true false 32) [] 1 moved_ops
    (after 2 4 moved_ops) id moved_ok ltac:(vm_compute; discriminate) A) as HX.
  rewrite M, S in HX. split.
  - destruct (HX 0 ltac:(lia)) as (E & _). symmetry. exact E.
  - destruct (HX 1 ltac:(lia)) as (E & _). symmetry. exact E.
Defined.

(** The record [1], once the record [0] is on leg 0. *)
Definition second_ops : list feeder_op :=
  attached 0 ++ attached 1 ++ planned [0; 1] ++ noted ++ [fo_read (zero_bytes 3) 2 (-1); fo_plan (ev_choose None); fo_plan ev_go].
Definition second : assign_engine := fs_assign (after 2 4 second_ops).
Definition second_record : StreamTXRecord := new_record 1 (zero_bytes 3) 2 true.
(** What [assignBenchmark] reads, when nothing intervenes. *)
Definition seen : assign_view :=
  default (saw []) (read_view 5 None 0 (fun _ => MkLoad 0 0 0 f_zero f_zero 0) 1 second).
Definition second_assigned : assign_engine := from_option snd second (assignBenchmark seen 1 second).

Lemma second_facts :
  lg_heap (ag_ledger second) !! 1 = Some second_record /\ ag_assignment second !! 1 = Some (MkAssignment None false) /\
  keeps_owner (ag_admission second) (MkAssignment None false) (tr_sequence second_record) = None /\
  gc_HOLCompletion (ag_cfg second) = false /\
  Forall (fun x => not_a_number (finish_of seen (renewed seen second) (payload_size second_record) x) = false)
    (resolve (ag_engine second) (av_legs seen)) /\
  assignBenchmark seen 1 second = Some (Some 1, second_assigned) /\ av_legs seen = [0; 1].
Proof.
  do 4 (split; [vm_compute; reflexivity|]). split; [apply (bool_decide_unpack _); vm_compute; exact I|].
  split; vm_compute; reflexivity.
Qed.

Lemma owner_has_least_finish_witness : exists l,
  candidate seen l = true /\ forall x, x ∈ resolve (ag_engine second) (av_legs seen) -> candidate seen x.2 = true ->
    wins seen (renewed seen second) 3 (1, l) x.
Proof.
  destruct second_facts as (A & B & C & D & E & F & _).
  destruct (owner_has_least_finish seen 1 second second_record (MkAssignment None false) (Some 1) second_assigned
    A B C D (proj1 (Forall_forall _ _) E) F) as (l & _ & H1 & H2).
  exists l. split; [exact H1|exact H2].
Defined.
